(* ===== verification/_CoqProject ===== *)
-Q . S2P
Prelude.v
RaftLog.v
RaftNode.v
RaftCluster.v
RaftElection.v
RaftTraces.v
RaftReplication.v
RaftCatchup.v
RaftLiveness.v
RaftConvergence.v
RaftLogInvariant.v
RaftApply.v
RaftLogMatching.v
RaftCompleteness.v
RaftAcknowledged.v
ClusterTransport.v
PyStr.v
Shard.v
ClientMain.v
LoadGen.v
PyFloat.v
PyStdev.v
CompareGeo.v
PyRepr.v
PyArgs.v
PyCsv.v
PyWorld.v
PyConsole.v
GeoExperiment.v
GeoPipeline.v
GeoData.v
Failover.v
FailoverReport.v
Infra.v
Scripts.v
PlotResults.v
GoJson.v
GoWire.v
Storage.v
Persistence.v
KvStore.v
HttpApi.v
SimpleKvs.v
ShardedKvs.v
NodeApi.v
ClusterStore.v
RpcTransport.v
NodeMain.v
