(* ===== verification/Prelude.v ===== *)
(** * Distributed Raft KV Store: a verification library

    The repository is a sharded key-value store replicated with Raft (Go), and
    the Python programs that load it, fail it over and measure it.  This library
    models both and proves what makes each part correct, or exhibits the
    execution in which it is not.

    ** The program and its parts

    - [src/raft]: a node's log, its handlers for RequestVote and AppendEntries,
      the follower/candidate/leader loop, replication and the apply path.  Nodes
      interact through the two RPCs only; inside a node, goroutines share the
      state under one mutex and signal each other through channels.
    - [src/shard], [src/config]: a client hashes a key to a shard (FNV-1a), reads
      the shards' addresses from the environment, and tries them in order.
    - [src/storage], [src/kv], [src/api]: the map a node applies commands to, with
      its write-ahead log and snapshots, and the HTTP handlers of the single-node
      server.
    - [src/rpc]: a node's HTTP interface (status, metrics, keys) and the transport
      of the Raft messages.
    - [src/cmd]: the three programs: a Raft node, the single-node server, and the
      command-line client of a sharded store.
    - [src/infrastructure/experiments/*.py]: Locust load generators, the
      geo-distribution measurement and its report, and the failover experiments.
      They use the servers' HTTP interface and the same environment variables; the
      measurement and its report meet in CSV files.

    ** Files

    - [Prelude]: machine integers, errors as values, tactics, hint databases,
      list lemmas, quorum intersection.
    - [RaftLog]: [raft/log.go]; a log is the list of its entries with a sentinel
      at index 0; [log_wf] says the entry at position i has index i.
    - [RaftNode]: [raft/raft.go], [election.go], [replication.go].  [Node] is
      the struct; a definition per critical section (the code between taking and
      releasing the mutex), so that what runs atomically in the model is what the
      mutex makes atomic in the code.
    - [RaftCluster]: the goroutines.  [runStep] is one move of a node's main
      loop, [threadStep] one move of a spawned goroutine, [clientStep] a call of
      [Replicate], [deliver] a message; [cstep] is their union as a relation and
      [exec] runs a list of events.  Timers may fire at any moment, and messages
      may be delayed, reordered, duplicated or lost.
    - [RaftElection], [RaftLogInvariant]: invariants of every reachable cluster.
    - [RaftReplication], [RaftCatchup]: the handlers' functional specifications
      and the convergence of [replicateToPeer].
    - [RaftTraces]: executions in which safety fails.
    - [RaftApply]: the entries that apply passes take from a log, over a run.
    - [RaftLiveness], [RaftConvergence]: a schedule, for any cluster of two nodes or
      more, in which a given node is elected and any sequence of commands is
      acknowledged; then one that spreads the commit index and has every node apply
      the whole sequence.
    - [RaftLogMatching], [RaftCompleteness], [RaftAcknowledged]: what holds when a
      heartbeat goroutine runs only while its node leads ([gstep], the runs the
      missing check of [sendHeartbeatToPeer] would leave).  A ghost state records
      the logs that leaders have had; on it stand Log Matching, then the
      completeness of leaders' logs, then the fate of acknowledged writes.
    - [ClusterTransport]: [raft/cluster.go], the in-process cluster with its
      isolated ids; a request is resolved in one step and handled in a later one,
      as in the code, which releases the lock and sleeps in between.
    - [PyStr], [PyFloat], [PyStdev], [PyRepr], [PyCsv], [PyArgs]: the parts of Python's and
      Go's libraries the sources use: strings, UTF-8, integers, exceptions; binary64
      floats as rationals with correct rounding, sorting, means, parsing and
      formatting; [statistics.stdev], proved correctly rounded; the shortest text
      of a float; the [csv] module's writer and the
      state machine of its reader; [argparse] for long options.
    - [PyWorld]: HTTP, clocks, sleeping and processes as an interface ([World]);
      what their documentation promises, apart: [Requests] (which exceptions a
      request raises), [Clock] (a monotonic clock, sleeps that last) and [WallClock]
      (a system clock that may be set, within a bound); [Recorded], a world that
      remembers what a script asked and got, which every world can be made into;
      the state monad of the scripts and its weakest preconditions.  [PyConsole]:
      the lines a script prints, and [repr].
    - [Shard]: [shard/hashing.go], [shard/router.go], [config/config.go] and the
      hash and shard map of [horizontal_scaling/experiment.py].
    - [LoadGen]: the Locust users; a write is split at its network call, where
      gevent may switch, and an interleaving of users is a list of steps.
    - [CompareGeo]: [compare_geo_results.py], [GeoExperiment]:
      [geo_distributed/experiment.py] (the file in [geo_colocated] is a copy),
      [GeoPipeline]: the two runs and the comparison, composed through the bytes of
      the CSV files, [GeoData]: the committed files and report, [Failover]:
      [leader_election/experiment.py], [FailoverReport]: what its runs ask, count and
      print, [Infra]:
      [raft_leader_election_infra/experiment.py], both with every line they print,
      [PlotResults]: [plot_results.py] as its calls of matplotlib, [Scripts]: the
      command lines.
    - [GoJson]: the part of [encoding/json] the Go side uses, a writer and a full
      parser on bytes, with the round trip of objects of strings.
    - [Storage]: [storage/logstore.go], [storage/snapshot.go] on file contents; the
      Go interfaces as type classes ([WAL], [SnapshotStore]) and what the store
      relies on ([WALSpec], [SnapshotSpec]), discharged by the file versions.
    - [Persistence]: [storage/persistence.go] and the opening of files on a disk;
      the file and the no-op versions as one type behind the same interfaces.
    - [KvStore]: [kv/store.go], [kv/apply.go], proved against those interfaces.
    - [HttpApi]: [api/http.go], and the path from the router to the store.
    - [SimpleKvs]: [cmd/simplekvs/main.go], a process that serves requests, may
      crash after any request and starts again on the files it left.
    - [ClientMain]: [cmd/client/main.go], its output and exit status;
      [ShardedKvs]: the client and a server per shard, composed.
    - [NodeApi]: the client handlers of [rpc/server.go], on the Raft node and on the
      store, and what the scripts that poll them can rely on.
    - [ClusterStore]: the handlers, the cluster and the replicas' stores, composed.
    - [GoWire], [RpcTransport]: JSON trees and base64, then [rpc/client.go] and the
      Raft handlers of [rpc/server.go]; the class [Wire] is what the transport needs
      of a message type.
    - [NodeMain]: [cmd/node/main.go]: settings, peer list, the store and the node
      it starts with.

    ** What the theorems show

    - Raft (C1 - C9, C12 - C14): an acknowledged write is in the log of every
      later leader, and logs match, when heartbeat goroutines run only while their
      node leads; any node of a cluster can be elected and serve any sequence of
      commands, and every replica can then reach the same state, from the HTTP
      requests of the clients to the reads of any node; no two leaders share a term
      in any interleaving while no node restarts, and a client of [/status] can tell
      from two successive answers of a node that it led their term, although a single
      answer may be torn; an isolated leader acknowledges nothing; the commands that the write
      handlers submit make the store a map of the writes; and the messages, as JSON
      over HTTP, do exactly what the cluster model delivers.  But (C7 - C9) the
      empty heartbeat breaks state machine safety, a deposed leader's heartbeat can
      overwrite the leader's log, and a restarted node votes twice.
    - The programs (C10, C11): the single-node server under requests and crashes
      answers as a map in memory that never crashes; so does the sharded store,
      from the client's command line to the servers' disks.
    - Handlers (C15 - C20): the exact reply and state on every branch; the commit
      index moves exactly to what a majority holds in the current term; no position
      of a log is applied twice; a diverging follower is repaired in a bounded
      number of requests; logs stay well formed.
    - Storage (C21 - C24, C40): recovery gives back exactly the map in memory;
      the error and the state of every branch of a write, the exact answer of the
      HTTP handler.  But a long entry makes the
      log unreadable.
    - Measurements (C25, C26, C28, C29, C34 - C39): from the command lines of the two
      measurements to the report, the comparison computes from exactly what was
      measured; a measurement raises only for arguments the libraries refuse or
      text that has no UTF-8, the comparison only for files it cannot decode or whose cells are too long; cells
      have their types, averages, medians, deviations and rates are correctly
      rounded and within bounds; polling loops end, and their record shows whom they
      asked, what was answered and how long they waited; the counts of a failover
      run are those of the requests it made, and its printed report tells them.
    - Sharding and load (C27, C30 - C33): the router's result is that of the first
      wanted answer of the owning shard; Python and Go place keys alike and read the
      same shard map; reads follow acknowledged writes and go to the owner.
    - Further theorems, without a number, show smaller defects: a late heartbeat of
      a node that no longer leads, a torn [/status] answer, a p95 above the
      maximum, read attempts counted without reads, a lost status that ends the
      failover scripts, a write that fails and yet takes effect, old values while
      commands are applied again, apply passes delivered in the wrong order, a
      torn append that makes the log unreadable, a cluster of one node that never
      elects, writes lost by a server whose log is off; and some of what a client
      relies on in passing: replayed requests are harmless, consecutive apply passes
      hand out consecutive slices, a put through the router is read back, partitions
      add no behaviour and heal, a restarted node keeps its store only; and, on the
      committed measurements, the comparison writes the committed report.

    ** Bounds, fuel and hypotheses

    Terms and indexes are 64-bit and wrap around; the theorems about reachable
    clusters bound the number of steps (below 2^64) so that no term counter
    does.  Polling loops take a fuel
    argument: [waitLeader] needs more than [k] when [k] sleeps of 0.05 s cover 15 s
    and twice the bound on the setting of the system clock (C37; 301 for a clock
    that is not set), the convergence loop a number its deadline gives (C29),
    [replicateToPeer] the
    peer's [nextIndex], since every rejection lowers it (C19); the search for the
    shortest decimal has 1074 digits beyond the point, where every float is exact.
    The promises of [Clock] and [WallClock] are hypotheses of the theorems on
    polling and failover runs (C29, C37 - C39) only, that of [Requests] one of C28; the network, the AWS tool and the
    random draws are arbitrary.  The CSV theorems are about cells within the reader's limit of
    131072 characters.

    The theorems about crashing servers (C10, C11) assume that an append succeeds
    or writes nothing, that due snapshots succeed, that a crash falls between two
    requests, and that entries are ASCII and fit a line of the log; what happens otherwise is the subject of C22 and C40.

    ** Not modelled

    The HTTP connections themselves (an answer comes back or not), gin's routing
    and response headers; listening on a port; the start-up log lines of the
    servers; the drawing of the plot; failures to open the scripts' files; the
    deployment code (Terraform, Docker, shell), which has no operations of the
    program's own; Locust's scheduling and pacing of its users.  Otherwise all the
    code of the Python programs is modelled; what
    remains is their documentation and imports. *)

From Stdlib Require Export ZArith Lia.
From stdpp Require Export base tactics option list gmap strings relations.

#[global] Open Scope Z_scope.
#[global] Set Default Goal Selector "!".

(** ** Machine integers

    Go's [uint64] and [uint32] are integers in [0, 2^w); every arithmetic
    operation on them is reduced modulo [2^w]. *)

Definition u64 (z : Z) : Z := z mod 2 ^ 64.
Definition u32 (z : Z) : Z := z mod 2 ^ 32.

Definition is_u64 (z : Z) : Prop := 0 <= z < 2 ^ 64.

Lemma u64_small z : is_u64 z -> u64 z = z.
Proof. unfold is_u64, u64. intros. by apply Z.mod_small. Qed.

Lemma u64_range z : is_u64 (u64 z).
Proof. unfold is_u64, u64. apply Z.mod_pos_bound. lia. Qed.


(** ** Errors as values *)

Inductive result (E A : Type) : Type :=
| Ok (a : A)
| Err (e : E).
Arguments Ok {E A} a.
Arguments Err {E A} e.

Definition rbind {E A B} (m : result E A) (k : A -> result E B) : result E B :=
  match m with Ok a => k a | Err e => Err e end.

Declare Scope result_scope.
Delimit Scope result_scope with result.
Notation "x <-? m ;; k" := (rbind m (fun x => k))
  (at level 100, m at next level, right associativity) : result_scope.

Lemma rbind_Ok {E A B} (m : result E A) (k : A -> result E B) b :
  rbind m k = Ok b <-> exists a, m = Ok a /\ k a = Ok b.
Proof. destruct m; simpl; split; [eauto|by intros (? & [= ->] & ?)|done|by intros (? & ? & ?)]. Qed.

(** ** Hint databases and tactics of the development *)

Create HintDb raft discriminated.
Create HintDb pylib discriminated.
Create Rewrite HintDb raft_rw.

(** Case analysis on the boolean test that blocks the goal or a hypothesis. *)
Ltac case_if :=
  match goal with
  | |- context [if ?b then _ else _] => destruct b eqn:?
  | H : context [if ?b then _ else _] |- _ => destruct b eqn:?
  end.

(** Turn boolean comparisons into propositions that [lia] understands. *)
Ltac breflect :=
  repeat match goal with
  | H : (_ && _) = true |- _ => apply andb_true_iff in H; destruct H
  | H : (_ || _) = false |- _ => apply orb_false_iff in H; destruct H
  | H : negb _ = true |- _ => apply negb_true_iff in H
  | H : negb _ = false |- _ => apply negb_false_iff in H
  | H : bool_decide _ = true |- _ => apply bool_decide_eq_true in H
  | H : bool_decide _ = false |- _ => apply bool_decide_eq_false in H
  | H : Z.eqb _ _ = true |- _ => apply Z.eqb_eq in H
  | H : Z.eqb _ _ = false |- _ => apply Z.eqb_neq in H
  | H : Z.ltb _ _ = true |- _ => apply Z.ltb_lt in H
  | H : Z.ltb _ _ = false |- _ => apply Z.ltb_ge in H
  | H : Z.leb _ _ = true |- _ => apply Z.leb_le in H
  | H : Z.leb _ _ = false |- _ => apply Z.leb_gt in H
  end.

(** [lia] with divisions and remainders by constants. *)
Ltac div_lia := zify; Z.to_euclidean_division_equations; lia.

(** ** Generic lemmas on lists *)

Lemma last_lookup_length {A} (l : list A) x :
  last l = Some x -> l !! (length l - 1)%nat = Some x.
Proof. rewrite last_lookup. by replace (pred (length l)) with (length l - 1)%nat by lia. Qed.

Lemma elem_of_filter_ne (x y : string) (l : list string) :
  x ∈ filter (fun z => z <> y) l <-> x <> y /\ x ∈ l.
Proof. by rewrite list_elem_of_filter. Qed.

Lemma filter_ne_id (x : string) (l : list string) :
  x ∉ l -> filter (fun z => z <> x) l = l.
Proof.
  induction l as [|y l IH]; intros Hx; [done|]. apply not_elem_of_cons in Hx as [? ?].
  rewrite filter_cons_True by done. by rewrite IH.
Qed.

Lemma NoDup_submseteq_length {A} (l k : list A) :
  NoDup l -> l ⊆ k -> (length l <= length k)%nat.
Proof.
  intros Hnd Hsub. apply submseteq_length.
  apply NoDup_submseteq; [done|]. intros x Hx. by apply Hsub.
Qed.

(** Two majorities of the same duplicate-free population share a member. *)
Lemma quorum_intersection `{EqDecision A} (pop q1 q2 : list A) :
  NoDup q1 -> NoDup q2 -> q1 ⊆ pop -> q2 ⊆ pop ->
  (length pop < length q1 + length q2)%nat ->
  exists x, x ∈ q1 /\ x ∈ q2.
Proof.
  intros Hn1 Hn2 Hs1 Hs2 Hlen.
  destruct (decide (Exists (fun x => x ∈ q2) q1)) as [Hex|Hno].
  { apply Exists_exists in Hex as (x & ? & ?). eauto. }
  exfalso. assert (NoDup (q1 ++ q2)) as Hnd.
  { apply NoDup_app. split_and!; [done| |done].
    intros x Hx Hx2. apply Hno, Exists_exists. eauto. }
  assert (q1 ++ q2 ⊆ pop) as Hsub.
  { intros x [?|?]%elem_of_app; eauto. }
  pose proof (NoDup_submseteq_length _ _ Hnd Hsub) as Hle.
  rewrite length_app in Hle. lia.
Qed.

(** Remove the first occurrence of [x]; [None] when there is none. *)
Fixpoint removeFirst (x : string) (l : list string) : option (list string) :=
  match l with
  | [] => None
  | y :: l' => if bool_decide (x = y) then Some l'
               else (cons y) <$> removeFirst x l'
  end.

Lemma removeFirst_perm x l l' : removeFirst x l = Some l' -> l ≡ₚ x :: l'.
Proof.
  revert l'. induction l as [|y l IH]; intros l' H; simpl in H; [done|].
  case_bool_decide; simplify_eq; [done|].
  destruct (removeFirst x l) as [k|] eqn:E; simplify_eq/=.
  rewrite (IH k eq_refl). by apply perm_swap.
Qed.
