(* ===== verification/RaftLog.v ===== *)
(** * The in-memory Raft log (src/raft/log.go)

    [logStore.entries] is a slice of [LogEntry] whose element 0 is a sentinel
    with index 0 and term 0.  The Go functions search the slice by the [Index]
    field of the entries, never by slice position; [log_wf] is the invariant
    under which both coincide. *)

From S2P Require Import Prelude.

Record LogEntry := mkEntry { eTerm : Z; eIndex : Z; eCommand : string }.

#[export] Instance LogEntry_eq_dec : EqDecision LogEntry.
Proof. solve_decision. Defined.

(** [logStore] holds a single field, the slice of entries. *)
Definition logStore := list LogEntry.

Definition sentinel : LogEntry := mkEntry 0 0 "".

Definition newLogStore : list LogEntry := [sentinel].

(** [l.entries[len(l.entries)-1]]; Go panics on an empty slice, which
    [log_nonempty] excludes for every log the node can build. *)
Definition lastEntry (l : list LogEntry) : LogEntry := default sentinel (last l).

Definition lastIndexAndTerm (l : list LogEntry) : Z * Z :=
  (eIndex (lastEntry l), eTerm (lastEntry l)).

Definition lastIndex (l : list LogEntry) : Z := eIndex (lastEntry l).

(** Linear search for the first entry with the given index; [None] is Go's
    [(LogEntry{}, false)]. *)
Fixpoint entryAt (l : list LogEntry) (index : Z) : option LogEntry :=
  match l with
  | [] => None
  | e :: t => if eIndex e =? index then Some e else entryAt t index
  end.

Definition appendEntry (l : list LogEntry) (entry : LogEntry) : list LogEntry :=
  l ++ [entry].

(** Cut the slice at the first entry with a larger index. *)
Fixpoint truncateAfter (l : list LogEntry) (index : Z) : list LogEntry :=
  match l with
  | [] => []
  | e :: t => if index <? eIndex e then [] else e :: truncateAfter t index
  end.

(** A copy of the slice from the first entry with an index at least [index]. *)
Fixpoint entriesFrom (l : list LogEntry) (index : Z) : list LogEntry :=
  match l with
  | [] => []
  | e :: t => if index <=? eIndex e then e :: t else entriesFrom t index
  end.

(** ** Invariant *)

(** The indices of [l] are consecutive, starting at [k]. *)
Definition indexed_from (k : Z) (l : list LogEntry) : Prop :=
  forall i e, l !! i = Some e -> eIndex e = k + Z.of_nat i.

Definition log_wf (l : list LogEntry) : Prop :=
  l !! 0%nat = Some sentinel /\ indexed_from 0 l.

Lemma indexed_from_cons k e l :
  indexed_from k (e :: l) <-> eIndex e = k /\ indexed_from (k + 1) l.
Proof.
  unfold indexed_from. split.
  - intros H. split; [specialize (H 0%nat e eq_refl); lia|].
    intros i x Hx. specialize (H (S i) x Hx). lia.
  - intros [He H] [|i] x Hx; simplify_eq/=; [lia|]. apply H in Hx. lia.
Qed.

Lemma indexed_from_app k l1 l2 :
  indexed_from k (l1 ++ l2) <->
  indexed_from k l1 /\ indexed_from (k + Z.of_nat (length l1)) l2.
Proof.
  revert k. induction l1 as [|e l1 IH]; intros k; simpl.
  - rewrite Z.add_0_r. split; [|by intros []]. intros H. split; [|done].
    intros i x Hx. by rewrite lookup_nil in Hx.
  - rewrite !indexed_from_cons, IH.
    replace (k + Z.of_nat (S (length l1))) with (k + 1 + Z.of_nat (length l1)) by lia.
    tauto.
Qed.

Lemma indexed_from_take k n l : indexed_from k l -> indexed_from k (take n l).
Proof. intros H i e [? ?]%lookup_take_Some. by apply H. Qed.

Lemma indexed_from_drop k n l :
  indexed_from k l -> indexed_from (k + Z.of_nat n) (drop n l).
Proof. intros H i e He. rewrite lookup_drop in He. apply H in He. lia. Qed.

Lemma indexed_from_ne k l idx :
  indexed_from k l -> idx < k -> entryAt l idx = None.
Proof.
  revert k. induction l as [|e l IH]; intros k Hk Hlt; simpl; [done|].
  apply indexed_from_cons in Hk as [He Hl]. case_if; breflect; [lia|].
  apply (IH (k + 1)); [done|lia].
Qed.

(** ** The searches compute positions *)

Lemma entryAt_indexed k l idx :
  indexed_from k l -> k <= idx -> entryAt l idx = l !! Z.to_nat (idx - k).
Proof.
  revert k. induction l as [|e l IH]; intros k Hk Hle; simpl.
  { by rewrite lookup_nil. }
  apply indexed_from_cons in Hk as [He Hl]. case_if; breflect.
  - by replace (Z.to_nat (idx - k)) with 0%nat by lia.
  - rewrite (IH (k + 1)) by (done || lia).
    replace (Z.to_nat (idx - k)) with (S (Z.to_nat (idx - (k + 1)))) by lia. done.
Qed.

Lemma truncateAfter_indexed k l idx :
  indexed_from k l -> truncateAfter l idx = take (Z.to_nat (idx + 1 - k)) l.
Proof.
  revert k. induction l as [|e l IH]; intros k Hk; simpl; [by rewrite take_nil|].
  apply indexed_from_cons in Hk as [He Hl]. case_if; breflect.
  - by replace (Z.to_nat (idx + 1 - k)) with 0%nat by lia.
  - rewrite (IH (k + 1)) by done.
    replace (Z.to_nat (idx + 1 - k)) with (S (Z.to_nat (idx + 1 - (k + 1)))) by lia. done.
Qed.

Lemma entriesFrom_indexed k l idx :
  indexed_from k l -> entriesFrom l idx = drop (Z.to_nat (idx - k)) l.
Proof.
  revert k. induction l as [|e l IH]; intros k Hk; simpl; [by rewrite drop_nil|].
  apply indexed_from_cons in Hk as [He Hl]. case_if; breflect.
  - by replace (Z.to_nat (idx - k)) with 0%nat by lia.
  - rewrite (IH (k + 1)) by done.
    replace (Z.to_nat (idx - k)) with (S (Z.to_nat (idx - (k + 1)))) by lia. done.
Qed.

Lemma log_wf_length l : log_wf l -> (0 < length l)%nat.
Proof. intros [H _]. by apply lookup_lt_Some in H. Qed.

Lemma log_wf_new : log_wf newLogStore.
Proof.
  split; [done|]. by intros [|i] e He; simplify_eq/=.
Qed.

Lemma log_wf_entryAt l idx :
  log_wf l -> 0 <= idx -> entryAt l idx = l !! Z.to_nat idx.
Proof. intros [_ H] ?. rewrite (entryAt_indexed 0) by done. by rewrite Z.sub_0_r. Qed.

Lemma log_wf_entryAt_neg l idx : log_wf l -> idx < 0 -> entryAt l idx = None.
Proof. intros [_ H] ?. by apply (indexed_from_ne 0). Qed.

Lemma log_wf_lastEntry l :
  log_wf l -> l !! (length l - 1)%nat = Some (lastEntry l).
Proof.
  intros Hwf. pose proof (log_wf_length _ Hwf). unfold lastEntry.
  destruct (last l) eqn:E; [by apply last_lookup_length|].
  apply last_None in E. subst. simpl in *. lia.
Qed.

Lemma log_wf_lastIndex l :
  log_wf l -> lastIndex l = Z.of_nat (length l) - 1.
Proof.
  intros Hwf. pose proof (log_wf_length _ Hwf) as Hlen.
  pose proof (log_wf_lastEntry _ Hwf) as He.
  destruct Hwf as [_ Hidx]. apply Hidx in He. unfold lastIndex. lia.
Qed.

Lemma log_wf_entryAt_Some l idx e :
  log_wf l -> entryAt l idx = Some e ->
  eIndex e = idx /\ 0 <= idx <= lastIndex l /\ l !! Z.to_nat idx = Some e.
Proof.
  intros Hwf He. destruct (decide (0 <= idx)).
  - rewrite log_wf_entryAt in He by done. rewrite log_wf_lastIndex by done.
    pose proof (lookup_lt_Some _ _ _ He). destruct Hwf as [_ Hidx].
    pose proof (Hidx _ _ He). split_and!; try lia. done.
  - rewrite log_wf_entryAt_neg in He by (done || lia). done.
Qed.

Lemma log_wf_entryAt_in l idx :
  log_wf l -> 0 <= idx <= lastIndex l -> is_Some (entryAt l idx).
Proof.
  intros Hwf Hr. rewrite log_wf_lastIndex in Hr by done.
  rewrite log_wf_entryAt by (done || lia). apply lookup_lt_is_Some. lia.
Qed.

Lemma log_wf_truncateAfter l idx :
  log_wf l -> truncateAfter l idx = take (Z.to_nat (idx + 1)) l.
Proof. intros [_ H]. rewrite (truncateAfter_indexed 0) by done. by rewrite Z.sub_0_r. Qed.

Lemma log_wf_entriesFrom l idx :
  log_wf l -> entriesFrom l idx = drop (Z.to_nat idx) l.
Proof. intros [_ H]. rewrite (entriesFrom_indexed 0) by done. by rewrite Z.sub_0_r. Qed.

(** ** The operations preserve the invariant *)

Lemma log_wf_take l n : log_wf l -> (0 < n)%nat -> log_wf (take n l).
Proof.
  intros [H0 H] Hn. split; [by rewrite lookup_take_lt by lia|].
  by apply indexed_from_take.
Qed.

Lemma log_wf_truncate l idx : log_wf l -> 0 <= idx -> log_wf (truncateAfter l idx).
Proof.
  intros Hwf Hi. rewrite log_wf_truncateAfter by done. apply log_wf_take; [done|lia].
Qed.

Lemma log_wf_app l es :
  log_wf l -> indexed_from (lastIndex l + 1) es -> log_wf (l ++ es).
Proof.
  intros Hwf Hes. rewrite log_wf_lastIndex in Hes by done.
  pose proof (log_wf_length _ Hwf). destruct Hwf as [H0 Hl].
  split; [by rewrite lookup_app_l|].
  apply indexed_from_app. split; [done|].
  by replace (0 + Z.of_nat (length l)) with (Z.of_nat (length l) - 1 + 1) by lia.
Qed.

Lemma log_wf_append l e :
  log_wf l -> eIndex e = lastIndex l + 1 -> log_wf (appendEntry l e).
Proof.
  intros Hwf He. apply log_wf_app; [done|].
  apply indexed_from_cons. split; [done|]. intros i x Hx. by rewrite lookup_nil in Hx.
Qed.

Lemma lastIndex_append l e : lastIndex (appendEntry l e) = eIndex e.
Proof. unfold lastIndex, lastEntry, appendEntry. by rewrite last_snoc. Qed.

Lemma lastIndex_nonneg l : log_wf l -> 0 <= lastIndex l.
Proof. intros Hwf. rewrite log_wf_lastIndex by done. pose proof (log_wf_length _ Hwf). lia. Qed.

#[export] Hint Resolve log_wf_new log_wf_truncate log_wf_append log_wf_app
  lastIndex_nonneg : raft.
