(* ===== verification/RaftNode.v ===== *)
(** * A Raft node: shared state and the code that runs under its mutex
    (src/raft/raft.go, state.go, transport.go, election.go, replication.go)

    A [Node] is the Go struct.  Every operation below is one critical section
    of the Go code, a pure function on the node (and, where the Go code
    returns or sends something, its result); RaftCluster composes the critical
    sections into goroutines that interleave.

    Go maps from peer to index are [gmap]s read with default 0, Go's zero
    value.  The channels of the node are kept as their buffered contents:
    [resetTimerCh] the number of tokens (capacity 8), [stepDownCh] the buffered
    terms (capacity 4), [stopCh] whether it has been closed, and [applyCh]
    [None] for a nil channel, otherwise every command sent so far, in order. *)

From S2P Require Import Prelude RaftLog.

(** ** Data *)

Inductive NodeState := Follower | Candidate | Leader.

#[export] Instance NodeState_eq_dec : EqDecision NodeState.
Proof. solve_decision. Defined.

(** [NodeState.String]; the [default] branch is for values no code stores. *)
Definition NodeState_String (s : NodeState) : string :=
  match s with
  | Follower => "Follower"
  | Candidate => "Candidate"
  | Leader => "Leader"
  end.

Record RequestVoteArgs := mkRVArgs {
  rvTerm : Z; rvCandidateID : string; rvLastLogIndex : Z; rvLastLogTerm : Z }.

Record RequestVoteReply := mkRVReply { rvrTerm : Z; rvrVoteGranted : bool }.

Record AppendEntriesArgs := mkAEArgs {
  aeTerm : Z; aeLeaderID : string; aePrevLogIndex : Z; aePrevLogTerm : Z;
  aeEntries : list LogEntry; aeLeaderCommit : Z }.

Record AppendEntriesReply := mkAEReply { aerTerm : Z; aerSuccess : bool }.

#[export] Instance RequestVoteArgs_eq_dec : EqDecision RequestVoteArgs.
Proof. solve_decision. Defined.
#[export] Instance RequestVoteReply_eq_dec : EqDecision RequestVoteReply.
Proof. solve_decision. Defined.
#[export] Instance AppendEntriesArgs_eq_dec : EqDecision AppendEntriesArgs.
Proof. solve_decision. Defined.
#[export] Instance AppendEntriesReply_eq_dec : EqDecision AppendEntriesReply.
Proof. solve_decision. Defined.

Record NodeMetrics := mkMetrics {
  ElectionsStarted : Z; VotesGranted : Z; HeartbeatsSent : Z;
  HeartbeatsRecvd : Z; CurrentLeaderID : string }.

Record Node := mkNode {
  id : string;
  peers : list string;
  currentTerm : Z;
  votedFor : string;
  log : list LogEntry;
  commitIndex : Z;
  lastApplied : Z;
  nextIndex : gmap string Z;
  matchIndex : gmap string Z;
  state : NodeState;
  Metrics : NodeMetrics;
  applyCh : option (list string);
  resetTimerCh : nat;
  stepDownCh : list Z;
  stopCh : bool }.

Definition set_currentTerm (v : Z) (n : Node) : Node :=
  {| id := id n; peers := peers n; currentTerm := v; votedFor := votedFor n;
     log := log n; commitIndex := commitIndex n; lastApplied := lastApplied n;
     nextIndex := nextIndex n; matchIndex := matchIndex n; state := state n;
     Metrics := Metrics n; applyCh := applyCh n; resetTimerCh := resetTimerCh n;
     stepDownCh := stepDownCh n; stopCh := stopCh n |}.
Definition set_votedFor (v : string) (n : Node) : Node :=
  {| id := id n; peers := peers n; currentTerm := currentTerm n; votedFor :=
     v; log := log n; commitIndex := commitIndex n; lastApplied := lastApplied n;
     nextIndex := nextIndex n; matchIndex := matchIndex n; state := state n;
     Metrics := Metrics n; applyCh := applyCh n; resetTimerCh := resetTimerCh n;
     stepDownCh := stepDownCh n; stopCh := stopCh n |}.
Definition set_log (v : list LogEntry) (n : Node) : Node :=
  {| id := id n; peers := peers n; currentTerm := currentTerm n; votedFor :=
     votedFor n; log := v; commitIndex := commitIndex n; lastApplied :=
     lastApplied n; nextIndex := nextIndex n; matchIndex := matchIndex n; state
     := state n; Metrics := Metrics n; applyCh := applyCh n; resetTimerCh :=
     resetTimerCh n; stepDownCh := stepDownCh n; stopCh := stopCh n |}.
Definition set_commitIndex (v : Z) (n : Node) : Node :=
  {| id := id n; peers := peers n; currentTerm := currentTerm n; votedFor :=
     votedFor n; log := log n; commitIndex := v; lastApplied := lastApplied n;
     nextIndex := nextIndex n; matchIndex := matchIndex n; state := state n;
     Metrics := Metrics n; applyCh := applyCh n; resetTimerCh := resetTimerCh n;
     stepDownCh := stepDownCh n; stopCh := stopCh n |}.
Definition set_lastApplied (v : Z) (n : Node) : Node :=
  {| id := id n; peers := peers n; currentTerm := currentTerm n; votedFor :=
     votedFor n; log := log n; commitIndex := commitIndex n; lastApplied := v;
     nextIndex := nextIndex n; matchIndex := matchIndex n; state := state n;
     Metrics := Metrics n; applyCh := applyCh n; resetTimerCh := resetTimerCh n;
     stepDownCh := stepDownCh n; stopCh := stopCh n |}.
Definition set_nextIndex (v : gmap string Z) (n : Node) : Node :=
  {| id := id n; peers := peers n; currentTerm := currentTerm n; votedFor :=
     votedFor n; log := log n; commitIndex := commitIndex n; lastApplied :=
     lastApplied n; nextIndex := v; matchIndex := matchIndex n; state := state n;
     Metrics := Metrics n; applyCh := applyCh n; resetTimerCh := resetTimerCh n;
     stepDownCh := stepDownCh n; stopCh := stopCh n |}.
Definition set_matchIndex (v : gmap string Z) (n : Node) : Node :=
  {| id := id n; peers := peers n; currentTerm := currentTerm n; votedFor :=
     votedFor n; log := log n; commitIndex := commitIndex n; lastApplied :=
     lastApplied n; nextIndex := nextIndex n; matchIndex := v; state := state n;
     Metrics := Metrics n; applyCh := applyCh n; resetTimerCh := resetTimerCh n;
     stepDownCh := stepDownCh n; stopCh := stopCh n |}.
Definition set_state (v : NodeState) (n : Node) : Node :=
  {| id := id n; peers := peers n; currentTerm := currentTerm n; votedFor :=
     votedFor n; log := log n; commitIndex := commitIndex n; lastApplied :=
     lastApplied n; nextIndex := nextIndex n; matchIndex := matchIndex n; state
     := v; Metrics := Metrics n; applyCh := applyCh n; resetTimerCh :=
     resetTimerCh n; stepDownCh := stepDownCh n; stopCh := stopCh n |}.
Definition set_Metrics (v : NodeMetrics) (n : Node) : Node :=
  {| id := id n; peers := peers n; currentTerm := currentTerm n; votedFor :=
     votedFor n; log := log n; commitIndex := commitIndex n; lastApplied :=
     lastApplied n; nextIndex := nextIndex n; matchIndex := matchIndex n; state
     := state n; Metrics := v; applyCh := applyCh n; resetTimerCh := resetTimerCh
     n; stepDownCh := stepDownCh n; stopCh := stopCh n |}.
Definition set_applyCh (v : option (list string)) (n : Node) : Node :=
  {| id := id n; peers := peers n; currentTerm := currentTerm n; votedFor :=
     votedFor n; log := log n; commitIndex := commitIndex n; lastApplied :=
     lastApplied n; nextIndex := nextIndex n; matchIndex := matchIndex n; state
     := state n; Metrics := Metrics n; applyCh := v; resetTimerCh := resetTimerCh
     n; stepDownCh := stepDownCh n; stopCh := stopCh n |}.
Definition set_resetTimerCh (v : nat) (n : Node) : Node :=
  {| id := id n; peers := peers n; currentTerm := currentTerm n; votedFor :=
     votedFor n; log := log n; commitIndex := commitIndex n; lastApplied :=
     lastApplied n; nextIndex := nextIndex n; matchIndex := matchIndex n; state
     := state n; Metrics := Metrics n; applyCh := applyCh n; resetTimerCh := v;
     stepDownCh := stepDownCh n; stopCh := stopCh n |}.
Definition set_stepDownCh (v : list Z) (n : Node) : Node :=
  {| id := id n; peers := peers n; currentTerm := currentTerm n; votedFor :=
     votedFor n; log := log n; commitIndex := commitIndex n; lastApplied :=
     lastApplied n; nextIndex := nextIndex n; matchIndex := matchIndex n; state
     := state n; Metrics := Metrics n; applyCh := applyCh n; resetTimerCh :=
     resetTimerCh n; stepDownCh := v; stopCh := stopCh n |}.
Definition set_stopCh (v : bool) (n : Node) : Node :=
  {| id := id n; peers := peers n; currentTerm := currentTerm n; votedFor :=
     votedFor n; log := log n; commitIndex := commitIndex n; lastApplied :=
     lastApplied n; nextIndex := nextIndex n; matchIndex := matchIndex n; state
     := state n; Metrics := Metrics n; applyCh := applyCh n; resetTimerCh :=
     resetTimerCh n; stepDownCh := stepDownCh n; stopCh := v |}.

Definition update_Metrics (f : NodeMetrics -> NodeMetrics) (n : Node) : Node :=
  set_Metrics (f (Metrics n)) n.

Definition NewNode (nid : string) (ps : list string) (ch : option (list string)) : Node :=
  {| id := nid; peers := ps; currentTerm := 0; votedFor := ""; log := newLogStore;
     commitIndex := 0; lastApplied := 0; nextIndex := ∅; matchIndex := ∅;
     state := Follower; Metrics := mkMetrics 0 0 0 0 ""; applyCh := ch;
     resetTimerCh := 0%nat; stepDownCh := []; stopCh := false |}.

Definition IsLeader (n : Node) : bool := bool_decide (state n = Leader).

Definition LeaderID (n : Node) : string := CurrentLeaderID (Metrics n).

(** [Stop] closes the channel unless it is closed already. *)
Definition Stop (n : Node) : Node := if stopCh n then n else set_stopCh true n.

(** ** Role changes and signals (raft.go) *)

Definition becomeFollower (term : Z) (n : Node) : Node :=
  let n1 := if currentTerm n <? term
            then set_votedFor "" (set_currentTerm term n) else n in
  set_state Follower n1.

Definition signalReset (n : Node) : Node :=
  if (resetTimerCh n <? 8)%nat then set_resetTimerCh (S (resetTimerCh n)) n else n.

Definition signalStepDown (term : Z) (n : Node) : Node :=
  if (length (stepDownCh n) <? 4)%nat then set_stepDownCh (stepDownCh n ++ [term]) n else n.

(** The vote and ack threshold [(len(n.peers)+1)/2 + 1]. *)
Definition majority (n : Node) : Z := (Z.of_nat (length (peers n)) + 1) / 2 + 1.

(** ** Elections (election.go) *)

(** The locked prefix of [loopCandidate] and the metrics update after it: the
    new term, with the candidate's vote for itself. *)
Definition startElection (n : Node) : Node :=
  let n1 := set_votedFor (id n) (set_currentTerm (u64 (currentTerm n + 1)) n) in
  update_Metrics (fun m => mkMetrics (ElectionsStarted m + 1) (VotesGranted m)
    (HeartbeatsSent m) (HeartbeatsRecvd m) (CurrentLeaderID m)) n1.

(** The arguments each vote goroutine of the election sends. *)
Definition voteRequest (n : Node) : RequestVoteArgs :=
  let '(lastIdx, lastTerm) := lastIndexAndTerm (log n) in
  mkRVArgs (currentTerm n) (id n) lastIdx lastTerm.

Definition resetPeerIndexes (lastIdx : Z) (n : Node) : Node :=
  set_matchIndex (foldl (fun m p => <[p := 0]> m) (matchIndex n) (peers n))
    (set_nextIndex (foldl (fun m p => <[p := u64 (lastIdx + 1)]> m) (nextIndex n) (peers n)) n).

Definition becomeLeader (term : Z) (n : Node) : Node :=
  if negb (currentTerm n =? term) then n
  else if negb (bool_decide (state n = Candidate)) then n
  else
    let lastIdx := fst (lastIndexAndTerm (log n)) in
    update_Metrics (fun m => mkMetrics (ElectionsStarted m) (VotesGranted m)
      (HeartbeatsSent m) (HeartbeatsRecvd m) (id n))
      (resetPeerIndexes lastIdx (set_state Leader n)).

(** Is the candidate's log at least as up to date as ours? *)
Definition logOK (args : RequestVoteArgs) (n : Node) : bool :=
  let '(myLastIdx, myLastTerm) := lastIndexAndTerm (log n) in
  (myLastTerm <? rvLastLogTerm args) ||
  ((rvLastLogTerm args =? myLastTerm) && (myLastIdx <=? rvLastLogIndex args)).

Definition alreadyVoted (args : RequestVoteArgs) (n : Node) : bool :=
  negb (bool_decide (votedFor n = "")) &&
  negb (bool_decide (votedFor n = rvCandidateID args)).

Definition HandleRequestVote (args : RequestVoteArgs) (n : Node)
  : Node * RequestVoteReply :=
  if rvTerm args <? currentTerm n then (n, mkRVReply (currentTerm n) false)
  else
    let n1 := if currentTerm n <? rvTerm args
              then becomeFollower (rvTerm args) n else n in
    if alreadyVoted args n1 || negb (logOK args n1)
    then (n1, mkRVReply (currentTerm n1) false)
    else
      let n2 := update_Metrics (fun m => mkMetrics (ElectionsStarted m)
                  (VotesGranted m + 1) (HeartbeatsSent m) (HeartbeatsRecvd m)
                  (CurrentLeaderID m)) (set_votedFor (rvCandidateID args) n1) in
      (signalReset n2, mkRVReply (currentTerm n1) true).

(** The conflict-handling loop of [HandleAppendEntries] over [args.Entries]. *)
Fixpoint appendEntries (l : list LogEntry) (es : list LogEntry) : list LogEntry :=
  match es with
  | [] => l
  | entry :: es' =>
      let l' :=
        match entryAt l (eIndex entry) with
        | Some existing =>
            if negb (eTerm existing =? eTerm entry)
            then appendEntry (truncateAfter l (u64 (eIndex entry - 1))) entry
            else l
        | None => appendEntry l entry
        end in
      appendEntries l' es'
  end.

(** The log consistency check on [PrevLogIndex]/[PrevLogTerm]. *)
Definition prevLogOK (args : AppendEntriesArgs) (l : list LogEntry) : bool :=
  if 0 <? aePrevLogIndex args
  then match entryAt l (aePrevLogIndex args) with
       | Some prev => eTerm prev =? aePrevLogTerm args
       | None => false
       end
  else true.

(** The part of [HandleAppendEntries] before the consistency check: term
    adoption, a candidate stepping down, timer reset and metrics. *)
Definition acceptLeader (args : AppendEntriesArgs) (n : Node) : Node :=
  let n1 := if currentTerm n <? aeTerm args then becomeFollower (aeTerm args) n else n in
  let n2 := if bool_decide (state n1 = Candidate) then set_state Follower n1 else n1 in
  update_Metrics (fun m => mkMetrics (ElectionsStarted m) (VotesGranted m)
    (HeartbeatsSent m) (HeartbeatsRecvd m + 1) (aeLeaderID args)) (signalReset n2).

(** The part after the consistency check: entries, then the commit index.  The
    boolean tells whether [go n.applyCommitted()] is spawned. *)
Definition storeEntries (args : AppendEntriesArgs) (n : Node) : Node * bool :=
  let n1 := set_log (appendEntries (log n) (aeEntries args)) n in
  if commitIndex n1 <? aeLeaderCommit args
  then (set_commitIndex (Z.min (aeLeaderCommit args) (lastIndex (log n1))) n1, true)
  else (n1, false).

Definition HandleAppendEntries (args : AppendEntriesArgs) (n : Node)
  : Node * AppendEntriesReply * bool :=
  if aeTerm args <? currentTerm n then (n, mkAEReply (currentTerm n) false, false)
  else
    let n1 := acceptLeader args n in
    if prevLogOK args (log n1)
    then let '(n2, spawn) := storeEntries args n1 in
         (n2, mkAEReply (currentTerm n1) true, spawn)
    else (n1, mkAEReply (currentTerm n1) false, false).

(** ** Replication (replication.go) *)

(** Errors of [Replicate]; [ErrNotLeader] carries the leader hint of the
    wrapped message ([None] for the bare error of the stop path). *)
Inductive ReplicateError :=
| ErrNotLeader (hint : option string)
| ErrReplicationTimeout.

Record PendingEntry := mkPending { peEntry : LogEntry; peTerm : Z; peCommit : Z }.

(** The locked prefix of [Replicate]: append the command to the leader's log. *)
Definition replicateBegin (command : string) (n : Node)
  : result ReplicateError (Node * PendingEntry) :=
  if negb (IsLeader n) then Err (ErrNotLeader (Some (LeaderID n)))
  else
    let lastIdx := fst (lastIndexAndTerm (log n)) in
    let entry := mkEntry (currentTerm n) (u64 (lastIdx + 1)) command in
    let n1 := set_log (appendEntry (log n) entry) n in
    let n2 := set_matchIndex (<[id n := eIndex entry]> (matchIndex n1)) n1 in
    Ok (n2, mkPending entry (currentTerm n) (commitIndex n)).

(** The critical section [Replicate] runs once a majority acknowledged. *)
Definition replicateCommit (entry : LogEntry) (n : Node) : Node :=
  if commitIndex n <? eIndex entry then set_commitIndex (eIndex entry) n else n.

(** [for idx := from; idx <= to; idx++ { if e, ok := entryAt(idx) ... }] *)
Definition collectEntries (l : list LogEntry) (from to : Z) : list LogEntry :=
  omap (entryAt l) (seqZ from (to - from + 1)).

Definition prevTermAt (l : list LogEntry) (prevLogIndex : Z) : Z :=
  if 0 <? prevLogIndex
  then match entryAt l prevLogIndex with Some prev => eTerm prev | None => 0 end
  else 0.

Definition nextIndexOf (n : Node) (peer : string) : Z := default 0 (nextIndex n !! peer).
Definition matchIndexOf (n : Node) (peer : string) : Z := default 0 (matchIndex n !! peer).

(** First critical section of the [replicateToPeer] loop: [None] when the node
    is no longer the leader of [term]. *)
Definition replicateArgs (peer : string) (p : PendingEntry) (n : Node)
  : option AppendEntriesArgs :=
  if negb (currentTerm n =? peTerm p) || negb (IsLeader n) then None
  else
    let nextIdx := nextIndexOf n peer in
    let prevLogIndex := u64 (nextIdx - 1) in
    Some {| aeTerm := peTerm p; aeLeaderID := id n;
            aePrevLogIndex := prevLogIndex;
            aePrevLogTerm := prevTermAt (log n) prevLogIndex;
            aeEntries := collectEntries (log n) nextIdx (eIndex (peEntry p));
            aeLeaderCommit := peCommit p |}.

(** What the loop does with a reply: finish with an ack value, or go around. *)
Inductive ReplicateOutcome := RDone (ack : bool) | RRetry.

Definition replicateReply (peer : string) (p : PendingEntry)
    (reply : AppendEntriesReply) (n : Node) : Node * ReplicateOutcome :=
  if peTerm p <? aerTerm reply then (signalStepDown (aerTerm reply) n, RDone false)
  else if aerSuccess reply then
    let idx := eIndex (peEntry p) in
    let n1 := if matchIndexOf n peer <? idx
              then set_matchIndex (<[peer := idx]> (matchIndex n)) n else n in
    (set_nextIndex (<[peer := u64 (idx + 1)]> (nextIndex n1)) n1, RDone true)
  else if 1 <? nextIndexOf n peer
  then (set_nextIndex (<[peer := u64 (nextIndexOf n peer - 1)]> (nextIndex n)) n, RRetry)
  else (n, RDone false).

(** First critical section of [sendHeartbeatToPeer]: no leadership test. *)
Definition heartbeatArgs (peer : string) (n : Node) : AppendEntriesArgs :=
  let nextIdx := nextIndexOf n peer in
  let lastIdx := fst (lastIndexAndTerm (log n)) in
  if nextIdx <=? lastIdx
  then let prevLogIndex := u64 (nextIdx - 1) in
       {| aeTerm := currentTerm n; aeLeaderID := id n;
          aePrevLogIndex := prevLogIndex;
          aePrevLogTerm := prevTermAt (log n) prevLogIndex;
          aeEntries := entriesFrom (log n) nextIdx; aeLeaderCommit := commitIndex n |}
  else {| aeTerm := currentTerm n; aeLeaderID := id n; aePrevLogIndex := 0;
          aePrevLogTerm := 0; aeEntries := []; aeLeaderCommit := commitIndex n |}.

(** How many nodes (the leader included) are known to store index [idx]. *)
Definition ackCount (n : Node) (idx : Z) : Z :=
  1 + Z.of_nat (length (filter (fun p => idx <= matchIndexOf n p) (peers n))).

(** One iteration of the [advanceCommitIndex] loop. *)
Definition advanceAt (n : Node) (idx : Z) : Node :=
  match entryAt (log n) idx with
  | Some entry =>
      if negb (eTerm entry =? currentTerm n) then n
      else if majority n <=? ackCount n idx then set_commitIndex idx n else n
  | None => n
  end.

Definition advanceCommitIndex (n : Node) : Node :=
  let lastIdx := fst (lastIndexAndTerm (log n)) in
  foldl advanceAt n (seqZ (commitIndex n + 1) (lastIdx - commitIndex n)).

(** The rest of [sendHeartbeatToPeer] once a reply arrived; the boolean tells
    whether [n.applyCommitted()] is called. *)
Definition heartbeatReply (peer : string) (args : AppendEntriesArgs)
    (reply : AppendEntriesReply) (n : Node) : Node * bool :=
  let n0 := update_Metrics (fun m => mkMetrics (ElectionsStarted m) (VotesGranted m)
              (HeartbeatsSent m + 1) (HeartbeatsRecvd m) (CurrentLeaderID m)) n in
  if aeTerm args <? aerTerm reply then (signalStepDown (aerTerm reply) n0, false)
  else match aeEntries args with
  | [] => (n0, false)
  | es =>
      if aerSuccess reply then
        let newMatch := u64 (aePrevLogIndex args + Z.of_nat (length es)) in
        let n1 := if matchIndexOf n0 peer <? newMatch
                  then set_nextIndex (<[peer := u64 (newMatch + 1)]> (nextIndex n0))
                         (set_matchIndex (<[peer := newMatch]> (matchIndex n0)) n0)
                  else n0 in
        (advanceCommitIndex n1, true)
      else if 1 <? nextIndexOf n0 peer
      then (set_nextIndex (<[peer := u64 (nextIndexOf n0 peer - 1)]> (nextIndex n0)) n0, false)
      else (n0, false)
  end.

(** The locked part of [applyCommitted]: the committed entries not applied
    yet; they are sent on [applyCh] after the lock is released. *)
Definition applyCollect (n : Node) : Node * list LogEntry :=
  (set_lastApplied (Z.max (lastApplied n) (commitIndex n)) n,
   omap (entryAt (log n)) (seqZ (lastApplied n + 1) (commitIndex n - lastApplied n))).
