(* ===== verification/RaftCluster.v ===== *)
(** * The goroutines of a Raft cluster (src/raft: raft.go run, election.go
    loops, replication.go, cluster.go)

    Every node runs one goroutine for [run] (its position is [RunPc]) and any
    number of further goroutines (HTTP handlers calling [Replicate], one
    [replicateToPeer] per peer and call, one [sendHeartbeatToPeer] per peer and
    beat, [applyCommitted]).  A step of the cluster is one critical section of
    one goroutine, one channel operation, or the delivery of one RPC, so that
    every interleaving the mutex allows is a run.  Timers fire at any time; an
    RPC may be delayed arbitrarily, lost (the caller sees an error) or
    delivered more than once, and its reply may arrive at any later time.

    [step] is executable; [cstep] is the relation it induces. *)

From S2P Require Import Prelude RaftLog RaftNode.

(** ** Runtime state *)

(** Where the [run] goroutine is. *)
Inductive RunPc :=
| PcTop                     (* run: about to load n.state *)
| PcFollower                (* loopFollower: in select *)
| PcStepDown (term : Z)     (* received a higher term, about to lock *)
| PcCandStart               (* loopCandidate: before the first lock *)
| PcCand (term votes : Z) (waiting : list string)
                            (* counting votes; peers whose goroutine has not reported *)
| PcWon (term : Z)          (* votes >= majority, about to call becomeLeader *)
| PcBeat                    (* loopLeader: about to call sendHeartbeats *)
| PcBeatWait                (* sendHeartbeats: wg.Wait() *)
| PcLeader                  (* loopLeader: in select *)
| PcExit.                   (* run has returned *)

(** What a goroutine does after [applyCommitted] returns. *)
Inductive ApplyKind := KHeartbeat | KGo | KClient (call : nat).

Inductive Thread :=
| THeartbeat (peer : string)
| THeartbeatWait (peer : string) (rpc : nat) (args : AppendEntriesArgs)
| TReplicate (call : nat) (peer : string) (p : PendingEntry)
| TReplicateWait (call : nat) (peer : string) (p : PendingEntry) (rpc : nat)
| TAck (call : nat) (ok : bool)               (* value buffered in ackCh *)
| TClient (call : nat) (entry : LogEntry) (acks : Z) (remaining : nat)
| TCommit (call : nat) (entry : LogEntry)     (* majority reached, about to lock *)
| TApplyStart (k : ApplyKind)
| TApply (k : ApplyKind) (cmds : list string) (* sending on applyCh *)
| TDone.

Record Runtime := mkRT {
  node : Node; pc : RunPc; threads : list Thread;
  results : list (nat * option ReplicateError) }.

Inductive Message :=
| MRequestVote (from to : string) (args : RequestVoteArgs)
| MRequestVoteReply (from to : string) (req : RequestVoteArgs) (reply : RequestVoteReply)
| MAppendEntries (from to : string) (rpc : nat) (args : AppendEntriesArgs)
| MAppendEntriesReply (from to : string) (rpc : nat) (reply : AppendEntriesReply).

(** [net] holds every message ever sent, in order. *)
Record Cluster := mkCluster { nodes : gmap string Runtime; net : list Message }.

Definition newRuntime (nid : string) (ps : list string) (ch : option (list string)) : Runtime :=
  mkRT (NewNode nid ps ch) PcTop [] [].

(** [NewCluster]: every node has all other ids as its peers. *)
Definition peersOf (ids : list string) (nid : string) : list string :=
  filter (fun p => p <> nid) ids.

Definition NewCluster (ids : list string) (ch : option (list string)) : Cluster :=
  mkCluster (list_to_map ((fun i => (i, newRuntime i (peersOf ids i) ch)) <$> ids)) [].

Definition put (n : string) (rt : Runtime) (ms : list Message) (s : Cluster) : Cluster :=
  mkCluster (<[n := rt]> (nodes s)) (net s ++ ms).

Definition with_node (f : Node -> Node) (rt : Runtime) : Runtime :=
  mkRT (f (node rt)) (pc rt) (threads rt) (results rt).
Definition with_pc (p : RunPc) (rt : Runtime) : Runtime :=
  mkRT (node rt) p (threads rt) (results rt).
Definition with_thread (k : nat) (t : Thread) (rt : Runtime) : Runtime :=
  mkRT (node rt) (pc rt) (<[k := t]> (threads rt)) (results rt).
Definition spawn (ts : list Thread) (rt : Runtime) : Runtime :=
  mkRT (node rt) (pc rt) (threads rt ++ ts) (results rt).
Definition finish (call : nat) (r : option ReplicateError) (rt : Runtime) : Runtime :=
  mkRT (node rt) (pc rt) (threads rt) (results rt ++ [(call, r)]).

(** ** The [run] goroutine *)

Inductive RunEvent :=
| RLoop                    (* run: dispatch on the state, or return when stopped *)
| RTimeout                 (* election timer fires in loopFollower/loopCandidate *)
| RReset                   (* loopFollower consumes a reset token *)
| RStepDownRecv            (* a select consumes a term from stepDownCh *)
| RStepDown                (* becomeFollower after a received term *)
| RElect                   (* loopCandidate: new term, vote requests go out *)
| RVoteError (p : string)  (* the goroutine of peer p reports an error *)
| RVoteReply (p : string) (i : nat)  (* ... reports the reply at net position i *)
| RNoMajority              (* every goroutine reported, loop ends *)
| RBecomeLeader
| RBeat                    (* sendHeartbeats spawns one goroutine per peer *)
| RBeatDone                (* wg.Wait() returns *)
| RTick                    (* heartbeat ticker *)
| RExit.                   (* a select sees the closed stopCh *)

Definition dispatch (rt : Runtime) : RunPc :=
  if stopCh (node rt) then PcExit
  else match state (node rt) with
       | Follower => PcFollower
       | Candidate => PcCandStart
       | Leader => PcBeat
       end.

Definition is_heartbeat (t : Thread) : bool :=
  match t with
  | THeartbeat _ | THeartbeatWait _ _ _ | TApplyStart KHeartbeat | TApply KHeartbeat _ => true
  | _ => false
  end.

Definition in_select (p : RunPc) : bool :=
  match p with PcFollower | PcCand _ _ _ | PcLeader => true | _ => false end.

(** Counting one vote result in [loopCandidate]. *)
Definition countVote (n : Node) (term votes : Z) (waiting : list string)
    (reply : RequestVoteReply) : RunPc :=
  if term <? rvrTerm reply then PcStepDown (rvrTerm reply)
  else if rvrVoteGranted reply
  then if majority n <=? votes + 1 then PcWon term else PcCand term (votes + 1) waiting
  else PcCand term votes waiting.

Definition runStep (self : string) (rt : Runtime) (sent : list Message) (ev : RunEvent)
  : option (Runtime * list Message) :=
  match ev, pc rt with
  | RLoop, PcTop => Some (with_pc (dispatch rt) rt, [])
  | RTimeout, PcFollower => Some (with_pc PcTop (with_node (set_state Candidate) rt), [])
  | RTimeout, PcCand _ _ _ => Some (with_pc PcTop rt, [])
  | RReset, PcFollower =>
      match resetTimerCh (node rt) with
      | O => None
      | S k => Some (with_node (set_resetTimerCh k) rt, [])
      end
  | RStepDownRecv, p =>
      match in_select p, stepDownCh (node rt) with
      | true, t :: rest => Some (with_pc (PcStepDown t) (with_node (set_stepDownCh rest) rt), [])
      | _, _ => None
      end
  | RStepDown, PcStepDown t => Some (with_pc PcTop (with_node (becomeFollower t) rt), [])
  | RElect, PcCandStart =>
      let rt1 := with_node startElection rt in
      let args := voteRequest (node rt1) in
      Some (with_pc (PcCand (currentTerm (node rt1)) 1 (peers (node rt))) rt1,
            (fun p => MRequestVote self p args) <$> peers (node rt))
  | RVoteError p, PcCand term votes waiting =>
      waiting' ← removeFirst p waiting;
      Some (with_pc (PcCand term votes waiting') rt, [])
  | RVoteReply p i, PcCand term votes waiting =>
      waiting' ← removeFirst p waiting;
      match sent !! i with
      | Some (MRequestVoteReply from to req reply) =>
          if bool_decide (from = p) && bool_decide (to = self) && (rvTerm req =? term)
          then Some (with_pc (countVote (node rt) term votes waiting' reply) rt, [])
          else None
      | _ => None
      end
  | RNoMajority, PcCand _ _ [] => Some (with_pc PcTop rt, [])
  | RBecomeLeader, PcWon term => Some (with_pc PcTop (with_node (becomeLeader term) rt), [])
  | RBeat, PcBeat => Some (with_pc PcBeatWait (spawn (THeartbeat <$> peers (node rt)) rt), [])
  | RBeatDone, PcBeatWait =>
      if existsb is_heartbeat (threads rt) then None else Some (with_pc PcLeader rt, [])
  | RTick, PcLeader =>
      Some (with_pc (if bool_decide (state (node rt) = Leader) then PcBeat else PcTop) rt, [])
  | RExit, p => if in_select p && stopCh (node rt) then Some (with_pc PcExit rt, []) else None
  | _, _ => None
  end.

(** ** The other goroutines *)

(** [TEvent]: how the environment resolves a thread's next action: [Go] when
    it has no choice, [Lost] for an RPC error or a timeout, [Reply i] for the
    reply at position [i] of the network, [Take j] for the ack in thread [j],
    [Halt] for a select that sees the closed [stopCh]. *)
Inductive Choice := Go | Lost | Reply (i : nat) | Take (j : nat) | Halt.

Definition aeReplyAt (sent : list Message) (i : nat) (from to : string) (rpc : nat)
  : option AppendEntriesReply :=
  match sent !! i with
  | Some (MAppendEntriesReply from' to' rpc' reply) =>
      if bool_decide (from' = from) && bool_decide (to' = to) && (rpc' =? rpc)%nat
      then Some reply else None
  | _ => None
  end.

Definition applyDone (k : nat) (kind : ApplyKind) (rt : Runtime) : Runtime :=
  match kind with
  | KClient call => finish call None (with_thread k TDone rt)
  | _ => with_thread k TDone rt
  end.

(** One ack consumed by the [Replicate] loop. *)
Definition countAck (n : Node) (call : nat) (entry : LogEntry) (acks : Z) (remaining : nat)
    (ok : bool) : Thread :=
  let acks' := if ok then acks + 1 else acks in
  if ok && (majority n <=? acks') then TCommit call entry
  else TClient call entry acks' (pred remaining).

Definition threadStep (self : string) (rt : Runtime) (sent : list Message) (k : nat) (c : Choice)
  : option (Runtime * list Message) :=
  t ← threads rt !! k;
  match t, c with
  | THeartbeat p, Go =>
      let args := heartbeatArgs p (node rt) in
      Some (with_thread k (THeartbeatWait p (length sent) args) rt,
            [MAppendEntries self p (length sent) args])
  | THeartbeatWait _ _ _, Lost => Some (with_thread k TDone rt, [])
  | THeartbeatWait p rpc args, Reply i =>
      reply ← aeReplyAt sent i p self rpc;
      let '(n', apply) := heartbeatReply p args reply (node rt) in
      Some (with_thread k (if apply then TApplyStart KHeartbeat else TDone)
              (with_node (fun _ => n') rt), [])
  | TReplicate call p pe, Go =>
      match replicateArgs p pe (node rt) with
      | None => Some (with_thread k (TAck call false) rt, [])
      | Some args =>
          Some (with_thread k (TReplicateWait call p pe (length sent)) rt,
                [MAppendEntries self p (length sent) args])
      end
  | TReplicateWait call _ _ _, Lost => Some (with_thread k (TAck call false) rt, [])
  | TReplicateWait call p pe rpc, Reply i =>
      reply ← aeReplyAt sent i p self rpc;
      let '(n', outcome) := replicateReply p pe reply (node rt) in
      Some (with_thread k (match outcome with
                           | RDone ack => TAck call ack
                           | RRetry => TReplicate call p pe
                           end) (with_node (fun _ => n') rt), [])
  | TClient call entry acks remaining, Take j =>
      match threads rt !! j, remaining with
      | Some (TAck call' ok), S _ =>
          if (call =? call')%nat
          then Some (with_thread k (countAck (node rt) call entry acks remaining ok)
                       (with_thread j TDone rt), [])
          else None
      | _, _ => None
      end
  | TClient call _ _ O, Go =>
      Some (finish call (Some ErrReplicationTimeout) (with_thread k TDone rt), [])
  | TClient call _ _ _, Lost =>
      Some (finish call (Some ErrReplicationTimeout) (with_thread k TDone rt), [])
  | TClient call _ _ _, Halt =>
      if stopCh (node rt)
      then Some (finish call (Some (ErrNotLeader None)) (with_thread k TDone rt), []) else None
  | TCommit call entry, Go =>
      Some (with_thread k (TApplyStart (KClient call))
              (with_node (replicateCommit entry) rt), [])
  | TApplyStart kind, Go =>
      let '(n', toApply) := applyCollect (node rt) in
      let rt' := with_node (fun _ => n') rt in
      match applyCh n' with
      | None => Some (applyDone k kind rt', [])
      | Some _ => Some (with_thread k (TApply kind (eCommand <$> toApply)) rt', [])
      end
  | TApply kind [], Go => Some (applyDone k kind rt, [])
  | TApply kind (cmd :: cmds), Go =>
      sent_cmds ← applyCh (node rt);
      Some (with_thread k (TApply kind cmds)
              (with_node (set_applyCh (Some (sent_cmds ++ [cmd]))) rt), [])
  | TApply kind _, Halt => if stopCh (node rt) then Some (applyDone k kind rt, []) else None
  | _, _ => None
  end.

(** A client request reaches [Replicate] on this node. *)
Definition clientStep (rt : Runtime) (command : string) : Runtime :=
  let call := length (threads rt) in
  match replicateBegin command (node rt) with
  | Err e => finish call (Some e) (spawn [TDone] rt)
  | Ok (n', pe) =>
      spawn (TClient call (peEntry pe) 1 (length (peers n')) ::
             ((fun p => TReplicate call p pe) <$> peers n'))
        (with_node (fun _ => n') rt)
  end.

(** An RPC message is handled by its addressee. *)
Definition deliver (rt : Runtime) (m : Message) : option (Runtime * list Message) :=
  match m with
  | MRequestVote from to args =>
      let '(n', reply) := HandleRequestVote args (node rt) in
      Some (with_node (fun _ => n') rt, [MRequestVoteReply to from args reply])
  | MAppendEntries from to rpc args =>
      let '(n', reply, apply) := HandleAppendEntries args (node rt) in
      Some (spawn (if apply then [TApplyStart KGo] else []) (with_node (fun _ => n') rt),
            [MAppendEntriesReply to from rpc reply])
  | _ => None
  end.

Definition destination (m : Message) : string :=
  match m with
  | MRequestVote _ to _ | MRequestVoteReply _ to _ _
  | MAppendEntries _ to _ _ | MAppendEntriesReply _ to _ _ => to
  end.

Inductive Event :=
| EvRun (n : string) (ev : RunEvent)
| EvThread (n : string) (k : nat) (c : Choice)
| EvClient (n : string) (command : string)
| EvDeliver (i : nat)
| EvStop (n : string).

(** The node whose code runs in an event. *)
Definition actor (s : Cluster) (ev : Event) : option string :=
  match ev with
  | EvRun n _ | EvThread n _ _ | EvClient n _ | EvStop n => Some n
  | EvDeliver i => destination <$> net s !! i
  end.

Definition localStep (self : string) (rt : Runtime) (sent : list Message) (ev : Event)
  : option (Runtime * list Message) :=
  match ev with
  | EvRun _ e => runStep self rt sent e
  | EvThread _ k c => threadStep self rt sent k c
  | EvClient _ command => Some (clientStep rt command, [])
  | EvDeliver i => m ← sent !! i; deliver rt m
  | EvStop _ => Some (with_node Stop rt, [])
  end.

Definition step (s : Cluster) (ev : Event) : option Cluster :=
  n ← actor s ev;
  rt ← nodes s !! n;
  '(rt', ms) ← localStep n rt (net s) ev;
  Some (put n rt' ms s).

Definition cstep (s s' : Cluster) : Prop := exists ev, step s ev = Some s'.

(** Run a whole schedule. *)
Fixpoint exec (s : Cluster) (evs : list Event) : option Cluster :=
  match evs with
  | [] => Some s
  | ev :: evs' => s' ← step s ev; exec s' evs'
  end.

Lemma exec_rtc s evs s' : exec s evs = Some s' -> rtc cstep s s'.
Proof.
  revert s. induction evs as [|ev evs IH]; intros s H; simpl in H; [by simplify_eq|].
  destruct (step s ev) eqn:E; simplify_eq/=.
  eapply rtc_l; [by exists ev|]. by apply IH.
Qed.

Lemma exec_nsteps s evs s' : exec s evs = Some s' -> nsteps cstep (length evs) s s'.
Proof.
  revert s. induction evs as [|ev evs IH]; intros s H; simpl in H; [simplify_eq; constructor|].
  destruct (step s ev) eqn:E; simplify_eq/=.
  eapply nsteps_l; [by exists ev|]. by apply IH.
Qed.

(** Every step runs one node and sends some messages. *)
Lemma cstep_inv s s' :
  cstep s s' ->
  exists ev n rt rt' ms,
    actor s ev = Some n /\ nodes s !! n = Some rt /\
    localStep n rt (net s) ev = Some (rt', ms) /\ s' = put n rt' ms s.
Proof.
  intros [ev H]. unfold step in H.
  destruct (actor s ev) as [n|] eqn:Ha; simplify_eq/=.
  destruct (nodes s !! n) as [rt|] eqn:Hn; simplify_eq/=.
  destruct (localStep n rt (net s) ev) as [[rt' ms]|] eqn:Hl; simplify_eq/=.
  by exists ev, n, rt, rt', ms.
Qed.
