(* ===== verification/RaftElection.v ===== *)
(** * Election safety of the cluster (src/raft/election.go)

    At most one node is ever leader of a term, over every interleaving of the
    goroutines.  Votes are read off the network history: a granted reply is a
    vote of its sender, a vote request is the candidate's vote for itself.
    Each step of the cluster is classified by its effect on the voting state
    ([effect]); the invariant is preserved by every class. *)

From S2P Require Import Prelude RaftLog RaftNode RaftCluster.

(** ** What the critical sections do to the voting state *)

(** The part of a node that elections depend on. *)
Definition core (n : Node) : string * list string * Z * string * NodeState :=
  (id n, peers n, currentTerm n, votedFor n, state n).

Lemma core_term n n' : core n = core n' -> currentTerm n = currentTerm n'.
Proof. unfold core. congruence. Qed.

Lemma core_votedFor n n' : core n = core n' -> votedFor n = votedFor n'.
Proof. unfold core. congruence. Qed.

Lemma core_state n n' : core n = core n' -> state n = state n'.
Proof. unfold core. congruence. Qed.

(** [n'] is a later state of [n] in which no new leadership appears. *)
Record node_le (n n' : Node) : Prop := {
  le_id : id n' = id n;
  le_peers : peers n' = peers n;
  le_term : currentTerm n <= currentTerm n';
  le_vote : currentTerm n' = currentTerm n -> votedFor n <> "" -> votedFor n' = votedFor n;
  le_leader : state n' = Leader -> state n = Leader /\ currentTerm n' = currentTerm n }.

(** The same without the clause on leadership. *)
Definition vote_le (n n' : Node) : Prop :=
  id n' = id n /\ peers n' = peers n /\ currentTerm n <= currentTerm n' /\
  (currentTerm n' = currentTerm n -> votedFor n <> "" -> votedFor n' = votedFor n).

Lemma node_le_vote n n' : node_le n n' -> vote_le n n'.
Proof. by intros []. Qed.

Lemma node_le_core n n' : core n' = core n -> node_le n n'.
Proof. unfold core. intros [= Hi Hp Ht Hv Hs]. split; try congruence; [lia|].
  intros. split; congruence.
Qed.

Lemma node_le_refl n : node_le n n.
Proof. by apply node_le_core. Qed.

Lemma node_le_trans n1 n2 n3 : node_le n1 n2 -> node_le n2 n3 -> node_le n1 n3.
Proof.
  intros [i1 p1 t1 v1 l1] [i2 p2 t2 v2 l2]. split; try congruence; try lia.
  - intros Ht Hv. assert (currentTerm n2 = currentTerm n1) as E by lia.
    rewrite v2; [by apply v1|lia|]. by rewrite v1.
  - intros Hs. destruct (l2 Hs) as [Hs2 E2]. destruct (l1 Hs2) as [? ?]. split; [done|lia].
Qed.

Lemma core_signalReset n : core (signalReset n) = core n.
Proof. unfold signalReset. by case_if. Qed.

Lemma signalReset_term n : currentTerm (signalReset n) = currentTerm n.
Proof. unfold signalReset. by case_if. Qed.

Lemma signalReset_votedFor n : votedFor (signalReset n) = votedFor n.
Proof. unfold signalReset. by case_if. Qed.

Lemma core_signalStepDown t n : core (signalStepDown t n) = core n.
Proof. unfold signalStepDown. by case_if. Qed.

Lemma core_advance n : core (advanceCommitIndex n) = core n.
Proof.
  unfold advanceCommitIndex. generalize (seqZ (commitIndex n + 1)
    (fst (lastIndexAndTerm (log n)) - commitIndex n)) as l.
  intros l. revert n. induction l as [|i l IH]; intros n; simpl; [done|].
  rewrite IH. unfold advanceAt. repeat case_match; done.
Qed.

Lemma core_heartbeatReply p args r n : core (fst (heartbeatReply p args r n)) = core n.
Proof.
  unfold heartbeatReply.
  repeat (case_match; simpl); rewrite ?core_signalStepDown, ?core_advance; done.
Qed.

Lemma core_replicateReply p pe r n : core (fst (replicateReply p pe r n)) = core n.
Proof.
  unfold replicateReply. repeat (case_match; simpl); rewrite ?core_signalStepDown; done.
Qed.

Lemma core_replicateCommit e n : core (replicateCommit e n) = core n.
Proof. unfold replicateCommit. by case_if. Qed.

Lemma core_storeEntries args n : core (fst (storeEntries args n)) = core n.
Proof. unfold storeEntries. by case_if. Qed.

Lemma core_Stop n : core (Stop n) = core n.
Proof. unfold Stop. by case_if. Qed.

#[export] Hint Resolve node_le_core node_le_refl core_signalReset core_signalStepDown
  core_advance core_heartbeatReply core_replicateReply core_replicateCommit
  core_storeEntries core_Stop : raft.

Lemma becomeFollower_le t n : node_le n (becomeFollower t n).
Proof.
  unfold becomeFollower. case_if; breflect; split; simpl; auto; intros; lia || done.
Qed.

Lemma becomeFollower_term t n : currentTerm (becomeFollower t n) = Z.max (currentTerm n) t.
Proof. unfold becomeFollower. case_if; breflect; simpl; lia. Qed.

Lemma acceptLeader_le args n : node_le n (acceptLeader args n).
Proof.
  unfold acceptLeader.
  set (n1 := if currentTerm n <? aeTerm args then becomeFollower (aeTerm args) n else n).
  assert (node_le n n1) as H1 by (unfold n1; case_if; auto using becomeFollower_le, node_le_refl).
  set (n2 := if bool_decide (state n1 = Candidate) then set_state Follower n1 else n1).
  assert (node_le n1 n2) as H2.
  { unfold n2. case_if; [|apply node_le_refl]. split; simpl; auto; lia || done. }
  eapply node_le_trans; [exact H1|]. eapply node_le_trans; [exact H2|].
  apply node_le_core. exact (core_signalReset n2).
Qed.

Lemma HandleAppendEntries_le args n n' r b :
  HandleAppendEntries args n = (n', r, b) -> node_le n n'.
Proof.
  unfold HandleAppendEntries. case_if; intros; simplify_eq; [apply node_le_refl|].
  case_if; [|simplify_eq; apply acceptLeader_le].
  destruct (storeEntries args (acceptLeader args n)) as [n2 sp] eqn:E. simplify_eq.
  eapply node_le_trans; [apply acceptLeader_le|].
  apply node_le_core. pose proof (core_storeEntries args (acceptLeader args n)) as Hc.
  by rewrite E in Hc.
Qed.

(** The voter after the term adoption of [HandleRequestVote]. *)
Lemma HandleRequestVote_le args n n' r :
  HandleRequestVote args n = (n', r) -> node_le n n'.
Proof.
  unfold HandleRequestVote. case_if; intros; simplify_eq; [apply node_le_refl|]. breflect.
  set (n1 := if currentTerm n <? rvTerm args then becomeFollower (rvTerm args) n else n) in *.
  assert (node_le n n1) as H1 by (unfold n1; case_if; auto using becomeFollower_le, node_le_refl).
  case_if; simplify_eq; [done|]. breflect.
  eapply node_le_trans; [exact H1|].
  eapply node_le_trans; [|apply node_le_core, core_signalReset].
  split; simpl; auto; [lia|]. intros _ Hv. unfold alreadyVoted in *.
  destruct (bool_decide_reflect (votedFor n1 = "")); [done|].
  destruct (bool_decide_reflect (votedFor n1 = rvCandidateID args)); done.
Qed.

(** A granted vote is for the voter's current term and never a second one. *)
Lemma HandleRequestVote_granted args n n' r :
  HandleRequestVote args n = (n', r) -> rvrVoteGranted r = true ->
  currentTerm n <= rvTerm args /\ currentTerm n' = rvTerm args /\
  votedFor n' = rvCandidateID args /\
  (rvTerm args = currentTerm n -> votedFor n = "" \/ votedFor n = rvCandidateID args).
Proof.
  unfold HandleRequestVote. intros H Hg. case_if; simplify_eq/=. breflect.
  set (n1 := if currentTerm n <? rvTerm args then becomeFollower (rvTerm args) n else n) in *.
  case_if; simplify_eq/=. breflect.
  assert (currentTerm n1 = rvTerm args) as Ht.
  { unfold n1. case_if; breflect; [rewrite becomeFollower_term|]; lia. }
  rewrite signalReset_term, signalReset_votedFor. split_and!; [lia|done|done|].
  intros Heq. assert (n1 = n) as Hn1 by (unfold n1; case_if; breflect; [lia|done]).
  rewrite Hn1 in *. unfold alreadyVoted in *.
  destruct (bool_decide_reflect (votedFor n = "")); [auto|].
  destruct (bool_decide_reflect (votedFor n = rvCandidateID args)); [auto|done].
Qed.

Lemma becomeLeader_inv t n :
  core (becomeLeader t n) = core n \/
  (currentTerm n = t /\ state n = Candidate /\
   core (becomeLeader t n) = (id n, peers n, currentTerm n, votedFor n, Leader)).
Proof. unfold becomeLeader. repeat case_if; breflect; auto. Qed.

(** ** Votes on the network *)

(** The vote a message carries: voter, term, candidate. *)
Definition casts (m : Message) : option (string * Z * string) :=
  match m with
  | MRequestVote from _ args => Some (from, rvTerm args, from)
  | MRequestVoteReply from to req reply =>
      if rvrVoteGranted reply then Some (from, rvTerm req, to) else None
  | _ => None
  end.

Definition voted (s : Cluster) (v : string) (t : Z) (c : string) : Prop :=
  exists m, m ∈ net s /\ casts m = Some (v, t, c).

Definition electing (p : RunPc) : bool :=
  match p with PcCand _ _ _ | PcWon _ => true | _ => false end.

(** Positions at which the node is certainly not a leader. *)
Definition leaderless (p : RunPc) : bool :=
  match p with PcFollower | PcCandStart | PcCand _ _ _ | PcWon _ => true | _ => false end.

(** [pc rt'] is an old position, or one outside the election loop. *)
Definition quiet_pc (rt rt' : Runtime) : Prop :=
  pc rt' = pc rt \/
  (electing (pc rt') = false /\ (leaderless (pc rt') = true -> state (node rt') <> Leader)).

(** The effect of one local step on the voting state. *)
Inductive effect (self : string) (rt rt' : Runtime) (sent ms : list Message) : Prop :=
| E_quiet :
    node_le (node rt) (node rt') -> Forall (fun m => casts m = None) ms ->
    quiet_pc rt rt' -> effect self rt rt' sent ms
| E_elect :
    pc rt = PcCandStart -> node rt' = startElection (node rt) ->
    pc rt' = PcCand (currentTerm (node rt')) 1 (peers (node rt)) ->
    ms = (fun p => MRequestVote self p (voteRequest (node rt'))) <$> peers (node rt) ->
    effect self rt rt' sent ms
| E_grant from args reply :
    MRequestVote from self args ∈ sent ->
    HandleRequestVote args (node rt) = (node rt', reply) ->
    pc rt' = pc rt -> ms = [MRequestVoteReply self from args reply] ->
    effect self rt rt' sent ms
| E_count term votes waiting p waiting' (granted : bool) :
    node rt' = node rt -> ms = [] ->
    pc rt = PcCand term votes waiting -> removeFirst p waiting = Some waiting' ->
    (granted = true -> exists m, m ∈ sent /\ casts m = Some (p, term, self)) ->
    (if granted
     then pc rt' = PcCand term (votes + 1) waiting' \/
          pc rt' = PcWon term /\ majority (node rt) <= votes + 1
     else pc rt' = PcCand term votes waiting') ->
    effect self rt rt' sent ms
| E_lead term :
    pc rt = PcWon term -> node rt' = becomeLeader term (node rt) ->
    pc rt' = PcTop -> ms = [] -> effect self rt rt' sent ms.

Lemma runStep_effect self rt sent ev rt' ms :
  runStep self rt sent ev = Some (rt', ms) -> effect self rt rt' sent ms.
Proof.
  unfold runStep. intros H. destruct ev, (pc rt) eqn:Hpc; simplify_eq/=;
    try match goal with
        | H : context [removeFirst ?p ?w] |- _ => destruct (removeFirst p w) eqn:E; simplify_eq/=
        end;
    repeat case_match; simplify_eq/=;
    try (apply E_quiet; unfold quiet_pc; simpl; auto with raft; fail).
  - apply E_quiet; simpl; [apply node_le_refl|done|right]. simpl.
    unfold dispatch. split; by repeat case_match; simplify_eq.
  - apply E_quiet; simpl; [|done|right; auto]. split; simpl; auto; lia || done.
  - apply E_quiet; simpl; [|done|right; auto]. apply becomeFollower_le.
  - by apply E_elect.
  - by eapply (E_count _ _ _ _ _ term votes waiting p _ false).
  - breflect. subst.
    unfold countVote. destruct (rvTerm req <? rvrTerm reply) eqn:?.
    { apply E_quiet; unfold quiet_pc; simpl; auto with raft. }
    destruct (rvrVoteGranted reply) eqn:Hg.
    + eapply (E_count _ _ _ _ _ _ votes waiting p _ true); [done|done|exact Hpc|exact E| |].
      * intros _. eexists. split; [by eapply list_elem_of_lookup_2|]. simpl. by rewrite Hg.
      * case_if; breflect; simpl; auto.
    + eapply (E_count _ _ _ _ _ _ votes waiting p _ false); [done|done|exact Hpc|exact E|done|done].
  - by eapply E_lead.
Qed.

Lemma applyDone_node k kind rt : node (applyDone k kind rt) = node rt.
Proof. by destruct kind. Qed.

Lemma applyDone_pc k kind rt : pc (applyDone k kind rt) = pc rt.
Proof. by destruct kind. Qed.

#[export] Hint Rewrite applyDone_node applyDone_pc : raft_rw.

(** A thread step never touches the voting state. *)
Lemma threadStep_frame self rt sent k c rt' ms :
  threadStep self rt sent k c = Some (rt', ms) ->
  core (node rt') = core (node rt) /\ pc rt' = pc rt /\ Forall (fun m => casts m = None) ms.
Proof.
  unfold threadStep. intros H.
  destruct (threads rt !! k) as [t|]; simplify_eq/=.
  destruct t, c; simplify_eq/=;
    try match goal with
        | H : context [aeReplyAt ?a ?b ?c ?d ?e] |- _ =>
            destruct (aeReplyAt a b c d e); simplify_eq/=
        | H : context [applyCh (node rt)] |- _ =>
            destruct (applyCh (node rt)); simplify_eq/=
        end;
    repeat case_match; simplify_eq/=; autorewrite with raft_rw; auto with raft;
    match goal with
    | H : heartbeatReply ?p ?a ?r ?n = _ |- _ =>
        pose proof (core_heartbeatReply p a r n) as Hc; rewrite H in Hc; auto
    | H : replicateReply ?p ?a ?r ?n = _ |- _ =>
        pose proof (core_replicateReply p a r n) as Hc; rewrite H in Hc; auto
    end.
Qed.

Lemma clientStep_frame rt cmd :
  core (node (clientStep rt cmd)) = core (node rt) /\ pc (clientStep rt cmd) = pc rt.
Proof.
  unfold clientStep, replicateBegin. destruct (IsLeader (node rt)); simpl; auto.
Qed.

Lemma localStep_effect self rt sent ev rt' ms :
  localStep self rt sent ev = Some (rt', ms) ->
  (forall i m, ev = EvDeliver i -> sent !! i = Some m -> destination m = self) ->
  effect self rt rt' sent ms.
Proof.
  intros H Hdest. destruct ev as [n e|n k c|n cmd|i|n]; simpl in H.
  - by eapply runStep_effect.
  - apply threadStep_frame in H as (? & ? & ?). apply E_quiet; unfold quiet_pc; auto with raft.
  - simplify_eq. destruct (clientStep_frame rt cmd). apply E_quiet; unfold quiet_pc; auto with raft.
  - destruct (sent !! i) as [m|] eqn:E; simplify_eq/=.
    specialize (Hdest i m eq_refl E). pose proof (list_elem_of_lookup_2 _ _ _ E) as Hin.
    destruct m as [from to args| |from to rpc args|]; simplify_eq/=.
    + destruct (HandleRequestVote args (node rt)) as [n' reply] eqn:Hh. simplify_eq.
      by eapply E_grant.
    + destruct (HandleAppendEntries args (node rt)) as [[n' reply] b] eqn:Hh. simplify_eq.
      apply E_quiet; simpl; [by eapply HandleAppendEntries_le|by repeat constructor|by left].
  - simplify_eq. apply E_quiet; unfold quiet_pc; simpl; auto with raft.
Qed.

(** ** The invariant *)

Section ElectionInvariant.
Context (ids : list string).

(** [n] collected votes of the distinct nodes [q] for term [t]. *)
Definition votes_from (s : Cluster) (n : string) (t : Z) (q : list string) : Prop :=
  NoDup q /\ q ⊆ ids /\ forall v, v ∈ q -> voted s v t n.

Definition has_majority (s : Cluster) (n : string) (t : Z) : Prop :=
  exists q, votes_from s n t q /\
    (Z.of_nat (length (peersOf ids n)) + 1) / 2 + 1 <= Z.of_nat (length q).

(** A candidate's tally: [k] distinct votes, none from a peer in [w].  A node
    without peers sends no request; it never counts a vote either. *)
Definition cand_ok (s : Cluster) (n : string) (t k : Z) (w : list string) : Prop :=
  NoDup w /\ w ⊆ peersOf ids n /\
  (peersOf ids n <> [] -> exists q, votes_from s n t q /\
     Z.of_nat (length q) = k /\ (forall v, v ∈ q -> (v ∉ w))).

Record election_inv (s : Cluster) : Prop := {
  inv_node : forall n rt, nodes s !! n = Some rt ->
    n ∈ ids /\ id (node rt) = n /\ peers (node rt) = peersOf ids n;
  inv_request : forall from to args, MRequestVote from to args ∈ net s ->
    rvCandidateID args = from /\ from ∈ ids;
  inv_voted : forall v t c, voted s v t c ->
    v ∈ ids /\ c ∈ ids /\ exists rt, nodes s !! v = Some rt /\
    t <= currentTerm (node rt) /\
    (t = currentTerm (node rt) -> votedFor (node rt) = c);
  inv_unique : forall v t c1 c2, voted s v t c1 -> voted s v t c2 -> c1 = c2;
  inv_cand : forall n rt t k w, nodes s !! n = Some rt -> pc rt = PcCand t k w ->
    cand_ok s n t k w;
  inv_won : forall n rt t, nodes s !! n = Some rt -> pc rt = PcWon t -> has_majority s n t;
  inv_leader : forall n rt, nodes s !! n = Some rt -> state (node rt) = Leader ->
    leaderless (pc rt) = false /\ has_majority s n (currentTerm (node rt)) }.

(** Terms stay below the wrap-around of [currentTerm++]. *)
Definition no_wrap (s : Cluster) : Prop :=
  forall n rt, nodes s !! n = Some rt -> 0 <= currentTerm (node rt) < 2 ^ 64 - 1.

Lemma voted_put n rt ms s v t c :
  voted (put n rt ms s) v t c <->
  voted s v t c \/ exists m, m ∈ ms /\ casts m = Some (v, t, c).
Proof.
  unfold voted, put. simpl. split.
  - intros (m & [?|?]%elem_of_app & ?); eauto.
  - intros [(m & ? & ?)|(m & ? & ?)]; exists m; rewrite elem_of_app; auto.
Qed.

Lemma votes_from_put n rt ms s c t q :
  votes_from s c t q -> votes_from (put n rt ms s) c t q.
Proof. intros (? & ? & H). split_and!; auto. intros v Hv. apply voted_put. auto. Qed.

Lemma has_majority_put n rt ms s c t :
  has_majority s c t -> has_majority (put n rt ms s) c t.
Proof. intros (q & ? & ?). exists q. eauto using votes_from_put. Qed.

Lemma nodes_put n rt ms s m rm :
  nodes (put n rt ms s) !! m = Some rm ->
  (m = n /\ rm = rt) \/ (m <> n /\ nodes s !! m = Some rm).
Proof. simpl. rewrite lookup_insert_Some. intros [[? ?]|[? ?]]; auto. Qed.

Lemma cand_ok_put n rt ms s c t k w :
  cand_ok s c t k w -> cand_ok (put n rt ms s) c t k w.
Proof.
  intros (? & ? & Hq). split_and!; auto. intros Hne.
  destruct (Hq Hne) as (q & ? & ? & ?). exists q. eauto using votes_from_put.
Qed.

(** An old vote stays accounted for when its voter moves forward. *)
Lemma voted_forward s n rt rt' ms v t c :
  election_inv s -> "" ∉ ids -> nodes s !! n = Some rt -> vote_le (node rt) (node rt') ->
  voted s v t c ->
  v ∈ ids /\ c ∈ ids /\ exists rv, nodes (put n rt' ms s) !! v = Some rv /\
    t <= currentTerm (node rv) /\ (t = currentTerm (node rv) -> votedFor (node rv) = c).
Proof.
  intros Hinv Hne Hn Hle Hv. destruct (inv_voted _ Hinv _ _ _ Hv) as (Hvi & Hci & rv & Hrv & Ht & Hf).
  split_and!; [done|done|]. simpl. destruct (decide (v = n)) as [->|Hvn].
  - simplify_eq. exists rt'. rewrite lookup_insert_eq. destruct Hle as (_ & _ & Hlt & Hlv).
    split_and!; [done|lia|]. intros Heq. rewrite Hlv; [apply Hf; lia|lia|].
    rewrite Hf by lia. intros ->. done.
  - exists rv. by rewrite lookup_insert_ne.
Qed.

(** A step forward of one node that may cast votes for its current term. *)
Lemma forward_preserves s n rt rt' ms :
  election_inv s -> "" ∉ ids -> nodes s !! n = Some rt ->
  vote_le (node rt) (node rt') ->
  (forall from to args, MRequestVote from to args ∈ ms -> rvCandidateID args = from /\ from ∈ ids) ->
  (forall m v t c, m ∈ ms -> casts m = Some (v, t, c) ->
    v = n /\ t = currentTerm (node rt') /\ c = votedFor (node rt') /\ c ∈ ids /\
    (forall c', voted s n t c' -> c' = c)) ->
  (forall t k w, pc rt' = PcCand t k w -> cand_ok (put n rt' ms s) n t k w) ->
  (forall t, pc rt' = PcWon t -> has_majority s n t) ->
  (state (node rt') = Leader ->
    leaderless (pc rt') = false /\ has_majority s n (currentTerm (node rt'))) ->
  election_inv (put n rt' ms s).
Proof.
  intros Hinv Hne Hn Hle Hreq Hvote Hcand Hwon Hlead.
  assert (forall v t c, voted (put n rt' ms s) v t c -> voted s v t c \/
    (v = n /\ t = currentTerm (node rt') /\ c = votedFor (node rt') /\ c ∈ ids /\
     forall c', voted s n t c' -> c' = c)) as Hnew.
  { intros v t c [?|(m & Hm & Hc)]%voted_put; [by left|right; by eapply Hvote]. }
  pose proof Hle as (Hid & Hp & _ & _).
  split.
  - intros m rm [[-> ->]|[? ?]]%nodes_put; [|by eapply inv_node].
    rewrite Hid, Hp. by eapply inv_node.
  - intros from to args [?|Hin]%elem_of_app; [by eapply inv_request|]. by eapply Hreq.
  - intros v t c [Hv|(-> & -> & -> & ? & _)]%Hnew; [by eapply voted_forward|].
    split_and!; [by eapply inv_node|done|]. exists rt'. simpl.
    rewrite lookup_insert_eq. split_and!; [done|lia|done].
  - intros v t c1 c2 [H1|(-> & E1 & -> & ? & U1)]%Hnew [H2|(? & E2 & -> & ? & U2)]%Hnew;
      subst; auto; [by eapply inv_unique|symmetry; auto].
  - intros m rm t k w [[-> ->]|[? Hm]]%nodes_put Hpcm; [by apply Hcand|].
    apply cand_ok_put. by eapply inv_cand.
  - intros m rm t [[-> ->]|[? Hm]]%nodes_put Hpcm; apply has_majority_put; [by apply Hwon|].
    by eapply inv_won.
  - intros m rm [[-> ->]|[? Hm]]%nodes_put Hst.
    + destruct (Hlead Hst). split; [done|by apply has_majority_put].
    + destruct (inv_leader _ Hinv _ _ Hm Hst). split; [done|by apply has_majority_put].
Qed.

Context (ids_nodup : NoDup ids) (ids_nonempty : "" ∉ ids).

Lemma quiet_preserves s n rt rt' ms :
  election_inv s -> nodes s !! n = Some rt -> node_le (node rt) (node rt') ->
  Forall (fun m => casts m = None) ms -> quiet_pc rt rt' ->
  election_inv (put n rt' ms s).
Proof.
  intros Hinv Hn Hle Hms Hpc. rewrite Forall_forall in Hms.
  eapply forward_preserves; eauto using node_le_vote.
  - intros from to args Hin. by apply Hms in Hin.
  - intros m v t c Hm Hc. rewrite Hms in Hc; done.
  - intros t k w Hw. apply cand_ok_put. destruct Hpc as [Hpc|[Hpc _]].
    + eapply inv_cand; [done|done|congruence].
    + by rewrite Hw in Hpc.
  - intros t Hw. destruct Hpc as [Hpc|[Hpc _]]; [|by rewrite Hw in Hpc].
    eapply inv_won; [done|done|congruence].
  - intros Hst. destruct (le_leader _ _ Hle Hst) as [Hst0 ->].
    destruct (inv_leader _ Hinv _ _ Hn Hst0) as [Hl ?]. split; [|done].
    destruct Hpc as [->|[_ Hpc]]; [done|].
    destruct (leaderless (pc rt')); [|done]. exfalso. by apply Hpc.
Qed.

Lemma elect_preserves s n rt rt' ms :
  election_inv s -> no_wrap s -> nodes s !! n = Some rt -> pc rt = PcCandStart ->
  node rt' = startElection (node rt) ->
  pc rt' = PcCand (currentTerm (node rt')) 1 (peers (node rt)) ->
  ms = (fun p => MRequestVote n p (voteRequest (node rt'))) <$> peers (node rt) ->
  election_inv (put n rt' ms s).
Proof.
  intros Hinv Hnw Hn Hpc Hrt Hpc' Hms.
  destruct (inv_node _ Hinv _ _ Hn) as (Hni & Hid & Hpeers).
  assert (currentTerm (node rt') = currentTerm (node rt) + 1) as Ht.
  { rewrite Hrt. simpl. apply u64_small. specialize (Hnw _ _ Hn). unfold is_u64. lia. }
  assert (votedFor (node rt') = n) as Hvf by (rewrite Hrt; done).
  assert (forall m v t c, m ∈ ms -> casts m = Some (v, t, c) ->
    v = n /\ t = currentTerm (node rt') /\ c = n) as Hcasts.
  { intros m v t c Hm Hc. rewrite Hms in Hm. apply list_elem_of_fmap in Hm as (p & -> & _).
    simpl in Hc. by simplify_eq. }
  eapply forward_preserves; [done..|exact Hn| | | | | |].
  - unfold vote_le. split_and!; [by rewrite Hrt|by rewrite Hrt|lia|lia].
  - intros from to args Hin. rewrite Hms in Hin.
    apply list_elem_of_fmap in Hin as (p & [= -> -> ->] & _). split; [|done]. by rewrite Hrt.
  - intros m v t c Hm Hc. destruct (Hcasts _ _ _ _ Hm Hc) as (-> & -> & ->).
    rewrite Hvf. split_and!; try done. intros c' Hv.
    destruct (inv_voted _ Hinv _ _ _ Hv) as (_ & _ & rv & Hrv & Hle & _). simplify_eq. lia.
  - intros t k w Hw. rewrite Hw in Hpc'. injection Hpc' as -> -> ->. rewrite Hpeers. split_and!.
    + by apply NoDup_filter.
    + done.
    + intros Hne. exists [n]. split_and!; [|done|].
      * split_and!; [apply NoDup_singleton| |].
        -- intros x ->%list_elem_of_singleton. done.
        -- intros v ->%list_elem_of_singleton. apply voted_put. right.
           destruct (peersOf ids n) as [|p ps] eqn:E; [done|].
           exists (MRequestVote n p (voteRequest (node rt'))).
           rewrite Hms, Hpeers. split; [by left|done].
      * intros v ->%list_elem_of_singleton [? _]%elem_of_filter_ne. done.
  - intros t Hw. congruence.
  - intros Hst. assert (state (node rt) = Leader) as Hl by (by rewrite Hrt in Hst).
    destruct (inv_leader _ Hinv _ _ Hn Hl) as [Hl' _]. by rewrite Hpc in Hl'.
Qed.

Lemma grant_preserves s n rt rt' ms from args reply :
  election_inv s -> nodes s !! n = Some rt -> MRequestVote from n args ∈ net s ->
  HandleRequestVote args (node rt) = (node rt', reply) -> pc rt' = pc rt ->
  ms = [MRequestVoteReply n from args reply] -> election_inv (put n rt' ms s).
Proof.
  intros Hinv Hn Hreq Hh Hpc ->.
  pose proof (HandleRequestVote_le _ _ _ _ Hh) as Hle.
  destruct (inv_request _ Hinv _ _ _ Hreq) as [Hcid Hfrom].
  eapply forward_preserves; [done..|exact Hn|by apply node_le_vote| | | | |].
  - intros f to a Hin%list_elem_of_singleton. done.
  - intros m v t c ->%list_elem_of_singleton Hc. simpl in Hc.
    destruct (rvrVoteGranted reply) eqn:Hg; [|done]. injection Hc as <- <- <-.
    destruct (HandleRequestVote_granted _ _ _ _ Hh Hg) as (Hge & Ht & Hv & Hold).
    rewrite Ht, Hv, Hcid. split_and!; [done..|]. intros c' Hvote.
    destruct (inv_voted _ Hinv _ _ _ Hvote) as (_ & Hc' & rv & Hrv & Hle' & Hf).
    rewrite Hn in Hrv. injection Hrv as <-. specialize (Hf ltac:(lia)).
    destruct Hold as [He|He]; [lia| |congruence]. rewrite He in Hf. by subst.
  - intros t k w Hw. apply cand_ok_put. eapply inv_cand; [done|done|congruence].
  - intros t Hw. eapply inv_won; [done|done|congruence].
  - intros Hst. destruct (le_leader _ _ Hle Hst) as [Hst0 ->]. rewrite Hpc.
    by eapply inv_leader.
Qed.

Lemma count_preserves s n rt rt' ms term votes waiting p waiting' (granted : bool) :
  election_inv s -> nodes s !! n = Some rt -> node rt' = node rt -> ms = [] ->
  pc rt = PcCand term votes waiting -> removeFirst p waiting = Some waiting' ->
  (granted = true -> exists m, m ∈ net s /\ casts m = Some (p, term, n)) ->
  (if granted
   then pc rt' = PcCand term (votes + 1) waiting' \/
        pc rt' = PcWon term /\ majority (node rt) <= votes + 1
   else pc rt' = PcCand term votes waiting') ->
  election_inv (put n rt' ms s).
Proof.
  intros Hinv Hn Hnode -> Hpc Hrm Hvote Hpc'.
  destruct (inv_node _ Hinv _ _ Hn) as (Hni & Hid & Hpeers).
  destruct (inv_cand _ Hinv _ _ _ _ _ Hn Hpc) as (Hnd & Hsub & Hq).
  apply removeFirst_perm in Hrm.
  assert (p ∈ waiting) as Hp by (rewrite Hrm; by left).
  assert (peersOf ids n <> []) as Hne.
  { intros E. apply Hsub in Hp. rewrite E in Hp. by apply not_elem_of_nil in Hp. }
  destruct (Hq Hne) as (q & (Hqn & Hqs & Hqv) & Hlen & Hdis).
  assert (NoDup waiting' /\ p ∉ waiting') as [Hnd' Hpw].
  { rewrite Hrm in Hnd. by apply NoDup_cons in Hnd as [? ?]. }
  assert (waiting' ⊆ waiting) as Hww by (intros x Hx; rewrite Hrm; by right).
  assert (forall r, granted = true -> votes_from (put n r [] s) n term (p :: q)) as Hpq.
  { intros r Hg. split_and!.
    - apply NoDup_cons. split; [|done]. intros Hin. by eapply Hdis.
    - intros x [->|Hx]%elem_of_cons; [|by apply Hqs].
      apply Hsub, elem_of_filter_ne in Hp. by destruct Hp.
    - intros v [->|Hx]%elem_of_cons; apply voted_put; left; [|by apply Hqv].
      exact (Hvote Hg). }
  assert (forall r, granted = true -> exists q', votes_from (put n r [] s) n term q' /\
    Z.of_nat (length q') = votes + 1 /\ (forall v, v ∈ q' -> (v ∉ waiting'))) as Hmore.
  { intros r Hg. exists (p :: q). split_and!; [by apply Hpq|simpl; lia|].
    intros v [->|Hx]%elem_of_cons; [done|]. intros Hin. eapply Hdis; eauto. }
  eapply forward_preserves; [done..|exact Hn| | | | | |].
  - apply node_le_vote. rewrite Hnode. apply node_le_refl.
  - intros f to a Hin. by apply not_elem_of_nil in Hin.
  - intros m v t c Hin. by apply not_elem_of_nil in Hin.
  - intros t k w Hw. destruct granted.
    + destruct Hpc' as [Hpc'|[Hpc' _]]; [|congruence]. rewrite Hw in Hpc'.
      injection Hpc' as -> -> ->. split_and!; [done|by etrans|]. intros _. by apply Hmore.
    + rewrite Hw in Hpc'. injection Hpc' as -> -> ->. split_and!; [done|by etrans|].
      intros _. exists q. split_and!; [by apply votes_from_put|done|].
      intros v Hv Hin. eapply Hdis; eauto.
  - intros t Hw. destruct granted; [|congruence]. destruct Hpc' as [?|[Hpc' Hmaj]]; [congruence|].
    rewrite Hw in Hpc'. injection Hpc' as ->. unfold majority in Hmaj. rewrite Hpeers in Hmaj.
    exists (p :: q). split; [|simpl; lia]. destruct (Hpq rt eq_refl) as (? & ? & Hv).
    split_and!; [done|done|]. intros v Hin. specialize (Hv v Hin).
    apply voted_put in Hv as [?|(m & Hm & _)]; [done|]. by apply not_elem_of_nil in Hm.
  - rewrite Hnode. intros Hst. destruct (inv_leader _ Hinv _ _ Hn Hst) as [Hl _].
    by rewrite Hpc in Hl.
Qed.

Lemma lead_preserves s n rt rt' ms term :
  election_inv s -> nodes s !! n = Some rt -> pc rt = PcWon term ->
  node rt' = becomeLeader term (node rt) -> pc rt' = PcTop -> ms = [] ->
  election_inv (put n rt' ms s).
Proof.
  intros Hinv Hn Hpc Hnode Hpc' ->.
  destruct (becomeLeader_inv term (node rt)) as [Hc|(Ht & Hs & Hc)]; rewrite <- Hnode in Hc.
  { eapply quiet_preserves; eauto with raft. right. by rewrite Hpc'. }
  unfold core in Hc. injection Hc as Hid Hp Hterm Hvf Hst.
  eapply forward_preserves; [done..|exact Hn| | | | | |].
  - unfold vote_le. split_and!; try done. lia.
  - intros f to a Hin. by apply not_elem_of_nil in Hin.
  - intros m v t c Hin. by apply not_elem_of_nil in Hin.
  - intros t k w Hw. congruence.
  - intros t Hw. congruence.
  - intros _. rewrite Hpc', Hterm, Ht. split; [done|]. by eapply inv_won.
Qed.

Lemma election_inv_step s s' : election_inv s -> no_wrap s -> cstep s s' -> election_inv s'.
Proof.
  intros Hinv Hnw (ev & n & rt & rt' & ms & Hact & Hn & Hloc & ->)%cstep_inv.
  assert (effect n rt rt' (net s) ms) as Heff.
  { eapply localStep_effect; [exact Hloc|]. intros i m -> Hm. simpl in Hact.
    rewrite Hm in Hact. by simplify_eq/=. }
  destruct Heff; eauto using quiet_preserves, elect_preserves, grant_preserves,
    count_preserves, lead_preserves.
Qed.

Lemma election_inv_init ch : election_inv (NewCluster ids ch).
Proof.
  assert (forall n rt, nodes (NewCluster ids ch) !! n = Some rt ->
    n ∈ ids /\ rt = newRuntime n (peersOf ids n) ch) as Hnodes.
  { intros n rt Hl. simpl in Hl. apply elem_of_list_to_map_2 in Hl.
    apply list_elem_of_fmap in Hl as (i & [= -> ->] & ?). done. }
  assert (forall v t c, voted (NewCluster ids ch) v t c -> False) as Hnv.
  { intros v t c (m & Hm & _). by apply not_elem_of_nil in Hm. }
  split.
  - intros n rt [? ->]%Hnodes. done.
  - intros f to a Hin. by apply not_elem_of_nil in Hin.
  - intros v t c Hv. by apply Hnv in Hv.
  - intros v t c1 c2 Hv. by apply Hnv in Hv.
  - intros n rt t k w [? ->]%Hnodes Hpc. done.
  - intros n rt t [? ->]%Hnodes Hpc. done.
  - intros n rt [? ->]%Hnodes Hst. done.
Qed.
End ElectionInvariant.

(** ** Terms grow by at most one per step

    Every term in the system comes from some [currentTerm++], so a run of [k]
    steps only contains terms up to [k]; the counter cannot wrap around in a
    run of fewer than [2^64 - 1] steps. *)

Definition bounded (k : Z) (n : Node) : Prop :=
  0 <= currentTerm n <= k /\ Forall (fun t => t <= k) (stepDownCh n).

Definition msg_le (k : Z) (m : Message) : Prop :=
  match m with
  | MRequestVote _ _ args => rvTerm args <= k
  | MRequestVoteReply _ _ _ reply => rvrTerm reply <= k
  | MAppendEntries _ _ _ args => aeTerm args <= k
  | MAppendEntriesReply _ _ _ reply => aerTerm reply <= k
  end.

Definition rt_le (k : Z) (rt : Runtime) : Prop :=
  bounded k (node rt) /\ (forall t, pc rt = PcStepDown t -> t <= k).

Definition terms_le (k : Z) (s : Cluster) : Prop :=
  map_Forall (fun _ => rt_le k) (nodes s) /\ Forall (msg_le k) (net s).

Lemma bounded_mono k k' n : bounded k n -> k <= k' -> bounded k' n.
Proof.
  intros [? H] ?. split; [lia|]. eapply Forall_impl; [exact H|]. simpl. lia.
Qed.

Lemma msg_le_mono k k' m : msg_le k m -> k <= k' -> msg_le k' m.
Proof. destruct m; simpl; lia. Qed.

Lemma rt_le_mono k k' rt : rt_le k rt -> k <= k' -> rt_le k' rt.
Proof.
  intros [? H] ?. split; [by eapply bounded_mono|]. intros t Ht. specialize (H t Ht). lia.
Qed.

(** The fields [bounded] looks at. *)
Definition tproj (n : Node) : Z * list Z := (currentTerm n, stepDownCh n).

Lemma bounded_tproj k n n' : tproj n' = tproj n -> bounded k n -> bounded k n'.
Proof. unfold tproj, bounded. by intros [= -> ->]. Qed.

Lemma tproj_signalReset n : tproj (signalReset n) = tproj n.
Proof. unfold signalReset. by case_if. Qed.

Lemma tproj_advance n : tproj (advanceCommitIndex n) = tproj n.
Proof.
  unfold advanceCommitIndex. generalize (seqZ (commitIndex n + 1)
    (fst (lastIndexAndTerm (log n)) - commitIndex n)) as l.
  intros l. revert n. induction l as [|i l IH]; intros n; simpl; [done|].
  rewrite IH. unfold advanceAt. by repeat case_match.
Qed.

Lemma tproj_becomeLeader t n : tproj (becomeLeader t n) = tproj n.
Proof. unfold becomeLeader. by repeat case_if. Qed.

Lemma tproj_replicateCommit e n : tproj (replicateCommit e n) = tproj n.
Proof. unfold replicateCommit. by case_if. Qed.

Lemma tproj_Stop n : tproj (Stop n) = tproj n.
Proof. unfold Stop. by case_if. Qed.

Lemma tproj_storeEntries args n : tproj (fst (storeEntries args n)) = tproj n.
Proof. unfold storeEntries. by case_if. Qed.

#[export] Hint Resolve bounded_tproj tproj_signalReset tproj_advance tproj_becomeLeader
  tproj_replicateCommit tproj_Stop tproj_storeEntries : raft.

Lemma bounded_becomeFollower k t n : bounded k n -> t <= k -> bounded k (becomeFollower t n).
Proof.
  intros [? ?] ?. unfold becomeFollower, bounded. case_if; breflect; simpl; split; auto; lia.
Qed.

Lemma bounded_signalStepDown k t n : bounded k n -> t <= k -> bounded k (signalStepDown t n).
Proof.
  intros [? ?] ?. unfold signalStepDown, bounded. case_if; simpl; [|done].
  split; [done|]. apply Forall_app. auto.
Qed.

Lemma bounded_HandleRequestVote k args n n' r :
  HandleRequestVote args n = (n', r) -> bounded k n -> rvTerm args <= k ->
  bounded k n' /\ rvrTerm r <= k.
Proof.
  unfold HandleRequestVote. intros H Hb Hk. case_if; simplify_eq/=; [by destruct Hb; split; [|lia]|].
  set (n1 := if currentTerm n <? rvTerm args then becomeFollower (rvTerm args) n else n) in *.
  assert (bounded k n1) as H1 by (unfold n1; case_if; auto using bounded_becomeFollower).
  case_if; simplify_eq/=; (split; [|apply H1]); [done|].
  eapply bounded_tproj; [apply tproj_signalReset|]. exact H1.
Qed.

Lemma bounded_acceptLeader k args n :
  bounded k n -> aeTerm args <= k -> bounded k (acceptLeader args n).
Proof.
  intros Hb Hk. unfold acceptLeader.
  set (n1 := if currentTerm n <? aeTerm args then becomeFollower (aeTerm args) n else n).
  assert (bounded k n1) as H1 by (unfold n1; case_if; auto using bounded_becomeFollower).
  set (n2 := if bool_decide (state n1 = Candidate) then set_state Follower n1 else n1).
  assert (bounded k n2) as H2 by (unfold n2; by case_if).
  exact (bounded_tproj k _ _ (tproj_signalReset n2) H2).
Qed.

Lemma bounded_HandleAppendEntries k args n n' r b :
  HandleAppendEntries args n = (n', r, b) -> bounded k n -> aeTerm args <= k ->
  bounded k n' /\ aerTerm r <= k.
Proof.
  unfold HandleAppendEntries. intros H Hb Hk. case_if; simplify_eq/=; [by destruct Hb; split; [|lia]|].
  pose proof (bounded_acceptLeader k args n Hb Hk) as H1.
  case_if; [|simplify_eq/=; split; [done|apply H1]].
  destruct (storeEntries args (acceptLeader args n)) as [n2 sp] eqn:E. simplify_eq/=.
  split; [|apply H1].
  pose proof (tproj_storeEntries args (acceptLeader args n)) as Ht. rewrite E in Ht.
  by eapply bounded_tproj.
Qed.

Lemma bounded_heartbeatReply k p args r n :
  bounded k n -> aerTerm r <= k -> bounded k (fst (heartbeatReply p args r n)).
Proof.
  intros Hb Hr. unfold heartbeatReply.
  repeat (case_match; simpl); try apply bounded_signalStepDown; auto;
    eapply bounded_tproj; try apply tproj_advance; auto.
Qed.

Lemma bounded_replicateReply k p pe r n :
  bounded k n -> aerTerm r <= k -> bounded k (fst (replicateReply p pe r n)).
Proof.
  intros Hb Hr. unfold replicateReply.
  repeat (case_match; simpl); try apply bounded_signalStepDown; auto.
Qed.

Lemma rt_le_pop k rt t rest :
  bounded k (node rt) -> stepDownCh (node rt) = t :: rest ->
  rt_le k (with_pc (PcStepDown t) (with_node (set_stepDownCh rest) rt)).
Proof.
  intros [? Hf] E. rewrite E in Hf. apply Forall_cons in Hf as [? ?].
  split; simpl; [by split|by intros ? [= <-]].
Qed.

Lemma runStep_le k self rt sent ev rt' ms :
  k + 1 < 2 ^ 64 -> rt_le k rt -> Forall (msg_le k) sent ->
  runStep self rt sent ev = Some (rt', ms) ->
  rt_le (k + 1) rt' /\ Forall (msg_le (k + 1)) ms.
Proof.
  intros Hk [Hb Hpc] Hsent H.
  assert (bounded (k + 1) (node rt)) as Hb' by (eapply bounded_mono; [done|lia]).
  assert (forall t, pc rt = PcStepDown t -> t <= k + 1) as Hpc'.
  { intros t Ht. specialize (Hpc t Ht). lia. }
  unfold runStep in H. destruct ev, (pc rt) eqn:E; simplify_eq/=;
    try match goal with
        | H : context [removeFirst ?p ?w] |- _ => destruct (removeFirst p w); simplify_eq/=
        end;
    repeat case_match; simplify_eq/=; try (split; [split|]; simpl; auto; done).
  - split; [split|]; simpl; auto. unfold dispatch. by repeat case_match.
  - split; [split|]; simpl; auto. by rewrite E.
  - eauto using rt_le_pop.
  - eauto using rt_le_pop.
  - eauto using rt_le_pop.
  - split; [split|]; simpl; auto; [|done]. apply bounded_becomeFollower; auto.
  - assert (u64 (currentTerm (node rt) + 1) = currentTerm (node rt) + 1) as Hu.
    { apply u64_small. destruct Hb. unfold is_u64. lia. }
    destruct Hb as [? Hf]. split; [split|]; simpl; auto; [|done|].
    + split; simpl; rewrite ?Hu; [lia|by destruct Hb'].
    + apply Forall_fmap, Forall_true. intros p. simpl. rewrite Hu. lia.
  - split; [split|]; simpl; auto. unfold countVote. repeat case_match; try done.
    intros t [= <-]. eapply Forall_lookup_1 in Hsent; [|done]. simpl in Hsent. lia.
  - split; [split|]; simpl; auto; [|done]. eapply bounded_tproj; [|done]. apply tproj_becomeLeader.
Qed.

Lemma threadStep_le k self rt sent i c rt' ms :
  rt_le k rt -> Forall (msg_le k) sent ->
  threadStep self rt sent i c = Some (rt', ms) ->
  rt_le k rt' /\ Forall (msg_le k) ms.
Proof.
  intros [Hb Hpc] Hsent H.
  destruct (threadStep_frame _ _ _ _ _ _ _ H) as (_ & Hpc' & _).
  assert (bounded k (node rt') /\ Forall (msg_le k) ms) as [? ?];
    [|split; [split; [done|by rewrite Hpc']|done]].
  unfold threadStep in H. destruct (threads rt !! i) as [t|]; simplify_eq/=.
  assert (forall j from to rpc r, aeReplyAt sent j from to rpc = Some r -> aerTerm r <= k) as Hr.
  { intros j from to rpc r. unfold aeReplyAt. destruct (sent !! j) as [[]|] eqn:Ej; try done.
    case_if; intros; simplify_eq. eapply Forall_lookup_1 in Hsent; [|done]. done. }
  destruct t, c; simplify_eq/=;
    try match goal with
        | H : context [aeReplyAt ?a ?b ?c ?d ?e] |- _ =>
            destruct (aeReplyAt a b c d e) eqn:Er; simplify_eq/=; apply Hr in Er
        | H : context [applyCh (node rt)] |- _ =>
            destruct (applyCh (node rt)); simplify_eq/=
        end;
    repeat case_match; simplify_eq/=; autorewrite with raft_rw; auto with raft;
    try match goal with
    | H : heartbeatReply ?p ?a ?r ?n = _ |- _ =>
        pose proof (bounded_heartbeatReply k p a r n) as Hc; rewrite H in Hc; auto
    | H : replicateReply ?p ?a ?r ?n = _ |- _ =>
        pose proof (bounded_replicateReply k p a r n) as Hc; rewrite H in Hc; auto
    end.
  - split; [done|]. repeat constructor. simpl. unfold heartbeatArgs. destruct Hb. case_if; simpl; lia.
  - split; [done|]. repeat constructor. simpl. unfold replicateArgs in *.
    case_if; simplify_eq/=. breflect. destruct Hb. lia.
  - split; [|done]. eapply bounded_tproj; [|done]. apply tproj_replicateCommit.
Qed.

Lemma localStep_le k self rt sent ev rt' ms :
  k + 1 < 2 ^ 64 -> rt_le k rt -> Forall (msg_le k) sent ->
  localStep self rt sent ev = Some (rt', ms) ->
  rt_le (k + 1) rt' /\ Forall (msg_le (k + 1)) ms.
Proof.
  intros Hk Hrt Hsent H. destruct ev as [n e|n i c|n cmd|i|n]; simpl in H.
  - by eapply runStep_le.
  - apply threadStep_le with (k := k) in H as [? Hm]; [|done|done].
    split; [eapply rt_le_mono; [done|lia]|]. eapply Forall_impl; [exact Hm|].
    intros; eapply msg_le_mono; [done|lia].
  - simplify_eq. split; [|done]. eapply rt_le_mono; [|shelve]. destruct Hrt as [Hb Hpc].
    split; [|by rewrite (proj2 (clientStep_frame rt cmd))].
    unfold clientStep, replicateBegin. by destruct (IsLeader (node rt)).
    Unshelve. lia.
  - destruct (sent !! i) as [m|] eqn:E; simplify_eq/=.
    eapply Forall_lookup_1 in Hsent; [|exact E]. destruct Hrt as [Hb Hpc].
    assert (bounded (k + 1) (node rt)) as Hb' by (eapply bounded_mono; [done|lia]).
    destruct m as [from to args| |from to rpc args|]; simplify_eq/=.
    + destruct (HandleRequestVote args (node rt)) as [n' reply] eqn:Hh. simplify_eq.
      eapply bounded_HandleRequestVote in Hh as [? ?]; [|exact Hb'|lia].
      split; [split|]; simpl; auto. intros t Ht. specialize (Hpc t Ht). lia.
    + destruct (HandleAppendEntries args (node rt)) as [[n' reply] b] eqn:Hh. simplify_eq.
      eapply bounded_HandleAppendEntries in Hh as [? ?]; [|exact Hb'|lia].
      split; [split|]; simpl; auto. intros t Ht. specialize (Hpc t Ht). lia.
  - simplify_eq. split; [|done]. eapply rt_le_mono; [|shelve]. destruct Hrt as [Hb Hpc].
    split; [|done]. simpl. eapply bounded_tproj; [apply tproj_Stop|done].
    Unshelve. lia.
Qed.

Lemma terms_le_step k s s' :
  k + 1 < 2 ^ 64 -> terms_le k s -> cstep s s' -> terms_le (k + 1) s'.
Proof.
  intros Hk [Hn Hm] (ev & n & rt & rt' & ms & _ & Hrt & Hloc & ->)%cstep_inv.
  destruct (localStep_le _ _ _ _ _ _ _ Hk (Hn _ _ Hrt) Hm Hloc) as [? ?].
  split; simpl.
  - apply map_Forall_insert_2; [done|]. intros i x Hx. eapply rt_le_mono; [by eapply Hn|lia].
  - apply Forall_app. split; [|done]. eapply Forall_impl; [exact Hm|].
    intros; eapply msg_le_mono; [done|lia].
Qed.

Lemma terms_le_init ids ch : terms_le 0 (NewCluster ids ch).
Proof.
  split; [|done]. intros n rt Hl. simpl in Hl. apply elem_of_list_to_map_2 in Hl.
  apply list_elem_of_fmap in Hl as (i & [= -> ->] & ?). split; [|done]. split; simpl; [lia|done].
Qed.

Lemma terms_le_no_wrap k s : terms_le k s -> k < 2 ^ 64 - 1 -> no_wrap s.
Proof. intros [H _] ? n rt Hn. destruct (H _ _ Hn) as [[? _] _]. lia. Qed.

(** ** Election safety *)

(** Both invariants along a run that starts with [k0] possible terms. *)
Lemma election_run ids k0 k s s' :
  NoDup ids -> "" ∉ ids -> nsteps cstep k s s' -> Z.of_nat (k0 + k) < 2 ^ 64 - 1 ->
  election_inv ids s -> terms_le (Z.of_nat k0) s ->
  election_inv ids s' /\ terms_le (Z.of_nat (k0 + k)) s' /\ net s `prefix_of` net s'.
Proof.
  intros Hnd Hne Hrun. revert k0. induction Hrun as [|k s1 s2 s3 Hstep Hrun IH];
    intros k0 Hk Hinv Hle.
  { rewrite Nat.add_0_r. auto. }
  destruct (IH (S k0)) as (? & ? & ?); [lia| | |].
  - eapply election_inv_step; [..|exact Hstep]; auto.
    eapply terms_le_no_wrap; [done|lia].
  - replace (Z.of_nat (S k0)) with (Z.of_nat k0 + 1) by lia.
    eapply terms_le_step; [lia|done|done].
  - replace (k0 + S k)%nat with (S k0 + k)%nat by lia. split_and!; [done|done|].
    etrans; [|done]. apply cstep_inv in Hstep as (? & ? & ? & ? & ms & _ & _ & _ & ->).
    by exists ms.
Qed.

Lemma has_majority_prefix ids s s' n t :
  has_majority ids s n t -> net s `prefix_of` net s' -> has_majority ids s' n t.
Proof.
  intros (q & (? & ? & Hv) & ?) [ms Hms]. exists q. split; [|done]. split_and!; [done..|].
  intros v Hin. destruct (Hv v Hin) as (m & Hm & ?). exists m. rewrite Hms, elem_of_app. auto.
Qed.

Lemma peersOf_length ids n :
  NoDup ids -> n ∈ ids -> (length (peersOf ids n) + 1 = length ids)%nat.
Proof.
  unfold peersOf. induction 1 as [|x l Hx Hnd IH]; intros Hin; [by apply not_elem_of_nil in Hin|].
  rewrite filter_cons. apply elem_of_cons in Hin as [->|Hin].
  - rewrite decide_False by auto. simpl. rewrite filter_ne_id by done. lia.
  - rewrite decide_True by (by intros ->). simpl. rewrite IH by done. lia.
Qed.

Lemma majority_unique ids s n1 n2 t :
  NoDup ids -> n1 ∈ ids -> n2 ∈ ids -> election_inv ids s ->
  has_majority ids s n1 t -> has_majority ids s n2 t -> n1 = n2.
Proof.
  intros Hnd H1 H2 Hinv (q1 & (Hn1 & Hs1 & Hv1) & Hl1) (q2 & (Hn2 & Hs2 & Hv2) & Hl2).
  pose proof (peersOf_length _ _ Hnd H1). pose proof (peersOf_length _ _ Hnd H2).
  destruct (quorum_intersection ids q1 q2) as (v & ? & ?); try done.
  { clear -Hl1 Hl2 H H0. div_lia. }
  eapply inv_unique; [exact Hinv|by apply Hv1|by apply Hv2].
Qed.

(** [n] is the leader of term [t]. *)
Definition leader_of (s : Cluster) (n : string) (t : Z) : Prop :=
  exists rt, nodes s !! n = Some rt /\ state (node rt) = Leader /\ currentTerm (node rt) = t.

(** Two nodes that lead at two moments of a run, with the same term. *)
Lemma leaders_agree ids ch k1 k2 s1 s2 n1 n2 rt1 rt2 :
  NoDup ids -> "" ∉ ids ->
  nsteps cstep k1 (NewCluster ids ch) s1 -> nsteps cstep k2 s1 s2 ->
  Z.of_nat (k1 + k2) < 2 ^ 64 - 1 ->
  nodes s1 !! n1 = Some rt1 -> state (node rt1) = Leader ->
  nodes s2 !! n2 = Some rt2 -> state (node rt2) = Leader ->
  currentTerm (node rt1) = currentTerm (node rt2) -> n1 = n2.
Proof.
  intros Hnd Hne Hrun1 Hrun2 Hk Hn1 Hs1 Hn2 Hs2 Ht.
  destruct (election_run ids 0 k1 (NewCluster ids ch) s1) as (Hi1 & Hle1 & _);
    auto using election_inv_init, terms_le_init; [lia|].
  destruct (election_run ids k1 k2 s1 s2) as (Hi2 & _ & Hpre); auto.
  destruct (inv_leader _ _ Hi1 _ _ Hn1 Hs1) as [_ Hm1].
  destruct (inv_leader _ _ Hi2 _ _ Hn2 Hs2) as [_ Hm2]. rewrite <- Ht in Hm2.
  eapply majority_unique; [exact Hnd|apply (inv_node _ _ Hi1 _ _ Hn1)|apply (inv_node _ _ Hi2 _ _ Hn2)
    |exact Hi2| |exact Hm2].
  by eapply has_majority_prefix.
Qed.

(** C4. Election safety: over every interleaving of the goroutines of a
    cluster whose members have distinct, non-empty ids, if [n1] is leader of
    term [t] in some state and [n2] is leader of the same term in that or any
    later state, then [n1] and [n2] are the same node.  The bound on the number
    of steps excludes a wrap-around of the 64-bit term counter. *)
Theorem election_safety ids ch k1 k2 s1 s2 n1 n2 t :
  NoDup ids -> "" ∉ ids ->
  nsteps cstep k1 (NewCluster ids ch) s1 -> nsteps cstep k2 s1 s2 ->
  Z.of_nat (k1 + k2) < 2 ^ 64 - 1 ->
  leader_of s1 n1 t -> leader_of s2 n2 t -> n1 = n2.
Proof.
  intros Hnd Hne Hrun1 Hrun2 Hk (rt1 & Hn1 & Hs1 & Ht1) (rt2 & Hn2 & Hs2 & Ht2).
  eapply leaders_agree; eauto. congruence.
Qed.

Definition abc : list string := ["nodeA"; "nodeB"; "nodeC"].

(** nodeA times out, wins nodeB's vote and becomes leader of term 1. *)
Definition elect_A : list Event :=
  [EvRun "nodeA" RLoop; EvRun "nodeA" RTimeout; EvRun "nodeA" RLoop;
   EvRun "nodeA" RElect; EvDeliver 0; EvRun "nodeA" (RVoteReply "nodeB" 2);
   EvRun "nodeA" RBecomeLeader].

Lemma abc_nodup : NoDup abc.
Proof. apply (bool_decide_unpack _). by vm_compute. Qed.

Lemma abc_nonempty : "" ∉ abc.
Proof. apply (bool_decide_unpack _). by vm_compute. Qed.

Lemma election_safety_witness :
  exists s, nsteps cstep 7 (NewCluster abc None) s /\ leader_of s "nodeA" 1 /\
    "nodeA" = "nodeA" :> string.
Proof.
  destruct (exec (NewCluster abc None) elect_A) as [s|] eqn:E; [|by vm_compute in E].
  assert (nsteps cstep 7 (NewCluster abc None) s) as Hrun by exact (exec_nsteps _ _ _ E).
  assert (leader_of s "nodeA" 1) as Hl.
  { vm_compute in E. injection E as <-. eexists. split; [by vm_compute|done]. }
  exists s. split; [exact Hrun|]. split; [exact Hl|].
  apply (election_safety abc None 7 0 s s "nodeA" "nodeA" 1 abc_nodup abc_nonempty Hrun
    (nsteps_O cstep s)); [by vm_compute|exact Hl|exact Hl].
Defined.
