(* ===== verification/RaftTraces.v ===== *)
(** * Runs of the cluster that break what Raft promises

    Each theorem exhibits a schedule of the goroutines (executed by [exec])
    that the code of src/raft allows.  They delimit what holds: election
    safety (RaftElection) holds of every run, the properties below do not. *)

From S2P Require Import Prelude RaftLog RaftNode RaftCluster RaftElection.

(** ** Schedules *)

(** The node times out and sends its vote requests. *)
Definition campaign (n : string) : list Event :=
  [EvRun n RLoop; EvRun n RTimeout; EvRun n RLoop; EvRun n RElect].

(** It counts the vote found at position [i] of the network and takes over. *)
Definition win (n voter : string) (i : nat) : list Event :=
  [EvRun n (RVoteReply voter i); EvRun n RBecomeLeader].

Definition beat (n : string) : list Event := [EvRun n RLoop; EvRun n RBeat].

Definition go (n : string) (k times : nat) : list Event :=
  replicate times (EvThread n k Go).

(** nodeA leads term 1 and appends "x", which reaches nobody.  nodeB leads term
    2, replicates "y" to nodeC, commits and acknowledges it; a heartbeat tells
    nodeC.  nodeC leads term 3 and sends its first heartbeat to nodeA: it is
    empty, so it carries no log position to check, but it carries the commit
    index 1. *)
Definition divergence : list Event :=
  campaign "nodeA" ++ [EvDeliver 0] ++ win "nodeA" "nodeB" 2 ++ [EvClient "nodeA" "x"] ++
  campaign "nodeB" ++ [EvDeliver 4] ++ win "nodeB" "nodeC" 5 ++ [EvClient "nodeB" "y"] ++
  go "nodeB" 2 1 ++ [EvDeliver 6; EvThread "nodeB" 2 (Reply 7); EvThread "nodeB" 0 (Take 2)] ++
  go "nodeB" 0 4 ++
  beat "nodeB" ++ go "nodeB" 4 1 ++ [EvDeliver 8] ++ go "nodeC" 0 2 ++
  campaign "nodeC" ++ [EvDeliver 11] ++ win "nodeC" "nodeB" 12 ++
  beat "nodeC" ++ go "nodeC" 1 1 ++ [EvDeliver 13] ++ go "nodeA" 3 2.

(** nodeA leads term 1 and has spawned its heartbeat goroutines when nodeB
    takes over term 2 with nodeA's own vote; only then does nodeA's heartbeat
    goroutine lock the node and read the term. *)
Definition late_heartbeat : list Event :=
  campaign "nodeA" ++ [EvDeliver 0] ++ win "nodeA" "nodeB" 2 ++ beat "nodeA" ++
  campaign "nodeB" ++ [EvDeliver 3] ++ win "nodeB" "nodeA" 5 ++ go "nodeA" 0 1.

(** nodeA commits "x" then "y"; nodeB learns of them from two messages, whose
    [applyCommitted] goroutines send on the channel in the other order. *)
Definition reordered_apply : list Event :=
  campaign "nodeA" ++ [EvDeliver 0] ++ win "nodeA" "nodeB" 2 ++
  [EvClient "nodeA" "x"] ++ go "nodeA" 1 1 ++ [EvDeliver 3; EvThread "nodeA" 1 (Reply 4)] ++
  [EvThread "nodeA" 0 (Take 1)] ++ go "nodeA" 0 4 ++
  [EvClient "nodeA" "y"] ++ go "nodeA" 4 1 ++ [EvDeliver 5; EvThread "nodeA" 4 (Reply 6)] ++
  go "nodeB" 0 1 ++
  [EvThread "nodeA" 3 (Take 4)] ++ go "nodeA" 3 4 ++
  beat "nodeA" ++ go "nodeA" 6 1 ++ [EvDeliver 7] ++ go "nodeB" 1 2 ++ go "nodeB" 0 1.

(** ** Observations on a cluster *)

(** The commands node [n] has handed to its KV apply loop. *)
Definition applied (s : Cluster) (n : string) : option (list string) :=
  rt ← nodes s !! n; applyCh (node rt).

(** The outcomes of the [Replicate] calls that returned on node [n]. *)
Definition outcomes (s : Cluster) (n : string) : list (nat * option ReplicateError) :=
  match nodes s !! n with Some rt => results rt | None => [] end.

Definition commands (s : Cluster) (n : string) : list string :=
  match nodes s !! n with Some rt => eCommand <$> log (node rt) | None => [] end.

Lemma exec_reaches s evs (P : Cluster -> Prop) :
  match exec s evs with Some s' => P s' | None => False end ->
  exists s', rtc cstep s s' /\ P s'.
Proof.
  destruct (exec s evs) as [s'|] eqn:E; [|done]. intros. exists s'. eauto using exec_rtc.
Qed.

(** C7. State machine safety fails: some run acknowledges the write "y" to
    its client, yet the replicas disagree on the first applied command: nodeB
    and nodeC apply "y", nodeA applies "x".  The heartbeat of a leader with
    nothing to send skips the log consistency check (PrevLogIndex 0) but still
    advances the follower's commit index over a conflicting entry. *)
Theorem state_machine_divergence :
  exists s, rtc cstep (NewCluster abc (Some [])) s /\
    outcomes s "nodeB" = [(0%nat, None)] /\
    applied s "nodeB" = Some ["y"] /\ applied s "nodeC" = Some ["y"] /\
    applied s "nodeA" = Some ["x"].
Proof. apply (exec_reaches _ divergence). by vm_compute. Qed.

(** A node sends AppendEntries for a term another node leads: in some run
    nodeB is leader of term 2 and the network carries an AppendEntries message
    of nodeA with term 2, because [sendHeartbeatToPeer] reads the term without
    testing that the node is still leader. *)
Theorem non_leader_append :
  exists s rpc args, rtc cstep (NewCluster abc (Some [])) s /\
    leader_of s "nodeB" 2 /\ MAppendEntries "nodeA" "nodeB" rpc args ∈ net s /\
    aeTerm args = 2 /\ aeLeaderID args = "nodeA".
Proof.
  destruct (exec_reaches (NewCluster abc (Some [])) late_heartbeat (fun s =>
    leader_of s "nodeB" 2 /\ exists rpc args, net s !! 6%nat = Some (MAppendEntries "nodeA" "nodeB" rpc args)
      /\ aeTerm args = 2 /\ aeLeaderID args = "nodeA")) as (s & Hr & Hl & rpc & args & Hm & Ht & Hi).
  { vm_compute. split; [eexists; split_and!; reflexivity|]. do 2 eexists. split_and!; reflexivity. }
  exists s, rpc, args. split_and!; try done. by eapply list_elem_of_lookup_2.
Qed.

(** Commands may reach the KV store in the wrong order: in some run the
    follower nodeB has the log "x", "y" and hands "y" to the store before "x",
    because [applyCommitted] sends on the channel after releasing the lock. *)
Theorem apply_out_of_order :
  exists s, rtc cstep (NewCluster abc (Some [])) s /\
    commands s "nodeB" = [""; "x"; "y"] /\ applied s "nodeA" = Some ["x"; "y"] /\
    applied s "nodeB" = Some ["y"; "x"].
Proof. apply (exec_reaches _ reordered_apply). by vm_compute. Qed.

(** ** Restarts

    [cmd/node] keeps the Raft state in memory: a process that is stopped and
    started again calls [NewNode] with an empty log, term 0, no vote and a fresh channel. *)
Definition restart (n : string) (s : Cluster) : Cluster :=
  match nodes s !! n with
  | None => s
  | Some rt => mkCluster (<[n := newRuntime n (peers (node rt)) ((fun _ => []) <$> applyCh (node rt))]> (nodes s)) (net s)
  end.

Definition cstep_restart (s s' : Cluster) : Prop :=
  cstep s s' \/ exists n, s' = restart n s.

(** C9. With restarts election safety is lost: nodeB votes for nodeA in term 1,
    restarts, and votes for nodeC in the same term; both lead term 1. *)
Theorem restart_breaks_election_safety :
  exists s, rtc cstep_restart (NewCluster abc None) s /\
    leader_of s "nodeA" 1 /\ leader_of s "nodeC" 1.
Proof.
  destruct (exec (NewCluster abc None) elect_A) as [s1|] eqn:E1; [|by vm_compute in E1].
  pose proof (exec_rtc _ _ _ E1) as H1.
  destruct (exec_reaches (restart "nodeB" s1)
    (campaign "nodeC" ++ [EvDeliver 4] ++ win "nodeC" "nodeB" 5)
    (fun s => leader_of s "nodeA" 1 /\ leader_of s "nodeC" 1)) as (s & H2 & Ha & Hc).
  { vm_compute in E1. injection E1 as <-. vm_compute.
    split; eexists; split_and!; reflexivity. }
  exists s. split_and!; [|done|done]. etrans; [|etrans].
  - eapply rtc_subrel; [|exact H1]. intros x y ?. by left.
  - apply rtc_once. right. by exists "nodeB".
  - eapply rtc_subrel; [|exact H2]. intros x y ?. by left.
Qed.

(** ** Clusters of one node *)

(** The single node of a cluster without peers: not a leader, no vote to count. *)
Definition solo_ok (rt : Runtime) : Prop :=
  peers (node rt) = [] /\ state (node rt) <> Leader /\
  (forall t, pc rt <> PcWon t) /\ (forall t k w, pc rt = PcCand t k w -> w = []).

Lemma solo_step self rt rt' sent ms :
  effect self rt rt' sent ms -> solo_ok rt -> solo_ok rt'.
Proof.
  intros Heff (Hp & Hs & Hw & Hc). destruct Heff as
    [Hle _ Hpc|_ Hn Hpc _|from args reply _ Hh Hpc _|t k w p w' g Hn _ Hpc Hrm _ _|t Hpc _ _ _].
  - split_and!; [by rewrite (le_peers _ _ Hle)|intros Hl; by apply (le_leader _ _ Hle) in Hl as [? _]
      | |].
    + intros t Ht. destruct Hpc as [Hpc|[Hpc _]]; [by apply (Hw t); rewrite <- Hpc|by rewrite Ht in Hpc].
    + intros t k w Ht. destruct Hpc as [Hpc|[Hpc _]]; [eapply Hc; by rewrite <- Hpc|by rewrite Ht in Hpc].
  - split_and!; [by rewrite Hn|by rewrite Hn|by rewrite Hpc|]. intros t k w Ht. congruence.
  - pose proof (HandleRequestVote_le _ _ _ _ Hh) as Hle. rewrite <- Hpc in Hw, Hc.
    split_and!; [by rewrite (le_peers _ _ Hle)|intros Hl; by apply (le_leader _ _ Hle) in Hl as [? _]
      |done|done].
  - rewrite (Hc _ _ _ Hpc) in Hrm. done.
  - by apply Hw in Hpc.
Qed.

(** A cluster of one node never elects a leader: [loopCandidate] counts
    votes only while it receives replies of peers, so the majority of one that
    the node already holds is never noticed. *)
Theorem single_node_never_leads n ch s m t :
  rtc cstep (NewCluster [n] ch) s -> ~ leader_of s m t.
Proof.
  intros Hr. assert (map_Forall (fun _ => solo_ok) (nodes s)) as Hall.
  { remember (NewCluster [n] ch) as s0 eqn:Hs0.
    assert (map_Forall (fun _ => solo_ok) (nodes s0)) as H0.
    { subst. simpl. rewrite insert_empty. apply map_Forall_singleton. split_and!; try done.
      unfold peersOf. simpl. by rewrite filter_cons_False by auto. }
    clear Hs0. induction Hr as [|s1 s2 s3 Hst _ IH]; [done|]. apply IH.
    apply cstep_inv in Hst as (ev & a & rt & rt' & ms & Hact & Hn & Hl & ->).
    apply map_Forall_insert_2; [|done].
    eapply solo_step; [|by eapply H0]. eapply localStep_effect; [exact Hl|].
    intros i msg -> Hm. simpl in Hact. rewrite Hm in Hact. by simplify_eq/=. }
  intros (rt & Hn & Hst & _). by destruct (Hall _ _ Hn) as (_ & ? & _).
Qed.

Lemma single_node_never_leads_witness :
  exists s, rtc cstep (NewCluster ["nodeA"] None) s /\
    commands s "nodeA" = [""] /\ ~ leader_of s "nodeA" 1.
Proof.
  destruct (exec (NewCluster ["nodeA"] None) (campaign "nodeA" ++ [EvRun "nodeA" RNoMajority]))
    as [s|] eqn:E; [|by vm_compute in E].
  exists s. pose proof (exec_rtc _ _ _ E) as Hr. split; [exact Hr|]. split.
  - vm_compute in E. injection E as <-. by vm_compute.
  - exact (single_node_never_leads "nodeA" None s "nodeA" 1 Hr).
Defined.
