(* ===== verification/RaftReplication.v ===== *)
(** * Log replication on one node (src/raft/election.go HandleAppendEntries,
    HandleRequestVote; src/raft/replication.go)

    Reference definitions of what the handlers and the commit and apply loops
    compute, and the proofs that the code computes them. *)

From S2P Require Import Prelude RaftLog RaftNode RaftElection.

(** ** The conflict-handling loop against a reference merge *)

(** How many leading entries of [es] the suffix [l] of a log already holds. *)
Fixpoint agreeing (l es : list LogEntry) : nat :=
  match l, es with
  | x :: l', e :: es' => if eTerm x =? eTerm e then S (agreeing l' es') else O
  | _, _ => O
  end.

(** Keep the log when it already holds all of [es] from position [k] on;
    otherwise keep it up to the first disagreement and continue with [es]. *)
Definition merge (l : list LogEntry) (k : nat) (es : list LogEntry) : list LogEntry :=
  let m := agreeing (drop k l) es in
  if (m =? length es)%nat then l else take (k + m) l ++ drop m es.

Lemma agreeing_le l es : (agreeing l es <= length es)%nat.
Proof.
  revert es. induction l as [|x l IH]; intros [|e es]; simpl; try lia.
  case_if; [|lia]. specialize (IH es). lia.
Qed.

Lemma agreeing_le_l l es : (agreeing l es <= length l)%nat.
Proof.
  revert es. induction l as [|x l IH]; intros [|e es]; simpl; try lia.
  case_if; [|lia]. specialize (IH es). lia.
Qed.

Lemma agreeing_lookup l es i e :
  (i < agreeing l es)%nat -> es !! i = Some e ->
  exists x, l !! i = Some x /\ eTerm x = eTerm e.
Proof.
  revert es i. induction l as [|x l IH]; intros [|e' es] i Hi He; simpl in *; try lia.
  destruct (eTerm x =? eTerm e') eqn:Hx; [|lia]. breflect.
  destruct i; simplify_eq/=; eauto. eapply IH; eauto. lia.
Qed.

(** A suffix that agrees on all of [es]. *)
Lemma agreeing_full l es :
  (forall i e, es !! i = Some e -> exists x, l !! i = Some x /\ eTerm x = eTerm e) ->
  agreeing l es = length es.
Proof.
  revert l. induction es as [|e es IH]; intros l H; simpl; [by destruct l|].
  destruct (H 0%nat e eq_refl) as (x & Hx & Ht). destruct l as [|x' l]; simplify_eq/=.
  rewrite (proj2 (Z.eqb_eq _ _) Ht). f_equal. apply IH. intros i e' He'.
  exact (H (S i) e' He').
Qed.

Lemma appendEntries_fresh l es :
  log_wf l -> indexed_from (lastIndex l + 1) es -> appendEntries l es = l ++ es.
Proof.
  revert l. induction es as [|e es IH]; intros l Hwf Hes; simpl; [by rewrite app_nil_r|].
  apply indexed_from_cons in Hes as [He Hes].
  rewrite log_wf_lastIndex in He by done. pose proof (log_wf_length _ Hwf).
  rewrite log_wf_entryAt by (done || lia). rewrite lookup_ge_None_2 by lia.
  rewrite IH.
  - unfold appendEntry. by rewrite <- app_assoc.
  - apply log_wf_append; [done|]. rewrite log_wf_lastIndex by done. lia.
  - rewrite lastIndex_append, He.
    rewrite log_wf_lastIndex in Hes by done. done.
Qed.

Lemma appendEntries_merge l k es :
  log_wf l -> 0 < k -> k <= lastIndex l + 1 -> lastIndex l < 2 ^ 64 ->
  indexed_from k es -> appendEntries l es = merge l (Z.to_nat k) es.
Proof.
  revert k. induction es as [|e es IH]; intros k Hwf Hk Hle Hmax Hes.
  { unfold merge. simpl. by destruct (drop (Z.to_nat k) l). }
  pose proof Hes as Hes0. apply indexed_from_cons in Hes as [He Hes]. simpl. rewrite He.
  rewrite log_wf_lastIndex in Hle by done.
  rewrite log_wf_entryAt by (done || lia).
  destruct (l !! Z.to_nat k) as [x|] eqn:Hx.
  - pose proof (lookup_lt_Some _ _ _ Hx). unfold merge. rewrite (drop_S _ _ _ Hx). simpl.
    destruct (eTerm x =? eTerm e) eqn:Ht; simpl.
    + rewrite (IH (k + 1)); try done; [|lia|rewrite log_wf_lastIndex by done; lia].
      unfold merge. replace (Z.to_nat (k + 1)) with (S (Z.to_nat k)) by lia.
      by replace (Z.to_nat k + S (agreeing (drop (S (Z.to_nat k)) l) es))%nat
        with (S (Z.to_nat k) + agreeing (drop (S (Z.to_nat k)) l) es)%nat by lia.
    + rewrite Nat.add_0_r, u64_small.
      2: { unfold is_u64. rewrite log_wf_lastIndex in Hmax by done. lia. }
      rewrite log_wf_truncateAfter by done.
      replace (Z.to_nat (k - 1 + 1)) with (Z.to_nat k) by lia.
      rewrite appendEntries_fresh.
      * unfold appendEntry. by rewrite <- app_assoc.
      * apply log_wf_append; [apply log_wf_take; [done|lia]|].
        rewrite log_wf_lastIndex by (apply log_wf_take; [done|lia]).
        rewrite length_take. lia.
      * by rewrite lastIndex_append, He.
  - apply lookup_ge_None in Hx. unfold merge. rewrite drop_ge by lia. simpl.
    rewrite take_ge by lia. rewrite appendEntries_fresh.
    + unfold appendEntry. by rewrite <- app_assoc.
    + apply log_wf_append; [done|]. rewrite log_wf_lastIndex by done. lia.
    + by rewrite lastIndex_append, He.
Qed.

Lemma merge_lookup_low l k es i :
  (i < k)%nat -> (k <= length l)%nat -> merge l k es !! i = l !! i.
Proof.
  intros Hi Hk. unfold merge. case_if; [done|].
  rewrite lookup_app_l by (rewrite length_take; lia). by rewrite lookup_take_lt by lia.
Qed.

(** After the merge every entry of [es] is stored, at least by term. *)
Lemma merge_lookup l k es i e :
  (k <= length l)%nat -> es !! i = Some e ->
  exists x, merge l k es !! (k + i)%nat = Some x /\ eTerm x = eTerm e.
Proof.
  intros Hk He. unfold merge.
  pose proof (agreeing_le (drop k l) es) as Hle. pose proof (agreeing_le_l (drop k l) es) as Hle2.
  rewrite length_drop in Hle2.
  destruct (decide (i < agreeing (drop k l) es)%nat) as [Hlt|Hge].
  - destruct (agreeing_lookup _ _ _ _ Hlt He) as (x & Hx & Ht). rewrite lookup_drop in Hx.
    exists x. split; [|done]. case_if; [done|].
    rewrite lookup_app_l by (rewrite length_take; lia). by rewrite lookup_take_lt by lia.
  - apply lookup_lt_Some in He as Hi. case_if; [apply Nat.eqb_eq in Heqb; lia|].
    exists e. split; [|done]. rewrite lookup_app_r; rewrite length_take; [|lia].
    rewrite lookup_drop. rewrite <- He. f_equal. lia.
Qed.

Lemma merge_wf l k es :
  log_wf l -> (0 < k <= length l)%nat -> indexed_from (Z.of_nat k) es -> log_wf (merge l k es).
Proof.
  intros Hwf Hk Hes. unfold merge. case_if; [done|].
  pose proof (agreeing_le_l (drop k l) es) as Hle. rewrite length_drop in Hle.
  set (m := agreeing (drop k l) es) in *.
  apply log_wf_app; [apply log_wf_take; [done|lia]|].
  rewrite log_wf_lastIndex by (apply log_wf_take; [done|lia]). rewrite length_take.
  replace (Z.of_nat ((k + m) `min` length l) - 1 + 1) with (Z.of_nat k + Z.of_nat m) by lia.
  by apply indexed_from_drop.
Qed.

Lemma merge_idem l k es : (k <= length l)%nat -> merge (merge l k es) k es = merge l k es.
Proof.
  intros Hk. unfold merge at 1. rewrite agreeing_full; [by rewrite Nat.eqb_refl|].
  intros i e He. destruct (merge_lookup l k es i e Hk He) as (x & ? & ?).
  exists x. by rewrite lookup_drop.
Qed.


(** ** HandleAppendEntries *)

(** The entries of a request continue the log at [PrevLogIndex + 1]. *)
Definition ae_wf (args : AppendEntriesArgs) : Prop :=
  0 <= aePrevLogIndex args /\ indexed_from (aePrevLogIndex args + 1) (aeEntries args).

Lemma acceptLeader_log args n : log (acceptLeader args n) = log n.
Proof.
  unfold acceptLeader, signalReset, becomeFollower. simpl. by repeat case_if.
Qed.

Lemma acceptLeader_commit args n : commitIndex (acceptLeader args n) = commitIndex n.
Proof.
  unfold acceptLeader, signalReset, becomeFollower. simpl. by repeat case_if.
Qed.

Lemma acceptLeader_term args n :
  currentTerm (acceptLeader args n) = Z.max (currentTerm n) (aeTerm args).
Proof.
  unfold acceptLeader, update_Metrics. simpl. rewrite signalReset_term.
  set (n1 := if currentTerm n <? aeTerm args then becomeFollower (aeTerm args) n else n).
  assert (currentTerm n1 = Z.max (currentTerm n) (aeTerm args)) as <-.
  { unfold n1. case_if; breflect; rewrite ?becomeFollower_term; lia. }
  by case_if.
Qed.

Lemma acceptLeader_state args n : state (acceptLeader args n) <> Candidate.
Proof.
  unfold acceptLeader, update_Metrics. simpl.
  set (n1 := if currentTerm n <? aeTerm args then becomeFollower (aeTerm args) n else n).
  unfold signalReset. case_if; case_if; breflect; simpl; done.
Qed.

Lemma prevLogOK_range args l :
  log_wf l -> ae_wf args -> prevLogOK args l = true ->
  0 <= aePrevLogIndex args <= lastIndex l.
Proof.
  intros Hwf [Hp _] H. unfold prevLogOK in H. case_if; breflect.
  - destruct (entryAt l (aePrevLogIndex args)) eqn:E; [|done].
    by apply log_wf_entryAt_Some in E as (_ & ? & _).
  - pose proof (lastIndex_nonneg _ Hwf). lia.
Qed.

(** The position at which the entries of a request start. *)
Definition startPos (args : AppendEntriesArgs) : nat := Z.to_nat (aePrevLogIndex args + 1).

Lemma appendEntries_request args l :
  log_wf l -> ae_wf args -> prevLogOK args l = true -> lastIndex l < 2 ^ 64 ->
  appendEntries l (aeEntries args) = merge l (startPos args) (aeEntries args) /\
  (0 < startPos args <= length l)%nat.
Proof.
  intros Hwf Hae Hprev Hmax.
  pose proof (prevLogOK_range _ _ Hwf Hae Hprev) as Hr. destruct Hae as [Hp Hes].
  unfold startPos. split.
  - apply appendEntries_merge; auto; lia.
  - rewrite log_wf_lastIndex in Hr by done. lia.
Qed.

Lemma storeEntries_fields args n n2 b :
  storeEntries args n = (n2, b) ->
  log n2 = appendEntries (log n) (aeEntries args) /\
  commitIndex n2 = (if commitIndex n <? aeLeaderCommit args
                    then Z.min (aeLeaderCommit args) (lastIndex (log n2))
                    else commitIndex n).
Proof. unfold storeEntries. simpl. case_if; intros; by simplify_eq/=. Qed.

(** The whole handler on an acceptable request. *)
Lemma HandleAppendEntries_ok args n :
  currentTerm n <= aeTerm args -> prevLogOK args (log n) = true ->
  exists n' b,
    HandleAppendEntries args n = (n', mkAEReply (aeTerm args) true, b) /\
    log n' = appendEntries (log n) (aeEntries args) /\
    commitIndex n' = (if commitIndex n <? aeLeaderCommit args
                      then Z.min (aeLeaderCommit args) (lastIndex (log n'))
                      else commitIndex n) /\
    core n' = core (acceptLeader args n) /\ LeaderID n' = LeaderID (acceptLeader args n) /\
    b = (commitIndex n <? aeLeaderCommit args).
Proof.
  intros Ht Hp. unfold HandleAppendEntries. case_if; breflect; [lia|].
  rewrite acceptLeader_log, Hp.
  destruct (storeEntries args (acceptLeader args n)) as [n2 b] eqn:E.
  exists n2, b. rewrite acceptLeader_term. split_and!.
  - by replace (Z.max (currentTerm n) (aeTerm args)) with (aeTerm args) by lia.
  - apply storeEntries_fields in E as [-> _]. by rewrite acceptLeader_log.
  - apply storeEntries_fields in E as [_ ->]. by rewrite acceptLeader_commit.
  - pose proof (core_storeEntries args (acceptLeader args n)) as Hc. by rewrite E in Hc.
  - unfold storeEntries in E. case_if; by simplify_eq/=.
  - revert E. rewrite <- (acceptLeader_commit args n). generalize (acceptLeader args n). intros m E.
    unfold storeEntries in E. cbn in E. case_if; by simplify_eq/=.
Qed.

Lemma HandleAppendEntries_mismatch args n :
  currentTerm n <= aeTerm args -> prevLogOK args (log n) = false ->
  HandleAppendEntries args n = (acceptLeader args n, mkAEReply (aeTerm args) false, false).
Proof.
  intros Ht Hp. unfold HandleAppendEntries. case_if; breflect; [lia|].
  rewrite acceptLeader_log, Hp, acceptLeader_term.
  by replace (Z.max (currentTerm n) (aeTerm args)) with (aeTerm args) by lia.
Qed.

(** The log has the entry the request builds on: the one at [PrevLogIndex], of
    term [PrevLogTerm]; a request that builds on nothing has index 0. *)
Definition holdsPrev (args : AppendEntriesArgs) (l : list LogEntry) : Prop :=
  aePrevLogIndex args = 0 \/
  exists prev, l !! Z.to_nat (aePrevLogIndex args) = Some prev /\ eTerm prev = aePrevLogTerm args.

Lemma prevLogOK_holdsPrev args l : log_wf l -> ae_wf args -> prevLogOK args l = true <-> holdsPrev args l.
Proof.
  intros Hwf [Hp _]. unfold prevLogOK, holdsPrev. destruct (0 <? aePrevLogIndex args) eqn:E; breflect.
  - rewrite log_wf_entryAt by done. destruct (l !! _) as [prev|]; [rewrite Z.eqb_eq|].
    + split; [intros; right; by exists prev|]. intros [?|(? & [= ->] & ?)]; [lia|done].
    + split; [done|]. intros [?|(? & ? & _)]; [lia|done].
  - split; [left; lia|done].
Qed.

Lemma acceptLeader_role args n :
  state (acceptLeader args n) =
    (if (currentTerm n <? aeTerm args) || bool_decide (state n = Candidate) then Follower else state n) /\
  votedFor (acceptLeader args n) = (if currentTerm n <? aeTerm args then "" else votedFor n) /\
  LeaderID (acceptLeader args n) = aeLeaderID args.
Proof.
  unfold acceptLeader, becomeFollower, signalReset, LeaderID. destruct (currentTerm n <? aeTerm args) eqn:E; cbn;
    repeat case_match; breflect; cbn in *; by simplify_eq.
Qed.

(** C15. What [HandleAppendEntries] answers and leaves, on every branch, for a
    node with a well-formed log.  A stale term is refused and changes nothing.
    Otherwise the node is in the leader's term, follows it if it was behind or a
    candidate, forgets its vote if it was behind, and knows the leader; the reply
    has the leader's term and succeeds exactly when the log holds the entry the
    request builds on.  On success the log is the reference merge and is well
    formed, the commit index is raised to at most the last index, and an apply
    pass is started exactly when it was raised; on failure log and commit index
    stay and no pass is started. *)
Theorem append_entries_spec args n n' r b :
  log_wf (log n) -> lastIndex (log n) < 2 ^ 64 -> ae_wf args ->
  HandleAppendEntries args n = (n', r, b) ->
  if aeTerm args <? currentTerm n
  then n' = n /\ r = mkAEReply (currentTerm n) false /\ b = false
  else currentTerm n' = aeTerm args /\
       state n' = (if (currentTerm n <? aeTerm args) || bool_decide (state n = Candidate) then Follower else state n) /\
       votedFor n' = (if currentTerm n <? aeTerm args then "" else votedFor n) /\
       LeaderID n' = aeLeaderID args /\ aerTerm r = aeTerm args /\
       (aerSuccess r = true <-> holdsPrev args (log n)) /\
       if aerSuccess r
       then log n' = merge (log n) (startPos args) (aeEntries args) /\ log_wf (log n') /\
            commitIndex n' = (if commitIndex n <? aeLeaderCommit args
                              then Z.min (aeLeaderCommit args) (lastIndex (log n'))
                              else commitIndex n) /\
            b = (commitIndex n <? aeLeaderCommit args)
       else log n' = log n /\ commitIndex n' = commitIndex n /\ b = false.
Proof.
  intros Hwf Hmax Hae H. destruct (aeTerm args <? currentTerm n) eqn:Ht; breflect.
  { unfold HandleAppendEntries in H. rewrite (proj2 (Z.ltb_lt _ _) Ht) in H. by simplify_eq. }
  pose proof (prevLogOK_holdsPrev args (log n) Hwf Hae) as Hprev.
  destruct (acceptLeader_role args n) as (Hst & Hvote & Hlead).
  destruct (prevLogOK args (log n)) eqn:Hp.
  - destruct (HandleAppendEntries_ok args n Ht Hp) as (m & c & Hm & Hlog & Hci & Hcore & Hhint & Hb).
    rewrite H in Hm. injection Hm as -> -> ->.
    destruct (appendEntries_request args (log n)) as [Hmerge Hk]; try done.
    rewrite (core_term _ _ Hcore), acceptLeader_term, (core_state _ _ Hcore), (core_votedFor _ _ Hcore), Hhint.
    cbn [aerTerm aerSuccess]. split_and!; [lia|done..| | |done|done].
    + by rewrite Hlog.
    + rewrite Hlog, Hmerge. apply merge_wf; [done|done|]. unfold startPos.
      destruct Hae as [? Hes]. by rewrite Z2Nat.id by lia.
  - rewrite HandleAppendEntries_mismatch in H by done. simplify_eq.
    rewrite acceptLeader_term, acceptLeader_log, acceptLeader_commit. by split_and!; [lia|..].
Qed.

(** Redelivery of an AppendEntries request is harmless: handling it a
    second time gives the same reply and changes neither log, commit index,
    term, vote nor role. *)
Theorem append_entries_idempotent args n n1 r1 b1 n2 r2 b2 :
  log_wf (log n) -> lastIndex (log n) < 2 ^ 64 -> ae_wf args ->
  HandleAppendEntries args n = (n1, r1, b1) -> lastIndex (log n1) < 2 ^ 64 ->
  HandleAppendEntries args n1 = (n2, r2, b2) ->
  r2 = r1 /\ log n2 = log n1 /\ commitIndex n2 = commitIndex n1 /\ core n2 = core n1.
Proof.
  intros Hwf Hmax Hae H1 Hmax1 H2. destruct (aeTerm args <? currentTerm n) eqn:Ht.
  { unfold HandleAppendEntries in H1. rewrite Ht in H1. simplify_eq.
    unfold HandleAppendEntries in H2. rewrite Ht in H2. by simplify_eq. }
  breflect.
  assert (forall m, state m <> Candidate -> currentTerm m = aeTerm args ->
    core (acceptLeader args m) = core m) as Hquiet.
  { intros m Hm Htm. unfold acceptLeader. rewrite Htm, Z.ltb_irrefl.
    rewrite bool_decide_false by done. apply (core_signalReset m). }
  destruct (prevLogOK args (log n)) eqn:Hp.
  - destruct (HandleAppendEntries_ok args n Ht Hp) as (m & c & Hm & Hlog & Hci & Hcore & _).
    rewrite H1 in Hm. injection Hm as -> -> ->.
    destruct (appendEntries_request args (log n)) as [Hmerge Hk]; try done.
    assert (currentTerm m = aeTerm args /\ state m <> Candidate) as [Htm Hsm].
    { rewrite (core_term _ _ Hcore), (core_state _ _ Hcore).
      rewrite acceptLeader_term. split; [lia|apply acceptLeader_state]. }
    assert (log_wf (log m)) as Hwfm.
    { rewrite Hlog, Hmerge. apply merge_wf; [done|done|]. unfold startPos.
      destruct Hae as [? Hes]. by rewrite Z2Nat.id by lia. }
    assert (prevLogOK args (log m) = true) as Hpm.
    { unfold prevLogOK in *. case_if; [|done]. destruct Hae as [? _].
      rewrite log_wf_entryAt in * by done. rewrite Hlog, Hmerge.
      rewrite merge_lookup_low; [done| |lia]. unfold startPos. lia. }
    destruct (HandleAppendEntries_ok args m) as (m' & c' & Hm' & Hlog' & Hci' & Hcore' & _); [lia|done|].
    rewrite H2 in Hm'. injection Hm' as -> -> ->.
    assert (log m' = log m) as Hsame.
    { rewrite Hlog'. destruct (appendEntries_request args (log m)) as [-> _]; try done.
      rewrite Hlog, Hmerge. apply merge_idem. lia. }
    split_and!; [done|done| |].
    + rewrite Hci', Hsame, Hci. repeat case_if; breflect; lia.
    + by rewrite Hcore', Hquiet.
  - rewrite HandleAppendEntries_mismatch in H1 by done. simplify_eq.
    rewrite HandleAppendEntries_mismatch in H2.
    + simplify_eq. rewrite !acceptLeader_log, !acceptLeader_commit.
      split_and!; [done..|]. apply Hquiet; [apply acceptLeader_state|].
      rewrite acceptLeader_term. lia.
    + rewrite acceptLeader_term. lia.
    + by rewrite acceptLeader_log.
Qed.

(** A follower holding a conflicting entry, and the request that replaces it. *)
Definition demoFollower : Node :=
  set_log [sentinel; mkEntry 1 1 "x"] (set_currentTerm 1 (NewNode "nodeB" ["nodeA"; "nodeC"] None)).
Definition demoRequest : AppendEntriesArgs :=
  mkAEArgs 2 "nodeA" 0 0 [mkEntry 2 1 "y"; mkEntry 2 2 "z"] 1.

Lemma indexed_from_dec_intro k l :
  eIndex <$> l = seqZ k (Z.of_nat (length l)) -> indexed_from k l.
Proof.
  intros H i e He. assert ((eIndex <$> l) !! i = Some (eIndex e)) as Hi
    by (by rewrite list_lookup_fmap, He).
  rewrite H in Hi. apply lookup_seqZ in Hi as [? ?]. lia.
Qed.

Lemma demo_wf : log_wf (log demoFollower).
Proof. split; [done|]. by apply indexed_from_dec_intro. Qed.

Lemma demo_ae_wf : ae_wf demoRequest.
Proof. split; [by vm_compute|]. by apply indexed_from_dec_intro. Qed.

Lemma append_entries_spec_witness :
  let n' := fst (fst (HandleAppendEntries demoRequest demoFollower)) in
  log n' = [sentinel; mkEntry 2 1 "y"; mkEntry 2 2 "z"] /\ log_wf (log n') /\ state n' = Follower /\ LeaderID n' = "nodeA".
Proof.
  intros n'. split; [by vm_compute|].
  destruct (append_entries_spec demoRequest demoFollower n' _ _ demo_wf ltac:(by vm_compute)
    demo_ae_wf ltac:(vm_compute; reflexivity)) as (_ & Hs & _ & Hl & _ & _ & _ & Hwf & _).
  split; [exact Hwf|]. split; [exact Hs|exact Hl].
Defined.

Lemma append_entries_idempotent_witness :
  exists n1 r1 b1 n2 r2 b2,
    HandleAppendEntries demoRequest demoFollower = (n1, r1, b1) /\
    HandleAppendEntries demoRequest n1 = (n2, r2, b2) /\
    log n2 = log n1 /\ length (log n1) = 3%nat.
Proof.
  destruct (HandleAppendEntries demoRequest demoFollower) as [[n1 r1] b1] eqn:E1.
  destruct (HandleAppendEntries demoRequest n1) as [[n2 r2] b2] eqn:E2.
  exists n1, r1, b1, n2, r2, b2. split; [done|]. split; [done|].
  assert (lastIndex (log n1) < 2 ^ 64) as Hm by (vm_compute in E1; injection E1 as <- _ _; by vm_compute).
  split.
  - apply (append_entries_idempotent demoRequest demoFollower n1 r1 b1 n2 r2 b2 demo_wf
      ltac:(by vm_compute) demo_ae_wf E1 Hm E2).
  - vm_compute in E1. by injection E1 as <- _ _.
Defined.

(** ** HandleRequestVote *)

(** Raft's order on logs: last term first, then length. *)
Definition up_to_date (lastIdx lastTerm myIdx myTerm : Z) : Prop :=
  myTerm < lastTerm \/ (lastTerm = myTerm /\ myIdx <= lastIdx).

Lemma logOK_up_to_date args n :
  logOK args n = true <->
  up_to_date (rvLastLogIndex args) (rvLastLogTerm args)
    (lastIndex (log n)) (eTerm (lastEntry (log n))).
Proof.
  unfold logOK, up_to_date, lastIndexAndTerm, lastIndex.
  rewrite orb_true_iff, andb_true_iff, Z.ltb_lt, Z.eqb_eq, Z.leb_le. lia.
Qed.

(** C16. What [HandleRequestVote] answers and leaves, on every branch.  The vote
    is granted exactly when the candidate's term is not stale, the voter has not
    voted for another candidate in that term, and the candidate's log is at least
    as up to date as the voter's.  The reply carries the voter's new term.  A
    newer term makes any voter, a leader too, a follower of that term, whose old
    vote is forgotten; within its own term the voter keeps its role.  The vote
    goes to the candidate exactly when it is granted; then, and only then, the
    grant is counted and the election timer reset.  Nothing else changes. *)
Theorem request_vote_spec args n n' r :
  HandleRequestVote args n = (n', r) ->
  let newer := currentTerm n <? rvTerm args in
  let granted := rvrVoteGranted r in
  (granted = true <->
     currentTerm n <= rvTerm args /\
     (rvTerm args = currentTerm n -> votedFor n = "" \/ votedFor n = rvCandidateID args) /\
     up_to_date (rvLastLogIndex args) (rvLastLogTerm args)
       (lastIndex (log n)) (eTerm (lastEntry (log n)))) /\
  rvrTerm r = Z.max (currentTerm n) (rvTerm args) /\
  n' = {| id := id n; peers := peers n; currentTerm := Z.max (currentTerm n) (rvTerm args);
          votedFor := if granted then rvCandidateID args else if newer then "" else votedFor n;
          log := log n; commitIndex := commitIndex n; lastApplied := lastApplied n;
          nextIndex := nextIndex n; matchIndex := matchIndex n;
          state := if newer then Follower else state n;
          Metrics := mkMetrics (ElectionsStarted (Metrics n))
            (VotesGranted (Metrics n) + if granted then 1 else 0) (HeartbeatsSent (Metrics n))
            (HeartbeatsRecvd (Metrics n)) (CurrentLeaderID (Metrics n));
          applyCh := applyCh n;
          resetTimerCh := if granted && (resetTimerCh n <? 8)%nat then S (resetTimerCh n) else resetTimerCh n;
          stepDownCh := stepDownCh n; stopCh := stopCh n |}.
Proof.
  intros H newer granted. unfold HandleRequestVote in H.
  set (n1 := if newer then becomeFollower (rvTerm args) n else n).
  assert (rvTerm args < currentTerm n -> newer = false) as Hstale by (unfold newer; intros; breflect; lia).
  destruct (rvTerm args <? currentTerm n) eqn:Hst; breflect.
  { rewrite (Hstale Hst). injection H as <- <-. unfold granted. cbn. rewrite Z.max_l by lia. split_and!; [split; [done|lia]|done|].
    destruct n as [? ? ? ? ? ? ? ? ? ? [] ? ? ? ?]; cbn. by rewrite Z.add_0_r. }
  fold newer n1 in H. rewrite Z.max_r by lia.
  assert (alreadyVoted args n1 = false <->
    (rvTerm args = currentTerm n -> votedFor n = "" \/ votedFor n = rvCandidateID args)) as Hv.
  { unfold alreadyVoted, n1, becomeFollower, newer. destruct (currentTerm n <? rvTerm args) eqn:E; breflect; simpl.
    - split; [lia|done].
    - rewrite andb_false_iff, !negb_false_iff, !bool_decide_eq_true. split; intros; [auto|].
      assert (rvTerm args = currentTerm n) by lia. auto. }
  pose proof (logOK_up_to_date args n1) as Hlog.
  assert (log n1 = log n) as Hl by (unfold n1, becomeFollower; by repeat case_if).
  assert (currentTerm n1 = rvTerm args) as Ht
    by (unfold n1, newer; case_if; breflect; rewrite ?becomeFollower_term; lia). rewrite Hl in Hlog.
  split_and!.
  - unfold granted. destruct (alreadyVoted args n1), (logOK args n1); simplify_eq/=; naive_solver.
  - destruct (alreadyVoted args n1 || negb (logOK args n1)); by injection H as _ <-.
  - unfold granted. clear -H Ht. destruct (alreadyVoted args n1 || negb (logOK args n1)); injection H as <- <-; cbn [rvrVoteGranted].
    + unfold n1, becomeFollower, newer in *. destruct n as [? ? ? ? ? ? ? ? ? ? [] ? ? ? ?]; cbn in *. rewrite Z.add_0_r.
      repeat case_match; breflect; cbn in *; (done || lia || by subst).
    + unfold n1, becomeFollower, newer, signalReset in *. destruct n as [? ? ct ? ? ? ? ? ? ? [] ? k ? ?]; cbn in *.
      destruct (ct <? rvTerm args) eqn:E; cbn in *; rewrite ?E in *; cbn in *; destruct (k <=? 7)%nat eqn:Ek;
        unfold update_Metrics; cbn; rewrite ?Ek; cbn; by subst.
Qed.

Lemma request_vote_spec_witness :
  rvrVoteGranted (snd (HandleRequestVote (mkRVArgs 2 "nodeA" 1 1) demoFollower)) = true /\
  rvrVoteGranted (snd (HandleRequestVote (mkRVArgs 2 "nodeA" 0 0) demoFollower)) = false.
Proof.
  pose proof (request_vote_spec (mkRVArgs 2 "nodeA" 1 1) demoFollower _ _ (surjective_pairing _)) as [H1 _].
  pose proof (request_vote_spec (mkRVArgs 2 "nodeA" 0 0) demoFollower _ _ (surjective_pairing _)) as [H2 _].
  split; [apply H1|by vm_compute]. split_and!; [by vm_compute|by vm_compute|].
  right. by vm_compute.
Defined.

(** ** advanceCommitIndex *)

(** The peers the leader knows to store the log up to index [idx]. *)
Definition storedBy (n : Node) (idx : Z) : list string :=
  filter (fun p => idx <= default 0 (matchIndex n !! p)) (peers n).

(** Index [idx] holds an entry of the current term, and the leader together with
    the peers that store it is more than half of the cluster. *)
Definition committable (n : Node) (idx : Z) : Prop :=
  (exists e, 0 <= idx /\ log n !! Z.to_nat idx = Some e /\ eTerm e = currentTerm n) /\
  (length (peers n) + 1 < 2 * (length (storedBy n idx) + 1))%nat.

(** The test the loop makes. *)
Definition passes (n : Node) (idx : Z) : bool :=
  match entryAt (log n) idx with
  | Some e => (eTerm e =? currentTerm n) && (majority n <=? ackCount n idx)
  | None => false
  end.

Lemma majority_ackCount n idx : majority n <= ackCount n idx <->
  (length (peers n) + 1 < 2 * (length (storedBy n idx) + 1))%nat.
Proof.
  unfold majority, ackCount, storedBy, matchIndexOf.
  pose proof (Z.div_mod (Z.of_nat (length (peers n)) + 1) 2 ltac:(lia)).
  pose proof (Z.mod_pos_bound (Z.of_nat (length (peers n)) + 1) 2 ltac:(lia)). lia.
Qed.

Lemma passes_committable n idx : log_wf (log n) -> passes n idx = true <-> committable n idx.
Proof.
  intros Hwf. unfold passes, committable. rewrite <- majority_ackCount. destruct (entryAt (log n) idx) as [e|] eqn:E.
  - apply log_wf_entryAt_Some in E as (_ & Hr & Hl); [|done]. rewrite andb_true_iff, Z.eqb_eq, Z.leb_le. split.
    + intros [? ?]. split; [exists e; by split_and!; [lia|..]|done].
    + intros [(e' & _ & He' & ?) ?]. by simplify_eq.
  - split; [done|]. intros [(e & ? & He & _) _]. by rewrite log_wf_entryAt, He in E.
Qed.

Lemma advanceAt_passes n idx :
  advanceAt n idx = if passes n idx then set_commitIndex idx n else n.
Proof.
  unfold advanceAt, passes. destruct (entryAt (log n) idx) as [e|]; [|done].
  by destruct (eTerm e =? currentTerm n).
Qed.

Lemma set_commitIndex_id n : set_commitIndex (commitIndex n) n = n.
Proof. by destruct n. Qed.

Lemma advance_fold n l :
  foldl advanceAt n l =
  set_commitIndex (foldl (fun c i => if passes n i then i else c) (commitIndex n) l) n.
Proof.
  assert (forall c, foldl advanceAt (set_commitIndex c n) l =
    set_commitIndex (foldl (fun c i => if passes n i then i else c) c l) n) as H.
  { induction l as [|i l IH]; intros c; simpl; [done|].
    rewrite advanceAt_passes.
    change (passes (set_commitIndex c n) i) with (passes n i).
    destruct (passes n i); [|apply IH]. exact (IH i). }
  specialize (H (commitIndex n)). by rewrite set_commitIndex_id in H.
Qed.

Lemma last_passing (f : Z -> bool) c m len :
  0 <= len -> c < m ->
  let c' := foldl (fun c i => if f i then i else c) c (seqZ m len) in
  (c' = c \/ (m <= c' < m + len /\ f c' = true)) /\
  forall i, m <= i < m + len -> f i = true -> i <= c'.
Proof.
  intros Hlen. revert m c. pattern len. apply natlike_ind; [..|done].
  { intros m c Hc. simpl. split; [auto|lia]. }
  clear len Hlen. intros len Hlen IH m c Hc. rewrite <- Z.add_1_r, seqZ_app by lia.
  rewrite (seqZ_cons (m + len)) by lia. rewrite foldl_app. simpl.
  destruct (IH m c Hc) as [Hc' Hmax].
  set (c1 := foldl (fun c i => if f i then i else c) c (seqZ m len)) in *.
  destruct (f (m + len)) eqn:Hf; split.
  - right. split; [lia|done].
  - intros i Hi _. lia.
  - destruct Hc' as [->|[? ?]]; [auto|]. right. split; [lia|done].
  - intros i Hi Hfi. destruct (decide (i = m + len)) as [->|]; [congruence|]. apply Hmax; [lia|done].
Qed.

(** C17. The leader's commit rule: [advanceCommitIndex] changes nothing but the
    commit index, which never decreases, and moves exactly to the largest
    index above it that holds an entry of the current term which the leader and
    the peers known to store it make more than half of the cluster (and stays put
    when there is none). *)
Theorem advance_commit_spec n :
  log_wf (log n) -> 0 <= commitIndex n ->
  advanceCommitIndex n = set_commitIndex (commitIndex (advanceCommitIndex n)) n /\
  (commitIndex (advanceCommitIndex n) = commitIndex n \/
   (commitIndex n < commitIndex (advanceCommitIndex n) /\
    committable n (commitIndex (advanceCommitIndex n)))) /\
  forall idx, commitIndex n < idx -> committable n idx ->
    idx <= commitIndex (advanceCommitIndex n).
Proof.
  intros Hwf Hc. setoid_rewrite <- (passes_committable n _ Hwf). unfold advanceCommitIndex. rewrite advance_fold. simpl.
  set (last := eIndex (lastEntry (log n))). split; [done|].
  assert (forall idx, passes n idx = true -> idx <= last) as Hrange.
  { intros idx H. unfold passes in H.
    destruct (entryAt (log n) idx) as [e|] eqn:E; [|done].
    apply log_wf_entryAt_Some in E as (_ & [_ ?] & _); done. }
  destruct (decide (0 <= last - commitIndex n)) as [Hge|Hlt].
  - destruct (last_passing (passes n) (commitIndex n) (commitIndex n + 1)
      (last - commitIndex n)) as [H1 H2]; [lia|lia|]. cbv zeta in H1, H2. split.
    + destruct H1 as [?|[? ?]]; [auto|right]. split; [lia|done].
    + intros idx Hi Hcm. pose proof (Hrange idx Hcm). apply H2; [lia|done].
  - rewrite (seqZ_nil _ (last - commitIndex n)) by lia. simpl. split; [auto|].
    intros idx Hi Hcm. pose proof (Hrange idx Hcm). lia.
Qed.

(** A leader of term 2 with three entries, the second and third of its own
    term; nodeB stores the first two. *)
Definition demoLeader : Node :=
  set_matchIndex {["nodeB" := 2]}
    (set_log [sentinel; mkEntry 1 1 "x"; mkEntry 2 2 "y"; mkEntry 2 3 "z"]
      (set_state Leader (set_currentTerm 2 (NewNode "nodeA" ["nodeB"; "nodeC"] (Some []))))).

Lemma demoLeader_wf : log_wf (log demoLeader).
Proof. split; [done|]. by apply indexed_from_dec_intro. Qed.

Lemma advance_commit_spec_witness :
  commitIndex (advanceCommitIndex demoLeader) = 2 /\ committable demoLeader 2 /\ ~ committable demoLeader 3.
Proof.
  assert (committable demoLeader 2) as H2.
  { split; [exists (mkEntry 2 2 "y"); by split_and!|]. apply Nat.ltb_lt. by vm_compute. }
  destruct (advance_commit_spec demoLeader demoLeader_wf ltac:(by vm_compute)) as (_ & _ & Hmax).
  split; [|split; [exact H2|]].
  - apply Z.le_antisymm; [by vm_compute|]. apply Hmax; [by vm_compute|exact H2].
  - intros [_ Hn]. apply Nat.ltb_lt in Hn. by vm_compute in Hn.
Defined.

(** ** applyCommitted *)

(** The entries of a log strictly above index [a], up to index [b]. *)
Definition slice (l : list LogEntry) (a b : Z) : list LogEntry :=
  take (Z.to_nat (b - a)) (drop (Z.to_nat (a + 1)) l).

Lemma omap_entryAt l a len :
  log_wf l -> 0 <= a ->
  omap (entryAt l) (seqZ a len) = take (Z.to_nat len) (drop (Z.to_nat a) l).
Proof.
  intros Hwf. destruct (decide (0 <= len)) as [Hlen|]; intros Ha.
  2: { rewrite seqZ_nil by lia. by replace (Z.to_nat len) with 0%nat by lia. }
  revert a Ha. pattern len. apply natlike_ind; [done|..|done].
  clear len Hlen. intros len Hlen IH a Ha. rewrite seqZ_cons by lia. simpl.
  rewrite Z.pred_succ, IH by lia. rewrite log_wf_entryAt by done.
  replace (Z.to_nat (Z.succ len)) with (S (Z.to_nat len)) by lia.
  replace (Z.to_nat (Z.succ a)) with (S (Z.to_nat a)) by lia.
  destruct (l !! Z.to_nat a) as [e|] eqn:E.
  - by rewrite (drop_S _ _ _ E).
  - apply lookup_ge_None in E. rewrite !drop_ge by lia. by rewrite !take_nil.
Qed.

Lemma applyCollect_slice n :
  log_wf (log n) -> 0 <= lastApplied n <= commitIndex n ->
  applyCollect n = (set_lastApplied (commitIndex n) n,
                    slice (log n) (lastApplied n) (commitIndex n)).
Proof.
  intros Hwf Hr. unfold applyCollect. rewrite omap_entryAt by (done || lia).
  by rewrite Z.max_r by lia.
Qed.

Lemma slice_app l a b c :
  -1 <= a -> a <= b <= c -> slice l a b ++ slice l b c = slice l a c.
Proof.
  intros Ha Hbc. unfold slice.
  replace (Z.to_nat (b + 1)) with (Z.to_nat (a + 1) + Z.to_nat (b - a))%nat by lia.
  rewrite <- drop_drop. set (k := drop (Z.to_nat (a + 1)) l).
  replace (Z.to_nat (c - a)) with (Z.to_nat (b - a) + Z.to_nat (c - b))%nat by lia.
  apply take_take_drop.
Qed.

(** Exactly once, in order: two successive [applyCommitted] critical
    sections on a node whose commit index moved from [c1] to [c2] in between
    collect, together, exactly the log entries above [lastApplied] up to [c2],
    none twice, none skipped and in log order. *)
Theorem apply_exactly_once n n1 n2 es1 es2 c2 :
  log_wf (log n) -> 0 <= lastApplied n <= commitIndex n -> commitIndex n <= c2 ->
  applyCollect n = (n1, es1) ->
  applyCollect (set_commitIndex c2 n1) = (n2, es2) ->
  es1 ++ es2 = slice (log n) (lastApplied n) c2 /\ lastApplied n2 = c2.
Proof.
  intros Hwf Hr Hc H1 H2. rewrite applyCollect_slice in H1 by done. simplify_eq.
  rewrite applyCollect_slice in H2 by (simpl; done || lia). simplify_eq/=.
  split; [|done]. apply slice_app; lia.
Qed.

Lemma apply_exactly_once_witness :
  exists n1 n2 es1 es2,
    applyCollect (set_commitIndex 1 demoLeader) = (n1, es1) /\
    applyCollect (set_commitIndex 3 n1) = (n2, es2) /\
    eCommand <$> (es1 ++ es2) = ["x"; "y"; "z"] /\ lastApplied n2 = 3.
Proof.
  destruct (applyCollect (set_commitIndex 1 demoLeader)) as [n1 es1] eqn:E1.
  destruct (applyCollect (set_commitIndex 3 n1)) as [n2 es2] eqn:E2.
  destruct (apply_exactly_once (set_commitIndex 1 demoLeader) n1 n2 es1 es2 3
    demoLeader_wf ltac:(by vm_compute) ltac:(by vm_compute) E1 E2) as [He Hl].
  exists n1, n2, es1, es2. rewrite He. by split_and!.
Defined.
