(* ===== verification/RaftCatchup.v ===== *)
(** * Catching up a follower (src/raft/replication.go replicateToPeer)

    [replicateToPeer] retries with a lower [nextIndex] until the follower
    accepts.  Here the loop runs against one follower over the synchronous
    transport of cluster.go, with no other goroutine touching the two nodes:
    it terminates within [nextIndex] rounds and leaves the follower with the
    leader's log up to the replicated entry. *)

From S2P Require Import Prelude RaftLog RaftNode RaftElection RaftReplication.

(** The loop with [fuel] rounds; [None] when the fuel runs out. *)
Fixpoint replicateToPeer (fuel : nat) (peer : string) (p : PendingEntry) (leader follower : Node)
  : option (bool * Node * Node) :=
  match fuel with
  | O => None
  | S fuel' =>
      match replicateArgs peer p leader with
      | None => Some (false, leader, follower)
      | Some args =>
          let '(follower', reply, _) := HandleAppendEntries args follower in
          let '(leader', outcome) := replicateReply peer p reply leader in
          match outcome with
          | RDone ack => Some (ack, leader', follower')
          | RRetry => replicateToPeer fuel' peer p leader' follower'
          end
      end
  end.

(** Raft's log matching property for two logs. *)
Definition log_matching (l1 l2 : list LogEntry) : Prop :=
  forall i x y, l1 !! i = Some x -> l2 !! i = Some y -> eTerm x = eTerm y ->
    take (S i) l1 = take (S i) l2.

(** [l2] holds the first [k] entries of [l1]. *)
Definition agree_to (l1 l2 : list LogEntry) (k : nat) : Prop :=
  forall i, (i < k)%nat -> l2 !! i = l1 !! i.

Lemma take_agree_to l1 l2 k : take k l1 = take k l2 -> agree_to l1 l2 k.
Proof.
  intros H i Hi. rewrite <- (lookup_take_lt l1 k) by done.
  rewrite <- (lookup_take_lt l2 k) by done. by rewrite H.
Qed.

Lemma agree_to_weaken l1 l2 k k' : agree_to l1 l2 k -> (k' <= k)%nat -> agree_to l1 l2 k'.
Proof. intros H Hk i Hi. apply H. lia. Qed.

(** Merging a slice of a matching log makes the logs agree through the slice. *)
Lemma merge_agree l1 l2 k es :
  log_matching l1 l2 -> agree_to l1 l2 k -> (k <= length l2)%nat ->
  (forall i e, es !! i = Some e -> l1 !! (k + i)%nat = Some e) ->
  agree_to l1 (merge l2 k es) (k + length es).
Proof.
  intros Hm Hk Hlen Hes i Hi. destruct (decide (i < k)%nat) as [Hlt|Hge].
  { rewrite merge_lookup_low by done. by apply Hk. }
  destruct (lookup_lt_is_Some_2 es (i - k)) as [e He]; [lia|].
  pose proof (Hes _ _ He) as H1. replace (k + (i - k))%nat with i in H1 by lia.
  pose proof (agreeing_le_l (drop k l2) es) as Hle. rewrite length_drop in Hle.
  rewrite H1. unfold merge. destruct (decide (i - k < agreeing (drop k l2) es)%nat) as [Ha|Ha].
  - destruct (agreeing_lookup _ _ _ _ Ha He) as (y & Hy & Ht). rewrite lookup_drop in Hy.
    replace (k + (i - k))%nat with i in Hy by lia.
    assert (l2 !! i = l1 !! i) as Heq.
    { apply (take_agree_to l1 l2 (S i)); [|lia]. eapply Hm; [exact H1|exact Hy|congruence]. }
    case_if; [congruence|].
    rewrite lookup_app_l by (rewrite length_take; lia). rewrite lookup_take_lt by lia. congruence.
  - case_if; [apply Nat.eqb_eq in Heqb; apply lookup_lt_Some in He; lia|].
    rewrite lookup_app_r; rewrite length_take; [|lia]. rewrite lookup_drop, <- He. f_equal. lia.
Qed.

Lemma collectEntries_slice l from to :
  log_wf l -> 0 <= from -> collectEntries l from to = slice l (from - 1) to.
Proof.
  intros Hwf Hf. unfold collectEntries, slice. rewrite omap_entryAt by done.
  by replace (from - 1 + 1) with from by lia; replace (to - (from - 1)) with (to - from + 1) by lia.
Qed.

Lemma slice_lookup l a b i e :
  -1 <= a -> slice l a b !! i = Some e -> l !! (Z.to_nat (a + 1) + i)%nat = Some e.
Proof. intros Ha [He _]%lookup_take_Some. by rewrite lookup_drop in He. Qed.

Lemma slice_indexed l a b :
  log_wf l -> -1 <= a -> indexed_from (a + 1) (slice l a b).
Proof.
  intros [_ Hidx] Ha i e He%slice_lookup; [|done]. apply Hidx in He. lia.
Qed.

Lemma slice_length l a b :
  log_wf l -> -1 <= a <= b -> b <= lastIndex l -> length (slice l a b) = Z.to_nat (b - a).
Proof.
  intros Hwf Ha Hb. unfold slice. rewrite length_take, length_drop.
  rewrite log_wf_lastIndex in Hb by done. lia.
Qed.

Section CatchUp.
Context (peer : string) (p : PendingEntry).

Abbreviation target := (eIndex (peEntry p)).

(** The leader still leads the pending entry's term and holds it. *)
Record leading (l : Node) : Prop := {
  ld_wf : log_wf (log l);
  ld_max : lastIndex (log l) < 2 ^ 64 - 1;
  ld_state : state l = Leader;
  ld_term : currentTerm l = peTerm p;
  ld_entry : 0 < target <= lastIndex (log l);
  ld_next : 1 <= nextIndexOf l peer <= lastIndex (log l) + 1 }.

(** The follower is not ahead of the leader's term and its log matches. *)
Record following (l f : Node) : Prop := {
  fo_wf : log_wf (log f);
  fo_max : lastIndex (log f) < 2 ^ 64;
  fo_term : currentTerm f <= peTerm p;
  fo_match : log_matching (log l) (log f) }.

Lemma replicateArgs_leading l :
  leading l ->
  replicateArgs peer p l = Some
    {| aeTerm := peTerm p; aeLeaderID := id l; aePrevLogIndex := nextIndexOf l peer - 1;
       aePrevLogTerm := prevTermAt (log l) (nextIndexOf l peer - 1);
       aeEntries := slice (log l) (nextIndexOf l peer - 1) target;
       aeLeaderCommit := peCommit p |}.
Proof.
  intros [Hwf Hmax Hst Ht He Hn]. unfold replicateArgs, IsLeader.
  rewrite Ht, Z.eqb_refl, Hst. simpl.
  rewrite u64_small by (unfold is_u64; lia).
  by rewrite collectEntries_slice by (done || lia).
Qed.

(** The consistency check compares the follower with the leader's own entry. *)
Lemma prevLogOK_agree l f args :
  leading l -> following l f -> replicateArgs peer p l = Some args ->
  prevLogOK args (log f) = true ->
  agree_to (log l) (log f) (Z.to_nat (nextIndexOf l peer)).
Proof.
  intros Hl Hf Ha Hp. rewrite (replicateArgs_leading _ Hl) in Ha. injection Ha as <-.
  destruct Hl as [Hwf Hmax Hst Ht He Hn], Hf as [Hwf' _ _ Hm].
  unfold prevLogOK, prevTermAt in Hp. simpl in Hp.
  destruct (0 <? nextIndexOf l peer - 1) eqn:E; breflect.
  - destruct (log_wf_entryAt_in (log l) (nextIndexOf l peer - 1)) as [x Hx]; [done|lia|].
    rewrite Hx in Hp. destruct (entryAt (log f) _) as [y|] eqn:Hy; [|done]. breflect.
    apply log_wf_entryAt_Some in Hx as (_ & _ & Hx); [|done].
    apply log_wf_entryAt_Some in Hy as (_ & _ & Hy); [|done].
    apply take_agree_to. replace (Z.to_nat (nextIndexOf l peer))
      with (S (Z.to_nat (nextIndexOf l peer - 1))) by lia.
    by eapply Hm.
  - replace (Z.to_nat (nextIndexOf l peer)) with 1%nat by lia. intros [|i] Hi; [|lia].
    destruct Hwf as [-> _], Hwf' as [-> _]. done.
Qed.

(** An accepted request ends the loop with an ack and equal log prefixes. *)
Lemma round_accept l f args :
  leading l -> following l f -> replicateArgs peer p l = Some args ->
  prevLogOK args (log f) = true ->
  exists l' f' b,
    HandleAppendEntries args f = (f', mkAEReply (peTerm p) true, b) /\
    replicateReply peer p (mkAEReply (peTerm p) true) l = (l', RDone true) /\
    agree_to (log l) (log f') (S (Z.to_nat target)) /\
    nextIndexOf l' peer = target + 1 /\ target <= matchIndexOf l' peer.
Proof.
  intros Hl Hf Ha Hp. pose proof (prevLogOK_agree _ _ _ Hl Hf Ha Hp) as Hag.
  rewrite (replicateArgs_leading _ Hl) in Ha. injection Ha as <-.
  pose proof Hl as [Hwf Hmax Hst Ht He Hn]. pose proof Hf as [Hwf' Hmax' Ht' Hm].
  match type of Hp with prevLogOK ?a _ = _ => set (args := a) in * end.
  destruct (HandleAppendEntries_ok args f) as (f' & b & Hh & Hlog & _); [done|done|].
  assert (ae_wf args) as Hae.
  { split; simpl; [lia|]. apply slice_indexed; [done|lia]. }
  destruct (appendEntries_request args (log f) Hwf' Hae Hp Hmax') as [Hmerge Hk].
  assert (startPos args = Z.to_nat (nextIndexOf l peer)) as Hpos.
  { unfold startPos. simpl. f_equal. lia. }
  assert (agree_to (log l) (log f') (S (Z.to_nat target))) as Hfinal.
  { rewrite Hlog, Hmerge, Hpos. eapply agree_to_weaken.
    - apply merge_agree; [done|done|lia|]. intros i e Hi. simpl in Hi.
      apply slice_lookup in Hi; [|lia].
      by replace (nextIndexOf l peer - 1 + 1) with (nextIndexOf l peer) in Hi by lia.
    - simpl. destruct (decide (nextIndexOf l peer - 1 <= target)).
      + rewrite slice_length by (done || lia). lia.
      + lia. }
  unfold replicateReply. simpl. rewrite Z.ltb_irrefl. do 3 eexists.
  split_and!; [exact Hh|reflexivity|exact Hfinal| |].
  - unfold nextIndexOf. simpl. rewrite lookup_insert_eq. simpl. apply u64_small. unfold is_u64. lia.
  - unfold matchIndexOf. simpl. destruct (default 0 (matchIndex l !! peer) <? target) eqn:E;
      breflect; simpl; [by rewrite lookup_insert_eq|done].
Qed.

(** A rejected request lowers [nextIndex] by one and keeps both invariants. *)
Lemma round_reject l f args :
  leading l -> following l f -> replicateArgs peer p l = Some args ->
  prevLogOK args (log f) = false ->
  exists l' f',
    HandleAppendEntries args f = (f', mkAEReply (peTerm p) false, false) /\
    replicateReply peer p (mkAEReply (peTerm p) false) l = (l', RRetry) /\
    nextIndexOf l' peer = nextIndexOf l peer - 1 /\ leading l' /\ following l' f' /\
    log l' = log l.
Proof.
  intros Hl Hf Ha Hp. rewrite (replicateArgs_leading _ Hl) in Ha. injection Ha as <-.
  pose proof Hl as [Hwf Hmax Hst Ht He Hn]. pose proof Hf as [Hwf' Hmax' Ht' Hm].
  match type of Hp with prevLogOK ?a _ = _ => set (args := a) in * end.
  assert (1 < nextIndexOf l peer) as Hgt.
  { unfold prevLogOK in Hp. simpl in Hp. case_if; breflect; [lia|done]. }
  set (l' := set_nextIndex (<[peer := u64 (nextIndexOf l peer - 1)]> (nextIndex l)) l).
  assert (nextIndexOf l' peer = nextIndexOf l peer - 1) as Hn'.
  { unfold nextIndexOf, l'. simpl. rewrite lookup_insert_eq. simpl. apply u64_small.
    unfold is_u64. unfold nextIndexOf in *. lia. }
  exists l', (acceptLeader args f). split_and!; [| |done| | |done].
  - by apply HandleAppendEntries_mismatch.
  - unfold replicateReply. simpl. rewrite Z.ltb_irrefl, (proj2 (Z.ltb_lt _ _) Hgt). done.
  - split; [done..|]. rewrite Hn'. simpl. lia.
  - split; rewrite ?acceptLeader_log, ?acceptLeader_term; [done|done| |done].
    simpl. lia.
Qed.

(** C19. Catch-up terminates and succeeds: a leader of the entry's term with a
    well-formed log, and a follower that is not in a later term and whose log
    matches, end [replicateToPeer] in an ack after at most [nextIndex] rounds;
    then the follower's log equals the leader's up to and including the
    replicated entry, and [nextIndex]/[matchIndex] of the peer record it. *)
Theorem replicate_catches_up fuel l f :
  leading l -> following l f -> nextIndexOf l peer <= Z.of_nat fuel ->
  exists l' f', replicateToPeer fuel peer p l f = Some (true, l', f') /\
    agree_to (log l) (log f') (S (Z.to_nat target)) /\
    nextIndexOf l' peer = target + 1 /\ target <= matchIndexOf l' peer.
Proof.
  revert l f. induction fuel as [|fuel IH]; intros l f Hl Hf Hfuel.
  { pose proof (ld_next _ Hl). lia. }
  simpl. destruct (replicateArgs peer p l) as [args|] eqn:Ha.
  2: { by rewrite (replicateArgs_leading _ Hl) in Ha. }
  destruct (prevLogOK args (log f)) eqn:Hp.
  - destruct (round_accept _ _ _ Hl Hf Ha Hp) as (l' & f' & b & -> & -> & ? & ? & ?).
    exists l', f'. auto.
  - destruct (round_reject _ _ _ Hl Hf Ha Hp) as (l' & f' & -> & -> & Hn & Hl' & Hf' & <-).
    apply IH; [done|done|lia].
Qed.
End CatchUp.

(** The leader of term 2 believes nodeB has everything; nodeB holds a stale
    uncommitted entry. *)
Definition demoPending : PendingEntry := mkPending (mkEntry 2 3 "z") 2 0.
Definition demoLeader4 : Node := set_nextIndex {["nodeB" := 4]} demoLeader.

Lemma replicate_catches_up_witness :
  exists l' f', replicateToPeer 4 "nodeB" demoPending demoLeader4
      (set_log [sentinel; mkEntry 1 1 "x"; mkEntry 1 2 "stale"] demoFollower) = Some (true, l', f') /\
    (eCommand <$> log f') = [""; "x"; "y"; "z"].
Proof.
  destruct (replicate_catches_up "nodeB" demoPending 4 demoLeader4
    (set_log [sentinel; mkEntry 1 1 "x"; mkEntry 1 2 "stale"] demoFollower)) as (l' & f' & He & _ & _ & _).
  - split; [exact demoLeader_wf|by vm_compute..].
  - split; [|by vm_compute|by vm_compute|].
    + split; [done|]. by apply indexed_from_dec_intro.
    + intros [|[|[|[|i]]]] x y Hx Hy Ht; simplify_eq/=; try done.
  - by vm_compute.
  - exists l', f'. split; [exact He|]. vm_compute in He. by injection He as <- <-.
Defined.
