(* ===== verification/RaftLiveness.v ===== *)
(** * A cluster can serve

    The safety theorems hold of a cluster that does nothing.  Here is the other
    half: in any cluster of two nodes or more, any node can be elected, and can
    then get any sequence of commands replicated, committed, handed to its state
    machine and acknowledged, by steps of the cluster alone (timers that fire
    and messages that arrive; no reordering, loss or restart is needed).  The
    schedule is built by recursion over the commands and, for each, over the
    peers: vote by vote, then copy by copy. *)

From S2P Require Import Prelude RaftLog RaftNode RaftCluster RaftElection RaftReplication.

(** ** Steps *)

Lemma do_step s ev n rt rt' ms :
  actor s ev = Some n -> nodes s !! n = Some rt -> localStep n rt (net s) ev = Some (rt', ms) -> cstep s (put n rt' ms s).
Proof. intros Ha Hn Hl. exists ev. unfold step. rewrite Ha. cbn [mbind option_bind]. rewrite Hn. cbn [mbind option_bind]. by rewrite Hl. Qed.

Lemma put_self n rt ms s : nodes (put n rt ms s) !! n = Some rt.
Proof. apply lookup_insert_eq. Qed.
Lemma put_other n m rt ms s : m <> n -> nodes (put n rt ms s) !! m = nodes s !! m.
Proof. intros. by apply lookup_insert_ne. Qed.
Lemma put_net n rt ms s i m : net s !! i = Some m -> net (put n rt ms s) !! i = Some m.
Proof. intros H. cbn. by apply lookup_app_l_Some. Qed.
Lemma put_sent n rt m s : net (put n rt [m] s) !! length (net s) = Some m.
Proof. cbn. by rewrite lookup_app_r, Nat.sub_diag. Qed.

(** ** The logs of term 1 *)

Definition mkLog (cs : list string) : list LogEntry := sentinel :: imap (fun i c => mkEntry 1 (Z.of_nat i + 1) c) cs.

Lemma mkLog_length cs : length (mkLog cs) = S (length cs).
Proof. cbn. by rewrite length_imap. Qed.

Lemma mkLog_wf cs : log_wf (mkLog cs).
Proof.
  split; [done|]. intros [|i] e Hi; cbn in Hi; [by simplify_eq|].
  apply list_lookup_imap_Some in Hi as (c & _ & ->). cbn. lia.
Qed.

Lemma mkLog_snoc cs c : mkLog (cs ++ [c]) = mkLog cs ++ [mkEntry 1 (Z.of_nat (length cs) + 1) c].
Proof. unfold mkLog. rewrite imap_app. cbn. by rewrite Nat.add_0_r. Qed.

Lemma mkLog_lastIndex cs : lastIndex (mkLog cs) = Z.of_nat (length cs).
Proof. rewrite log_wf_lastIndex, mkLog_length by apply mkLog_wf. lia. Qed.

Lemma mkLog_commands cs : eCommand <$> mkLog cs = "" :: cs.
Proof. unfold mkLog. cbn. f_equal. rewrite fmap_imap. induction cs as [|c cs IH] using rev_ind; [done|]. rewrite imap_app. by cbn; rewrite IH. Qed.

Lemma mkLog_tail cs : eCommand <$> drop 1 (mkLog cs) = cs.
Proof. rewrite fmap_drop, mkLog_commands. cbn. by rewrite drop_0. Qed.

(** A peer that has the entries of [l], knows of fewer commits than it has
    entries, and has applied nothing. *)
Definition synced (l : list string) (rt : Runtime) : Prop :=
  currentTerm (node rt) <= 1 /\ log (node rt) = mkLog l /\ 0 <= commitIndex (node rt) <= Z.of_nat (pred (length l)) /\
  lastApplied (node rt) = 0 /\ applyCh (node rt) = Some [].

(** A request of the leader that passes the log check. *)
Lemma accepted args rt l : synced l rt -> aeTerm args = 1 -> prevLogOK args (mkLog l) = true ->
  exists n', HandleAppendEntries args (node rt) = (n', mkAEReply 1 true, commitIndex (node rt) <? aeLeaderCommit args) /\
    currentTerm n' = 1 /\ log n' = appendEntries (mkLog l) (aeEntries args) /\
    commitIndex n' = (if commitIndex (node rt) <? aeLeaderCommit args
                      then Z.min (aeLeaderCommit args) (lastIndex (log n')) else commitIndex (node rt)) /\
    lastApplied n' = 0 /\ applyCh n' = Some [].
Proof.
  intros (Ht & Hl & _ & Ha & Hch) Hat Hp. unfold HandleAppendEntries. rewrite (proj2 (Z.ltb_ge _ _)) by lia.
  rewrite acceptLeader_log, Hl, Hp.
  assert (lastApplied (acceptLeader args (node rt)) = 0 /\ applyCh (acceptLeader args (node rt)) = Some []) as [Ha' Hch'].
  { unfold acceptLeader, signalReset, becomeFollower. simpl. by repeat case_if. }
  pose proof (acceptLeader_term args (node rt)) as Ht'. replace (Z.max _ _) with 1 in Ht' by lia.
  unfold storeEntries. cbn [commitIndex set_log log]. rewrite acceptLeader_commit, acceptLeader_log, Hl, Ht'.
  case_if; eexists; (split; [reflexivity|]); split_and!; try done. apply acceptLeader_commit.
Qed.

Lemma foldl_insert_all (l : list string) (v : Z) (m : gmap string Z) p : p ∈ l -> foldl (fun m p => <[p := v]> m) m l !! p = Some v.
Proof.
  revert m. induction l as [|x l IH] using rev_ind; intros m Hp; [by apply elem_of_nil in Hp|].
  rewrite foldl_snoc. destruct (decide (p = x)) as [->|Hpx]; [by rewrite lookup_insert_eq|].
  rewrite lookup_insert_ne by done. apply IH. set_solver.
Qed.

Section Serve.
Context (ids : list string) (self : string).
Hypotheses (Hnd : NoDup ids) (Hself : self ∈ ids) (Hlen : (2 <= length ids)%nat).

Abbreviation ps := (peersOf ids self).
Abbreviation fresh p := (newRuntime p (peersOf ids p) (Some [])).

Lemma ps_NoDup : NoDup ps.
Proof. by apply NoDup_filter. Qed.
Lemma ps_ne p : p ∈ ps -> p <> self.
Proof. intros Hp. by apply list_elem_of_filter in Hp as [? _]. Qed.
Lemma ps_length : Z.of_nat (length ps) = Z.of_nat (length ids) - 1.
Proof.
  assert (length ids = S (length ps)) as ->; [|lia]. unfold peersOf. clear Hlen.
  induction ids as [|x l IH]; [by apply elem_of_nil in Hself|]. apply NoDup_cons in Hnd as [Hx Hl].
  destruct (decide (x = self)) as [->|Hxs].
  - rewrite filter_cons_False by naive_solver. cbn. by rewrite filter_ne_id.
  - rewrite filter_cons_True by done. cbn. f_equal. apply IH; [done|]. by apply elem_of_cons in Hself as [->|].
Qed.

(** ** The election *)

(** The candidate: a fresh node that timed out and started an election. *)
Definition cand : Node := startElection (set_state Candidate (NewNode self ps (Some []))).
Definition ask : RequestVoteArgs := mkRVArgs 1 self 0 0.

(** After [j] votes: the candidate has counted its own and those of the first
    [j] peers. *)
Definition voting (j : nat) (s : Cluster) : Prop :=
  nodes s !! self = Some (mkRT cand (PcCand 1 (1 + Z.of_nat j) (drop j ps)) [] []) /\
  (forall i p, ps !! i = Some p -> net s !! i = Some (MRequestVote self p ask)) /\
  (forall i p, ps !! i = Some p -> (j <= i)%nat -> nodes s !! p = Some (fresh p)) /\
  (forall p, p ∈ ps -> exists rt, nodes s !! p = Some rt /\ synced [] rt).

Lemma NewCluster_lookup p : p ∈ ids -> nodes (NewCluster ids (Some [])) !! p = Some (fresh p).
Proof.
  intros Hp. unfold NewCluster. cbn [nodes]. apply elem_of_list_to_map_1.
  - rewrite <- list_fmap_compose. cbn. by rewrite list_fmap_id.
  - apply list_elem_of_fmap. by exists p.
Qed.

Lemma ps_ids p : p ∈ ps -> p ∈ ids.
Proof. intros Hp. by apply list_elem_of_filter in Hp as [_ ?]. Qed.

(** Timeout, new term, vote requests. *)
Lemma start_voting : exists s, rtc cstep (NewCluster ids (Some [])) s /\ voting 0 s.
Proof.
  set (s0 := NewCluster ids (Some [])).
  pose proof (NewCluster_lookup self Hself) as H0. fold s0 in H0.
  pose proof (do_step s0 (EvRun self RLoop) self _ _ _ eq_refl H0 eq_refl) as S1. set (s1 := put self _ _ s0) in S1.
  pose proof (put_self self _ _ s0 : nodes s1 !! self = _) as H1.
  pose proof (do_step s1 (EvRun self RTimeout) self _ _ _ eq_refl H1 eq_refl) as S2. set (s2 := put self _ _ s1) in S2.
  pose proof (put_self self _ _ s1 : nodes s2 !! self = _) as H2.
  pose proof (do_step s2 (EvRun self RLoop) self _ _ _ eq_refl H2 eq_refl) as S3. set (s3 := put self _ _ s2) in S3.
  pose proof (put_self self _ _ s2 : nodes s3 !! self = _) as H3.
  pose proof (do_step s3 (EvRun self RElect) self _ _ _ eq_refl H3 eq_refl) as S4. set (s4 := put self _ _ s3) in S4.
  exists s4. split; [eapply rtc_l; [exact S1|]; eapply rtc_l; [exact S2|]; eapply rtc_l; [exact S3|]; by apply rtc_once|].
  assert (forall p, p ∈ ps -> nodes s4 !! p = Some (fresh p)) as Hfresh.
  { intros p Hp. unfold s4, s3, s2, s1. rewrite !put_other by (by apply ps_ne). apply NewCluster_lookup. by apply ps_ids. }
  split_and!.
  - rewrite (put_self self _ _ s3 : nodes s4 !! self = _). done.
  - intros i p Hp. unfold s4. cbn [net put app]. change (net s3) with (@nil Message). cbn [app].
    rewrite list_lookup_fmap. cbn [peers node with_pc with_node]. change (peers _) with ps. by rewrite Hp.
  - intros i p Hp _. apply Hfresh. by eapply list_elem_of_lookup_2.
  - intros p Hp. eexists. split; [by apply Hfresh|]. split_and!; cbn; lia || done.
Qed.

(** The next peer's vote: granted, and counted. *)
Definition counted (j : nat) : RunPc :=
  if majority cand <=? 2 + Z.of_nat j then PcWon 1 else PcCand 1 (2 + Z.of_nat j) (drop (S j) ps).

Lemma one_vote j p s : voting j s -> ps !! j = Some p ->
  exists s', rtc cstep s s' /\ nodes s' !! self = Some (mkRT cand (counted j) [] []) /\
    (forall i q, ps !! i = Some q -> net s' !! i = Some (MRequestVote self q ask)) /\
    (forall i q, ps !! i = Some q -> (S j <= i)%nat -> nodes s' !! q = Some (fresh q)) /\
    (forall q, q ∈ ps -> exists rt, nodes s' !! q = Some rt /\ synced [] rt).
Proof.
  intros (Hs & Hnet & Hfresh & Hready) Hp.
  assert (p <> self) as Hps by (by eapply ps_ne, list_elem_of_lookup_2).
  pose proof (Hfresh j p Hp (le_n j)) as Hpn. pose proof (Hnet j p Hp) as Hm.
  assert (exists n', HandleRequestVote ask (node (fresh p)) = (n', mkRVReply 1 true) /\
    synced [] (with_node (fun _ => n') (fresh p))) as (n' & Hv & Hn').
  { eexists. split; [reflexivity|]. split_and!; cbn; lia || done. }
  assert (cstep s (put p (with_node (fun _ => n') (fresh p)) [MRequestVoteReply p self ask (mkRVReply 1 true)] s)) as S1.
  { eapply (do_step s (EvDeliver j) p (fresh p)).
    - cbn [actor]. by rewrite Hm.
    - done.
    - cbn [localStep]. rewrite Hm. cbn [mbind option_bind deliver]. by rewrite Hv. }
  set (s1 := put p _ _ s) in S1.
  assert (nodes s1 !! self = Some (mkRT cand (PcCand 1 (1 + Z.of_nat j) (drop j ps)) [] [])) as H1.
  { unfold s1. by rewrite put_other. }
  assert (net s1 !! length (net s) = Some (MRequestVoteReply p self ask (mkRVReply 1 true))) as Hr by apply put_sent.
  assert (removeFirst p (drop j ps) = Some (drop (S j) ps)) as Hrem.
  { rewrite (drop_S ps p j Hp). cbn [removeFirst]. by rewrite bool_decide_eq_true_2. }
  assert (cstep s1 (put self (mkRT cand (counted j) [] []) [] s1)) as S2.
  { eapply (do_step s1 (EvRun self (RVoteReply p (length (net s)))) self); [done|exact H1|].
    cbn [localStep runStep pc]. rewrite Hrem. cbn [mbind option_bind]. rewrite Hr.
    rewrite !bool_decide_eq_true_2 by done. cbn [andb rvTerm ask Z.eqb Pos.eqb]. unfold with_pc. cbn [node threads results].
    unfold countVote, counted. cbn [rvrTerm rvrVoteGranted Z.ltb Z.compare Pos.compare Pos.compare_cont].
    by replace (1 + Z.of_nat j + 1) with (2 + Z.of_nat j) by lia. }
  eexists. split; [eapply rtc_l; [exact S1|]; by apply rtc_once|]. split_and!.
  - apply put_self.
  - intros i q Hq. apply put_net, put_net. by apply Hnet.
  - intros i q Hq Hi. assert (q <> p) as Hqp.
    { intros ->. assert (i = j) by (by eapply NoDup_lookup; [apply ps_NoDup|..]). lia. }
    rewrite put_other by (by eapply ps_ne, list_elem_of_lookup_2). unfold s1. rewrite put_other by done. apply (Hfresh i q Hq). lia.
  - intros q Hq. rewrite put_other by by apply ps_ne. unfold s1. destruct (decide (q = p)) as [->|Hqp].
    + rewrite put_self. eexists. split; [done|]. exact Hn'.
    + rewrite put_other by done. by apply Hready.
Qed.

Lemma majority_cand : majority cand = Z.of_nat (length ids) / 2 + 1.
Proof. unfold majority. change (peers cand) with ps. rewrite ps_length. do 2 f_equal. lia. Qed.

(** Enough votes make a majority. *)
Lemma win d : forall j s, voting j s -> majority cand = 2 + Z.of_nat (j + d) ->
  exists s', rtc cstep s s' /\ nodes s' !! self = Some (mkRT cand (PcWon 1) [] []) /\
    (forall q, q ∈ ps -> exists rt, nodes s' !! q = Some rt /\ synced [] rt).
Proof.
  induction d as [|d IH]; intros j s Hv Hm.
  all: assert (j < length ps)%nat as Hj
    by (rewrite majority_cand in Hm; pose proof ps_length; pose proof (Z.mul_div_le (Z.of_nat (length ids)) 2); lia).
  all: destruct (lookup_lt_is_Some_2 ps j Hj) as [p Hp]; destruct (one_vote j p s Hv Hp) as (s1 & R1 & H1 & N1 & F1 & A1).
  all: unfold counted in H1.
  - rewrite (proj2 (Z.leb_le _ _)) in H1 by lia. by exists s1.
  - rewrite (proj2 (Z.leb_gt _ _)) in H1 by lia.
    destruct (IH (S j) s1) as (s2 & R2 & H2 & A2); [|lia|by exists s2; split; [by etrans|]].
    split_and!; [|done|done|done]. rewrite H1. do 3 f_equal. lia.
Qed.

(** The new leader. *)
Definition lead : Node := becomeLeader 1 cand.

Lemma elect : exists s, rtc cstep (NewCluster ids (Some [])) s /\ nodes s !! self = Some (mkRT lead PcTop [] []) /\
  (forall q, q ∈ ps -> exists rt, nodes s !! q = Some rt /\ synced [] rt).
Proof.
  destruct start_voting as (s0 & R0 & V0).
  assert (1 <= Z.of_nat (length ids) / 2) as Hh by (apply Z.div_le_lower_bound; lia).
  destruct (win (Z.to_nat (majority cand - 2)) 0 s0 V0) as (s1 & R1 & H1 & A1); [rewrite majority_cand; lia|].
  eexists. split_and!; [etrans; [exact R0|]; etrans; [exact R1|]; apply rtc_once;
    by apply (do_step s1 (EvRun self RBecomeLeader) self _ _ _ eq_refl H1 eq_refl)|apply put_self|].
  intros q Hq. rewrite put_other by by apply ps_ne. by apply A1.
Qed.

(** ** One write *)

(** How many peers must acknowledge, and what the peers have when the leader is
    idle: those of the quorum everything, the others nothing. *)
Definition quorum : nat := Z.to_nat (majority cand - 1).

Lemma quorum_majority : majority cand = Z.of_nat quorum + 1 /\ (0 < quorum <= length ps)%nat.
Proof.
  assert (1 <= Z.of_nat (length ids) / 2) as Hh by (apply Z.div_le_lower_bound; lia).
  pose proof ps_length. pose proof (Z.mul_div_le (Z.of_nat (length ids)) 2). unfold quorum. rewrite majority_cand. lia.
Qed.

Definition idleHas (cs : list string) (i : nat) : list string := if (i <? quorum)%nat then cs else [].
Definition copyHas (cs : list string) (c : string) (j i : nat) : list string := if (i <? j)%nat then cs ++ [c] else idleHas cs i.

Record leads (l a : list string) (n : Node) : Prop := {
  ld_state : state n = Leader; ld_term : currentTerm n = 1; ld_id : id n = self; ld_peers : peers n = ps;
  ld_log : log n = mkLog l; ld_commit : commitIndex n = Z.of_nat (length a); ld_applied : lastApplied n = Z.of_nat (length a);
  ld_ch : applyCh n = Some a; ld_stop : stopCh n = false }.

Definition nexts (h : nat -> list string) (n : Node) : Prop :=
  forall i p, ps !! i = Some p -> nextIndexOf n p = Z.of_nat (length (h i)) + 1.
Definition have (h : nat -> list string) (s : Cluster) : Prop :=
  forall i p, ps !! i = Some p -> exists rt, nodes s !! p = Some rt /\ synced (h i) rt.

Lemma lead_next p : p ∈ ps -> nextIndexOf lead p = 1.
Proof.
  intros Hp. unfold nextIndexOf, lead, becomeLeader. cbn [currentTerm cand startElection update_Metrics set_Metrics].
  change (negb _) with false. cbv iota. change (negb _) with false. cbv iota.
  unfold resetPeerIndexes, update_Metrics. cbn [nextIndex set_Metrics set_matchIndex set_nextIndex peers].
  change (peers _) with ps. rewrite foldl_insert_all by done. reflexivity.
Qed.

Section Write.
Context (cs : list string) (c : string).
Hypothesis (Hsmall : Z.of_nat (length cs) + 2 < 2 ^ 64).
Abbreviation k := (Z.of_nat (length cs)).

Definition newEntry : LogEntry := mkEntry 1 (k + 1) c.
Definition pending : PendingEntry := mkPending newEntry 1 k.
Definition copy : AppendEntriesArgs := mkAEArgs 1 self k (prevTermAt (mkLog (cs ++ [c])) k) [newEntry] k.

Lemma copy_sent n p : leads (cs ++ [c]) cs n -> nextIndexOf n p = k + 1 -> replicateArgs p pending n = Some copy.
Proof.
  intros Hn Hx. unfold replicateArgs, IsLeader. cbn [peTerm pending peEntry newEntry eIndex peCommit].
  rewrite (ld_state _ _ _ Hn), (ld_term _ _ _ Hn), (ld_id _ _ _ Hn), (ld_log _ _ _ Hn), Hx.
  rewrite bool_decide_eq_true_2 by done. cbn [Z.eqb Pos.eqb negb orb].
  rewrite u64_small by (unfold is_u64; lia). replace (k + 1 - 1) with k by lia. unfold copy. do 2 f_equal.
  unfold collectEntries. rewrite omap_entryAt by (apply mkLog_wf || lia). replace (Z.to_nat (k + 1)) with (length (mkLog cs)) by (rewrite mkLog_length; lia).
  replace (k + 1 - (k + 1) + 1) with 1 by lia. by rewrite mkLog_snoc, drop_app_length.
Qed.

Lemma copy_prev : prevLogOK copy (mkLog cs) = true.
Proof.
  unfold prevLogOK, copy, prevTermAt. cbn [aePrevLogIndex aePrevLogTerm]. destruct (0 <? k) eqn:E; [|done]. apply Z.ltb_lt in E.
  rewrite !log_wf_entryAt by (apply mkLog_wf || lia). rewrite mkLog_snoc, lookup_app_l by (rewrite mkLog_length; lia).
  destruct (lookup_lt_is_Some_2 (mkLog cs) (Z.to_nat k)) as [e ->]; [rewrite mkLog_length; lia|]. apply Z.eqb_refl.
Qed.

Lemma copy_stored rt : synced cs rt ->
  exists n' b, HandleAppendEntries copy (node rt) = (n', mkAEReply 1 true, b) /\
    forall pc ths rs, synced (cs ++ [c]) (mkRT n' pc ths rs).
Proof.
  intros Hs. destruct (accepted copy rt cs Hs eq_refl copy_prev) as (n' & Hh & Ht & Hl & Hc & Ha & Hch).
  destruct Hs as (_ & _ & Hcom & _). cbn [aeEntries copy aeLeaderCommit] in *.
  rewrite appendEntries_fresh in Hl; cycle 1.
  { apply mkLog_wf. }
  { rewrite mkLog_lastIndex. intros [|i] e Hi; cbn in Hi; simplify_eq. cbn. lia. }
  unfold newEntry in Hl. rewrite <- mkLog_snoc in Hl. exists n', (commitIndex (node rt) <? k). split; [done|]. intros.
  unfold synced. cbn [node]. rewrite Hl, mkLog_lastIndex in Hc. rewrite Hc, Ht, Hl, Ha, Hch, length_app. cbn [length].
  split_and!; try done; case_if; breflect; lia.
Qed.

Lemma copy_reported j p n : ps !! j = Some p -> leads (cs ++ [c]) cs n -> nexts (copyHas cs c j) n ->
  exists n', replicateReply p pending (mkAEReply 1 true) n = (n', RDone true) /\ leads (cs ++ [c]) cs n' /\ nexts (copyHas cs c (S j)) n'.
Proof.
  intros Hp Hn Hx. eexists. split; [reflexivity|]. cbn [peEntry pending newEntry eIndex]. rewrite u64_small by (unfold is_u64; lia).
  split; [destruct Hn; by destruct (matchIndexOf n p <? k + 1)|].
  intros i q Hq. assert (forall m, nextIndex (if matchIndexOf n p <? k + 1 then set_matchIndex m n else n) = nextIndex n) as E
    by (intros m; by destruct (_ <? _)).
  unfold nextIndexOf. cbn [nextIndex set_nextIndex]. rewrite E. unfold copyHas. destruct (decide (i = j)) as [->|Hij].
  - rewrite (proj2 (Nat.ltb_lt _ _)) by lia. simplify_eq. rewrite lookup_insert_eq, length_app. cbn. lia.
  - rewrite lookup_insert_ne; [|intros ->; by eapply Hij, NoDup_lookup; [apply ps_NoDup|..]].
    specialize (Hx i q Hq). unfold nextIndexOf, copyHas in Hx. rewrite Hx.
    destruct (i <? j)%nat eqn:E1, (i <? S j)%nat eqn:E2; try done;
      apply Nat.ltb_lt in E1 || apply Nat.ltb_ge in E1; apply Nat.ltb_lt in E2 || apply Nat.ltb_ge in E2; lia.
Qed.

(** *** The goroutines of the call, at positions [call], [call + 1], ... *)

Context (before : list Thread) (rs : list (nat * option ReplicateError)).
Abbreviation call := (length before).

Definition counting (j : nat) : Thread := TClient call newEntry (1 + Z.of_nat j) (length ps - j).
Definition ackedAt (j : nat) : Thread := if (S j =? quorum)%nat then TCommit call newEntry else counting (S j).

Lemma pos_S i (t : Thread) ts : (before ++ t :: ts) !! (call + S i)%nat = ts !! i.
Proof. rewrite lookup_app_r by lia. by replace (call + S i - call)%nat with (S i) by lia. Qed.
Lemma set_S i x (t : Thread) ts : <[(call + S i)%nat := x]> (before ++ t :: ts) = before ++ t :: <[i := x]> ts.
Proof. by rewrite insert_app_r. Qed.
Lemma pos_0 (t : Thread) ts : (before ++ t :: ts) !! call = Some t.
Proof. by apply list_lookup_middle. Qed.
Lemma set_0 x (t : Thread) ts : <[call := x]> (before ++ t :: ts) = before ++ x :: ts.
Proof. rewrite insert_app_r_alt, Nat.sub_diag by lia. done. Qed.

(** After [j] acknowledgements. *)
Definition acking (j : nat) (t : Thread) (s : Cluster) : Prop :=
  exists n ts, nodes s !! self = Some (mkRT n PcTop (before ++ t :: ts) rs) /\ length ts = length ps /\
    leads (cs ++ [c]) cs n /\ nexts (copyHas cs c j) n /\ have (copyHas cs c j) s /\
    forall i p, ps !! i = Some p -> (j <= i)%nat -> ts !! i = Some (TReplicate call p pending).

Lemma send_step s n ths k p pe args : nodes s !! self = Some (mkRT n PcTop ths rs) ->
  ths !! k = Some (TReplicate call p pe) -> replicateArgs p pe n = Some args ->
  cstep s (put self (mkRT n PcTop (<[k := TReplicateWait call p pe (length (net s))]> ths) rs)
             [MAppendEntries self p (length (net s)) args] s).
Proof.
  intros Hs Hk Ha. eapply (do_step s (EvThread self k Go) self _ _ _ eq_refl Hs).
  cbn [localStep]. unfold threadStep. cbn [threads]. rewrite Hk. cbn [mbind option_bind node]. by rewrite Ha.
Qed.

Lemma report_step s n n' ths k p pe L i reply ok : nodes s !! self = Some (mkRT n PcTop ths rs) ->
  ths !! k = Some (TReplicateWait call p pe L) -> net s !! i = Some (MAppendEntriesReply p self L reply) ->
  replicateReply p pe reply n = (n', RDone ok) ->
  cstep s (put self (mkRT n' PcTop (<[k := TAck call ok]> ths) rs) [] s).
Proof.
  intros Hs Hk Hi Hr. eapply (do_step s (EvThread self k (Reply i)) self _ _ _ eq_refl Hs).
  cbn [localStep]. unfold threadStep. cbn [threads]. rewrite Hk. cbn [mbind option_bind node]. unfold aeReplyAt.
  rewrite Hi, !bool_decide_eq_true_2, Nat.eqb_refl by done. cbn [andb mbind option_bind]. by rewrite Hr.
Qed.

Lemma take_step s n ts i j : nodes s !! self = Some (mkRT n PcTop (before ++ counting j :: ts) rs) ->
  ts !! i = Some (TAck call true) -> (j < quorum)%nat -> peers n = ps ->
  cstep s (put self (mkRT n PcTop (before ++ ackedAt j :: <[i := TDone]> ts) rs) [] s).
Proof.
  intros Hs Hk Hj Hp. destruct quorum_majority as [Hq Hle].
  eapply (do_step s (EvThread self call (Take (call + S i))) self _ _ _ eq_refl Hs).
  cbn [localStep]. unfold threadStep. cbn [threads]. rewrite pos_0. cbn [mbind option_bind]. unfold counting at 1.
  rewrite pos_S, Hk. destruct (length ps - j)%nat as [|r] eqn:Hr; [lia|]. rewrite Nat.eqb_refl.
  unfold with_thread. cbn [threads node pc results]. rewrite set_S, set_0. do 5 f_equal.
  unfold countAck, ackedAt, majority. rewrite Hp. change ((Z.of_nat (length ps) + 1) / 2 + 1) with (majority cand).
  rewrite Hq. cbn [andb]. destruct (S j =? quorum)%nat eqn:E.
  - apply Nat.eqb_eq in E. by rewrite (proj2 (Z.leb_le _ _)) by lia.
  - apply Nat.eqb_neq in E. rewrite (proj2 (Z.leb_gt _ _)) by lia. unfold counting. f_equal; lia.
Qed.

(** One copy: sent, stored, reported, counted. *)
Lemma one_ack j s : (j < quorum)%nat -> acking j (counting j) s -> exists s', rtc cstep s s' /\ acking (S j) (ackedAt j) s'.
Proof.
  intros Hj (n & ts & Hs & Hlen' & Hn & Hx & Hh & Hts). destruct quorum_majority as [_ Hle].
  destruct (lookup_lt_is_Some_2 ps j) as [p Hp]; [lia|].
  assert (copyHas cs c j j = cs) as E by (unfold copyHas, idleHas; rewrite Nat.ltb_irrefl; by rewrite (proj2 (Nat.ltb_lt _ _))).
  assert (p <> self) as Hps by (by eapply ps_ne, list_elem_of_lookup_2).
  destruct (Hh j p Hp) as (rt & Hpn & Hsy). rewrite E in Hsy. destruct (copy_stored rt Hsy) as (n' & b & Hst & Hsy').
  destruct (copy_reported j p n Hp Hn Hx) as (n'' & Hrep & Hn'' & Hx'').
  assert (nextIndexOf n p = k + 1) as Hnx by (rewrite (Hx j p Hp), E; done).
  pose proof (send_step s n _ (call + S j) p pending copy Hs (eq_trans (pos_S _ _ _) (Hts j p Hp (le_n j))) (copy_sent n p Hn Hnx)) as S1.
  rewrite set_S in S1. set (L := length (net s)) in *. set (s1 := put self _ _ s) in S1.
  assert (net s1 !! L = Some (MAppendEntries self p L copy)) as Hm1 by apply put_sent.
  assert (cstep s1 (put p (spawn (if b then [TApplyStart KGo] else []) (with_node (fun _ => n') rt))
                      [MAppendEntriesReply p self L (mkAEReply 1 true)] s1)) as S2.
  { eapply (do_step s1 (EvDeliver L) p rt); [cbn [actor]; by rewrite Hm1|unfold s1; by rewrite put_other|].
    cbn [localStep]. rewrite Hm1. cbn [mbind option_bind deliver]. by rewrite Hst. }
  set (s2 := put p _ _ s1) in S2.
  assert (forall x : Thread, <[j := x]> ts !! j = Some x) as Hat by (intros; apply list_lookup_insert_eq; lia).
  assert (nodes s2 !! self = Some (mkRT n PcTop (before ++ counting j :: <[j := TReplicateWait call p pending L]> ts) rs)) as H2
    by (unfold s2; rewrite put_other by done; apply put_self).
  pose proof (report_step s2 n n'' _ (call + S j) p pending L (length (net s1)) _ true H2
    (eq_trans (pos_S _ _ _) (Hat _)) (put_sent _ _ _ _) Hrep) as S3.
  rewrite set_S, list_insert_insert_eq in S3. set (s3 := put self _ _ s2) in S3.
  pose proof (take_step s3 n'' _ j j (put_self _ _ _ _) (Hat _) Hj (ld_peers _ _ _ Hn'')) as S4. rewrite list_insert_insert_eq in S4.
  eexists. split; [eapply rtc_l; [exact S1|]; eapply rtc_l; [exact S2|]; eapply rtc_l; [exact S3|]; by apply rtc_once|].
  exists n'', (<[j := TDone]> ts). split; [apply put_self|]. split_and!; [by rewrite length_insert|done|done| |].
  - intros i q Hq. rewrite put_other by (by eapply ps_ne, list_elem_of_lookup_2). unfold s3.
    rewrite put_other by (by eapply ps_ne, list_elem_of_lookup_2). unfold s2, copyHas. destruct (decide (i = j)) as [->|Hij].
    + simplify_eq. rewrite put_self, (proj2 (Nat.ltb_lt _ _)) by lia. eexists. split; [done|apply Hsy'].
    + rewrite put_other by (intros ->; by eapply Hij, NoDup_lookup; [apply ps_NoDup|..]).
      unfold s1. rewrite put_other by (by eapply ps_ne, list_elem_of_lookup_2). specialize (Hh i q Hq). unfold copyHas in Hh.
      replace (i <? S j)%nat with (i <? j)%nat; [done|]. destruct (Nat.ltb_spec i j), (Nat.ltb_spec i (S j)); lia.
  - intros i q Hq Hi. rewrite list_lookup_insert_ne by lia. apply (Hts i q Hq). lia.
Qed.

Lemma collect d : forall j s, (j + S d = quorum)%nat -> acking j (counting j) s ->
  exists s', rtc cstep s s' /\ acking quorum (TCommit call newEntry) s'.
Proof.
  induction d as [|d IH]; intros j s Hjd Hv; destruct (one_ack j s ltac:(lia) Hv) as (s1 & R1 & A1); unfold ackedAt in A1.
  - rewrite (proj2 (Nat.eqb_eq _ _)) in A1 by lia. exists s1. split; [done|]. by replace quorum with (S j) at 1 by lia.
  - rewrite (proj2 (Nat.eqb_neq _ _)) in A1 by lia. destruct (IH (S j) s1 ltac:(lia) A1) as (s2 & R2 & A2).
    exists s2. split; [by etrans|done].
Qed.

(** *** The beginning and the end of the call *)

Lemma begin_write s n : nodes s !! self = Some (mkRT n PcTop before rs) -> leads cs cs n -> nexts (idleHas cs) n ->
  have (idleHas cs) s -> exists s', cstep s s' /\ acking 0 (counting 0) s'.
Proof.
  intros Hs Hn Hx Hh.
  assert (exists n', replicateBegin c n = Ok (n', pending) /\ leads (cs ++ [c]) cs n' /\ nextIndex n' = nextIndex n) as (n' & Hb & Hn' & Hx').
  { unfold replicateBegin, IsLeader. destruct Hn as [Hst Ht Hid Hps Hl Hc Ha Hch Hstop]. rewrite Hst, bool_decide_eq_true_2 by done.
    cbn [negb]. change (fst (lastIndexAndTerm (log n))) with (lastIndex (log n)).
    rewrite Hl, mkLog_lastIndex, Ht, Hc, u64_small by (unfold is_u64; lia). eexists. split; [reflexivity|].
    split; [|done]. split; cbn; try done. by rewrite mkLog_snoc. }
  pose proof (do_step s (EvClient self c) self _ (clientStep (mkRT n PcTop before rs) c) [] eq_refl Hs eq_refl) as S1.
  unfold clientStep in S1. cbn [node threads] in S1. rewrite Hb, (ld_peers _ _ _ Hn') in S1.
  eexists. split; [exact S1|]. exists n', ((fun p => TReplicate call p pending) <$> ps). split_and!.
  - rewrite put_self. unfold spawn, counting. cbn. by rewrite Nat.sub_0_r.
  - by rewrite length_fmap.
  - done.
  - intros i p Hp. unfold nextIndexOf. rewrite Hx'. by apply Hx.
  - intros i p Hp. rewrite put_other by (by eapply ps_ne, list_elem_of_lookup_2). by apply Hh.
  - intros i p Hp _. by rewrite list_lookup_fmap, Hp.
Qed.

Lemma thread_step s n n' t t' rs' ts : nodes s !! self = Some (mkRT n PcTop (before ++ t :: ts) rs) ->
  threadStep self (mkRT n PcTop (before ++ t :: ts) rs) (net s) call Go = Some (mkRT n' PcTop (before ++ t' :: ts) rs', []) ->
  cstep s (put self (mkRT n' PcTop (before ++ t' :: ts) rs') [] s).
Proof. intros Hs Ht. by eapply (do_step s (EvThread self call Go) self _ _ _ eq_refl Hs). Qed.

(** The transition of the call's own goroutine. *)
Ltac atHead H := unfold threadStep in H; cbn [threads] in H; rewrite pos_0 in H; cbn [mbind option_bind node] in H.

Lemma end_write s : acking quorum (TCommit call newEntry) s ->
  exists s' n ths, rtc cstep s s' /\ nodes s' !! self = Some (mkRT n PcTop ths (rs ++ [(call, None)])) /\
    leads (cs ++ [c]) (cs ++ [c]) n /\ nexts (idleHas (cs ++ [c])) n /\ have (idleHas (cs ++ [c])) s'.
Proof.
  intros (n & ts & Hs & _ & Hn & Hx & Hh & _). pose proof Hn as [Hst Ht Hid Hps Hl Hc Ha Hch Hstop].
  assert (forall i, copyHas cs c quorum i = idleHas (cs ++ [c]) i) as E by (intros i; unfold copyHas, idleHas; by destruct (_ <? _)%nat).
  pose proof (thread_step s n (set_commitIndex (k + 1) n) _ (TApplyStart (KClient call)) rs ts Hs) as S1.
  atHead S1.
  unfold with_thread, with_node, replicateCommit in S1. cbn [threads node pc results newEntry eIndex] in S1.
  rewrite Hc, (proj2 (Z.ltb_lt _ _)), set_0 in S1 by lia. specialize (S1 eq_refl). set (s1 := put self _ _ s) in S1.
  set (n1 := set_commitIndex (k + 1) n) in *. set (n2 := set_lastApplied (k + 1) n1).
  pose proof (thread_step s1 n1 n2 _ (TApply (KClient call) [c]) rs ts (put_self _ _ _ _)) as S2.
  atHead S2.
  assert (applyCollect n1 = (n2, [newEntry])) as Hap.
  { rewrite applyCollect_slice; cbn [n1 set_commitIndex log lastApplied commitIndex]; rewrite ?Hl, ?Ha; [|apply mkLog_wf|lia].
    f_equal. unfold slice. replace (k + 1 - k) with 1 by lia. rewrite mkLog_snoc.
    replace (Z.to_nat (k + 1)) with (length (mkLog cs)) by (rewrite mkLog_length; lia). by rewrite drop_app_length. }
  rewrite Hap in S2. change (applyCh n2) with (applyCh n) in S2. rewrite Hch in S2.
  unfold with_thread, with_node in S2. cbn [threads node pc results] in S2. rewrite set_0 in S2. specialize (S2 eq_refl).
  set (s2 := put self _ _ s1) in S2. set (n3 := set_applyCh (Some (cs ++ [c])) n2).
  pose proof (thread_step s2 n2 n3 _ (TApply (KClient call) []) rs ts (put_self _ _ _ _)) as S3.
  atHead S3.
  change (applyCh n2) with (applyCh n) in S3. rewrite Hch in S3.
  unfold with_thread, with_node in S3. cbn [threads node pc results mbind option_bind] in S3. rewrite set_0 in S3. specialize (S3 eq_refl).
  set (s3 := put self _ _ s2) in S3.
  pose proof (thread_step s3 n3 n3 _ TDone (rs ++ [(call, None)]) ts (put_self _ _ _ _)) as S4.
  atHead S4.
  unfold applyDone, finish, with_thread in S4. cbn [threads node pc results] in S4. rewrite set_0 in S4. specialize (S4 eq_refl).
  eexists _, n3, _. split; [eapply rtc_l; [exact S1|]; eapply rtc_l; [exact S2|]; eapply rtc_l; [exact S3|]; by apply rtc_once|].
  split; [apply put_self|]. split_and!.
  - split; cbn; try done; rewrite ?length_app; cbn; lia.
  - intros i p Hp. rewrite <- E. by apply Hx.
  - intros i p Hp. unfold s3, s2, s1. rewrite !put_other by (by eapply ps_ne, list_elem_of_lookup_2). rewrite <- E. by apply Hh.
Qed.
End Write.

(** ** Any sequence of commands *)

Definition idle (cs : list string) (rs : list (nat * option ReplicateError)) (s : Cluster) : Prop :=
  exists n ths, nodes s !! self = Some (mkRT n PcTop ths rs) /\ leads cs cs n /\ nexts (idleHas cs) n /\ have (idleHas cs) s.

Lemma serve_one cs c rs s : Z.of_nat (length cs) + 2 < 2 ^ 64 -> idle cs rs s ->
  exists s' call, rtc cstep s s' /\ idle (cs ++ [c]) (rs ++ [(call, None)]) s'.
Proof.
  intros Hsmall (n & ths & Hs & Hn & Hx & Hh).
  destruct (begin_write cs c Hsmall ths rs s n Hs Hn Hx Hh) as (s1 & S1 & A1).
  destruct quorum_majority as [_ Hq].
  destruct (collect cs c Hsmall ths rs (pred quorum) 0 s1 ltac:(lia) A1) as (s2 & R2 & A2).
  destruct (end_write cs c ths rs s2 A2) as (s3 & n3 & ths3 & R3 & Hs3).
  exists s3, (length ths). split; [eapply rtc_l; [exact S1|]; by etrans|]. by exists n3, ths3.
Qed.

Lemma serve_all cs' : forall cs rs s, Z.of_nat (length (cs ++ cs')) + 1 < 2 ^ 64 -> idle cs rs s ->
  exists s' rs', rtc cstep s s' /\ idle (cs ++ cs') (rs ++ rs') s' /\ length rs' = length cs' /\ Forall (fun r => r.2 = None) rs'.
Proof.
  induction cs' as [|c cs' IH]; intros cs rs s Hlen' Hi.
  - exists s, []. rewrite !app_nil_r. split_and!; [done|done|done|constructor].
  - rewrite length_app in Hlen'. cbn in Hlen'. destruct (serve_one cs c rs s) as (s1 & call & R1 & I1); [lia|done|].
    destruct (IH (cs ++ [c]) (rs ++ [(call, None)]) s1) as (s2 & rs2 & R2 & I2 & Hl & Hf); [rewrite !length_app; cbn; lia|exact I1|].
    rewrite <- !app_assoc in I2. exists s2, ((call, None) :: rs2). split_and!; [by etrans|done|cbn; lia|by constructor].
Qed.

Lemma elect_idle : exists s, rtc cstep (NewCluster ids (Some [])) s /\ idle [] [] s.
Proof.
  destruct elect as (s & R & Hs & Hh). exists s. split; [done|].
  assert (forall i, idleHas [] i = []) as E by (intros i; unfold idleHas; by destruct (_ <? _)%nat).
  exists lead, []. split_and!; [done|by split| |].
  - intros i p Hp. rewrite E. by apply lead_next, (list_elem_of_lookup_2 _ i).
  - intros i p Hp. rewrite E. by eapply Hh, list_elem_of_lookup_2.
Qed.

Lemma served cs : Z.of_nat (length cs) + 1 < 2 ^ 64 ->
  exists s rs, rtc cstep (NewCluster ids (Some [])) s /\ idle cs rs s /\ length rs = length cs /\ Forall (fun r => r.2 = None) rs.
Proof.
  intros Hl. destruct elect_idle as (s & R & Hi). destruct (serve_all cs [] [] s Hl Hi) as (s' & rs & R' & ?).
  exists s', rs. split; [by etrans|done].
Qed.
End Serve.
