(* ===== verification/RaftConvergence.v ===== *)
(** * One round of heartbeats brings every replica up to date

    A leader that has served a sequence of commands (RaftLiveness) knows that a
    majority has them; nobody else has applied them yet.  Its next round of
    heartbeats carries the missing entries and the commit index to every peer,
    whose apply goroutine then hands all commands to its state machine, in
    order. *)

From S2P Require Import Prelude RaftLog RaftNode RaftCluster RaftElection RaftReplication RaftTraces RaftLiveness.

Section Converge.
Context (ids : list string) (self : string).
Hypotheses (Hnd : NoDup ids) (Hself : self ∈ ids) (Hlen : (2 <= length ids)%nat).
Context (cs : list string).
Hypothesis (Hsome : cs <> []).

Abbreviation ps := (peersOf ids self).
Abbreviation k := (Z.of_nat (length cs)).

Lemma k_positive : 0 < k.
Proof. destruct cs; [done|cbn; lia]. Qed.

Definition converged (rt : Runtime) : Prop :=
  log (node rt) = mkLog cs /\ commitIndex (node rt) = k /\ applyCh (node rt) = Some cs.

(** ** A follower applies what it knows to be committed *)

Section Apply.
Context (p : string) (pc0 : RunPc) (before : list Thread) (rs : list (nat * option ReplicateError)).
Abbreviation rtWith n t := (mkRT n pc0 (before ++ [t]) rs).

Lemma last_step s n n' t t' : nodes s !! p = Some (rtWith n t) ->
  threadStep p (rtWith n t) (net s) (length before) Go = Some (rtWith n' t', []) -> cstep s (put p (rtWith n' t') [] s).
Proof. intros Hs Ht. by eapply (do_step s (EvThread p (length before) Go) p _ _ _ eq_refl Hs). Qed.

Lemma last_lookup (t : Thread) : (before ++ [t]) !! length before = Some t.
Proof. by apply list_lookup_middle. Qed.
Lemma last_insert (x t : Thread) : <[length before := x]> (before ++ [t]) = before ++ [x].
Proof. by rewrite insert_app_r_alt, Nat.sub_diag by lia. Qed.

Lemma apply_rest rest : forall s n sent, nodes s !! p = Some (rtWith n (TApply KGo rest)) -> applyCh n = Some sent ->
  exists s', rtc cstep s s' /\ (forall m, m <> p -> nodes s' !! m = nodes s !! m) /\
    nodes s' !! p = Some (rtWith (set_applyCh (Some (sent ++ rest)) n) (TApply KGo [])).
Proof.
  induction rest as [|c rest IH]; intros s n sent Hs Hch.
  - exists s. split_and!; [done|done|]. rewrite Hs, app_nil_r. do 2 f_equal. destruct n. cbn in Hch. by subst.
  - pose proof (last_step s n (set_applyCh (Some (sent ++ [c])) n) _ (TApply KGo rest) Hs) as S1.
    unfold threadStep in S1. cbn [threads] in S1. rewrite last_lookup in S1. cbn [mbind option_bind node] in S1.
    rewrite Hch in S1. cbn [mbind option_bind] in S1. unfold with_thread, with_node in S1. cbn [threads node pc results] in S1.
    rewrite last_insert in S1. specialize (S1 eq_refl). set (s1 := put p _ _ s) in S1.
    destruct (IH s1 (set_applyCh (Some (sent ++ [c])) n) (sent ++ [c]) (put_self _ _ _ _) eq_refl) as (s' & R & Ho & Hp). rewrite <- app_assoc in Hp.
    exists s'. split_and!; [by eapply rtc_l| |exact Hp]. intros m Hm. rewrite Ho by done. by apply put_other.
Qed.

Lemma apply_all s n : nodes s !! p = Some (rtWith n (TApplyStart KGo)) -> log n = mkLog cs -> commitIndex n = k ->
  lastApplied n = 0 -> applyCh n = Some [] ->
  exists s' rt, rtc cstep s s' /\ (forall m, m <> p -> nodes s' !! m = nodes s !! m) /\ nodes s' !! p = Some rt /\ converged rt.
Proof.
  intros Hs Hl Hc Ha Hch. set (n' := set_lastApplied k n). pose proof (last_step s n n' _ (TApply KGo cs) Hs) as S1.
  unfold threadStep in S1. cbn [threads] in S1. rewrite last_lookup in S1. cbn [mbind option_bind node] in S1.
  rewrite applyCollect_slice, Ha, Hc, Hl in S1 by (rewrite ?Hl, ?Ha, ?Hc; apply mkLog_wf || lia).
  change (applyCh (set_lastApplied k n)) with (applyCh n) in S1. rewrite Hch in S1.
  unfold with_thread, with_node in S1. cbn [threads node pc results] in S1. rewrite last_insert in S1.
  unfold slice in S1. replace (Z.to_nat (k - 0)) with (length (drop 1 (mkLog cs))) in S1 by (rewrite length_drop, mkLog_length; lia).
  change (Z.to_nat (0 + 1)) with 1%nat in S1. rewrite take_ge, mkLog_tail in S1 by done. specialize (S1 eq_refl).
  set (s1 := put p _ _ s) in S1. destruct (apply_rest cs s1 n' [] (put_self _ _ _ _) Hch) as (s' & R & Ho & Hp).
  eexists s', _. split_and!; [by eapply rtc_l| |exact Hp|done]. intros m Hm. rewrite Ho by done. by apply put_other.
Qed.
End Apply.

(** ** The heartbeat of one peer *)

Lemma beat_args n i p : leads ids self cs cs n -> nexts ids self (idleHas ids self cs) n -> ps !! i = Some p ->
  exists es, heartbeatArgs p n = mkAEArgs 1 self 0 0 es k /\ appendEntries (mkLog (idleHas ids self cs i)) es = mkLog cs.
Proof.
  intros [_ Ht Hid _ Hl Hc _ _ _] Hx Hp. pose proof k_positive. unfold heartbeatArgs. rewrite (Hx i p Hp).
  change (fst (lastIndexAndTerm (log n))) with (lastIndex (log n)). rewrite Hl, Ht, Hid, Hc, mkLog_lastIndex.
  unfold idleHas. destruct (i <? quorum ids self)%nat.
  - rewrite (proj2 (Z.leb_gt _ _)) by lia. by exists [].
  - cbn [length]. rewrite (proj2 (Z.leb_le _ _)) by (cbn; lia). rewrite log_wf_entriesFrom by apply mkLog_wf.
    eexists. split; [reflexivity|]. change (Z.to_nat (Z.of_nat 0 + 1)) with 1%nat. rewrite appendEntries_fresh.
    + done.
    + apply mkLog_wf.
    + intros j e Hj. rewrite lookup_drop in Hj. apply (mkLog_wf cs) in Hj. rewrite mkLog_lastIndex. cbn. lia.
Qed.

Section Beats.
Context (n : Node) (before : list Thread) (rs : list (nat * option ReplicateError)).
Hypotheses (Hn : leads ids self cs cs n) (Hx : nexts ids self (idleHas ids self cs) n).

(** The first [j] peers are up to date; the goroutines of the others have not
    started. *)
Definition beating (j : nat) (s : Cluster) : Prop :=
  exists ts, nodes s !! self = Some (mkRT n PcBeatWait (before ++ ts) rs) /\ length ts = length ps /\
    (forall i p, ps !! i = Some p -> (j <= i)%nat -> ts !! i = Some (THeartbeat p)) /\
    (forall i p, ps !! i = Some p -> exists rt, nodes s !! p = Some rt /\
       if (i <? j)%nat then converged rt else synced (idleHas ids self cs i) rt).

Lemma one_beat j s : (j < length ps)%nat -> beating j s -> exists s', rtc cstep s s' /\ beating (S j) s'.
Proof.
  intros Hj (ts & Hs & Hlts & Hts & Hh). destruct (lookup_lt_is_Some_2 ps j Hj) as [p Hp].
  assert (p <> self) as Hps by (by eapply ps_ne, list_elem_of_lookup_2).
  destruct (beat_args n j p Hn Hx Hp) as (es & Hargs & Happ). set (args := mkAEArgs 1 self 0 0 es k) in *.
  destruct (Hh j p Hp) as (rt & Hpn & Hsy). rewrite Nat.ltb_irrefl in Hsy. set (L := length (net s)).
  pose proof (do_step s (EvThread self (length before + j) Go) self _
    (mkRT n PcBeatWait (before ++ <[j := THeartbeatWait p L args]> ts) rs) [MAppendEntries self p L args] eq_refl Hs) as S1.
  cbn [localStep] in S1. unfold threadStep in S1. cbn [threads] in S1. rewrite lookup_app_r in S1 by lia.
  replace (length before + j - length before)%nat with j in S1 by lia. rewrite (Hts j p Hp (le_n j)) in S1.
  cbn [mbind option_bind node] in S1. rewrite Hargs in S1. unfold with_thread in S1. cbn [threads node pc results] in S1.
  rewrite insert_app_r in S1. specialize (S1 eq_refl). set (s1 := put self _ _ s) in S1.
  assert (net s1 !! L = Some (MAppendEntries self p L args)) as Hm1 by apply put_sent.
  destruct (accepted args rt _ Hsy eq_refl eq_refl) as (n' & Hst & _ & Hl & Hc & Ha & Hch).
  destruct Hsy as (_ & _ & Hcom & _). pose proof k_positive as Hk. cbn [aeLeaderCommit aeEntries args] in *. rewrite Happ in Hl.
  assert (commitIndex (node rt) < k) as Hlt.
  { unfold idleHas in Hcom. destruct (_ <? _)%nat; [lia|cbn in Hcom; lia]. }
  rewrite (proj2 (Z.ltb_lt _ _) Hlt) in Hst, Hc. rewrite Hl, mkLog_lastIndex, Z.min_id in Hc.
  assert (cstep s1 (put p (mkRT n' (pc rt) (threads rt ++ [TApplyStart KGo]) (results rt))
                      [MAppendEntriesReply p self L (mkAEReply 1 true)] s1)) as S2.
  { eapply (do_step s1 (EvDeliver L) p rt); [cbn [actor]; by rewrite Hm1|unfold s1; by rewrite put_other|].
    cbn [localStep]. rewrite Hm1. cbn [mbind option_bind deliver]. by rewrite Hst. }
  set (s2 := put p _ _ s1) in S2.
  destruct (apply_all p _ _ _ s2 n' (put_self _ _ _ _) Hl Hc Ha Hch) as (s3 & rt3 & R3 & Ho & Hp3 & Hconv).
  exists s3. split; [eapply rtc_l; [exact S1|]; by eapply rtc_l|].
  exists (<[j := THeartbeatWait p L args]> ts). split_and!.
  - rewrite Ho by done. unfold s2. rewrite put_other by done. apply put_self.
  - by rewrite length_insert.
  - intros i q Hq Hi. rewrite list_lookup_insert_ne by lia. apply (Hts i q Hq). lia.
  - intros i q Hq. destruct (decide (i = j)) as [->|Hij].
    + simplify_eq. rewrite (proj2 (Nat.ltb_lt _ _)) by lia. by exists rt3.
    + assert (q <> p) as Hqp by (intros ->; by eapply Hij, NoDup_lookup; [apply ps_NoDup; done|..]).
      rewrite Ho by done. unfold s2, s1. rewrite !put_other by (done || by eapply ps_ne, list_elem_of_lookup_2).
      specialize (Hh i q Hq). replace (i <? S j)%nat with (i <? j)%nat; [done|].
      destruct (Nat.ltb_spec i j), (Nat.ltb_spec i (S j)); lia.
Qed.

Lemma all_beats d : forall j s, (j + d = length ps)%nat -> beating j s -> exists s', rtc cstep s s' /\ beating (length ps) s'.
Proof.
  induction d as [|d IH]; intros j s Hd Hb.
  - exists s. split; [done|]. by replace (length ps) with j by lia.
  - destruct (one_beat j s ltac:(lia) Hb) as (s1 & R1 & B1). destruct (IH (S j) s1 ltac:(lia) B1) as (s2 & R2 & B2).
    exists s2. split; [by etrans|done].
Qed.
End Beats.

Lemma converge rs s : idle ids self cs rs s ->
  exists s' rt, rtc cstep s s' /\ nodes s' !! self = Some rt /\ state (node rt) = Leader /\ currentTerm (node rt) = 1 /\
    results rt = rs /\ converged rt /\ forall p, p ∈ ps -> exists rp, nodes s' !! p = Some rp /\ converged rp.
Proof.
  intros (n & ths & Hs & Hn & Hx & Hh).
  pose proof (do_step s (EvRun self RLoop) self _ (mkRT n PcBeat ths rs) [] eq_refl Hs) as S1.
  cbn [localStep runStep pc] in S1. unfold dispatch, with_pc in S1. cbn [node threads results] in S1.
  rewrite (ld_stop _ _ _ _ _ Hn), (ld_state _ _ _ _ _ Hn) in S1. specialize (S1 eq_refl). set (s1 := put self _ _ s) in S1.
  pose proof (do_step s1 (EvRun self RBeat) self _ _ [] eq_refl (put_self _ _ _ _) eq_refl) as S2. set (s2 := put self _ _ s1) in S2.
  assert (beating n ths rs 0 s2) as B0.
  { exists (THeartbeat <$> ps). split_and!.
    - unfold s2. rewrite put_self. unfold with_pc, spawn. cbn. by rewrite (ld_peers _ _ _ _ _ Hn).
    - by rewrite length_fmap.
    - intros i p Hp _. by rewrite list_lookup_fmap, Hp.
    - intros i p Hp. unfold s2, s1. rewrite !put_other by (by eapply ps_ne, list_elem_of_lookup_2). by apply Hh. }
  destruct (all_beats n ths rs Hn Hx (length ps) 0 s2 eq_refl B0) as (s3 & R3 & ts & Hs3 & _ & _ & Hall).
  exists s3, (mkRT n PcBeatWait (ths ++ ts) rs). split_and!; try done.
  - eapply rtc_l; [exact S1|]. by eapply rtc_l.
  - by destruct Hn.
  - by destruct Hn.
  - by destruct Hn.
  - intros p [i Hi]%list_elem_of_lookup. destruct (Hall i p Hi) as (rt & Hp & Hc).
    rewrite (proj2 (Nat.ltb_lt _ _)) in Hc by (by eapply lookup_lt_Some). by exists rt.
Qed.
End Converge.

(** The whole run: election, commands, heartbeats. *)
Lemma replicated_run ids self cs :
  NoDup ids -> self ∈ ids -> (2 <= length ids)%nat -> Z.of_nat (length cs) + 1 < 2 ^ 64 ->
  exists s rt calls, rtc cstep (NewCluster ids (Some [])) s /\ nodes s !! self = Some rt /\
    state (node rt) = Leader /\ currentTerm (node rt) = 1 /\
    results rt = (fun call => (call, None)) <$> calls /\ length calls = length cs /\
    forall n, n ∈ ids -> exists rn, nodes s !! n = Some rn /\ log (node rn) = mkLog cs /\ applyCh (node rn) = Some cs.
Proof.
  intros Hnd Hself Hlen Hsmall. destruct (served ids self Hnd Hself Hlen cs Hsmall) as (s & rs & R & Hi & Hrs & Hok).
  assert (rs = (fun call => (call, None)) <$> rs.*1) as Hcalls.
  { clear -Hok. induction Hok as [|[call r] rs Hr _ IH]; [done|]. cbn in *. by rewrite Hr, <- IH. }
  assert (forall m, m ∈ ids -> m <> self -> m ∈ peersOf ids self) as Hpeer by (intros; by apply list_elem_of_filter).
  destruct (decide (cs = [])) as [->|Hcs].
  - destruct Hi as (n & ths & Hs & Hn & _ & Hh). exists s, (mkRT n PcTop ths rs), rs.*1. rewrite length_fmap.
    split_and!; try done; [apply Hn|apply Hn|]. intros m Hm. destruct (decide (m = self)) as [->|Hms]; [eexists; by destruct Hn|].
    destruct (proj1 (list_elem_of_lookup _ _) (Hpeer m Hm Hms)) as [i Hi].
    destruct (Hh i m Hi) as (rt & Hrt & (_ & Hl & _ & _ & Hch)). exists rt. split_and!; [done| |done].
    rewrite Hl. unfold idleHas. by destruct (_ <? _)%nat.
  - destruct (converge ids self Hnd Hlen cs Hcs rs s Hi) as (s' & rt & R' & Hs & Hst & Ht & Hrs' & Hconv & Hall).
    exists s', rt, rs.*1. rewrite length_fmap, <- Hcalls. split_and!; try done; [by etrans|].
    intros m Hm. assert (exists rm, nodes s' !! m = Some rm /\ converged cs rm) as (rm & ? & ? & _ & ?); [|by exists rm].
    destruct (decide (m = self)) as [->|Hms]; [by exists rt|]. by apply Hall, Hpeer.
Qed.

(** C2. A cluster can serve: in any cluster of at least two nodes with distinct
    ids, any node can be elected leader, any sequence of commands submitted to
    it can then be replicated, committed and acknowledged one after the other,
    and after a round of heartbeats every node has the same log and has handed
    its state machine exactly these commands, in order: by steps of the
    cluster's goroutines alone. *)
Theorem cluster_serves ids self cs :
  NoDup ids -> self ∈ ids -> (2 <= length ids)%nat -> Z.of_nat (length cs) + 1 < 2 ^ 64 ->
  exists s, rtc cstep (NewCluster ids (Some [])) s /\ leader_of s self 1 /\
    (exists calls, outcomes s self = (fun call => (call, None)) <$> calls /\ length calls = length cs) /\
    forall n, n ∈ ids -> commands s n = "" :: cs /\ applied s n = Some cs.
Proof.
  intros Hnd Hself Hlen Hsmall. destruct (replicated_run ids self cs Hnd Hself Hlen Hsmall) as (s & rt & calls & R & Hs & Hst & Ht & Hrs & Hl & Hall).
  exists s. split; [done|]. split; [by exists rt|]. split; [exists calls; unfold outcomes; by rewrite Hs|].
  intros n Hn. destruct (Hall n Hn) as (rn & Hrn & Hlog & Hch). unfold commands, applied. rewrite Hrn. cbn. by rewrite Hlog, Hch, mkLog_commands.
Qed.

Lemma cluster_serves_witness :
  exists s, rtc cstep (NewCluster ["nodeA"; "nodeB"; "nodeC"; "nodeD"] (Some [])) s /\ leader_of s "nodeC" 1 /\
    applied s "nodeA" = Some ["put x 1"; "put y 2"].
Proof.
  destruct (cluster_serves ["nodeA"; "nodeB"; "nodeC"; "nodeD"] "nodeC" ["put x 1"; "put y 2"]) as (s & R & Hl & _ & Hall).
  - apply (bool_decide_unpack _). by vm_compute.
  - apply (bool_decide_unpack _). by vm_compute.
  - cbn. lia.
  - by vm_compute.
  - exists s. split; [exact R|]. split; [exact Hl|]. apply Hall. apply (bool_decide_unpack _). by vm_compute.
Defined.
