(* ===== verification/RaftLogInvariant.v ===== *)
(** * Every log of every reachable cluster state is well formed

    The indices of a node's log are 0, 1, 2, ... whatever the interleaving, and
    every AppendEntries message on the network carries consecutive entries that
    continue its [PrevLogIndex].  This is what makes the searches of log.go
    (by index) equal to accesses by position, and what excludes the panics of
    an empty slice. *)

From S2P Require Import Prelude RaftLog RaftNode RaftCluster RaftElection RaftReplication RaftCatchup.

Definition node_log_ok (k : Z) (n : Node) : Prop :=
  log_wf (log n) /\ Forall (fun e => eIndex e <= k) (log n) /\
  map_Forall (fun _ => is_u64) (nextIndex n).

(** [PrevLogIndex + 1] is computed by the receiver's peer as [nextIndex], hence
    modulo 2^64. *)
Definition msg_log_ok (k : Z) (m : Message) : Prop :=
  match m with
  | MAppendEntries _ _ _ args =>
      is_u64 (aePrevLogIndex args) /\
      indexed_from (u64 (aePrevLogIndex args + 1)) (aeEntries args) /\
      Forall (fun e => eIndex e <= k) (aeEntries args)
  | _ => True
  end.

Definition logs_ok (k : Z) (s : Cluster) : Prop :=
  map_Forall (fun _ rt => node_log_ok k (node rt)) (nodes s) /\ Forall (msg_log_ok k) (net s).

Lemma Forall_index_mono (l : list LogEntry) k k' :
  Forall (fun e => eIndex e <= k) l -> k <= k' -> Forall (fun e => eIndex e <= k') l.
Proof. intros H ?. eapply Forall_impl; [exact H|]. simpl. lia. Qed.

Lemma node_log_ok_mono k k' n : node_log_ok k n -> k <= k' -> node_log_ok k' n.
Proof. intros (? & ? & ?) ?. split_and!; eauto using Forall_index_mono. Qed.

Lemma msg_log_ok_mono k k' m : msg_log_ok k m -> k <= k' -> msg_log_ok k' m.
Proof. destruct m; simpl; try done. intros (? & ? & ?) ?. split_and!; eauto using Forall_index_mono. Qed.

Lemma lastIndex_bound l k :
  log_wf l -> Forall (fun e => eIndex e <= k) l -> lastIndex l <= k.
Proof.
  intros Hwf Hf. pose proof (log_wf_lastEntry _ Hwf) as He.
  eapply Forall_lookup_1 in Hf; [|exact He]. done.
Qed.

(** The fields the invariant looks at. *)
Definition lproj (n : Node) : list LogEntry * gmap string Z := (log n, nextIndex n).

Lemma node_log_ok_lproj k n n' : lproj n' = lproj n -> node_log_ok k n -> node_log_ok k n'.
Proof. unfold lproj, node_log_ok. by intros [= -> ->]. Qed.

Lemma lproj_becomeFollower t n : lproj (becomeFollower t n) = lproj n.
Proof. unfold becomeFollower. by case_if. Qed.

Lemma lproj_signalReset n : lproj (signalReset n) = lproj n.
Proof. unfold signalReset. by case_if. Qed.

Lemma lproj_signalStepDown t n : lproj (signalStepDown t n) = lproj n.
Proof. unfold signalStepDown. by case_if. Qed.

Lemma lproj_replicateCommit e n : lproj (replicateCommit e n) = lproj n.
Proof. unfold replicateCommit. by case_if. Qed.

Lemma lproj_Stop n : lproj (Stop n) = lproj n.
Proof. unfold Stop. by case_if. Qed.

Lemma lproj_acceptLeader args n : lproj (acceptLeader args n) = lproj n.
Proof. unfold acceptLeader, signalReset, becomeFollower. by repeat case_if. Qed.

Lemma lproj_advance n : lproj (advanceCommitIndex n) = lproj n.
Proof. unfold advanceCommitIndex. by rewrite advance_fold. Qed.

Lemma lproj_HandleRequestVote args n n' r :
  HandleRequestVote args n = (n', r) -> lproj n' = lproj n.
Proof.
  unfold HandleRequestVote, signalReset, becomeFollower. intros H.
  repeat case_if; by simplify_eq/=.
Qed.

#[export] Hint Resolve lproj_becomeFollower lproj_signalReset lproj_signalStepDown
  lproj_replicateCommit lproj_Stop lproj_acceptLeader lproj_advance : raft.

Lemma node_log_ok_next k n p v :
  node_log_ok k n -> node_log_ok k (set_nextIndex (<[p := u64 v]> (nextIndex n)) n).
Proof.
  intros (? & ? & ?). split_and!; [done|done|]. apply map_Forall_insert_2; [apply u64_range|done].
Qed.

Lemma node_log_ok_becomeLeader k t n : node_log_ok k n -> node_log_ok k (becomeLeader t n).
Proof.
  intros Hok. unfold becomeLeader. case_if; [done|]. case_if; [done|].
  destruct Hok as (? & ? & Hn). split_and!; [done|done|]. simpl.
  generalize (u64 (eIndex (lastEntry (log n)) + 1)), (u64_range (eIndex (lastEntry (log n)) + 1)).
  intros v Hv. revert Hn. generalize (nextIndex n). induction (peers n) as [|q ps IH]; intros m Hm;
    simpl; [done|]. apply IH. by apply map_Forall_insert_2.
Qed.

Lemma nextIndexOf_u64 k n p : node_log_ok k n -> is_u64 (nextIndexOf n p).
Proof.
  intros (_ & _ & H). unfold nextIndexOf. destruct (nextIndex n !! p) eqn:E; simpl.
  - by eapply H.
  - unfold is_u64. lia.
Qed.

Lemma u64_pred_succ z : is_u64 z -> u64 (u64 (z - 1) + 1) = z.
Proof.
  intros Hz. unfold u64. rewrite Zplus_mod_idemp_l. replace (z - 1 + 1) with z by lia.
  by apply Z.mod_small.
Qed.

Lemma merge_Forall (P : LogEntry -> Prop) l k es : Forall P l -> Forall P es -> Forall P (merge l k es).
Proof.
  intros Hl He. unfold merge. case_if; [done|]. apply Forall_app. split.
  - by apply Forall_take.
  - by apply Forall_drop.
Qed.

(** A refused request leaves the log alone; an accepted one merges its entries
    where it says they continue. *)
Lemma HandleAppendEntries_merge k from to rpc args n n' r b :
  k < 2 ^ 64 - 1 -> node_log_ok k n -> msg_log_ok k (MAppendEntries from to rpc args) ->
  HandleAppendEntries args n = (n', r, b) ->
  if aerSuccess r then
    currentTerm n <= aeTerm args /\ currentTerm n' = aeTerm args /\ prevLogOK args (log n) = true /\
    0 <= aePrevLogIndex args /\ (0 < startPos args <= length (log n))%nat /\
    indexed_from (Z.of_nat (startPos args)) (aeEntries args) /\
    log n' = merge (log n) (startPos args) (aeEntries args)
  else log n' = log n.
Proof.
  intros Hk (Hwf & Hf & _) (Hprev & Hidx & Hle) H.
  unfold HandleAppendEntries in H. destruct (aeTerm args <? currentTerm n) eqn:Hlt; [by simplify_eq/=|]. breflect.
  rewrite acceptLeader_log in H.
  destruct (prevLogOK args (log n)) eqn:Hp; [|simplify_eq/=; apply acceptLeader_log].
  destruct (storeEntries args (acceptLeader args n)) as [n2 b2] eqn:E. simplify_eq. cbn [aerSuccess].
  pose proof (lastIndex_bound _ _ Hwf Hf) as Hlast.
  assert (aePrevLogIndex args <= lastIndex (log n)) as Hpl.
  { unfold prevLogOK in Hp. case_if; breflect.
    - destruct (entryAt (log n) (aePrevLogIndex args)) eqn:Ee; [|done].
      by apply log_wf_entryAt_Some in Ee as (_ & [_ ?] & _).
    - pose proof (lastIndex_nonneg _ Hwf). lia. }
  unfold is_u64 in Hprev. rewrite u64_small in Hidx by (unfold is_u64; lia).
  destruct (appendEntries_request args (log n)) as [Hmerge Hpos]; [done|by split; [lia|]|done|lia|].
  assert (currentTerm n' = currentTerm (acceptLeader args n)) as ->.
  { apply core_term. pose proof (core_storeEntries args (acceptLeader args n)) as Hc. by rewrite E in Hc. }
  apply storeEntries_fields in E as [Hlog _]. rewrite acceptLeader_log, Hmerge in Hlog. rewrite acceptLeader_term.
  split_and!; try done; try lia. unfold startPos. by rewrite Z2Nat.id by lia.
Qed.

Lemma HandleAppendEntries_next args n n' r b :
  HandleAppendEntries args n = (n', r, b) -> nextIndex n' = nextIndex n.
Proof.
  pose proof (lproj_acceptLeader args n) as Hl. unfold HandleAppendEntries, storeEntries. unfold lproj in Hl.
  intros H. repeat case_if; simplify_eq/=; congruence.
Qed.

(** Handling a well-formed request keeps the log well formed. *)
Lemma node_log_ok_append k from to rpc args n n' r b :
  k < 2 ^ 64 - 1 -> node_log_ok k n -> msg_log_ok k (MAppendEntries from to rpc args) ->
  HandleAppendEntries args n = (n', r, b) -> node_log_ok k n'.
Proof.
  intros Hk Hok Hm H. unfold node_log_ok. rewrite (HandleAppendEntries_next _ _ _ _ _ H).
  pose proof (HandleAppendEntries_merge k from to rpc _ _ _ _ _ Hk Hok Hm H) as Hmerge.
  destruct (aerSuccess r); [|by rewrite Hmerge]. destruct Hmerge as (_ & _ & _ & _ & Hpos & Hidx & ->). destruct Hok as (Hwf & Hf & Hn), Hm as (_ & _ & Hle).
  split_and!; [by apply merge_wf|by apply merge_Forall|done].
Qed.

Lemma node_log_ok_heartbeatReply k p args r n :
  node_log_ok k n -> node_log_ok k (fst (heartbeatReply p args r n)).
Proof.
  intros Hok. unfold heartbeatReply.
  set (n0 := update_Metrics _ n). assert (node_log_ok k n0) as Hok0 by exact Hok.
  destruct (aeTerm args <? aerTerm r); simpl.
  { eapply node_log_ok_lproj; [apply lproj_signalStepDown|done]. }
  destruct (aeEntries args); [done|]. destruct (aerSuccess r); simpl.
  - eapply node_log_ok_lproj; [apply lproj_advance|].
    case_if; [|done]. exact (node_log_ok_next k n0 p _ Hok0).
  - case_if; [|done]. exact (node_log_ok_next k n0 p _ Hok0).
Qed.

Lemma node_log_ok_replicateReply k p pe r n :
  node_log_ok k n -> node_log_ok k (fst (replicateReply p pe r n)).
Proof.
  intros Hok. unfold replicateReply. case_if; simpl.
  { eapply node_log_ok_lproj; [apply lproj_signalStepDown|done]. }
  destruct (aerSuccess r); simpl.
  - apply node_log_ok_next. by case_if.
  - case_if; [by apply node_log_ok_next|done].
Qed.

(** What a leader sends is a slice of its log. *)
Lemma msg_log_ok_slice k self p rpc args n from len :
  node_log_ok k n -> is_u64 from ->
  aePrevLogIndex args = u64 (from - 1) ->
  aeEntries args = take len (drop (Z.to_nat from) (log n)) ->
  msg_log_ok k (MAppendEntries self p rpc args).
Proof.
  intros (Hwf & Hf & _) Hfrom Hprev He. simpl. rewrite Hprev, He, u64_pred_succ by done.
  split_and!; [apply u64_range| |by apply Forall_take, Forall_drop].
  apply indexed_from_take. destruct Hwf as [_ Hidx]. unfold is_u64 in Hfrom.
  replace from with (0 + Z.of_nat (Z.to_nat from)) at 1 by lia. by apply indexed_from_drop.
Qed.

Lemma msg_log_ok_heartbeat k self p rpc n :
  node_log_ok k n -> msg_log_ok k (MAppendEntries self p rpc (heartbeatArgs p n)).
Proof.
  intros Hok. unfold heartbeatArgs. case_if.
  - eapply (msg_log_ok_slice k _ _ _ _ n (nextIndexOf n p) (length (log n)));
      [done|by eapply nextIndexOf_u64|done|]. simpl.
    rewrite log_wf_entriesFrom by apply Hok. rewrite take_ge; [done|]. rewrite length_drop. lia.
  - simpl. split_and!; [unfold is_u64; lia| |done]. intros i e He. by rewrite lookup_nil in He.
Qed.

Lemma msg_log_ok_replicate k self p rpc pe n args :
  node_log_ok k n -> replicateArgs p pe n = Some args ->
  msg_log_ok k (MAppendEntries self p rpc args).
Proof.
  intros Hok H. unfold replicateArgs in H. case_if; simplify_eq.
  pose proof (nextIndexOf_u64 k n p Hok) as Hu.
  eapply (msg_log_ok_slice k _ _ _ _ n (nextIndexOf n p)
    (Z.to_nat (eIndex (peEntry pe) - nextIndexOf n p + 1))); [done|done|done|]. simpl.
  unfold collectEntries. apply omap_entryAt; [apply Hok|]. unfold is_u64 in Hu. lia.
Qed.

Lemma threadStep_log k self rt sent i c rt' ms :
  node_log_ok k (node rt) -> threadStep self rt sent i c = Some (rt', ms) ->
  node_log_ok k (node rt') /\ Forall (msg_log_ok k) ms.
Proof.
  intros Hok H. unfold threadStep in H. destruct (threads rt !! i) as [t|]; simplify_eq/=.
  destruct t, c; simplify_eq/=;
    try match goal with
        | H : context [aeReplyAt ?a ?b ?c ?d ?e] |- _ =>
            destruct (aeReplyAt a b c d e) eqn:Er; simplify_eq/=
        | H : context [applyCh (node rt)] |- _ =>
            destruct (applyCh (node rt)); simplify_eq/=
        end;
    repeat case_match; simplify_eq/=; autorewrite with raft_rw; auto;
    try match goal with
    | H : heartbeatReply ?p ?a ?r ?n = _ |- _ =>
        pose proof (node_log_ok_heartbeatReply k p a r n) as Hc; rewrite H in Hc; auto
    | H : replicateReply ?p ?a ?r ?n = _ |- _ =>
        pose proof (node_log_ok_replicateReply k p a r n) as Hc; rewrite H in Hc; auto
    end.
  - split; [done|]. constructor; [by apply msg_log_ok_heartbeat|done].
  - split; [done|]. constructor; [by eapply msg_log_ok_replicate|done].
  - split; [|done]. eapply node_log_ok_lproj; [apply lproj_replicateCommit|done].
Qed.

Lemma runStep_log k self rt sent ev rt' ms :
  node_log_ok k (node rt) -> runStep self rt sent ev = Some (rt', ms) ->
  node_log_ok k (node rt') /\ Forall (msg_log_ok k) ms.
Proof.
  intros Hok H. unfold runStep in H. destruct ev, (pc rt) eqn:E; simplify_eq/=;
    try match goal with
        | H : context [removeFirst ?p ?w] |- _ => destruct (removeFirst p w); simplify_eq/=
        end;
    repeat case_match; simplify_eq/=; auto.
  - split; [|done]. eapply node_log_ok_lproj; [apply lproj_becomeFollower|done].
  - split; [exact Hok|]. apply Forall_fmap, Forall_true. done.
  - split; [|done]. by apply node_log_ok_becomeLeader.
Qed.

Lemma clientStep_log k rt cmd :
  k + 1 < 2 ^ 64 -> node_log_ok k (node rt) -> node_log_ok (k + 1) (node (clientStep rt cmd)).
Proof.
  intros Hk Hok. pose proof (node_log_ok_mono k (k + 1) _ Hok ltac:(lia)) as Hok'.
  unfold clientStep, replicateBegin. destruct (IsLeader (node rt)); simpl; [|done].
  destruct Hok as (Hwf & Hf & Hn). destruct Hok' as (_ & Hf' & _).
  pose proof (lastIndex_bound _ _ Hwf Hf). pose proof (lastIndex_nonneg _ Hwf).
  change (eIndex (lastEntry (log (node rt)))) with (lastIndex (log (node rt))).
  rewrite u64_small by (unfold is_u64; lia).
  split_and!; [by apply log_wf_append| |done].
  apply Forall_app. split; [done|]. constructor; [simpl; lia|done].
Qed.

Lemma logs_ok_step k s s' :
  k + 1 < 2 ^ 64 -> logs_ok k s -> cstep s s' -> logs_ok (k + 1) s'.
Proof.
  intros Hk [Hn Hm] (ev & n & rt & rt' & ms & _ & Hrt & Hloc & ->)%cstep_inv.
  pose proof (Hn _ _ Hrt) as Hok. simpl in Hok.
  assert (node_log_ok (k + 1) (node rt') /\ Forall (msg_log_ok (k + 1)) ms) as [? ?].
  { assert (node_log_ok k (node rt') /\ Forall (msg_log_ok k) ms ->
      node_log_ok (k + 1) (node rt') /\ Forall (msg_log_ok (k + 1)) ms) as Hup.
    { intros [? Hf]. split; [eapply node_log_ok_mono; [done|lia]|].
      eapply Forall_impl; [exact Hf|]. intros; eapply msg_log_ok_mono; [done|lia]. }
    destruct ev as [a e|a i c|a cmd|i|a]; simpl in Hloc.
    - apply Hup. by eapply runStep_log.
    - apply Hup. by eapply threadStep_log.
    - simplify_eq. split; [|done]. by apply clientStep_log.
    - apply Hup. destruct (net s !! i) as [m|] eqn:E; simplify_eq/=.
      eapply Forall_lookup_1 in Hm; [|exact E].
      destruct m as [from to args| |from to rpc args|]; simplify_eq/=.
      + destruct (HandleRequestVote args (node rt)) as [n' reply] eqn:Hh. simplify_eq/=.
        split; [|by repeat constructor].
        eapply node_log_ok_lproj; [by eapply lproj_HandleRequestVote|done].
      + destruct (HandleAppendEntries args (node rt)) as [[n' reply] b] eqn:Hh. simplify_eq/=.
        split; [|by repeat constructor].
        eapply (node_log_ok_append k from to rpc); [lia|done|exact Hm|exact Hh].
    - simplify_eq. apply Hup. split; [|done]. simpl.
      eapply node_log_ok_lproj; [apply lproj_Stop|done]. }
  split; simpl.
  - apply map_Forall_insert_2; [done|]. intros i x Hx.
    eapply node_log_ok_mono; [exact (Hn _ _ Hx)|lia].
  - apply Forall_app. split; [|done]. eapply Forall_impl; [exact Hm|].
    intros; eapply msg_log_ok_mono; [done|lia].
Qed.

Lemma logs_ok_init ids ch : logs_ok 0 (NewCluster ids ch).
Proof.
  split; [|done]. intros n rt Hl. simpl in Hl. apply elem_of_list_to_map_2 in Hl.
  apply list_elem_of_fmap in Hl as (i & [= -> ->] & ?). simpl.
  split_and!; simpl; [apply log_wf_new|by repeat constructor|apply map_Forall_empty].
Qed.

Lemma logs_ok_run k0 k s s' :
  nsteps cstep k s s' -> Z.of_nat (k0 + k) < 2 ^ 64 - 1 ->
  logs_ok (Z.of_nat k0) s -> logs_ok (Z.of_nat (k0 + k)) s'.
Proof.
  intros Hrun. revert k0. induction Hrun as [|k s1 s2 s3 Hstep Hrun IH]; intros k0 Hk Hok.
  { by rewrite Nat.add_0_r. }
  replace (k0 + S k)%nat with (S k0 + k)%nat by lia. apply IH; [lia|].
  replace (Z.of_nat (S k0)) with (Z.of_nat k0 + 1) by lia.
  eapply logs_ok_step; [lia|done|done].
Qed.

(** C20. Log well-formedness is an invariant of the whole system: after any
    run of [k] steps (fewer than the 64-bit index counter can express), over
    every interleaving and every message delay, loss and duplication, the log
    of every node starts with the sentinel and has the consecutive indices
    0, 1, ..., at most [k]. *)
Theorem reachable_logs_wf ids ch k s n rt :
  nsteps cstep k (NewCluster ids ch) s -> Z.of_nat k < 2 ^ 64 - 1 ->
  nodes s !! n = Some rt ->
  log_wf (log (node rt)) /\ 0 <= lastIndex (log (node rt)) <= Z.of_nat k.
Proof.
  intros Hrun Hk Hn. pose proof (logs_ok_run 0 k _ _ Hrun Hk (logs_ok_init ids ch)) as [Hok _].
  destruct (Hok _ _ Hn) as (Hwf & Hf & _). split; [done|].
  split; [by apply lastIndex_nonneg|by apply lastIndex_bound].
Qed.

Lemma reachable_logs_wf_witness :
  exists s rt, nsteps cstep 8 (NewCluster abc None) s /\ nodes s !! "nodeA" = Some rt /\
    log_wf (log (node rt)) /\ lastIndex (log (node rt)) = 1.
Proof.
  destruct (exec (NewCluster abc None) (elect_A ++ [EvClient "nodeA" "x"])) as [s|] eqn:E;
    [|by vm_compute in E].
  pose proof (exec_nsteps _ _ _ E) as Hrun.
  destruct (nodes s !! "nodeA") as [rt|] eqn:Hn; [|vm_compute in E; by injection E as <-].
  exists s, rt. split; [exact Hrun|]. split; [done|]. split.
  - apply (reachable_logs_wf abc None 8 s "nodeA" rt Hrun ltac:(by vm_compute) Hn).
  - vm_compute in E. injection E as <-. vm_compute in Hn. by injection Hn as <-.
Defined.
