(* ===== verification/RaftApply.v ===== *)
(** * No log position is applied twice

    [applyCommitted] takes the committed entries above [lastApplied] under the
    lock and sends them afterwards.  Any number of its calls may be running on a
    node; this file follows the entries they take over a whole run. *)

From stdpp Require Import sorting.
From S2P Require Import Prelude RaftLog RaftNode RaftCluster RaftElection RaftReplication RaftTraces RaftLogInvariant.

(** ** [lastApplied] never decreases *)

Lemma applied_advance n : lastApplied (advanceCommitIndex n) = lastApplied n.
Proof.
  unfold advanceCommitIndex. generalize (seqZ (commitIndex n + 1) (fst (lastIndexAndTerm (log n)) - commitIndex n)). intros l.
  revert n. induction l as [|i l IH]; intros n; [done|]. cbn [foldl]. rewrite IH. unfold advanceAt. by repeat case_match.
Qed.

Lemma applied_HandleRequestVote args n : lastApplied (HandleRequestVote args n).1 = lastApplied n.
Proof. unfold HandleRequestVote, signalReset, becomeFollower. by repeat (case_match; cbn in *). Qed.

Lemma applied_HandleAppendEntries args n : lastApplied (HandleAppendEntries args n).1.1 = lastApplied n.
Proof.
  unfold HandleAppendEntries. case_if; [done|].
  assert (lastApplied (acceptLeader args n) = lastApplied n) as Ha.
  { unfold acceptLeader, signalReset, becomeFollower. simpl. by repeat case_if. }
  case_if; [|done]. unfold storeEntries. by case_if.
Qed.

Lemma applied_heartbeatReply p args reply n : lastApplied (heartbeatReply p args reply n).1 = lastApplied n.
Proof.
  unfold heartbeatReply, signalStepDown. repeat (case_match; cbn [fst]); try done; rewrite applied_advance; by repeat case_match.
Qed.

Lemma applied_replicateReply p pe reply n : lastApplied (replicateReply p pe reply n).1 = lastApplied n.
Proof. unfold replicateReply, signalStepDown. by repeat (case_match; cbn in *). Qed.

Lemma applied_becomeLeader t n : lastApplied (becomeLeader t n) = lastApplied n.
Proof. unfold becomeLeader. by repeat case_match. Qed.

Lemma applied_runStep self rt sent e rt' ms : runStep self rt sent e = Some (rt', ms) -> lastApplied (node rt') = lastApplied (node rt).
Proof.
  intros H. unfold runStep in H. destruct e, (pc rt); simplify_eq/=;
    try match goal with H : context [removeFirst ?p ?w] |- _ => destruct (removeFirst p w); simplify_eq/= end;
    repeat (case_match; simplify_eq/=); try apply applied_becomeLeader; unfold becomeFollower; by repeat case_match.
Qed.

(** The entries a step takes from the log, if it is an [applyCommitted] that
    takes the lock. *)
Definition taken (rt : Runtime) (ev : Event) : list LogEntry :=
  match ev with
  | EvThread _ k Go => match threads rt !! k with Some (TApplyStart _) => (applyCollect (node rt)).2 | _ => [] end
  | _ => []
  end.

(** The indexes of the entries node [n] takes in a run. *)
Fixpoint handed (n : string) (s : Cluster) (evs : list Event) : list Z :=
  match evs with
  | [] => []
  | ev :: evs' =>
      match step s ev with
      | None => []
      | Some s' =>
          (if bool_decide (actor s ev = Some n)
           then match nodes s !! n with Some rt => eIndex <$> taken rt ev | None => [] end
           else []) ++ handed n s' evs'
      end
  end.

(** ** One step *)

Lemma threadStep_applied self rt sent k c rt' ms : threadStep self rt sent k c = Some (rt', ms) ->
  (forall kind, threads rt !! k <> Some (TApplyStart kind)) -> lastApplied (node rt') = lastApplied (node rt).
Proof.
  intros H Hk. unfold threadStep in H. destruct (threads rt !! k) as [t|] eqn:Et; cbn in H; [|done].
  pose proof applied_heartbeatReply as Hhb. pose proof applied_replicateReply as Hrep.
  destruct t; try (by destruct (Hk k0)); try (by destruct (Hk kind)); destruct c; simplify_eq/=;
    try match goal with
        | H : context [aeReplyAt ?a ?b ?c ?d ?e] |- _ => destruct (aeReplyAt a b c d e) as [reply|]; simplify_eq/=
        | H : context [applyCh (node rt)] |- _ => destruct (applyCh (node rt)); simplify_eq/=
        end;
    try match goal with
        | H : context [heartbeatReply ?p ?a ?r ?n] |- _ => specialize (Hhb p a r n); destruct (heartbeatReply p a r n); simplify_eq/=
        | H : context [replicateReply ?p ?a ?r ?n] |- _ => specialize (Hrep p a r n); destruct (replicateReply p a r n); simplify_eq/=
        end;
    repeat (case_match; simplify_eq/=); unfold applyDone, replicateCommit; by repeat case_match.
Qed.

Lemma entryAt_index l i e : entryAt l i = Some e -> eIndex e = i.
Proof. induction l as [|x l IH]; cbn; [done|]. case_if; [|done]. intros [= <-]. by apply Z.eqb_eq. Qed.

Lemma found_elem l (xs : list Z) (i : Z) : i ∈ eIndex <$> omap (entryAt l) xs -> i ∈ xs.
Proof. intros (e & -> & (x & Hx & He)%list_elem_of_omap)%list_elem_of_fmap. by apply entryAt_index in He as ->. Qed.

Lemma found_sorted l (xs : list Z) : StronglySorted Z.lt xs -> StronglySorted Z.lt (eIndex <$> omap (entryAt l) xs).
Proof.
  induction 1 as [|x xs Hs IH Hx]; [constructor|]. cbn. destruct (entryAt l x) as [e|] eqn:E; [|done].
  apply entryAt_index in E as <-. cbn. constructor; [done|]. rewrite Forall_forall in *. intros i Hi. by eapply Hx, found_elem.
Qed.

Lemma seqZ_sorted a len : StronglySorted Z.lt (seqZ a len).
Proof.
  destruct (decide (0 <= len)) as [Hlen|]; [|rewrite seqZ_nil by lia; constructor]. revert a. pattern len.
  apply natlike_ind; [intros a; rewrite seqZ_nil by lia; constructor| |done]. clear. intros len Hlen IH a.
  rewrite seqZ_cons, Z.pred_succ by lia. constructor; [apply IH|]. apply Forall_forall. intros i Hi%elem_of_seqZ. lia.
Qed.

(** A step takes the entries above [lastApplied], in the order of their indexes,
    and moves it past them; any other step leaves it. *)
Lemma step_taken self rt sent ev rt' ms : localStep self rt sent ev = Some (rt', ms) ->
  StronglySorted Z.lt (eIndex <$> taken rt ev) /\ lastApplied (node rt) <= lastApplied (node rt') /\
  Forall (fun i => lastApplied (node rt) < i <= lastApplied (node rt')) (eIndex <$> taken rt ev).
Proof.
  assert (forall es, es = [] -> lastApplied (node rt') = lastApplied (node rt) ->
    StronglySorted Z.lt (eIndex <$> es) /\ lastApplied (node rt) <= lastApplied (node rt') /\
    Forall (fun i => lastApplied (node rt) < i <= lastApplied (node rt')) (eIndex <$> es)) as Hnone.
  { intros es -> ->. split_and!; [constructor|lia|constructor]. }
  destruct ev as [n e|n k c|n cmd|i|n]; cbn [localStep taken]; intros H.
  - apply Hnone; [done|]. by eapply applied_runStep.
  - destruct (threads rt !! k) as [t|] eqn:Et; [|by unfold threadStep in H; rewrite Et in H].
    assert ((exists kind, t = TApplyStart kind) \/ ~ (exists kind, t = TApplyStart kind)) as [[kind ->]|Hk]
      by (destruct t; (by left; eexists) || (right; by intros [? ?])).
    + unfold threadStep in H. rewrite Et in H. cbn in H. destruct c; try done.
      assert (lastApplied (node rt') = Z.max (lastApplied (node rt)) (commitIndex (node rt))) as ->
        by (destruct (applyCh (node rt)); simplify_eq/=; [done|]; unfold applyDone; by case_match).
      split_and!; [apply found_sorted, seqZ_sorted|lia|]. apply Forall_forall. intros i Hi%found_elem%elem_of_seqZ. lia.
    + apply Hnone; [destruct c; try done; destruct t; try done; by destruct Hk; eexists|].
      eapply threadStep_applied; [exact H|]. intros kind Hkind. destruct Hk. exists kind. congruence.
  - apply Hnone; [done|]. simplify_eq. unfold clientStep. destruct (replicateBegin cmd (node rt)) as [[n2 pe]|] eqn:E; [|done].
    unfold replicateBegin in E. case_match; by simplify_eq.
  - apply Hnone; [done|]. destruct (sent !! i) as [m|]; cbn in H; [|done]. destruct m as [f t' a|f t' a r|f t' rpc a|f t' rpc r]; cbn in H; try done.
    + pose proof (applied_HandleRequestVote a (node rt)) as Ha. destruct (HandleRequestVote a (node rt)). by simplify_eq.
    + pose proof (applied_HandleAppendEntries a (node rt)) as Ha. destruct (HandleAppendEntries a (node rt)) as [[? ?] ?]. by simplify_eq.
  - apply Hnone; [done|]. simplify_eq. cbn. unfold Stop. by case_match.
Qed.

(** ** Whole runs *)

Lemma handed_sorted n evs : forall s rt, nodes s !! n = Some rt ->
  StronglySorted Z.lt (handed n s evs) /\ Forall (fun i => lastApplied (node rt) < i) (handed n s evs).
Proof.
  induction evs as [|ev evs IH]; intros s rt Hn; cbn; [split; constructor|].
  destruct (step s ev) as [s'|] eqn:E; [|split; constructor]. unfold step in E.
  destruct (actor s ev) as [m|] eqn:Ha; cbn in E; [|done]. destruct (nodes s !! m) as [rm|] eqn:Hm; cbn in E; [|done].
  destruct (localStep m rm (net s) ev) as [[rm' ms]|] eqn:El; cbn in E; [|done]. simplify_eq. destruct (decide (m = n)) as [->|Hmn].
  - rewrite Hn in Hm. simplify_eq. rewrite bool_decide_eq_true_2, Hn by done. destruct (step_taken _ _ _ _ _ _ El) as (Hs & Hle & Hb).
    destruct (IH (put n rm' ms s) rm' (lookup_insert_eq _ _ _)) as [Hs' Hb']. rewrite Forall_forall in Hb, Hb'. split.
    + apply StronglySorted_app. split_and!; [|done|done]. intros i j Hi Hj. specialize (Hb _ Hi). specialize (Hb' _ Hj). lia.
    + apply Forall_app. rewrite !Forall_forall. split; intros i Hi; [apply Hb in Hi|apply Hb' in Hi]; lia.
  - rewrite bool_decide_eq_false_2 by congruence. apply (IH _ rt). cbn. by rewrite lookup_insert_ne.
Qed.

(** C18. No log position is applied twice, or out of order with an earlier one:
    over any run of a cluster, with any number of [applyCommitted] calls in
    flight on the node, the indexes of the entries a node takes from its log for
    its state machine are strictly increasing, and never the sentinel's. *)
Theorem applied_once ids ch n evs :
  StronglySorted Z.lt (handed n (NewCluster ids ch) evs) /\ Forall (fun i => 0 < i) (handed n (NewCluster ids ch) evs).
Proof.
  destruct (nodes (NewCluster ids ch) !! n) as [rt|] eqn:Hn.
  - pose proof Hn as Hrt. cbn in Hrt. apply elem_of_list_to_map_2, list_elem_of_fmap in Hrt as (i & [= -> ->] & _).
    destruct (handed_sorted i evs _ _ Hn) as [Hs Hb]. by split.
  - enough (forall s, nodes s !! n = None -> handed n s evs = []) as -> by (done || (split; constructor)). clear.
    induction evs as [|ev evs IH]; intros s Hn; cbn; [done|]. destruct (step s ev) as [s'|] eqn:E; [|done].
    rewrite Hn, IH; [by case_bool_decide|]. unfold step in E.
    destruct (actor s ev) as [m|]; cbn in E; [|done]. destruct (nodes s !! m) as [rm|] eqn:Hm; cbn in E; [|done].
    destruct (localStep m rm (net s) ev) as [[rm' ms]|]; cbn in E; [|done]. simplify_eq. cbn. rewrite lookup_insert_ne; [done|congruence].
Qed.

(** In the run whose commands arrive in the wrong order, the indexes do not. *)
Example reordered_handed : handed "nodeB" (NewCluster abc (Some [])) reordered_apply = [1; 2].
Proof. by vm_compute. Qed.
