(* ===== verification/RaftLogMatching.v ===== *)
(** * Log Matching

    If the logs of two nodes have an entry with the same index and term, they
    agree up to that entry.  The code keeps this property only as long as
    heartbeats are sent by nodes that still lead: [sendHeartbeatToPeer] does not
    test it, and a deposed leader that sends in the new term makes the new leader
    overwrite its own log.  The theorem is proved for the runs in which every
    heartbeat goroutine finds its node leading when it takes the lock, and the
    run in which one does not is exhibited.

    The invariant keeps two histories beside the cluster: the log a leader had
    when it appended the entry of a given term and index, and the log from which
    each AppendEntries request was made.  Every log of the system consists of
    historic prefixes, so that the term of an entry determines all before it. *)

From S2P Require Import Prelude RaftLog RaftNode RaftCluster RaftElection RaftReplication RaftCatchup RaftLogInvariant RaftTraces.

(** ** Historic logs *)

(** [hist !! (t, i)]: the log of the leader of term [t] up to its entry [i]. *)
Abbreviation History := (gmap (Z * Z) (list LogEntry)).

(** Every prefix of [l] is in the history. *)
Definition historic (h : History) (l : list LogEntry) : Prop :=
  log_wf l /\ forall j e, (0 < j)%nat -> l !! j = Some e -> h !! (eTerm e, Z.of_nat j) = Some (take (S j) l).

Lemma historic_new h : historic h newLogStore.
Proof. split; [apply log_wf_new|]. intros [|[|j]] e Hj He; simplify_eq/=. lia. Qed.

Lemma historic_mono h h' l : h ⊆ h' -> historic h l -> historic h' l.
Proof. intros Hsub [Hwf Hl]. split; [done|]. intros j e Hj He. eapply lookup_weaken; [by apply Hl|done]. Qed.

Lemma historic_take h l n : historic h l -> (0 < n)%nat -> historic h (take n l).
Proof.
  intros [Hwf Hl] Hn. split; [by apply log_wf_take|]. intros j e Hj [He Hlt]%lookup_take_Some.
  rewrite take_take, Nat.min_l by lia. by apply Hl.
Qed.

(** Historic logs with the same term at a position agree up to it. *)
Lemma historic_agree h l1 l2 i e1 e2 :
  historic h l1 -> historic h l2 -> l1 !! i = Some e1 -> l2 !! i = Some e2 -> eTerm e1 = eTerm e2 ->
  take (S i) l1 = take (S i) l2.
Proof.
  intros [[H01 _] Hl1] [[H02 _] Hl2] H1 H2 Ht. destruct i as [|i].
  - by rewrite (take_S_r _ _ _ H01), (take_S_r _ _ _ H02).
  - apply Hl1 in H1; [|lia]. apply Hl2 in H2; [|lia]. congruence.
Qed.

Lemma historic_snoc h l e :
  historic h l -> eIndex e = lastIndex l + 1 -> historic (<[(eTerm e, eIndex e) := l ++ [e]]> h) (l ++ [e]).
Proof.
  intros [Hwf Hl] He.
  pose proof (log_wf_lastIndex _ Hwf) as Hlen. pose proof (log_wf_length _ Hwf).
  split; [by apply log_wf_append|]. intros j x Hj Hx. apply lookup_app_Some in Hx as [Hx|[Hge Hx]].
  - pose proof (lookup_lt_Some _ _ _ Hx). rewrite lookup_insert_ne by (intros [= _ ?]; lia).
    rewrite take_app_le by lia. by apply Hl.
  - apply list_lookup_singleton_Some in Hx as [Hz <-]. replace (Z.of_nat j) with (eIndex e) by lia.
    rewrite lookup_insert_eq, take_ge; [done|]. rewrite length_app. simpl. lia.
Qed.

(** ** Requests *)

(** The request is made from the log [l]: a slice of it with the position and
    term before the slice, or the empty heartbeat. *)
Definition request_of (l : list LogEntry) (args : AppendEntriesArgs) : Prop :=
  (aeEntries args = [] /\ aePrevLogIndex args = 0) \/
  (exists from len, is_u64 from /\ aePrevLogIndex args = u64 (from - 1) /\
     aePrevLogTerm args = prevTermAt l (u64 (from - 1)) /\
     aeEntries args = take len (drop (Z.to_nat from) l)).

Lemma take_length_take {A} n (l : list A) : take (length (take n l)) l = take n l.
Proof. rewrite length_take. destruct (Nat.min_spec n (length l)) as [[_ ->]|[? ->]]; [done|]. by rewrite !take_ge by lia. Qed.

(** Merging a slice of [m] into [l], where [l] and [m] agree before it: [l] has
    the slice already, or becomes [m] up to its end. *)
Lemma merge_slice h l m k len :
  historic h l -> historic h m -> (0 < k <= length l)%nat -> take k l = take k m ->
  let es := take len (drop k m) in
  (merge l k es = l /\ take (k + len) m `prefix_of` l) \/
  (merge l k es = take (k + len) m /\ ~ take (k + len) m `prefix_of` l).
Proof.
  intros Hl Hm Hk Hpre es. unfold merge. set (a := agreeing (drop k l) es).
  pose proof (agreeing_le (drop k l) es) as Hle. pose proof (agreeing_le_l (drop k l) es) as Hle'. fold a in Hle, Hle'.
  assert (take (k + a) l = take (k + a) m) as Ha.
  { destruct a as [|a'] eqn:Ea; [by rewrite Nat.add_0_r|]. destruct (lookup_lt_is_Some_2 es a') as [y Hy]; [lia|].
    destruct (agreeing_lookup (drop k l) es a' y) as (x & Hx & Hxy); [lia|done|].
    rewrite lookup_drop in Hx. apply lookup_take_Some in Hy as [Hy _]. rewrite lookup_drop in Hy.
    rewrite Nat.add_succ_r. by eapply historic_agree. }
  assert (take k m ++ es = take (k + len) m) as Hes by (unfold es; by rewrite take_take_drop).
  destruct (Nat.eqb_spec a (length es)) as [E|E].
  - left. split; [done|]. replace (take (k + len) m) with (take (k + a) l); [by apply prefix_take|].
    rewrite Ha, <- Hes, <- take_take_drop. f_equal. rewrite E. unfold es. apply take_length_take.
  - right. split.
    + assert (take k m ++ take a es = take (k + a) m) as Ha'.
      { rewrite <- take_take_drop. unfold es in *. rewrite length_take in Hle. by rewrite take_take, Nat.min_l by lia. }
      by rewrite Ha, <- Hes, <- Ha', <- app_assoc, take_drop.
    + intros [r Hr]. apply E. apply agreeing_full. intros i x Hx. exists x. split; [|done].
      rewrite <- Hes in Hr. rewrite Hr, <- app_assoc, drop_app_length'; [by apply lookup_app_l_Some|].
      rewrite <- Hpre, length_take. lia.
Qed.

(** An accepted request starts where its slice did. *)
Lemma request_position k l args fr :
  k < 2 ^ 64 - 1 -> log_wf l -> Forall (fun e => eIndex e <= k) l -> (0 < startPos args <= length l)%nat ->
  is_u64 fr -> aePrevLogIndex args = u64 (fr - 1) -> startPos args = Z.to_nat fr /\ 0 < fr.
Proof.
  intros Hk Hwf Hf Hpos Hfr Hpi. pose proof (lastIndex_bound _ _ Hwf Hf) as Hb. rewrite log_wf_lastIndex in Hb by done.
  unfold startPos in *. rewrite Hpi in *. unfold is_u64 in Hfr. destruct (decide (fr = 0)) as [->|].
  - change (u64 (0 - 1)) with (2 ^ 64 - 1) in Hpos. lia.
  - rewrite u64_small in * by (unfold is_u64; lia). split; [f_equal; lia|lia].
Qed.

(** The consistency check makes the two logs agree before the slice. *)
Lemma request_agree h l m args fr :
  historic h l -> historic h m -> 0 < fr -> is_u64 fr -> (Z.to_nat fr <= length l)%nat -> (Z.to_nat fr <= length m)%nat ->
  aePrevLogIndex args = u64 (fr - 1) -> aePrevLogTerm args = prevTermAt m (u64 (fr - 1)) ->
  prevLogOK args l = true -> take (Z.to_nat fr) l = take (Z.to_nat fr) m.
Proof.
  intros Hl Hm Hfr Hu Hll Hlm Hpi Hpt Hok. rewrite u64_small in * by (unfold is_u64 in *; lia).
  destruct (lookup_lt_is_Some_2 l (Z.to_nat (fr - 1))) as [x Hx]; [lia|].
  destruct (lookup_lt_is_Some_2 m (Z.to_nat (fr - 1))) as [y Hy]; [lia|].
  replace (Z.to_nat fr) with (S (Z.to_nat (fr - 1))) by lia. eapply historic_agree; [done..|].
  unfold prevLogOK, prevTermAt in *. rewrite Hpi in Hok. rewrite Hpt in Hok. case_if; breflect.
  - rewrite !log_wf_entryAt, Hx, Hy in Hok by (apply Hl || apply Hm || lia). by breflect.
  - replace (Z.to_nat (fr - 1)) with 0%nat in * by lia. destruct Hl as [[H0 _] _], Hm as [[H0' _] _]. congruence.
Qed.

(** ** The effect of a step on logs and messages *)

(** The heartbeat goroutine that runs in this event belongs to a leader. *)
Definition guarded (s : Cluster) (ev : Event) : Prop :=
  match ev with
  | EvThread n k Go => forall rt p, nodes s !! n = Some rt -> threads rt !! k = Some (THeartbeat p) ->
                                   state (node rt) = Leader
  | _ => True
  end.

Definition gstep (s s' : Cluster) : Prop := exists ev, step s ev = Some s' /\ guarded s ev.

Lemma gstep_cstep s s' : gstep s s' -> cstep s s'.
Proof. intros (ev & ? & _). by exists ev. Qed.

(** An AppendEntries request a leader makes from its own log; its call number is
    its position on the network. *)
Definition sentBy (self : string) (n : Node) (pos : nat) (m : Message) : Prop :=
  match m with
  | MAppendEntries from to rpc args =>
      from = self /\ to ∈ peers n /\ rpc = pos /\ aeTerm args = currentTerm n /\ state n = Leader /\
      request_of (log n) args
  | _ => True
  end.

Definition isRequest (m : Message) : bool := match m with MAppendEntries _ _ _ _ => true | _ => false end.
Definition isAnswer (m : Message) : bool := match m with MAppendEntriesReply _ _ _ _ => true | _ => false end.

(** Messages of a step that answers no request: at most one request. *)
Definition plain (ms : list Message) : Prop :=
  Forall (fun m => isAnswer m = false) ms /\ (Forall (fun m => isRequest m = false) ms \/ exists m, ms = [m]).

Inductive log_effect (self : string) (rt rt' : Runtime) (sent ms : list Message) : Prop :=
| L_keep :
    log (node rt') = log (node rt) -> Forall (sentBy self (node rt) (length sent)) ms -> plain ms ->
    log_effect self rt rt' sent ms
| L_client cmd :
    state (node rt) = Leader -> core (node rt') = core (node rt) -> pc rt' = pc rt ->
    log (node rt') = log (node rt) ++ [mkEntry (currentTerm (node rt)) (lastIndex (log (node rt)) + 1) cmd] ->
    ms = [] -> log_effect self rt rt' sent ms
| L_append from rpc args reply b :
    MAppendEntries from self rpc args ∈ sent ->
    HandleAppendEntries args (node rt) = (node rt', reply, b) -> pc rt' = pc rt ->
    ms = [MAppendEntriesReply self from rpc reply] -> log_effect self rt rt' sent ms.

(** Threads that talk to peers talk to the node's own peers. *)
Definition thread_ok (n : Node) (t : Thread) : Prop :=
  match t with
  | THeartbeat p | THeartbeatWait p _ _ | TReplicate _ p _ | TReplicateWait _ p _ _ => p ∈ peers n
  | _ => True
  end.

Lemma sentBy_heartbeat k self n p pos :
  node_log_ok k n -> p ∈ peers n -> state n = Leader ->
  sentBy self n pos (MAppendEntries self p pos (heartbeatArgs p n)).
Proof.
  intros Hok Hp Hs. pose proof (nextIndexOf_u64 k n p Hok) as Hu. destruct Hok as (Hwf & _).
  unfold heartbeatArgs. case_if; simpl; split_and!; try done; [right|by left].
  exists (nextIndexOf n p), (length (log n)). split_and!; try done. simpl.
  rewrite log_wf_entriesFrom by done. rewrite take_ge; [done|]. rewrite length_drop. lia.
Qed.

Lemma sentBy_replicate k self n p pe pos args :
  node_log_ok k n -> p ∈ peers n -> replicateArgs p pe n = Some args ->
  sentBy self n pos (MAppendEntries self p pos args).
Proof.
  intros Hok Hp H. pose proof (nextIndexOf_u64 k n p Hok) as Hu. destruct Hok as (Hwf & _).
  unfold replicateArgs in H. case_if; simplify_eq. unfold IsLeader in *. breflect.
  simpl. split_and!; try done. right. do 2 eexists. split_and!; [exact Hu|done|done|]. simpl.
  unfold collectEntries. by rewrite omap_entryAt by (done || apply Hu).
Qed.

(** ** Classification of the steps *)

Lemma plain_nil : plain [].
Proof. split; [constructor|left; constructor]. Qed.

Lemma plain_one m : isAnswer m = false -> plain [m].
Proof. intros. split; [by repeat constructor|right; eauto]. Qed.


Lemma log_heartbeatReply p args r n : log (fst (heartbeatReply p args r n)) = log n.
Proof.
  unfold heartbeatReply. repeat (case_match; simpl); try done; try (unfold signalStepDown; by case_if);
    unfold advanceCommitIndex; rewrite advance_fold; by try case_if.
Qed.

Lemma log_replicateReply p pe r n : log (fst (replicateReply p pe r n)) = log n.
Proof. unfold replicateReply, signalStepDown. by repeat (case_match; simpl). Qed.

Lemma threadStep_peers self rt sent k c rt' ms :
  threadStep self rt sent k c = Some (rt', ms) ->
  Forall (thread_ok (node rt)) (threads rt) -> Forall (thread_ok (node rt')) (threads rt').
Proof.
  intros H Hall. destruct (threadStep_frame _ _ _ _ _ _ _ H) as (Hc & _ & _).
  assert (peers (node rt') = peers (node rt)) as Hp by (unfold core in Hc; congruence).
  assert (Forall (thread_ok (node rt)) (threads rt')) as Ht.
  2: { eapply Forall_impl; [exact Ht|]. intros []; simpl; by rewrite ?Hp. }
  unfold threadStep in H. destruct (threads rt !! k) as [t|] eqn:Et; simplify_eq/=.
  pose proof (Forall_lookup_1 _ _ _ _ Hall Et) as Hk.
  destruct t, c; simplify_eq/=;
    try match goal with
        | H : context [aeReplyAt ?a ?b ?c ?d ?e] |- _ => destruct (aeReplyAt a b c d e); simplify_eq/=
        | H : context [applyCh (node rt)] |- _ => destruct (applyCh (node rt)); simplify_eq/=
        end;
    repeat case_match; simplify_eq/=; unfold applyDone; repeat case_match; simpl;
    repeat (apply Forall_insert; [|first [done|unfold countAck; by case_match]]); done.
Qed.

Lemma threadStep_log_effect k self rt sent i c rt' ms :
  node_log_ok k (node rt) -> Forall (thread_ok (node rt)) (threads rt) ->
  (forall p, c = Go -> threads rt !! i = Some (THeartbeat p) -> state (node rt) = Leader) ->
  threadStep self rt sent i c = Some (rt', ms) -> log_effect self rt rt' sent ms.
Proof.
  intros Hok Hall Hg H. unfold threadStep in H. destruct (threads rt !! i) as [t|] eqn:Et; simplify_eq/=.
  pose proof (Forall_lookup_1 _ _ _ _ Hall Et) as Ht. apply L_keep.
  - destruct t, c; simplify_eq/=;
      try match goal with
          | H : context [aeReplyAt ?a ?b ?c ?d ?e] |- _ => destruct (aeReplyAt a b c d e); simplify_eq/=
          | H : context [applyCh (node rt)] |- _ => destruct (applyCh (node rt)); simplify_eq/=
          end;
      repeat case_match; simplify_eq/=; autorewrite with raft_rw; try done;
      try match goal with
      | H : heartbeatReply ?p ?a ?r ?n = _ |- _ =>
          pose proof (log_heartbeatReply p a r n) as Hc; rewrite H in Hc; done
      | H : replicateReply ?p ?a ?r ?n = _ |- _ =>
          pose proof (log_replicateReply p a r n) as Hc; rewrite H in Hc; done
      end.
    unfold replicateCommit. by case_if.
  - destruct t, c; simplify_eq/=;
      try match goal with
          | H : context [aeReplyAt ?a ?b ?c ?d ?e] |- _ => destruct (aeReplyAt a b c d e); simplify_eq/=
          | H : context [applyCh (node rt)] |- _ => destruct (applyCh (node rt)); simplify_eq/=
          end;
      repeat case_match; simplify_eq/=; try done.
    + constructor; [|done]. eapply sentBy_heartbeat; eauto.
    + constructor; [|done]. by eapply sentBy_replicate.
  - destruct t, c; simplify_eq/=;
      try match goal with
          | H : context [aeReplyAt ?a ?b ?c ?d ?e] |- _ => destruct (aeReplyAt a b c d e); simplify_eq/=
          | H : context [applyCh (node rt)] |- _ => destruct (applyCh (node rt)); simplify_eq/=
          end;
      repeat case_match; simplify_eq/=; try apply plain_nil; apply plain_one; done.
Qed.

Lemma runStep_log_effect self rt sent ev rt' ms :
  runStep self rt sent ev = Some (rt', ms) -> log_effect self rt rt' sent ms.
Proof.
  intros H. unfold runStep in H. destruct ev, (pc rt) eqn:E; simplify_eq/=;
    try match goal with
        | H : context [removeFirst ?p ?w] |- _ => destruct (removeFirst p w); simplify_eq/=
        end;
    repeat case_match; simplify_eq/=; try (apply L_keep; [done|done|apply plain_nil]).
  - apply L_keep; [|done|apply plain_nil]. simpl. unfold becomeFollower. by case_if.
  - apply L_keep; [done|by apply Forall_fmap, Forall_true|].
    split; [by apply Forall_fmap, Forall_true|left; by apply Forall_fmap, Forall_true].
  - apply L_keep; [|done|apply plain_nil]. simpl. unfold becomeLeader. by repeat case_if.
Qed.

Lemma clientStep_log_effect k self rt sent cmd :
  node_log_ok k (node rt) -> k < 2 ^ 64 - 1 -> log_effect self rt (clientStep rt cmd) sent [].
Proof.
  intros (Hwf & Hf & _) Hk. pose proof (lastIndex_bound _ _ Hwf Hf). pose proof (lastIndex_nonneg _ Hwf).
  destruct (IsLeader (node rt)) eqn:Hl.
  - apply (L_client _ _ _ _ _ cmd); try apply clientStep_frame; [by unfold IsLeader in Hl; breflect| |done].
    unfold clientStep, replicateBegin. rewrite Hl. simpl.
    change (eIndex (lastEntry (log (node rt)))) with (lastIndex (log (node rt))).
    by rewrite u64_small by (unfold is_u64; lia).
  - apply L_keep; [|done|apply plain_nil]. unfold clientStep, replicateBegin. by rewrite Hl.
Qed.

Lemma deliver_log_effect self rt sent i m rt' ms :
  sent !! i = Some m -> destination m = self -> deliver rt m = Some (rt', ms) ->
  log_effect self rt rt' sent ms.
Proof.
  intros Hi Hd H. pose proof (list_elem_of_lookup_2 _ _ _ Hi) as Hin.
  destruct m as [from to args| |from to rpc args|]; simplify_eq/=.
  - destruct (HandleRequestVote args (node rt)) as [n' reply] eqn:Hh. simplify_eq.
    apply L_keep; [|by repeat constructor|by apply plain_one]. simpl.
    apply lproj_HandleRequestVote in Hh. unfold lproj in Hh. congruence.
  - destruct (HandleAppendEntries args (node rt)) as [[n' reply] b] eqn:Hh. simplify_eq.
    by eapply L_append.
Qed.

(** A node that is a candidate after a step of another goroutine than its own
    loop was one before, in the same term, with the same log. *)
Definition candidate_kept (rt rt' : Runtime) : Prop :=
  pc rt' = pc rt -> state (node rt') = Candidate ->
  state (node rt) = Candidate /\ currentTerm (node rt') = currentTerm (node rt) /\ log (node rt') = log (node rt).

Lemma candidate_kept_core rt rt' :
  core (node rt') = core (node rt) -> log (node rt') = log (node rt) -> candidate_kept rt rt'.
Proof. intros Hc Hl _ Hs. by rewrite <- (core_state _ _ Hc), (core_term _ _ Hc). Qed.

Lemma runStep_candidate self rt sent ev rt' ms :
  runStep self rt sent ev = Some (rt', ms) -> candidate_kept rt rt'.
Proof.
  intros H. unfold runStep in H. destruct ev, (pc rt) eqn:E; simplify_eq/=;
    try match goal with
        | H : context [removeFirst ?p ?w] |- _ => destruct (removeFirst p w); simplify_eq/=
        end;
    repeat case_match; simplify_eq/=; try (by apply candidate_kept_core);
    unfold candidate_kept; simpl; rewrite ?E; done.
Qed.

Lemma deliver_candidate rt m rt' ms : deliver rt m = Some (rt', ms) -> candidate_kept rt rt'.
Proof.
  intros H _ Hs. destruct m as [from to args| |from to rpc args|]; simplify_eq/=.
  - destruct (HandleRequestVote args (node rt)) as [n' reply] eqn:Hh. simplify_eq/=.
    assert (log n' = log (node rt)) as Hl by (apply lproj_HandleRequestVote in Hh; unfold lproj in Hh; congruence).
    rewrite Hl. unfold HandleRequestVote in Hh. case_if; [by simplify_eq|].
    destruct (currentTerm (node rt) <? rvTerm args) eqn:Ht.
    + exfalso. assert (state n' = Follower); [|congruence].
      unfold becomeFollower, signalReset in Hh. by repeat case_if; simplify_eq/=.
    + unfold signalReset in Hh. by repeat case_if; simplify_eq/=.
  - destruct (HandleAppendEntries args (node rt)) as [[n' reply] b] eqn:Hh. simplify_eq/=.
    unfold HandleAppendEntries in Hh. case_if; [by simplify_eq|]. exfalso.
    apply (acceptLeader_state args (node rt)). unfold storeEntries in Hh. by repeat case_if; simplify_eq/=.
Qed.

Lemma localStep_candidate self rt sent ev rt' ms :
  localStep self rt sent ev = Some (rt', ms) -> log_effect self rt rt' sent ms -> candidate_kept rt rt'.
Proof.
  intros H Hle. destruct ev as [n e|n k c|n cmd|i|n]; simpl in H.
  - by eapply runStep_candidate.
  - apply threadStep_frame in H as (Hc & _ & _). intros Hpc Hs. pose proof (core_state _ _ Hc) as Hs'.
    destruct Hle as [Hl _ _|? Hl _ _ _ _|? ? ? ? ? _ Hh _ _]; [|congruence|].
    + by apply candidate_kept_core.
    + rewrite (core_term _ _ Hc). split_and!; [congruence|done|].
      unfold HandleAppendEntries in Hh. case_if; [congruence|]. exfalso.
      apply (acceptLeader_state args (node rt)). rewrite <- Hs. unfold storeEntries in Hh.
      repeat case_if; by injection Hh as <- _ _.
  - simplify_eq. destruct (clientStep_frame rt cmd) as [Hc _]. intros _ Hs. pose proof (core_state _ _ Hc) as Hs'.
    rewrite (core_term _ _ Hc). split_and!; [congruence|done|]. unfold clientStep, replicateBegin, IsLeader.
    rewrite bool_decide_eq_false_2; [done|]. congruence.
  - destruct (sent !! i) as [m|]; simplify_eq/=. by eapply deliver_candidate.
  - simplify_eq. apply candidate_kept_core; [apply core_Stop|]. simpl. unfold Stop. by case_if.
Qed.

Definition threads_ok (s : Cluster) : Prop :=
  map_Forall (fun _ rt => Forall (thread_ok (node rt)) (threads rt)) (nodes s).

Lemma gstep_effect k s s' :
  logs_ok k s -> k < 2 ^ 64 - 1 -> threads_ok s -> gstep s s' ->
  exists n rt rt' ms, nodes s !! n = Some rt /\ s' = put n rt' ms s /\
    effect n rt rt' (net s) ms /\ log_effect n rt rt' (net s) ms /\ candidate_kept rt rt'.
Proof.
  intros [Hn _] Hk Ht (ev & Hstep & Hg).
  unfold step in Hstep. destruct (actor s ev) as [n|] eqn:Ha; simplify_eq/=.
  destruct (nodes s !! n) as [rt|] eqn:Hrt; simplify_eq/=.
  destruct (localStep n rt (net s) ev) as [[rt' ms]|] eqn:Hloc; simplify_eq/=.
  exists n, rt, rt', ms. split; [done|]. split; [done|]. split.
  { eapply localStep_effect; [exact Hloc|]. intros i m -> Hm. simpl in Ha. rewrite Hm in Ha. by simplify_eq/=. }
  assert (log_effect n rt rt' (net s) ms) as Hle; [|split; [done|by eapply localStep_candidate]].
  pose proof (Hn _ _ Hrt) as Hok. pose proof (Ht _ _ Hrt) as Hth. simpl in Hok, Hth.
  destruct ev as [a e|a i c|a cmd|i|a]; simpl in Hloc, Ha; simplify_eq.
  - by eapply runStep_log_effect.
  - eapply threadStep_log_effect; [exact Hok|done| |exact Hloc]. intros p -> Hp. by eapply Hg.
  - by eapply clientStep_log_effect.
  - destruct (net s !! i) as [m|] eqn:E; simplify_eq/=. by eapply deliver_log_effect.
  - apply L_keep; [|done|apply plain_nil]. simpl. unfold Stop. by case_if.
Qed.

Lemma effect_vote_le self rt rt' sent ms :
  effect self rt rt' sent ms -> 0 <= currentTerm (node rt) < 2 ^ 64 - 1 -> vote_le (node rt) (node rt').
Proof.
  intros [Hle _ _|_ Hn _ _|from args reply _ Hh _ _|? ? ? ? ? ? Hn _ _ _ _ _|t _ Hn _ _] Hw.
  - by apply node_le_vote.
  - rewrite Hn. unfold vote_le. simpl. rewrite u64_small by (unfold is_u64; lia). split_and!; [done|done|lia|lia].
  - by eapply node_le_vote, HandleRequestVote_le.
  - rewrite Hn. apply node_le_vote, node_le_refl.
  - rewrite Hn. unfold becomeLeader. repeat case_if; unfold vote_le; simpl; split_and!; done || lia.
Qed.

Lemma thread_ok_peers n n' t : peers n' = peers n -> thread_ok n t -> thread_ok n' t.
Proof. intros Hp. destruct t; simpl; by rewrite ?Hp. Qed.

Lemma threads_ok_step s s' : no_wrap s -> threads_ok s -> cstep s s' -> threads_ok s'.
Proof.
  intros Hnw Ht (ev & n & rt & rt' & ms & Ha & Hrt & Hloc & ->)%cstep_inv.
  apply map_Forall_insert_2; [|done]. pose proof (Ht _ _ Hrt) as Hth. simpl in Hth.
  assert (peers (node rt') = peers (node rt)) as Hp.
  { eapply effect_vote_le; [|exact (Hnw _ _ Hrt)]. eapply localStep_effect; [exact Hloc|].
    intros i m -> Hm. simpl in Ha. rewrite Hm in Ha. by simplify_eq/=. }
  assert (Forall (thread_ok (node rt')) (threads rt)) as Hold.
  { eapply Forall_impl; [exact Hth|]. intros t. by apply thread_ok_peers. }
  destruct ev as [a e|a i c|a cmd|i|a]; simpl in Hloc; simplify_eq/=.
  - unfold runStep in Hloc. destruct e, (pc rt) eqn:E; simplify_eq/=;
      try match goal with
          | H : context [removeFirst ?p ?w] |- _ => destruct (removeFirst p w); simplify_eq/=
          end;
      repeat case_match; simplify_eq/=; try done.
    apply Forall_app. split; [done|]. by apply Forall_fmap, Forall_forall.
  - by eapply threadStep_peers.
  - unfold clientStep, replicateBegin in *. destruct (IsLeader (node rt)); simpl in *.
    + apply Forall_app. split; [done|]. constructor; [done|]. by apply Forall_fmap, Forall_forall.
    + apply Forall_app. by split; [|repeat constructor].
  - destruct (net s !! i) as [m|]; simplify_eq/=. destruct m as [from to args| |from to rpc args|]; simplify_eq/=.
    + destruct (HandleRequestVote args (node rt)). by simplify_eq/=.
    + destruct (HandleAppendEntries args (node rt)) as [[n' reply] b]. simplify_eq/=.
      apply Forall_app. split; [done|]. by case_match; repeat constructor.
  - done.
Qed.

Lemma threads_ok_init ids ch : threads_ok (NewCluster ids ch).
Proof.
  intros n rt Hl. simpl in Hl. apply elem_of_list_to_map_2 in Hl.
  apply list_elem_of_fmap in Hl as (i & [= -> ->] & ?). constructor.
Qed.

(** ** The invariant *)

Record Ghost := mkGhost { hist : History; src : gmap nat (list LogEntry) }.

(** The histories after a step of a node: its log is noted as the source of the
    message it may send, or a client's entry is added. *)
Definition sends (s : Cluster) (rt : Runtime) (g : Ghost) : Ghost :=
  mkGhost (hist g) (<[length (net s) := log (node rt)]> (src g)).

Definition appends (rt : Runtime) (e : LogEntry) (g : Ghost) : Ghost :=
  mkGhost (<[(eTerm e, eIndex e) := log (node rt) ++ [e]]> (hist g)) (src g).

Definition electing_in (t : Z) (p : RunPc) : bool :=
  match p with PcCand t' _ _ | PcWon t' => t' =? t | _ => false end.

(** Node [c] will not win an election of term [t] any more. *)
Definition past_election (s : Cluster) (c : string) (t : Z) : Prop :=
  exists rt, nodes s !! c = Some rt /\ t <= currentTerm (node rt) /\
    (t = currentTerm (node rt) -> electing_in t (pc rt) = false).

Section MatchingInvariant.
Context (ids : list string) (ids_nodup : NoDup ids) (ids_nonempty : "" ∉ ids).

(** Node [c] has won the election of term [t]. *)
Definition won (s : Cluster) (c : string) (t : Z) : Prop :=
  c ∈ ids /\ has_majority ids s c t /\ past_election s c t.

Record matching_inv (g : Ghost) (s : Cluster) : Prop := {
  mi_hist : forall t i l, hist g !! (t, i) = Some l ->
    historic (hist g) l /\ lastIndex l = i /\ eTerm (lastEntry l) = t /\ 0 < i /\ exists c, won s c t;
  mi_chain : forall t i j li lj, hist g !! (t, i) = Some li -> hist g !! (t, j) = Some lj ->
    i <= j -> li `prefix_of` lj;
  mi_log : forall n rt, nodes s !! n = Some rt -> historic (hist g) (log (node rt));
  mi_top : forall n rt i l, nodes s !! n = Some rt -> state (node rt) = Leader ->
    hist g !! (currentTerm (node rt), i) = Some l -> l `prefix_of` log (node rt);
  mi_sent : forall from to rpc args, MAppendEntries from to rpc args ∈ net s ->
    (rpc < length (net s))%nat /\ from <> to /\ won s from (aeTerm args) /\
    exists m, src g !! rpc = Some m /\ historic (hist g) m /\ request_of m args;
  mi_src : forall from to rpc args m, MAppendEntries from to rpc args ∈ net s -> src g !! rpc = Some m ->
    (forall i l, hist g !! (aeTerm args, i) = Some l -> l `prefix_of` m \/ m `prefix_of` l) /\
    (forall n rt, nodes s !! n = Some rt -> state (node rt) = Leader ->
       currentTerm (node rt) = aeTerm args -> m `prefix_of` log (node rt)) }.

(** A node leads after a step because it led the same term before, or because
    it has just won. *)
Lemma effect_leader s n rt rt' ms :
  election_inv ids s -> nodes s !! n = Some rt -> effect n rt rt' (net s) ms ->
  state (node rt') = Leader ->
  (state (node rt) = Leader /\ currentTerm (node rt') = currentTerm (node rt)) \/
  (pc rt = PcWon (currentTerm (node rt)) /\ state (node rt) = Candidate /\
   currentTerm (node rt') = currentTerm (node rt)).
Proof.
  intros Hinv Hn [Hle _ _|Hpc Hnode _ _|from args reply _ Hh _ _|? ? ? ? ? ? Hnode _ _ _ _ _|t Hpc Hnode _ _] Hs.
  - left. by apply (le_leader _ _ Hle).
  - exfalso. rewrite Hnode in Hs. destruct (inv_leader _ _ Hinv _ _ Hn Hs) as [Hl _]. by rewrite Hpc in Hl.
  - left. by eapply le_leader; [eapply HandleRequestVote_le|].
  - rewrite Hnode in *. by left.
  - destruct (becomeLeader_inv t (node rt)) as [Hc|(Ht & Hst & Hc)]; rewrite <- Hnode in Hc.
    + left. rewrite (core_term _ _ Hc). split; [|done]. by rewrite <- (core_state _ _ Hc).
    + right. unfold core in Hc. injection Hc as _ _ Hterm _ _. rewrite Ht. by split_and!; [| |congruence].
Qed.

Lemma past_election_step s n rt rt' ms c t :
  no_wrap s -> nodes s !! n = Some rt -> effect n rt rt' (net s) ms ->
  past_election s c t -> past_election (put n rt' ms s) c t.
Proof.
  intros Hnw Hn Heff (rc & Hc & Ht & He). unfold past_election. simpl.
  destruct (decide (c = n)) as [->|Hne]; [|exists rc; by rewrite lookup_insert_ne].
  rewrite Hn in Hc. injection Hc as <-. exists rt'. rewrite lookup_insert_eq. split; [done|].
  destruct (effect_vote_le _ _ _ _ _ Heff (Hnw _ _ Hn)) as (_ & _ & Hle & _). split; [lia|]. intros E.
  destruct Heff as [_ _ [Hpc|[Hpc _]]|_ Hnode Hpc _|? ? ? _ _ Hpc _|term votes w p w' g Hnode _ Hpc _ _ Hpc'|t' Hpc Hnode Hpc' _].
  - rewrite Hpc. apply He. lia.
  - destruct (pc rt'); done.
  - exfalso. rewrite Hnode in E. simpl in E. specialize (Hnw _ _ Hn). rewrite u64_small in E by (unfold is_u64; lia). lia.
  - rewrite Hpc. apply He. lia.
  - assert (electing_in t (pc rt) = false) as Hel by (apply He; congruence). rewrite Hpc in Hel. simpl in Hel.
    destruct g; [destruct Hpc' as [->|[-> _]]|rewrite Hpc']; done.
  - by rewrite Hpc'.
Qed.

Lemma won_unique s c1 c2 t : election_inv ids s -> won s c1 t -> won s c2 t -> c1 = c2.
Proof. intros Hel (H1 & M1 & _) (H2 & M2 & _). by eapply (majority_unique ids). Qed.

Lemma leader_won s n rt :
  election_inv ids s -> nodes s !! n = Some rt -> state (node rt) = Leader -> won s n (currentTerm (node rt)).
Proof.
  intros Hel Hn Hs. destruct (inv_leader _ _ Hel _ _ Hn Hs) as [Hl Hm]. split_and!; [by eapply inv_node|done|].
  exists rt. split_and!; [done|lia|]. intros _. by destruct (pc rt).
Qed.

Lemma leader_unique s n1 n2 rt1 rt2 :
  election_inv ids s -> nodes s !! n1 = Some rt1 -> nodes s !! n2 = Some rt2 ->
  state (node rt1) = Leader -> state (node rt2) = Leader ->
  currentTerm (node rt1) = currentTerm (node rt2) -> n1 = n2.
Proof.
  intros Hel H1 H2 S1 S2 Ht. eapply won_unique; [done|by eapply leader_won|]. rewrite Ht. by eapply leader_won.
Qed.

Lemma won_step s n rt rt' ms c t :
  no_wrap s -> nodes s !! n = Some rt -> effect n rt rt' (net s) ms -> won s c t -> won (put n rt' ms s) c t.
Proof. intros Hnw Hn He (? & ? & ?). split_and!; [done|by apply has_majority_put|by eapply past_election_step]. Qed.

(** Whoever is about to win the election of its term, nobody has won it. *)
Lemma winner_fresh s n rt c :
  election_inv ids s -> nodes s !! n = Some rt -> pc rt = PcWon (currentTerm (node rt)) ->
  won s c (currentTerm (node rt)) -> False.
Proof.
  intros Hel Hn Hpc (Hc & Hm & rc & Hrc & _ & He). pose proof (inv_won _ _ Hel _ _ _ Hn Hpc) as Hm'.
  assert (c = n) as -> by (eapply (majority_unique ids); eauto; by eapply inv_node).
  rewrite Hn in Hrc. injection Hrc as <-. specialize (He eq_refl). rewrite Hpc in He. simpl in He.
  by rewrite Z.eqb_refl in He.
Qed.

(** A step that appends no client's entry. *)
Lemma keep_preserves g s n rt rt' ms :
  no_wrap s -> election_inv ids s -> matching_inv g s -> nodes s !! n = Some rt ->
  effect n rt rt' (net s) ms -> Forall (sentBy n (node rt) (length (net s))) ms ->
  historic (hist g) (log (node rt')) -> (state (node rt') = Leader -> log (node rt') = log (node rt)) ->
  matching_inv (sends s rt g) (put n rt' ms s).
Proof.
  intros Hnw Hel Hinv Hn Heff Hms Hh Hkeep. rewrite Forall_forall in Hms.
  assert (forall from to rpc args, MAppendEntries from to rpc args ∈ net s ->
    src (sends s rt g) !! rpc = src g !! rpc) as Hsrc.
  { intros from to rpc args Hin. destruct (mi_sent _ _ Hinv _ _ _ _ Hin) as (Hlt & _).
    simpl. rewrite lookup_insert_ne by lia. done. }
  assert (src (sends s rt g) !! length (net s) = Some (log (node rt))) as Hnew by apply lookup_insert_eq.
  split.
  - intros t i l Hl. destruct (mi_hist _ _ Hinv _ _ _ Hl) as (? & ? & ? & ? & c & ?).
    split_and!; try done. exists c. by eapply won_step.
  - apply (mi_chain _ _ Hinv).
  - intros m rm [[-> ->]|[_ Hm]]%nodes_put; [done|by apply (mi_log _ _ Hinv _ _ Hm)].
  - intros m rm i l [[-> ->]|[_ Hm]]%nodes_put Hs Hl; [|by eapply (mi_top _ _ Hinv)]. rewrite (Hkeep Hs).
    destruct (effect_leader _ _ _ _ _ Hel Hn Heff Hs) as [[Hs0 E]|(Hpc & _ & E)]; rewrite E in Hl.
    + by eapply (mi_top _ _ Hinv).
    + destruct (mi_hist _ _ Hinv _ _ _ Hl) as (_ & _ & _ & _ & c & Hc). exfalso. by eapply winner_fresh.
  - intros from to rpc args Hin. cbn [net put] in *. rewrite length_app. apply elem_of_app in Hin as [Hin|Hin].
    + rewrite (Hsrc _ _ _ _ Hin). destruct (mi_sent _ _ Hinv _ _ _ _ Hin) as (? & ? & ? & ?).
      split_and!; try done; [lia|by eapply won_step].
    + destruct (Hms _ Hin) as (-> & Hto & -> & -> & Hs & Hreq). rewrite Hnew.
      destruct (inv_node _ _ Hel _ _ Hn) as (_ & _ & Hp). rewrite Hp in Hto. apply elem_of_filter_ne in Hto as [Hto _].
      split_and!; [destruct ms; [by apply not_elem_of_nil in Hin|simpl; lia]|done|by eapply won_step, leader_won|].
      exists (log (node rt)). split_and!; [done|by apply (mi_log _ _ Hinv _ _ Hn)|done].
  - intros from to rpc args m Hin. cbn [net put] in *. apply elem_of_app in Hin as [Hin|Hin].
    + rewrite (Hsrc _ _ _ _ Hin). intros Hm. destruct (mi_src _ _ Hinv _ _ _ _ _ Hin Hm) as [Hcmp Hlead].
      split; [exact Hcmp|]. intros q rq [[-> ->]|[_ Hq]]%nodes_put Hs Ht; [|by eapply Hlead]. rewrite (Hkeep Hs).
      destruct (effect_leader _ _ _ _ _ Hel Hn Heff Hs) as [[Hs0 E]|(Hpc & _ & E)]; [apply (Hlead n rt); [done|done|congruence]|].
      destruct (mi_sent _ _ Hinv _ _ _ _ Hin) as (_ & _ & Hw & _). exfalso.
      rewrite <- Ht, E in Hw. by eapply winner_fresh.
    + destruct (Hms _ Hin) as (-> & _ & -> & Ht & Hs & _). rewrite Hnew, Ht. intros [= <-]. split.
      * intros i l Hl. left. by eapply (mi_top _ _ Hinv).
      * intros q rq [[-> ->]|[Hne Hq]]%nodes_put Hsq Htq; [by rewrite (Hkeep Hsq)|].
        exfalso. apply Hne. by eapply leader_unique.
Qed.

(** The entry a leader appends is new to the history. *)
Lemma client_fresh g s n rt :
  matching_inv g s -> nodes s !! n = Some rt -> state (node rt) = Leader ->
  forall i l, hist g !! (currentTerm (node rt), i) = Some l -> i <= lastIndex (log (node rt)).
Proof.
  intros Hinv Hn Hs i l Hl. pose proof (prefix_length _ _ (mi_top _ _ Hinv _ _ _ _ Hn Hs Hl)) as Hle.
  destruct (mi_hist _ _ Hinv _ _ _ Hl) as ([Hwf _] & <- & _). destruct (mi_log _ _ Hinv _ _ Hn) as [Hwf' _].
  rewrite !log_wf_lastIndex by done. lia.
Qed.

Lemma client_preserves g s n rt rt' e :
  no_wrap s -> election_inv ids s -> matching_inv g s -> nodes s !! n = Some rt ->
  effect n rt rt' (net s) [] -> state (node rt) = Leader -> core (node rt') = core (node rt) ->
  eTerm e = currentTerm (node rt) -> eIndex e = lastIndex (log (node rt)) + 1 ->
  log (node rt') = log (node rt) ++ [e] -> matching_inv (appends rt e g) (put n rt' [] s).
Proof.
  intros Hnw Hel Hinv Hn Heff Hs Hc Ht Hi Hl. set (l := log (node rt)) in *.
  pose proof (mi_log _ _ Hinv _ _ Hn) as Hh. pose proof (client_fresh g s n rt Hinv Hn Hs) as Hfresh. fold l in Hh, Hfresh.
  assert (historic (hist (appends rt e g)) (l ++ [e])) as Hh' by (by apply historic_snoc).
  assert (hist g ⊆ hist (appends rt e g)) as Hsub.
  { apply insert_subseteq. destruct (hist g !! (eTerm e, eIndex e)) eqn:E; [|done]. rewrite Ht in E. apply Hfresh in E. lia. }
  assert (forall i x, hist g !! (eTerm e, i) = Some x -> x `prefix_of` l ++ [e]) as Htop.
  { intros i x Hx. rewrite Ht in Hx. apply prefix_app_r. by eapply (mi_top _ _ Hinv). }
  assert (forall t i x, hist (appends rt e g) !! (t, i) = Some x ->
    (t = eTerm e /\ i = eIndex e /\ x = l ++ [e]) \/ hist g !! (t, i) = Some x) as Hinvert.
  { intros t i x. simpl. rewrite lookup_insert_Some. intros [[[= <- <-] <-]|[_ ?]]; auto. }
  assert (forall q rq, nodes (put n rt' [] s) !! q = Some rq -> state (node rq) = Leader ->
    currentTerm (node rq) = eTerm e -> q = n /\ rq = rt') as Huniq.
  { intros q rq [[-> ->]|[Hne Hq]]%nodes_put Hsq Htq; [done|]. exfalso. apply Hne. eapply leader_unique; eauto. congruence. }
  split.
  - intros t i x [(-> & -> & ->)|Hx]%Hinvert.
    + split_and!; [done|by apply (lastIndex_append l)| |pose proof (lastIndex_nonneg l (proj1 Hh)); lia|].
      * unfold lastEntry. by rewrite last_snoc.
      * exists n. eapply won_step; eauto. rewrite Ht. by eapply leader_won.
    + destruct (mi_hist _ _ Hinv _ _ _ Hx) as (? & ? & ? & ? & c & ?).
      split_and!; try done; [by eapply historic_mono|]. exists c. by eapply won_step.
  - intros t i j li lj [(-> & -> & ->)|H1]%Hinvert [(E & E' & ->)|H2]%Hinvert Hij; try done.
    + rewrite Ht in H2. apply Hfresh in H2. lia.
    + subst t. by eapply Htop.
    + by eapply (mi_chain _ _ Hinv).
  - intros q rq [[-> ->]|[_ Hq]]%nodes_put; [by rewrite Hl|]. eapply historic_mono; [done|by eapply (mi_log _ _ Hinv)].
  - intros q rq i x Hq Hsq [(E & -> & ->)|Hx]%Hinvert.
    + destruct (Huniq _ _ Hq Hsq E) as [-> ->]. by rewrite Hl.
    + apply nodes_put in Hq as [[-> ->]|[_ Hq]]; [|by eapply (mi_top _ _ Hinv)].
      rewrite Hl. apply (Htop i). by rewrite Ht, <- (core_term _ _ Hc).
  - intros from to rpc args Hin. cbn [net put] in *. rewrite app_nil_r in *.
    destruct (mi_sent _ _ Hinv _ _ _ _ Hin) as (? & ? & ? & m & ? & ? & ?).
    split_and!; [done|done|by eapply won_step|]. exists m. split_and!; [done|by eapply historic_mono|done].
  - intros from to rpc args m Hin Hm. cbn [net put] in *. rewrite app_nil_r in *.
    destruct (mi_src _ _ Hinv _ _ _ _ _ Hin Hm) as [Hcmp Hlead]. split.
    + intros i x [(E & -> & ->)|Hx]%Hinvert; [|by eapply Hcmp]. right. apply prefix_app_r.
      apply (Hlead n rt); [done|done|congruence].
    + intros q rq Hq Hsq Htq. apply nodes_put in Hq as [[-> ->]|[_ Hq]]; [|by eapply Hlead].
      rewrite Hl. apply prefix_app_r, (Hlead n rt); [done|done|]. by rewrite <- (core_term _ _ Hc).
Qed.

(** An accepted request with entries agrees with its source up to their end. *)
Lemma accepted_slice k g s n rt args m :
  k < 2 ^ 64 - 1 -> node_log_ok k (node rt) -> matching_inv g s -> nodes s !! n = Some rt ->
  historic (hist g) m -> request_of m args -> prevLogOK args (log (node rt)) = true ->
  (0 < startPos args <= length (log (node rt)))%nat -> (startPos args <= length m)%nat ->
  exists len, aeEntries args = take len (drop (startPos args) m) /\
    take (startPos args) (log (node rt)) = take (startPos args) m.
Proof.
  intros Hk (Hwf & Hf & _) Hinv Hn Hhm Hreq Hprev Hpos Hle. pose proof (mi_log _ _ Hinv _ _ Hn) as Hhl.
  destruct Hreq as [[He Hp]|(fr & len & Hfr & Hpi & Hpt & He)].
  - exists 0%nat. rewrite He. split; [done|]. unfold startPos. rewrite Hp. destruct Hhl as [[H0 _] _], Hhm as [[H0' _] _].
    change (Z.to_nat (0 + 1)) with 1%nat. by rewrite (take_S_r _ _ _ H0), (take_S_r _ _ _ H0').
  - destruct (request_position k (log (node rt)) args fr) as [Hs Hfr1]; try done.
    exists len. rewrite Hs in *. split; [done|]. eapply request_agree; eauto; lia.
Qed.

(** What a request does to a log: nothing, or it makes it agree with the log
    the request was made from, up to the end of the request. *)
Lemma append_source k g s n rt rt' from rpc args reply b m :
  k < 2 ^ 64 - 1 -> logs_ok k s -> matching_inv g s -> nodes s !! n = Some rt ->
  MAppendEntries from n rpc args ∈ net s -> historic (hist g) m -> request_of m args ->
  HandleAppendEntries args (node rt) = (node rt', reply, b) ->
  log (node rt') = log (node rt) \/
  (aerSuccess reply = true /\ exists j, (0 < j)%nat /\ log (node rt') = take j m /\ ~ take j m `prefix_of` log (node rt)).
Proof.
  intros Hk [Hlog Hmsg] Hinv Hn Hin Hhm Hreq Hh.
  pose proof (proj1 (Forall_forall _ _) Hmsg _ Hin) as Hwm. pose proof (Hlog _ _ Hn) as Hwn. simpl in Hwn.
  pose proof (HandleAppendEntries_merge k _ _ _ _ _ _ _ _ Hk Hwn Hwm Hh) as E.
  destruct (aerSuccess reply); [|by left]. destruct E as (_ & _ & Hprev & _ & Hpos & _ & E). rewrite E.
  assert ((startPos args <= length m)%nat \/ aeEntries args = []) as [Hle| ->].
  { destruct Hreq as [[? _]|(fr & len & Hfr & Hpi & _ & He)]; [by right|].
    destruct (request_position k (log (node rt)) args fr) as [Hs _]; try done; try apply Hwn. rewrite Hs.
    destruct (decide (Z.to_nat fr <= length m)%nat); [by left|right]. by rewrite He, drop_ge, take_nil by lia. }
  - destruct (accepted_slice k g s n rt args m) as (len & -> & Hpre); try done.
    destruct (merge_slice (hist g) (log (node rt)) m (startPos args) len) as [[-> _]|[-> ?]]; try done.
    + by eapply mi_log.
    + by left.
    + right. split; [done|]. exists (startPos args + len)%nat. split_and!; [lia|done|done].
  - left. unfold merge. by destruct (drop _ _).
Qed.

(** A request never touches the log of a leader of its term. *)
Lemma leader_keeps_log g s n rt rt' from rpc args reply b :
  election_inv ids s -> matching_inv g s -> nodes s !! n = Some rt ->
  MAppendEntries from n rpc args ∈ net s -> HandleAppendEntries args (node rt) = (node rt', reply, b) ->
  state (node rt') = Leader -> log (node rt') = log (node rt).
Proof.
  intros Hel Hinv Hn Hin Hh Hs. destruct (le_leader _ _ (HandleAppendEntries_le _ _ _ _ _ Hh) Hs) as [Hs0 Ht].
  destruct (mi_sent _ _ Hinv _ _ _ _ Hin) as (_ & Hne & Hw & _).
  unfold HandleAppendEntries in Hh. case_if; [congruence|]. breflect. exfalso.
  assert (currentTerm (node rt') = Z.max (currentTerm (node rt)) (aeTerm args)) as Hmax.
  { rewrite <- acceptLeader_term. case_if; [|congruence]. unfold storeEntries in Hh.
    case_if; injection Hh as <- _ _; done. }
  assert (aeTerm args = currentTerm (node rt)) as E by lia. rewrite E in Hw. apply Hne.
  eapply won_unique; [done|done|by eapply leader_won].
Qed.


(** The histories after a step, by its effect on the logs. *)
Inductive ghost_effect (self : string) (rt rt' : Runtime) (s : Cluster) (g : Ghost)
  : list Message -> Ghost -> Prop :=
| GE_keep ms :
    log (node rt') = log (node rt) -> Forall (sentBy self (node rt) (length (net s))) ms -> plain ms ->
    ghost_effect self rt rt' s g ms (sends s rt g)
| GE_client cmd :
    state (node rt) = Leader -> core (node rt') = core (node rt) -> pc rt' = pc rt ->
    log (node rt') = log (node rt) ++ [mkEntry (currentTerm (node rt)) (lastIndex (log (node rt)) + 1) cmd] ->
    ghost_effect self rt rt' s g []
      (appends rt (mkEntry (currentTerm (node rt)) (lastIndex (log (node rt)) + 1) cmd) g)
| GE_append from rpc args reply b :
    MAppendEntries from self rpc args ∈ net s ->
    HandleAppendEntries args (node rt) = (node rt', reply, b) -> pc rt' = pc rt ->
    ghost_effect self rt rt' s g [MAppendEntriesReply self from rpc reply] (sends s rt g).

Lemma matching_inv_step k g s s' :
  k < 2 ^ 64 - 1 -> logs_ok k s -> terms_le k s -> threads_ok s -> election_inv ids s ->
  matching_inv g s -> gstep s s' ->
  exists n rt rt' ms, nodes s !! n = Some rt /\ s' = put n rt' ms s /\ effect n rt rt' (net s) ms /\
    candidate_kept rt rt' /\ exists g', ghost_effect n rt rt' s g ms g' /\ matching_inv g' s'.
Proof.
  intros Hk Hlogs Hterms Hth Hel Hinv Hg. pose proof (terms_le_no_wrap _ _ Hterms Hk) as Hnw.
  destruct (gstep_effect k s s' Hlogs Hk Hth Hg) as (n & rt & rt' & ms & Hn & -> & Heff & Hle & Hkept).
  exists n, rt, rt', ms. do 4 (split; [done|]).
  destruct Hle as [Hkeep Hms Hplain|cmd Hs Hc Hpc Hl ->|from rpc args reply b Hin Hh Hpc ->].
  - exists (sends s rt g). split; [by constructor|]. apply keep_preserves; try done. rewrite Hkeep. by eapply (mi_log _ _ Hinv).
  - eexists. split; [by constructor|]. by apply client_preserves.
  - exists (sends s rt g). split; [by econstructor|].
    destruct (mi_sent _ _ Hinv _ _ _ _ Hin) as (_ & _ & _ & m & Hm & Hhm & Hreq).
    apply keep_preserves; try done; [by repeat constructor| |by eapply leader_keeps_log].
    destruct (append_source k g s n rt rt' from rpc args reply b m) as [->|(_ & j & Hj & -> & _)]; try done.
    + by eapply (mi_log _ _ Hinv).
    + by apply historic_take.
Qed.

Lemma matching_inv_init ch : matching_inv (mkGhost ∅ ∅) (NewCluster ids ch).
Proof.
  assert (forall n rt, nodes (NewCluster ids ch) !! n = Some rt -> exists ps, rt = newRuntime n ps ch) as Hnodes.
  { intros n rt Hn. simpl in Hn. apply elem_of_list_to_map_2, list_elem_of_fmap in Hn as (i & [= -> ->] & _). eauto. }
  split; try (intros; simplify_map_eq; done).
  - intros n rt (ps & ->)%Hnodes. apply historic_new.
  - intros from to rpc args Hin. by apply not_elem_of_nil in Hin.
Qed.

(** Everything known of a cluster after [k] guarded steps. *)
Record raft_inv (k : nat) (s : Cluster) : Prop := {
  ri_election : election_inv ids s;
  ri_terms : terms_le (Z.of_nat k) s;
  ri_logs : logs_ok (Z.of_nat k) s;
  ri_threads : threads_ok s;
  ri_matching : exists g, matching_inv g s }.

Lemma raft_inv_init ch : raft_inv 0 (NewCluster ids ch).
Proof.
  split; [by apply election_inv_init|apply terms_le_init|apply logs_ok_init|apply threads_ok_init|eexists; apply matching_inv_init].
Qed.

Lemma raft_inv_step k s s' :
  Z.of_nat (S k) < 2 ^ 64 - 1 -> raft_inv k s -> gstep s s' -> raft_inv (S k) s'.
Proof.
  intros Hk [He Ht Hl Hth [g Hm]] Hg. pose proof (gstep_cstep _ _ Hg) as Hc.
  assert (no_wrap s) as Hnw by (eapply terms_le_no_wrap; [exact Ht|lia]).
  split; try replace (Z.of_nat (S k)) with (Z.of_nat k + 1) by lia.
  - by eapply election_inv_step.
  - eapply terms_le_step; [lia|done|done].
  - eapply logs_ok_step; [lia|done|done].
  - by eapply threads_ok_step.
  - destruct (matching_inv_step (Z.of_nat k) g s s') as (_ & _ & _ & _ & _ & _ & _ & _ & g' & _ & ?); eauto; lia.
Qed.

Lemma raft_inv_run k0 k s s' :
  nsteps gstep k s s' -> Z.of_nat (k0 + k) < 2 ^ 64 - 1 -> raft_inv k0 s -> raft_inv (k0 + k) s'.
Proof.
  intros Hrun. revert k0. induction Hrun as [|k s1 s2 s3 Hstep Hrun IH]; intros k0 Hk Hinv.
  { by rewrite Nat.add_0_r. }
  replace (k0 + S k)%nat with (S k0 + k)%nat by lia. apply IH; [lia|]. eapply raft_inv_step; [lia|done|done].
Qed.
End MatchingInvariant.

(** *** Guarded schedules *)

Definition guardedb (s : Cluster) (ev : Event) : bool :=
  match ev with
  | EvThread n k Go =>
      match nodes s !! n with
      | Some rt => match threads rt !! k with
                   | Some (THeartbeat _) => bool_decide (state (node rt) = Leader)
                   | _ => true
                   end
      | None => true
      end
  | _ => true
  end.

Lemma guardedb_guarded s ev : guardedb s ev = true -> guarded s ev.
Proof.
  destruct ev as [| n k []| | |]; simpl; try done. intros H rt p Hn Hk. rewrite Hn, Hk in H. by breflect.
Qed.

Fixpoint gexec (s : Cluster) (evs : list Event) : option Cluster :=
  match evs with
  | [] => Some s
  | ev :: evs' => if guardedb s ev then s' ← step s ev; gexec s' evs' else None
  end.

Lemma gexec_nsteps s evs s' : gexec s evs = Some s' -> nsteps gstep (length evs) s s'.
Proof.
  revert s. induction evs as [|ev evs IH]; intros s H; simpl in H; [simplify_eq; constructor|].
  destruct (guardedb s ev) eqn:Hg; [|done]. destruct (step s ev) eqn:E; simplify_eq/=.
  eapply nsteps_l; [exists ev; split; [done|by apply guardedb_guarded]|]. by apply IH.
Qed.

(** C5. Log Matching: in a cluster whose heartbeats are sent by nodes that
    lead, over every interleaving, message delay, loss and duplication, two logs
    that have entries of the same term at an index are the same up to it. *)
Theorem log_matching ids ch k s n1 n2 rt1 rt2 i e1 e2 :
  NoDup ids -> "" ∉ ids ->
  nsteps gstep k (NewCluster ids ch) s -> Z.of_nat k < 2 ^ 64 - 1 ->
  nodes s !! n1 = Some rt1 -> nodes s !! n2 = Some rt2 ->
  entryAt (log (node rt1)) i = Some e1 -> entryAt (log (node rt2)) i = Some e2 -> eTerm e1 = eTerm e2 ->
  truncateAfter (log (node rt1)) i = truncateAfter (log (node rt2)) i.
Proof.
  intros Hnd Hne Hrun Hk Hn1 Hn2 H1 H2 Ht.
  destruct (raft_inv_run ids Hnd Hne 0 k _ _ Hrun Hk (raft_inv_init ids ch)) as [_ _ [Hlogs _] _ [g Hinv]].
  destruct (Hlogs _ _ Hn1) as (Hwf1 & _), (Hlogs _ _ Hn2) as (Hwf2 & _).
  rewrite !log_wf_truncateAfter by done.
  apply log_wf_entryAt_Some in H1 as (_ & [Hi _] & H1); [|done].
  apply log_wf_entryAt_Some in H2 as (_ & _ & H2); [|done].
  replace (Z.to_nat (i + 1)) with (S (Z.to_nat i)) by lia.
  eapply historic_agree; eauto using mi_log.
Qed.

(** nodeA leads term 1 and replicates "x" to nodeB. *)
Definition replicate_x : list Event :=
  campaign "nodeA" ++ [EvDeliver 0] ++ win "nodeA" "nodeB" 2 ++ [EvClient "nodeA" "x"] ++ go "nodeA" 1 1 ++
  [EvDeliver 3; EvThread "nodeA" 1 (Reply 4); EvThread "nodeA" 0 (Take 1)] ++ go "nodeA" 0 4.

Lemma log_matching_witness :
  exists s rtA rtB, nsteps gstep (length replicate_x) (NewCluster abc (Some [])) s /\
    nodes s !! "nodeA" = Some rtA /\ nodes s !! "nodeB" = Some rtB /\
    truncateAfter (log (node rtA)) 1 = truncateAfter (log (node rtB)) 1.
Proof.
  destruct (gexec (NewCluster abc (Some [])) replicate_x) as [s|] eqn:E; [|by vm_compute in E].
  pose proof (gexec_nsteps _ _ _ E) as Hrun. vm_compute in E. injection E as <-.
  do 3 eexists. split; [exact Hrun|]. split; [by vm_compute|]. split; [by vm_compute|].
  eapply (log_matching abc (Some []) (length replicate_x) _ "nodeA" "nodeB" _ _ 1 (mkEntry 1 1 "x") (mkEntry 1 1 "x")
    abc_nodup abc_nonempty Hrun); [by vm_compute|by vm_compute|by vm_compute|done|done|done].
Defined.

(** nodeA leads term 1, appends "x" and has started its heartbeats when nodeB
    takes over term 2.  nodeB replicates "y1" and "y2" to nodeC and acknowledges
    "y2".  Only now nodeA's goroutine for nodeB takes the lock: it sends "x" in
    term 2. *)
Definition overwrite : list Event :=
  campaign "nodeA" ++ [EvDeliver 0] ++ win "nodeA" "nodeB" 2 ++ [EvClient "nodeA" "x"] ++ beat "nodeA" ++
  campaign "nodeB" ++ [EvDeliver 3; EvDeliver 4] ++ win "nodeB" "nodeC" 6 ++
  [EvClient "nodeB" "y1"; EvClient "nodeB" "y2"] ++ go "nodeB" 5 1 ++
  [EvDeliver 7; EvThread "nodeB" 5 (Reply 8); EvThread "nodeB" 3 (Take 5)] ++ go "nodeB" 3 5 ++
  go "nodeA" 3 1 ++ [EvDeliver 9; EvClient "nodeB" "z"].

Definition logOf (s : Cluster) (n : string) : list LogEntry :=
  match nodes s !! n with Some rt => log (node rt) | None => [] end.

(** C8. Without the guard the leader loses what it acknowledged, and Log
    Matching fails: in some run nodeB is the leader of term 2 and has acknowledged
    "y2", the entry 2 of its term, to its client; its log has the deposed leader's
    "x" and then "z" in that place, as entry 2 of term 2, while nodeC has "y2". *)
Theorem leader_overwritten :
  exists s, rtc cstep (NewCluster abc (Some [])) s /\ leader_of s "nodeB" 2 /\
    outcomes s "nodeB" = [(3%nat, None)] /\ applied s "nodeB" = Some ["y1"; "y2"] /\
    logOf s "nodeB" = [sentinel; mkEntry 1 1 "x"; mkEntry 2 2 "z"] /\
    logOf s "nodeC" = [sentinel; mkEntry 2 1 "y1"; mkEntry 2 2 "y2"].
Proof.
  apply (exec_reaches _ overwrite). vm_compute. split; [eexists; by split_and!|]. by split_and!.
Qed.
