(* ===== verification/RaftCompleteness.v ===== *)
(** * Acknowledged writes survive

    When [Replicate] returns without an error, the entry it appended is in the
    log of every later leader, whatever else happens: the theorem of this file,
    for runs in which heartbeats are sent by nodes that still lead (the guarded
    runs of [RaftLogMatching]) and no node restarts.

    An entry is choosable while a majority of the nodes has acknowledged it or
    may still do so, being in a term not later than the entry's.  Choosable
    entries are in the logs of all later leaders; a step can only make fewer
    entries choosable; an entry a majority acknowledged always is. *)

From S2P Require Import Prelude RaftLog RaftNode RaftCluster RaftElection RaftReplication RaftCatchup RaftLogInvariant RaftTraces RaftLogMatching.

(** ** Acknowledgements and votes *)

(** The request reaches up to index [i]. *)
Definition covers (args : AppendEntriesArgs) (i : Z) : Prop :=
  0 < i <= aePrevLogIndex args + Z.of_nat (length (aeEntries args)).

Definition acked (s : Cluster) (v : string) (t i : Z) : Prop :=
  exists from rpc args reply, MAppendEntries from v rpc args ∈ net s /\
    MAppendEntriesReply v from rpc reply ∈ net s /\ aerSuccess reply = true /\ aeTerm args = t /\ covers args i.

(** The vote a message carries, with the request it answers. *)
Definition ballot (m : Message) : option (string * string * RequestVoteArgs) :=
  match m with
  | MRequestVote from _ args => Some (from, from, args)
  | MRequestVoteReply from to req reply => if rvrVoteGranted reply then Some (from, to, req) else None
  | _ => None
  end.

Lemma casts_ballot m v t c :
  casts m = Some (v, t, c) <-> exists args, ballot m = Some (v, c, args) /\ rvTerm args = t.
Proof.
  destruct m; simpl; try (by split; [|intros (? & ? & ?)]).
  - split; [intros [= <- <- <-]; eauto|intros (? & [= <- <- <-] & <-); done].
  - case_match; [|by split; [|intros (? & ? & ?)]].
    split; [intros [= <- <- <-]; eauto|intros (? & [= <- <- <-] & <-); done].
Qed.

Section CompletenessInvariant.
Context (ids : list string) (ids_nodup : NoDup ids) (ids_nonempty : "" ∉ ids).

(** Node [v] has acknowledged the entry [i] of term [t], as a follower or as the
    leader that appended it. *)
Definition stored (g : Ghost) (s : Cluster) (v : string) (t i : Z) : Prop :=
  acked s v t i \/ (won ids s v t /\ is_Some (hist g !! (t, i))).

Definition choosable (g : Ghost) (s : Cluster) (t i : Z) : Prop :=
  exists q, NoDup q /\ q ⊆ ids /\ Z.of_nat (length ids) / 2 + 1 <= Z.of_nat (length q) /\
    forall v, v ∈ q -> stored g s v t i \/ exists rt, nodes s !! v = Some rt /\ currentTerm (node rt) <= t.

Record complete_inv (g : Ghost) (s : Cluster) : Prop := {
  (** bookkeeping of requests, answers and terms *)
  ci_unique : forall f1 t1 f2 t2 rpc a1 a2, MAppendEntries f1 t1 rpc a1 ∈ net s ->
    MAppendEntries f2 t2 rpc a2 ∈ net s -> f1 = f2 /\ t1 = t2 /\ a1 = a2;
  ci_reply : forall v from rpc reply, MAppendEntriesReply v from rpc reply ∈ net s -> aerSuccess reply = true ->
    exists args m rt, MAppendEntries from v rpc args ∈ net s /\ src g !! rpc = Some m /\
      aePrevLogIndex args + Z.of_nat (length (aeEntries args)) < Z.of_nat (length m) /\
      nodes s !! v = Some rt /\ aeTerm args <= currentTerm (node rt);
  ci_request : forall from to args, MRequestVote from to args ∈ net s -> 0 < rvTerm args;
  ci_answer : forall w c args reply, MRequestVoteReply w c args reply ∈ net s -> rvrVoteGranted reply = true ->
    MRequestVote c w args ∈ net s;
  ci_terms : forall n rt e, nodes s !! n = Some rt -> e ∈ log (node rt) -> eTerm e <= currentTerm (node rt);
  ci_src_terms : forall from to rpc args m e, MAppendEntries from to rpc args ∈ net s ->
    src g !! rpc = Some m -> e ∈ m -> eTerm e <= aeTerm args;
  ci_hist_terms : forall t i l e, hist g !! (t, i) = Some l -> e ∈ l -> eTerm e <= t;
  ci_cand : forall c rt to args, nodes s !! c = Some rt -> electing_in (currentTerm (node rt)) (pc rt) = true ->
    state (node rt) = Candidate -> MRequestVote c to args ∈ net s -> rvTerm args = currentTerm (node rt) ->
    (rvLastLogIndex args, rvLastLogTerm args) = lastIndexAndTerm (log (node rt));
  (** where choosable entries are *)
  ci_stored : forall t i l v rt, hist g !! (t, i) = Some l -> choosable g s t i -> stored g s v t i ->
    nodes s !! v = Some rt -> l `prefix_of` log (node rt);
  ci_leader : forall t i l n rt, hist g !! (t, i) = Some l -> choosable g s t i ->
    nodes s !! n = Some rt -> state (node rt) = Leader -> t < currentTerm (node rt) -> l `prefix_of` log (node rt);
  ci_src : forall t i l from to rpc args m, hist g !! (t, i) = Some l -> choosable g s t i ->
    MAppendEntries from to rpc args ∈ net s -> src g !! rpc = Some m -> t < aeTerm args -> l `prefix_of` m;
  ci_later : forall t i l t' j l', hist g !! (t, i) = Some l -> choosable g s t i ->
    hist g !! (t', j) = Some l' -> t < t' -> l `prefix_of` l';
  ci_vote : forall t i l m w c args, hist g !! (t, i) = Some l -> choosable g s t i -> stored g s w t i ->
    m ∈ net s -> ballot m = Some (w, c, args) -> t < rvTerm args ->
    up_to_date (rvLastLogIndex args) (rvLastLogTerm args) i t }.

(** ** Facts *)

Lemma majority_nonempty s c t : has_majority ids s c t -> exists v, voted s v t c.
Proof.
  intros (q & (_ & _ & Hv) & Hl). destruct q as [|v q]; [|exists v; apply Hv; by left].
  simpl in Hl. exfalso. clear -Hl. pose proof (Z.div_pos (Z.of_nat (length (peersOf ids c)) + 1) 2). lia.
Qed.

Lemma voted_positive g s v t c : complete_inv g s -> voted s v t c -> 0 < t.
Proof.
  intros Hinv (m & Hm & (args & Hb & <-)%casts_ballot). destruct m as [from to a|from to a r| |]; simpl in Hb; try done.
  - injection Hb as <- <- <-. by eapply ci_request.
  - case_match; [|done]. injection Hb as <- <- <-. by eapply ci_request, ci_answer.
Qed.

Lemma won_positive g s c t : complete_inv g s -> won ids s c t -> 0 < t.
Proof. intros Hinv (_ & (v & Hv)%majority_nonempty & _). by eapply voted_positive. Qed.

Lemma stored_term g s v t i :
  complete_inv g s -> stored g s v t i -> exists rt, nodes s !! v = Some rt /\ t <= currentTerm (node rt).
Proof.
  intros Hinv [(from & rpc & args & reply & Hin & Hr & Hs & <- & _)|[(_ & _ & rt & ? & ? & _) _]]; [|eauto].
  destruct (ci_reply _ _ Hinv _ _ _ _ Hr Hs) as (args' & m & rt & Hin' & _ & _ & Hn & Ht).
  destruct (ci_unique _ _ Hinv _ _ _ _ _ _ _ Hin Hin') as (_ & _ & ->). eauto.
Qed.

(** A candidate's majority meets an entry's: some voter of term [t'] holds it. *)
Lemma choosable_voter g s c t t' i :
  election_inv ids s -> c ∈ ids -> choosable g s t i -> has_majority ids s c t' -> t < t' ->
  exists w, stored g s w t i /\ voted s w t' c.
Proof.
  intros Hel Hc (q & Hq & Hsub & Hlen & Hall) (q' & (Hq' & Hsub' & Hv) & Hlen') Ht.
  pose proof (peersOf_length _ _ ids_nodup Hc) as Hp.
  destruct (quorum_intersection ids q q') as (w & Hw & Hw'); try done.
  { replace (Z.of_nat (length (peersOf ids c)) + 1) with (Z.of_nat (length ids)) in Hlen' by lia. clear -Hlen Hlen'. div_lia. }
  specialize (Hv w Hw'). exists w. split; [|done].
  destruct (Hall w Hw) as [|(rt & Hrt & Hle)]; [done|].
  destruct (inv_voted _ _ Hel _ _ _ Hv) as (_ & _ & rt' & Hrt' & Hle' & _). simplify_eq. lia.
Qed.

(** The last entry of a historic log that contains the entry [i] of term [t]. *)
Lemma prefix_up_to_date g s t i l l' :
  matching_inv ids g s -> complete_inv g s -> hist g !! (t, i) = Some l -> historic (hist g) l' -> l `prefix_of` l' ->
  up_to_date (lastIndex l') (eTerm (lastEntry l')) i t.
Proof.
  intros Hm Hinv Hl Hh Hpre. destruct (mi_hist _ _ _ Hm _ _ _ Hl) as ([Hwf _] & <- & <- & Hpos & _).
  pose proof (prefix_length _ _ Hpre) as Hlen. pose proof (log_wf_lastEntry _ (proj1 Hh)) as Hlast.
  pose proof (log_wf_lastEntry _ Hwf) as He. pose proof (log_wf_lastIndex _ Hwf). pose proof (log_wf_lastIndex _ (proj1 Hh)).
  pose proof (proj2 Hh (length l' - 1)%nat _ ltac:(lia) Hlast) as Hhl.
  assert (eTerm (lastEntry l) <= eTerm (lastEntry l')); [|unfold up_to_date; lia].
  eapply (ci_hist_terms _ _ Hinv); [exact Hhl|]. rewrite take_ge by lia.
  eapply list_elem_of_lookup_2. by eapply prefix_lookup_Some.
Qed.

(** An up-to-date historic log contains every choosable entry it is compared with. *)
Lemma up_to_date_prefix g s t i l l' :
  matching_inv ids g s -> complete_inv g s -> hist g !! (t, i) = Some l -> choosable g s t i ->
  historic (hist g) l' -> up_to_date (lastIndex l') (eTerm (lastEntry l')) i t -> l `prefix_of` l'.
Proof.
  intros Hm Hinv Hl Hch Hh Hup. destruct (mi_hist _ _ _ Hm _ _ _ Hl) as (_ & _ & _ & Hpos & c & Hc).
  pose proof (won_positive _ _ _ _ Hinv Hc) as Ht. pose proof (log_wf_lastEntry _ (proj1 Hh)) as Hlast.
  pose proof (log_wf_lastIndex _ (proj1 Hh)) as Hidx. pose proof (log_wf_length _ (proj1 Hh)).
  destruct (decide (length l' = 1)%nat) as [E|E].
  { rewrite E in Hlast. change (1 - 1)%nat with 0%nat in Hlast. destruct Hh as [[H0 _] _]. rewrite H0 in Hlast. injection Hlast as Hs. rewrite <- Hs in Hup.
    destruct Hup as [?|[? ?]]; simpl in *; lia. }
  pose proof (proj2 Hh (length l' - 1)%nat _ ltac:(lia) Hlast) as Hhl. rewrite take_ge in Hhl by lia.
  destruct Hup as [Hlt|[Heq Hle]].
  - by eapply (ci_later _ _ Hinv).
  - rewrite <- Heq in Hl. eapply (mi_chain _ _ _ Hm); [exact Hl|exact Hhl|]. lia.
Qed.

(** The winner of an election has every choosable entry of earlier terms. *)
Lemma winner_complete g s n rt t i l :
  election_inv ids s -> matching_inv ids g s -> complete_inv g s -> nodes s !! n = Some rt ->
  pc rt = PcWon (currentTerm (node rt)) -> state (node rt) = Candidate ->
  hist g !! (t, i) = Some l -> choosable g s t i -> t < currentTerm (node rt) -> l `prefix_of` log (node rt).
Proof.
  intros Hel Hm Hinv Hn Hpc Hs Hl Hch Ht.
  destruct (choosable_voter g s n t (currentTerm (node rt)) i) as (w & Hw & Hv);
    [done|by eapply inv_node|done|by eapply inv_won|done|].
  destruct Hv as (m & Hin & (args & Hb & Hterm)%casts_ballot).
  pose proof (ci_vote _ _ Hinv _ _ _ _ _ _ _ Hl Hch Hw Hin Hb ltac:(lia)) as Hup.
  assert (exists to, MRequestVote n to args ∈ net s) as [to Hreq].
  { destruct m as [from to a|from to a r| |]; simpl in Hb; try done; [by injection Hb as <- <- <-; eauto|].
    case_match; [|done]. injection Hb as <- <- <-. eexists. by eapply ci_answer. }
  pose proof (ci_cand _ _ Hinv _ _ _ _ Hn ltac:(rewrite Hpc; apply Z.eqb_refl) Hs Hreq Hterm) as Hlast.
  injection Hlast as Hi Htm. rewrite Hi, Htm in Hup. eapply up_to_date_prefix; eauto. by eapply mi_log.
Qed.

Lemma leader_complete g s n rt rt' ms t i l :
  election_inv ids s -> matching_inv ids g s -> complete_inv g s -> nodes s !! n = Some rt ->
  effect n rt rt' (net s) ms -> state (node rt') = Leader ->
  hist g !! (t, i) = Some l -> choosable g s t i -> t < currentTerm (node rt') -> l `prefix_of` log (node rt).
Proof.
  intros Hel Hm Hinv Hn Heff Hs Hl Hch Ht.
  destruct (effect_leader ids _ _ _ _ _ Hel Hn Heff Hs) as [[Hs0 E]|(Hpc & Hc & E)]; rewrite E in Ht.
  - by eapply ci_leader.
  - by eapply winner_complete.
Qed.

(** ** Steps make nothing choosable *)

Lemma choosable_back g g' s n rt rt' ms t i :
  no_wrap s -> nodes s !! n = Some rt -> effect n rt rt' (net s) ms ->
  (forall v, stored g' (put n rt' ms s) v t i ->
     stored g s v t i \/ exists rv, nodes s !! v = Some rv /\ currentTerm (node rv) <= t) ->
  choosable g' (put n rt' ms s) t i -> choosable g s t i.
Proof.
  intros Hnw Hn Heff Hst (q & Hq & Hsub & Hlen & Hall). exists q. split_and!; try done. intros v Hv.
  destruct (Hall v Hv) as [Hs|(rv & Hrv & Hle)]; [by apply Hst|]. right.
  apply nodes_put in Hrv as [[-> ->]|[_ Hrv]]; [|eauto].
  destruct (effect_vote_le _ _ _ _ _ Heff (Hnw _ _ Hn)) as (_ & _ & Hmono & _). exists rt. split; [done|lia].
Qed.

(** The leader's share of [stored] is not new either. *)
Lemma won_back g s n rt rt' ms v t i l :
  no_wrap s -> election_inv ids (put n rt' ms s) -> matching_inv ids g s -> nodes s !! n = Some rt ->
  effect n rt rt' (net s) ms -> hist g !! (t, i) = Some l -> won ids (put n rt' ms s) v t -> won ids s v t.
Proof.
  intros Hnw Hel' Hm Hn Heff Hl Hw. destruct (mi_hist _ _ _ Hm _ _ _ Hl) as (_ & _ & _ & _ & c & Hc).
  assert (c = v) as <-; [|done]. eapply (won_unique ids); [done|exact Hel'|by eapply won_step|done].
Qed.

Lemma acked_back g s n rt rt' ms v t i :
  matching_inv ids g s -> complete_inv g s -> Forall (fun m => isAnswer m = false) ms ->
  Forall (sentBy n (node rt) (length (net s))) ms -> acked (put n rt' ms s) v t i -> acked s v t i.
Proof.
  intros Hm Hinv Hans Hms (from & rpc & args & reply & Hin & Hr & Hs & Ht & Hc). cbn [net put] in *.
  rewrite Forall_forall in Hans, Hms.
  apply elem_of_app in Hr as [Hr|Hr]; [|by apply Hans in Hr].
  apply elem_of_app in Hin as [Hin|Hin]; [by exists from, rpc, args, reply|].
  destruct (Hms _ Hin) as (_ & _ & -> & _). destruct (ci_reply _ _ Hinv _ _ _ _ Hr Hs) as (a & m & rv & Hin' & _).
  destruct (mi_sent _ _ _ Hm _ _ _ _ Hin') as (Hlt & _). lia.
Qed.

Lemma up_to_date_trans i1 t1 i2 t2 i3 t3 :
  up_to_date i1 t1 i2 t2 -> up_to_date i2 t2 i3 t3 -> up_to_date i1 t1 i3 t3.
Proof. unfold up_to_date. lia. Qed.

Lemma granted_logOK args n n' r :
  HandleRequestVote args n = (n', r) -> rvrVoteGranted r = true ->
  up_to_date (rvLastLogIndex args) (rvLastLogTerm args) (lastIndex (log n)) (eTerm (lastEntry (log n))).
Proof.
  unfold HandleRequestVote. intros H Hg. case_if; [by simplify_eq/=|].
  set (n1 := if currentTerm n <? rvTerm args then becomeFollower (rvTerm args) n else n) in *.
  assert (log n1 = log n) as Hl by (unfold n1, becomeFollower; by repeat case_if).
  case_if; [by simplify_eq/=|]. breflect. rewrite <- Hl. by apply logOK_up_to_date.
Qed.

(** A vote cast in this step is for a log at least as good as the voter's. *)
Lemma new_ballot g s n rt rt' ms m w c args :
  election_inv ids s -> matching_inv ids g s -> complete_inv g s -> nodes s !! n = Some rt ->
  effect n rt rt' (net s) ms -> m ∈ ms -> ballot m = Some (w, c, args) ->
  w = n /\ forall t i l, hist g !! (t, i) = Some l -> choosable g s t i -> stored g s n t i ->
    up_to_date (rvLastLogIndex args) (rvLastLogTerm args) i t.
Proof.
  intros Hel Hm Hinv Hn Heff Hin Hb.
  assert (forall t i l, hist g !! (t, i) = Some l -> choosable g s t i -> stored g s n t i ->
    up_to_date (lastIndex (log (node rt))) (eTerm (lastEntry (log (node rt)))) i t) as Hown.
  { intros t i l Hl Hch Hst. eapply prefix_up_to_date; eauto; [by eapply mi_log|by eapply ci_stored]. }
  destruct Heff as [_ Hnone _|_ Hnode _ ->|from a reply _ Hh _ ->|? ? ? ? ? ? _ -> _ _ _ _|? _ _ _ ->].
  - rewrite Forall_forall in Hnone. pose proof (proj2 (casts_ballot m w (rvTerm args) c)) as Hc.
    rewrite (Hnone _ Hin) in Hc. discriminate Hc. eauto.
  - apply list_elem_of_fmap in Hin as (p & -> & _). simpl in Hb. injection Hb as <- <- <-. split; [done|].
    intros t i l Hl Hch Hst. rewrite Hnode. by eapply Hown.
  - apply list_elem_of_singleton in Hin as ->. simpl in Hb. destruct (rvrVoteGranted reply) eqn:Hg; [|done].
    injection Hb as <- <- <-. split; [done|]. intros t i l Hl Hch Hst.
    eapply up_to_date_trans; [by eapply granted_logOK|by eapply Hown].
  - by apply not_elem_of_nil in Hin.
  - by apply not_elem_of_nil in Hin.
Qed.

(** The vote requests of a step start an election. *)
Lemma new_request s n rt rt' ms from to args :
  no_wrap s -> nodes s !! n = Some rt -> effect n rt rt' (net s) ms -> MRequestVote from to args ∈ ms ->
  from = n /\ args = voteRequest (node rt') /\ pc rt' <> pc rt /\
  currentTerm (node rt') = currentTerm (node rt) + 1 /\ rvTerm args = currentTerm (node rt') /\ 0 < rvTerm args.
Proof.
  intros Hnw Hn [_ Hnone _|Hpc Hnode Hpc' ->|? ? ? _ _ _ ->|? ? ? ? ? ? _ -> _ _ _ _|? _ _ _ ->] Hin.
  - rewrite Forall_forall in Hnone. by apply Hnone in Hin.
  - apply list_elem_of_fmap in Hin as (p & [= -> -> ->] & _). specialize (Hnw _ _ Hn).
    assert (currentTerm (node rt') = currentTerm (node rt) + 1) as Ht.
    { rewrite Hnode. simpl. apply u64_small. unfold is_u64. lia. }
    split_and!; [done|done|congruence|done|done|]. simpl. lia.
  - by apply list_elem_of_singleton in Hin.
  - by apply not_elem_of_nil in Hin.
  - by apply not_elem_of_nil in Hin.
Qed.

(** A candidate that still counts votes has the log it asked votes for. *)
Lemma cand_step g s n rt rt' ms c rc to args :
  no_wrap s -> election_inv ids s -> complete_inv g s -> nodes s !! n = Some rt ->
  effect n rt rt' (net s) ms -> candidate_kept rt rt' -> (pc rt' <> pc rt -> log (node rt') = log (node rt)) ->
  nodes (put n rt' ms s) !! c = Some rc -> electing_in (currentTerm (node rc)) (pc rc) = true ->
  state (node rc) = Candidate -> MRequestVote c to args ∈ net (put n rt' ms s) -> rvTerm args = currentTerm (node rc) ->
  (rvLastLogIndex args, rvLastLogTerm args) = lastIndexAndTerm (log (node rc)).
Proof.
  intros Hnw Hel Hinv Hn Heff Hkept Hsame Hrc He Hs Hin Ht. cbn [net put] in Hin. apply elem_of_app in Hin as [Hin|Hin].
  2: { destruct (new_request _ _ _ _ _ _ _ _ Hnw Hn Heff Hin) as (-> & -> & _ & _).
       apply nodes_put in Hrc as [[_ ->]|[? _]]; done. }
  apply nodes_put in Hrc as [[-> ->]|[_ Hrc]]; [|by eapply ci_cand].
  assert (pc rt' = pc rt -> (rvLastLogIndex args, rvLastLogTerm args) = lastIndexAndTerm (log (node rt'))) as Hold.
  { intros Hpc. destruct (Hkept Hpc Hs) as (Hs0 & E & ->). rewrite Hpc, E in *. by eapply ci_cand. }
  destruct Heff as [_ _ [Hpc|[Hpc _]]|Hpc Hnode _ _|? ? ? _ _ Hpc _|term votes w p w' gr Hnode _ Hpc _ _ Hpc'|? _ _ Hpc _].
  - by apply Hold.
  - by destruct (pc rt').
  - exfalso. assert (voted s n (rvTerm args) n) as Hv by (by exists (MRequestVote n to args)).
    destruct (inv_voted _ _ Hel _ _ _ Hv) as (_ & _ & rv & Hrv & Hle & _). rewrite Hn in Hrv. injection Hrv as <-.
    rewrite Ht, Hnode in Hle. simpl in Hle. specialize (Hnw _ _ Hn). rewrite u64_small in Hle by (unfold is_u64; lia). lia.
  - by apply Hold.
  - rewrite Hnode in *. eapply ci_cand; eauto. rewrite Hpc. simpl.
    destruct gr; [destruct Hpc' as [Hpc'|[Hpc' _]]|]; by rewrite Hpc' in He.
  - by rewrite Hpc in He.
Qed.

(** ** Preservation *)

(** What a step must respect when it appends no client's entry. *)
Record tame (g : Ghost) (s : Cluster) (n : string) (rt rt' : Runtime) (ms : list Message) : Prop := {
  tm_sent : Forall (sentBy n (node rt) (length (net s))) ms;
  tm_request : forall m1 m2, m1 ∈ ms -> m2 ∈ ms -> isRequest m1 = true -> isRequest m2 = true -> m1 = m2;
  tm_reply : forall v from rpc reply, MAppendEntriesReply v from rpc reply ∈ ms -> aerSuccess reply = true ->
    v = n /\ exists args m, MAppendEntries from v rpc args ∈ net s /\ src g !! rpc = Some m /\
      aePrevLogIndex args + Z.of_nat (length (aeEntries args)) < Z.of_nat (length m) /\
      aeTerm args <= currentTerm (node rt');
  tm_kept : candidate_kept rt rt';
  tm_same : pc rt' <> pc rt -> log (node rt') = log (node rt);
  tm_leader : state (node rt') = Leader -> log (node rt') = log (node rt);
  tm_terms : forall e, e ∈ log (node rt') -> eTerm e <= currentTerm (node rt');
  (** acknowledgements of this step are the node's own, in a term it had not passed *)
  tm_back : forall v t i l, hist g !! (t, i) = Some l -> stored (sends s rt g) (put n rt' ms s) v t i ->
    stored g s v t i \/
    (v = n /\ currentTerm (node rt) <= t /\ Forall (fun m => ballot m = None) ms);
  tm_stored : forall t i l, hist g !! (t, i) = Some l -> choosable g s t i ->
    stored (sends s rt g) (put n rt' ms s) n t i -> l `prefix_of` log (node rt') }.

Lemma tame_choosable g s n rt rt' ms t i l :
  no_wrap s -> nodes s !! n = Some rt -> effect n rt rt' (net s) ms -> tame g s n rt rt' ms ->
  hist g !! (t, i) = Some l -> choosable (sends s rt g) (put n rt' ms s) t i -> choosable g s t i.
Proof.
  intros Hnw Hn Heff Htm Hl. eapply choosable_back; [done..|]. intros v Hv.
  destruct (tm_back _ _ _ _ _ _ Htm _ _ _ _ Hl Hv) as [?|(-> & ? & _)]; [by left|right; eauto].
Qed.

Lemma tame_src g s n rt rt' ms from to rpc args m :
  matching_inv ids g s -> tame g s n rt rt' ms -> MAppendEntries from to rpc args ∈ net (put n rt' ms s) ->
  src (sends s rt g) !! rpc = Some m ->
  (MAppendEntries from to rpc args ∈ net s /\ src g !! rpc = Some m) \/
  (m = log (node rt) /\ aeTerm args = currentTerm (node rt) /\ state (node rt) = Leader).
Proof.
  intros Hm Htm Hin Hsrc. cbn [net put] in Hin. apply elem_of_app in Hin as [Hin|Hin].
  - left. split; [done|]. destruct (mi_sent _ _ _ Hm _ _ _ _ Hin) as (Hlt & _).
    simpl in Hsrc. by rewrite lookup_insert_ne in Hsrc by lia.
  - right. pose proof (tm_sent _ _ _ _ _ _ Htm) as Hs. rewrite Forall_forall in Hs.
    destruct (Hs _ Hin) as (_ & _ & -> & ? & ? & _). simpl in Hsrc. rewrite lookup_insert_eq in Hsrc. by injection Hsrc as <-.
Qed.

Section TameStep.
Context (g : Ghost) (s : Cluster) (n : string) (rt rt' : Runtime) (ms : list Message).
Hypotheses (Hnw : no_wrap s) (Hel : election_inv ids s) (Hm : matching_inv ids g s) (Hinv : complete_inv g s).
Hypotheses (Hn : nodes s !! n = Some rt) (Heff : effect n rt rt' (net s) ms) (Htm : tame g s n rt rt' ms).

Lemma tame_unique f1 t1 f2 t2 rpc a1 a2 : MAppendEntries f1 t1 rpc a1 ∈ net (put n rt' ms s) ->
  MAppendEntries f2 t2 rpc a2 ∈ net (put n rt' ms s) -> f1 = f2 /\ t1 = t2 /\ a1 = a2.
Proof.
  pose proof (tm_sent _ _ _ _ _ _ Htm) as Hsent. rewrite Forall_forall in Hsent.
  assert (forall f1 t1 f2 t2 rpc a1 a2, MAppendEntries f1 t1 rpc a1 ∈ net s -> MAppendEntries f2 t2 rpc a2 ∈ ms -> False) as Hfresh.
  { intros ? ? ? ? ? ? ? H1 H2. destruct (mi_sent _ _ _ Hm _ _ _ _ H1) as (Hlt & _).
    destruct (Hsent _ H2) as (_ & _ & -> & _). lia. }
  intros [H1|H1]%elem_of_app [H2|H2]%elem_of_app.
  - by eapply ci_unique.
  - exfalso. by eapply Hfresh.
  - exfalso. by eapply Hfresh.
  - by injection (tm_request _ _ _ _ _ _ Htm _ _ H1 H2 eq_refl eq_refl) as -> -> ->.
Qed.

Lemma tame_reply v from rpc reply : MAppendEntriesReply v from rpc reply ∈ net (put n rt' ms s) -> aerSuccess reply = true ->
  exists args m rv, MAppendEntries from v rpc args ∈ net (put n rt' ms s) /\ src (sends s rt g) !! rpc = Some m /\
    aePrevLogIndex args + Z.of_nat (length (aeEntries args)) < Z.of_nat (length m) /\
    nodes (put n rt' ms s) !! v = Some rv /\ aeTerm args <= currentTerm (node rv).
Proof.
  destruct (effect_vote_le _ _ _ _ _ Heff (Hnw _ _ Hn)) as (_ & _ & Hmono & _).
  intros Hin Hs. cbn [net put] in *. apply elem_of_app in Hin as [Hin|Hin].
  - destruct (ci_reply _ _ Hinv _ _ _ _ Hin Hs) as (args & m & rv & Ha & Hsr & Hlen & Hrv & Hle).
    exists args, m. destruct (mi_sent _ _ _ Hm _ _ _ _ Ha) as (Hlt & _). simpl.
    rewrite lookup_insert_ne by lia. destruct (decide (v = n)) as [->|Hne].
    + rewrite Hn in Hrv. injection Hrv as <-. exists rt'. rewrite lookup_insert_eq, elem_of_app. split_and!; auto. lia.
    + exists rv. rewrite lookup_insert_ne, elem_of_app by done. split_and!; auto.
  - destruct (tm_reply _ _ _ _ _ _ Htm _ _ _ _ Hin Hs) as (-> & args & m & Ha & Hsr & Hlen & Hle).
    exists args, m, rt'. destruct (mi_sent _ _ _ Hm _ _ _ _ Ha) as (Hlt & _). simpl.
    rewrite lookup_insert_ne, lookup_insert_eq, elem_of_app by lia. split_and!; auto.
Qed.

Lemma tame_answer w c args reply : MRequestVoteReply w c args reply ∈ net (put n rt' ms s) ->
  rvrVoteGranted reply = true -> MRequestVote c w args ∈ net (put n rt' ms s).
Proof.
  intros Hin Hg. cbn [net put] in *. rewrite elem_of_app.
  apply elem_of_app in Hin as [Hin|Hin]; left; [by eapply ci_answer|].
  destruct Heff as [_ Hnone _|_ _ _ ->|from a r Hr _ _ ->|? ? ? ? ? ? _ -> _ _ _ _|? _ _ _ ->].
  - rewrite Forall_forall in Hnone. apply Hnone in Hin. simpl in Hin. by rewrite Hg in Hin.
  - by apply list_elem_of_fmap in Hin as (p & ? & _).
  - by apply list_elem_of_singleton in Hin as [= -> -> -> ->].
  - by apply not_elem_of_nil in Hin.
  - by apply not_elem_of_nil in Hin.
Qed.

Lemma tame_vote t i l m w c args : hist g !! (t, i) = Some l -> choosable g s t i ->
  stored (sends s rt g) (put n rt' ms s) w t i -> m ∈ net (put n rt' ms s) -> ballot m = Some (w, c, args) -> t < rvTerm args ->
  up_to_date (rvLastLogIndex args) (rvLastLogTerm args) i t.
Proof.
  intros Hl Hc Hst Hin Hb Ht. cbn [net put] in Hin.
  destruct (tm_back _ _ _ _ _ _ Htm _ _ _ _ Hl Hst) as [Hst'|(-> & Hle & Hnb)]; apply elem_of_app in Hin as [Hin|Hin].
  - by eapply ci_vote.
  - destruct (new_ballot _ _ _ _ _ _ _ _ _ _ Hel Hm Hinv Hn Heff Hin Hb) as [-> Hup]. by eapply Hup.
  - exfalso. assert (voted s n (rvTerm args) c) as Hv by (exists m; split; [done|apply casts_ballot; eauto]).
    destruct (inv_voted _ _ Hel _ _ _ Hv) as (_ & _ & rv & Hrv & Hle' & _). rewrite Hn in Hrv. injection Hrv as <-. lia.
  - rewrite Forall_forall in Hnb. by rewrite (Hnb _ Hin) in Hb.
Qed.

Lemma tame_complete : complete_inv (sends s rt g) (put n rt' ms s).
Proof.
  pose proof (fun t i l => tame_choosable g s n rt rt' ms t i l Hnw Hn Heff Htm) as Hch.
  pose proof (fun f t r a m => tame_src g s n rt rt' ms f t r a m Hm Htm) as Hsrc.
  split; [exact tame_unique|exact tame_reply| |exact tame_answer|..].
  - intros from to args [Hin|Hin]%elem_of_app; [by eapply ci_request|]. by eapply new_request.
  - intros m rm e [[-> ->]|[_ Hrm]]%nodes_put; [apply (tm_terms _ _ _ _ _ _ Htm)|by eapply ci_terms].
  - intros from to rpc args m e Hin Hs He. destruct (Hsrc _ _ _ _ _ Hin Hs) as [[? ?]|(-> & -> & _)].
    + by eapply ci_src_terms.
    + by eapply ci_terms.
  - apply (ci_hist_terms _ _ Hinv).
  - intros c rc to args Hrc He Hs Hin Ht. eapply cand_step; eauto; apply Htm.
  - intros t i l v rv Hl Hc Hst Hv. apply (Hch _ _ _ Hl) in Hc.
    apply nodes_put in Hv as [[-> ->]|[Hne Hv]]; [by eapply tm_stored|].
    destruct (tm_back _ _ _ _ _ _ Htm _ _ _ _ Hl Hst) as [Hst'|(-> & _)]; [by eapply ci_stored|done].
  - intros t i l m rm Hl Hc Hrm Hs Ht. apply (Hch _ _ _ Hl) in Hc.
    apply nodes_put in Hrm as [[-> ->]|[_ Hrm]]; [|by eapply ci_leader].
    rewrite (tm_leader _ _ _ _ _ _ Htm Hs). by eapply leader_complete.
  - intros t i l from to rpc args m Hl Hc Hin Hs Ht. apply (Hch _ _ _ Hl) in Hc.
    destruct (Hsrc _ _ _ _ _ Hin Hs) as [[? ?]|(-> & E & ?)]; [by eapply ci_src|].
    rewrite E in Ht. by eapply ci_leader.
  - intros t i l t' j l' Hl Hc Hl' Ht. apply (Hch _ _ _ Hl) in Hc. by eapply (ci_later _ _ Hinv).
  - intros t i l m w c args Hl Hc. apply (Hch _ _ _ Hl) in Hc. by eapply tame_vote.
Qed.
End TameStep.

Lemma elem_of_list_take {A} (x : A) j l : x ∈ take j l -> x ∈ l.
Proof. intros [i [Hx _]%lookup_take_Some]%list_elem_of_lookup. by eapply list_elem_of_lookup_2. Qed.

Lemma keep_tame g s n rt rt' ms :
  no_wrap s -> election_inv ids (put n rt' ms s) -> matching_inv ids g s -> complete_inv g s -> nodes s !! n = Some rt ->
  effect n rt rt' (net s) ms -> log (node rt') = log (node rt) ->
  Forall (sentBy n (node rt) (length (net s))) ms -> plain ms -> candidate_kept rt rt' -> tame g s n rt rt' ms.
Proof.
  intros Hnw Hel' Hm Hinv Hn Heff Hl Hms [Hans Hreq] Hkept.
  destruct (effect_vote_le _ _ _ _ _ Heff (Hnw _ _ Hn)) as (_ & _ & Hmono & _).
  assert (forall v t i l, hist g !! (t, i) = Some l -> stored (sends s rt g) (put n rt' ms s) v t i -> stored g s v t i) as Hback.
  { intros v t i l Hh [Ha|[Hw Hi]]; [left; by eapply acked_back|right; split; [by eapply won_back|done]]. }
  split; try done.
  - intros m1 m2 H1 H2 R1 R2. destruct Hreq as [Hno|[m ->]].
    + rewrite Forall_forall in Hno. apply Hno in H1. congruence.
    + apply list_elem_of_singleton in H1 as ->, H2 as ->. done.
  - intros v from rpc reply Hin. rewrite Forall_forall in Hans. by apply Hans in Hin.
  - rewrite Hl. intros e He. pose proof (ci_terms _ _ Hinv _ _ _ Hn He). lia.
  - intros v t i l Hh Hst. left. by eapply Hback.
  - intros t i l Hh Hch Hst. rewrite Hl. eapply ci_stored; eauto.
Qed.

(** A request accepted by a node lies within the log it was made from, and the
    node's log then agrees with that log up to the end of the request. *)
Lemma success_source k g s n rt rt' from rpc args reply b m :
  k < 2 ^ 64 - 1 -> logs_ok k s -> matching_inv ids g s -> complete_inv g s -> nodes s !! n = Some rt ->
  MAppendEntries from n rpc args ∈ net s -> historic (hist g) m -> request_of m args ->
  HandleAppendEntries args (node rt) = (node rt', reply, b) -> aerSuccess reply = true ->
  let e := aePrevLogIndex args + Z.of_nat (length (aeEntries args)) in
  0 <= e < Z.of_nat (length m) /\ take (Z.to_nat (e + 1)) m `prefix_of` log (node rt').
Proof.
  intros Hk [Hlog Hmsg] Hm Hinv Hn Hin Hhm Hreq Hh Hs.
  pose proof (proj1 (Forall_forall _ _) Hmsg _ Hin) as Hwm. pose proof (Hlog _ _ Hn) as Hwn. simpl in Hwn.
  pose proof (HandleAppendEntries_merge k _ _ _ _ _ _ _ _ Hk Hwn Hwm Hh) as E. rewrite Hs in E.
  destruct E as (_ & _ & Hprev & H0 & Hpos & _ & E). pose proof (mi_log _ _ _ Hm _ _ Hn) as Hhl.
  assert (startPos args <= length m)%nat as Hle.
  { apply not_gt. intros Hgt. pose proof (log_wf_length _ (proj1 Hhm)). unfold startPos in *.
    destruct Hreq as [[_ Hz]|(fr & len & Hfr & Hpi & Hpt & _)]; [rewrite Hz in *; lia|].
    rewrite <- Hpi in Hpt.
    destruct (lookup_lt_is_Some_2 (log (node rt)) (Z.to_nat (aePrevLogIndex args))) as [x Hx]; [lia|].
    assert (eTerm x = 0) as Hx0.
    { unfold prevLogOK in Hprev. case_if; breflect; [|lia].
      rewrite log_wf_entryAt, Hx in Hprev by (apply Hwn || lia). breflect. rewrite Hprev, Hpt. unfold prevTermAt.
      rewrite (log_wf_entryAt m) by (apply Hhm || lia). rewrite lookup_ge_None_2 by lia. by case_if. }
    pose proof (proj2 Hhl (Z.to_nat (aePrevLogIndex args)) _ ltac:(lia) Hx) as Hhx. rewrite Hx0 in Hhx.
    destruct (mi_hist _ _ _ Hm _ _ _ Hhx) as (_ & _ & _ & _ & c & Hc). apply (won_positive _ _ _ _ Hinv) in Hc. lia. }
  destruct (accepted_slice ids k g s n rt args m) as (len & He & Hpre); try done.
  cbv zeta. rewrite E, He. set (p := startPos args) in *.
  assert (aePrevLogIndex args = Z.of_nat p - 1) as Hp by (unfold p, startPos; lia).
  assert (length (take len (drop p m)) = Nat.min len (length m - p)) as Hlen by (rewrite length_take, length_drop; done).
  rewrite Hlen, Hp. split; [lia|].
  assert (take (Z.to_nat (Z.of_nat p - 1 + Z.of_nat (Nat.min len (length m - p)) + 1)) m = take (p + len) m) as ->.
  { replace (Z.to_nat _) with (p + Nat.min len (length m - p))%nat by lia.
    rewrite <- !take_take_drop, <- Hlen. f_equal. apply take_length_take. }
  destruct (merge_slice (hist g) (log (node rt)) m p len) as [[-> ?]|[-> ?]]; done.
Qed.

(** The log of a node that stores an entry keeps it through a request. *)
Lemma request_keeps_entry k g s n rt rt' from rpc args reply b t i l :
  k < 2 ^ 64 - 1 -> logs_ok k s -> matching_inv ids g s -> complete_inv g s -> nodes s !! n = Some rt ->
  MAppendEntries from n rpc args ∈ net s -> HandleAppendEntries args (node rt) = (node rt', reply, b) ->
  hist g !! (t, i) = Some l -> choosable g s t i -> stored g s n t i -> l `prefix_of` log (node rt').
Proof.
  intros Hk Hlogs Hm Hinv Hn Hin Hh Hl Hch Hst.
  destruct (mi_sent _ _ _ Hm _ _ _ _ Hin) as (_ & _ & _ & m & Hsrc & Hhm & Hreq).
  pose proof (ci_stored _ _ Hinv _ _ _ _ _ Hl Hch Hst Hn) as Hpre.
  destruct (append_source ids k g s n rt rt' from rpc args reply b m) as [->|(Hs & j & Hj & -> & Hnot)]; try done.
  assert (l `prefix_of` m \/ m `prefix_of` l) as [Hlm|Hml].
  { destruct (stored_term _ _ _ _ _ Hinv Hst) as (rv & Hrv & Hle). rewrite Hn in Hrv. injection Hrv as <-.
    destruct Hlogs as [Hlog Hmsg]. pose proof (proj1 (Forall_forall _ _) Hmsg _ Hin) as Hwm.
    pose proof (HandleAppendEntries_merge k _ _ _ _ _ _ _ _ Hk (Hlog _ _ Hn) Hwm Hh) as E. rewrite Hs in E.
    destruct E as (Ht & _). destruct (decide (t = aeTerm args)) as [->|Hne].
    - by eapply (mi_src _ _ _ Hm).
    - left. eapply ci_src; eauto. lia. }
  - destruct (decide (length l <= j)%nat) as [Hlj|Hlj].
    + destruct Hlm as [r ->]. rewrite take_app_ge by done. by apply prefix_app_r.
    + exfalso. apply Hnot. etrans; [|exact Hpre]. destruct Hlm as [r ->]. rewrite take_app_le by lia. apply prefix_take.
  - exfalso. apply Hnot. etrans; [apply prefix_take|]. by etrans.
Qed.

Lemma append_tame k g s n rt rt' from rpc args reply b :
  k < 2 ^ 64 - 1 -> logs_ok k s -> no_wrap s -> election_inv ids s ->
  let ms := [MAppendEntriesReply n from rpc reply] in
  election_inv ids (put n rt' ms s) -> matching_inv ids g s -> complete_inv g s -> nodes s !! n = Some rt ->
  effect n rt rt' (net s) ms -> MAppendEntries from n rpc args ∈ net s ->
  HandleAppendEntries args (node rt) = (node rt', reply, b) -> pc rt' = pc rt -> candidate_kept rt rt' ->
  tame g s n rt rt' ms.
Proof.
  intros Hk Hlogs Hnw Hel ms Hel' Hm Hinv Hn Heff Hin Hh Hpc Hkept.
  destruct (effect_vote_le _ _ _ _ _ Heff (Hnw _ _ Hn)) as (_ & _ & Hmono & _).
  destruct (mi_sent _ _ _ Hm _ _ _ _ Hin) as (_ & _ & _ & m & Hsrc & Hhm & Hreq).
  assert (aerSuccess reply = true -> currentTerm (node rt) <= aeTerm args /\ currentTerm (node rt') = aeTerm args) as Hacc.
  { intros Hs. destruct Hlogs as [Hlog Hmsg]. pose proof (proj1 (Forall_forall _ _) Hmsg _ Hin) as Hwm.
    pose proof (HandleAppendEntries_merge k _ _ _ _ _ _ _ _ Hk (Hlog _ _ Hn) Hwm Hh) as E. rewrite Hs in E. by destruct E as (? & ? & _). }
  pose proof (success_source k g s n rt rt' from rpc args reply b m Hk Hlogs Hm Hinv Hn Hin Hhm Hreq Hh) as Hsucc.
  assert (forall v t i l, hist g !! (t, i) = Some l -> stored (sends s rt g) (put n rt' ms s) v t i ->
    stored g s v t i \/ (v = n /\ aerSuccess reply = true /\ aeTerm args = t /\ covers args i)) as Hback.
  { intros v t i l Hl [(f & r & a & re & Ha & Hr & Hs & Ht & Hc)|[Hw Hi]].
    2: { left. right. split; [by eapply won_back|done]. }
    cbn [net put] in *. apply elem_of_app in Ha as [Ha|Ha]; [|by apply list_elem_of_singleton in Ha].
    apply elem_of_app in Hr as [Hr|Hr]; [left; left; by exists f, r, a, re|].
    apply list_elem_of_singleton in Hr as [= -> -> -> ->]. right.
    by destruct (ci_unique _ _ Hinv _ _ _ _ _ _ _ Ha Hin) as (_ & _ & ->). }
  split.
  - by repeat constructor.
  - by intros m1 m2 ->%list_elem_of_singleton ->%list_elem_of_singleton.
  - intros v f r re [= -> -> -> ->]%list_elem_of_singleton Hs. split; [done|]. exists args, m.
    destruct (Hsucc Hs) as [[_ ?] _]. destruct (Hacc Hs) as [_ ->]. by split_and!.
  - done.
  - intros Hne. by destruct Hne.
  - intros Hs. by eapply (leader_keeps_log ids ids_nodup g s n rt rt' from rpc args reply b).
  - intros e He. destruct (append_source ids k g s n rt rt' from rpc args reply b m) as [E|(Hs & j & _ & E & _)]; try done;
      rewrite E in He.
    + pose proof (ci_terms _ _ Hinv _ _ _ Hn He). lia.
    + destruct (Hacc Hs) as [_ ->]. eapply ci_src_terms; eauto. by eapply elem_of_list_take.
  - intros v t i l Hl Hst. destruct (Hback _ _ _ _ Hl Hst) as [?|(-> & Hs & <- & _)]; [by left|right].
    destruct (Hacc Hs) as [? _]. split_and!; [done|done|by repeat constructor].
  - intros t i l Hl Hch Hst. destruct (Hback _ _ _ _ Hl Hst) as [Hst'|(_ & Hs & <- & Hc)]; [by eapply request_keeps_entry|].
    destruct (Hsucc Hs) as [Hb Hpre]. etrans; [|exact Hpre]. unfold covers in Hc.
    destruct (mi_hist _ _ _ Hm _ _ _ Hl) as ([Hwf _] & Hi & _). rewrite log_wf_lastIndex in Hi by done.
    destruct (mi_src _ _ _ Hm _ _ _ _ _ Hin Hsrc) as [Hcmp _]. destruct (Hcmp _ _ Hl) as [[r ->]|[r ->]].
    + rewrite take_app_ge by lia. by apply prefix_app_r.
    + rewrite length_app in Hi. destruct r as [|x r]; [|simpl in Hi; lia]. rewrite app_nil_r in *. rewrite take_ge by lia. done.
Qed.

(** ** A client's entry *)

(** Nobody but the leader has acknowledged an entry that does not exist yet. *)
Lemma fresh_not_acked g s n rt v i :
  matching_inv ids g s -> complete_inv g s -> nodes s !! n = Some rt -> state (node rt) = Leader ->
  lastIndex (log (node rt)) < i -> ~ acked s v (currentTerm (node rt)) i.
Proof.
  intros Hm Hinv Hn Hs Hi (from & rpc & args & reply & Hin & Hr & Hsu & Ht & Hc).
  destruct (ci_reply _ _ Hinv _ _ _ _ Hr Hsu) as (args' & m & rv & Hin' & Hsrc & Hlen & _).
  destruct (ci_unique _ _ Hinv _ _ _ _ _ _ _ Hin Hin') as (_ & _ & <-).
  destruct (mi_src _ _ _ Hm _ _ _ _ _ Hin Hsrc) as [_ Hlead].
  pose proof (prefix_length _ _ (Hlead _ _ Hn Hs (eq_sym Ht))) as Hle.
  destruct (mi_log _ _ _ Hm _ _ Hn) as [Hwf _]. rewrite log_wf_lastIndex in Hi by done. unfold covers in Hc. lia.
Qed.

(** While only the leader of [t], still in term [t], stores an entry, no later
    term has a majority if the entry is choosable. *)
Lemma fresh_no_later g s n rt t i c t' :
  election_inv ids s -> nodes s !! n = Some rt -> currentTerm (node rt) = t ->
  (forall v, stored g s v t i -> v = n) -> choosable g s t i -> c ∈ ids -> has_majority ids s c t' -> t < t' -> False.
Proof.
  intros Hel Hn Ht Honly Hch Hc Hmaj Hlt.
  destruct (choosable_voter g s c t t' i Hel Hc Hch Hmaj Hlt) as (w & ->%Honly & Hv).
  destruct (inv_voted _ _ Hel _ _ _ Hv) as (_ & _ & rv & Hrv & Hle & _). simplify_eq. lia.
Qed.

Section ClientStep.
Context (g : Ghost) (s : Cluster) (n : string) (rt rt' : Runtime) (e : LogEntry).
Hypotheses (Hnw : no_wrap s) (Hel' : election_inv ids (put n rt' [] s)) (Hel : election_inv ids s).
Hypotheses (Hm : matching_inv ids g s) (Hinv : complete_inv g s).
Hypotheses (Hn : nodes s !! n = Some rt) (Heff : effect n rt rt' (net s) []) (Hs : state (node rt) = Leader).
Hypotheses (Hc : core (node rt') = core (node rt)) (Hpc : pc rt' = pc rt) (Ht : eTerm e = currentTerm (node rt)).
Hypotheses (Hi : eIndex e = lastIndex (log (node rt)) + 1) (Hl : log (node rt') = log (node rt) ++ [e]).
Abbreviation s' := (put n rt' [] s).
Abbreviation g' := (appends rt e g).

Lemma client_net : net s' = net s.
Proof. apply app_nil_r. Qed.

Lemma client_hist t i x : hist g' !! (t, i) = Some x ->
  (t = eTerm e /\ i = eIndex e /\ x = log (node rt) ++ [e]) \/ ((t, i) <> (eTerm e, eIndex e) /\ hist g !! (t, i) = Some x).
Proof. simpl. rewrite lookup_insert_Some. intros [[[= <- <-] <-]|[? ?]]; auto. Qed.

(** Acknowledgements of old entries are old, of the new one the leader's own. *)
Lemma client_acked v t i : acked s' v t i -> acked s v t i.
Proof. unfold acked. by rewrite client_net. Qed.

Lemma client_back v t i l : hist g !! (t, i) = Some l -> stored g' s' v t i -> stored g s v t i.
Proof.
  intros Hh [?|[Hw _]]; [left; by apply client_acked|right; split; [|by eexists]].
  by eapply (won_back g s n rt rt' []).
Qed.

Lemma client_only v : stored g' s' v (eTerm e) (eIndex e) -> v = n.
Proof.
  intros [Ha%client_acked|[Hw _]].
  - exfalso. rewrite Ht in Ha. eapply (fresh_not_acked g s n rt v (eIndex e)); eauto. lia.
  - eapply (won_unique ids); [done|exact Hel'|exact Hw|]. eapply won_step; eauto. rewrite Ht. by eapply leader_won.
Qed.

Lemma client_choosable t i l : hist g !! (t, i) = Some l -> choosable g' s' t i -> choosable g s t i.
Proof. intros Hh. eapply choosable_back; [done..|]. intros v Hv. left. by eapply client_back. Qed.

Lemma client_no_later c t' : choosable g' s' (eTerm e) (eIndex e) -> won ids s' c t' -> eTerm e < t' -> False.
Proof.
  intros Hcs (? & ? & _) Hlt. pose proof (core_term _ _ Hc) as Hterm.
  apply (fresh_no_later g' s' n rt' (eTerm e) (eIndex e) c t'); try done; [apply lookup_insert_eq|congruence|exact client_only].
Qed.

Lemma client_reply v from rpc reply : MAppendEntriesReply v from rpc reply ∈ net s -> aerSuccess reply = true ->
  exists args m rv, MAppendEntries from v rpc args ∈ net s /\ src g' !! rpc = Some m /\
    aePrevLogIndex args + Z.of_nat (length (aeEntries args)) < Z.of_nat (length m) /\
    nodes s' !! v = Some rv /\ aeTerm args <= currentTerm (node rv).
Proof.
  intros Hin Hsu. destruct (ci_reply _ _ Hinv _ _ _ _ Hin Hsu) as (args & m & rv & ? & ? & ? & Hrv & Hle).
  pose proof (core_term _ _ Hc) as Hterm. exists args, m. destruct (decide (v = n)) as [->|Hne].
  - rewrite Hn in Hrv. injection Hrv as <-. exists rt'. split_and!; try done; [apply lookup_insert_eq|lia].
  - exists rv. split_and!; try done. simpl. by rewrite lookup_insert_ne.
Qed.

(** The entries of the new log that stand where the invariant looks. *)
Lemma client_places t i l : hist g !! (t, i) = Some l -> choosable g' s' t i ->
  (forall v rv, stored g' s' v t i -> nodes s' !! v = Some rv -> l `prefix_of` log (node rv)) /\
  (forall m rm, nodes s' !! m = Some rm -> state (node rm) = Leader -> t < currentTerm (node rm) -> l `prefix_of` log (node rm)).
Proof.
  intros Hh Hcs%(client_choosable _ _ _ Hh). split.
  - intros v rv Hst%(client_back _ _ _ _ Hh) Hrv.
    apply nodes_put in Hrv as [[-> ->]|[_ Hrv]]; [rewrite Hl; apply prefix_app_r|]; by eapply ci_stored.
  - intros m rm Hrm Hst Hlt. apply nodes_put in Hrm as [[-> ->]|[_ Hrm]]; [|by eapply ci_leader].
    rewrite Hl. apply prefix_app_r. rewrite (core_term _ _ Hc) in Hlt. by eapply ci_leader.
Qed.

Lemma client_complete : complete_inv g' s'.
Proof.
  split; rewrite ?client_net.
  - apply (ci_unique _ _ Hinv).
  - exact client_reply.
  - apply (ci_request _ _ Hinv).
  - apply (ci_answer _ _ Hinv).
  - intros m rm x [[-> ->]|[_ Hrm]]%nodes_put Hx; [|by eapply ci_terms]. rewrite (core_term _ _ Hc). rewrite Hl in Hx.
    apply elem_of_app in Hx as [Hx| ->%list_elem_of_singleton]; [by eapply ci_terms|lia].
  - apply (ci_src_terms _ _ Hinv).
  - intros t i l x [(-> & -> & ->)|[_ Hh]]%client_hist Hx; [|by eapply (ci_hist_terms _ _ Hinv)].
    apply elem_of_app in Hx as [Hx| ->%list_elem_of_singleton]; [|lia]. rewrite Ht. by eapply ci_terms.
  - intros c rc to args Hrc He Hst Hin Hrv. apply nodes_put in Hrc as [[-> ->]|[_ Hrc]]; [|by eapply ci_cand].
    rewrite (core_state _ _ Hc) in Hst. congruence.
  - intros t i l v rv [(-> & -> & ->)|[_ Hh]]%client_hist Hcs Hst Hrv; [|by eapply (proj1 (client_places _ _ _ Hh Hcs))].
    apply client_only in Hst as ->. apply nodes_put in Hrv as [[_ ->]|[? _]]; [by rewrite Hl|done].
  - intros t i l m rm [(-> & -> & ->)|[_ Hh]]%client_hist Hcs Hrm Hst Hlt; [|by eapply (proj2 (client_places _ _ _ Hh Hcs))].
    exfalso. eapply client_no_later; [done|by eapply leader_won|done].
  - intros t i l from to rpc args m [(-> & -> & ->)|[_ Hh]]%client_hist Hcs Hin Hsrc Hlt.
    + exfalso. destruct (mi_sent _ _ _ Hm _ _ _ _ Hin) as (_ & _ & Hw & _).
      eapply client_no_later; [done|by eapply won_step|done].
    + by eapply ci_src; [|exact Hh|by eapply client_choosable|..].
  - intros t i l t' j l' [(-> & -> & ->)|[_ Hh]]%client_hist Hcs H' Hlt.
    + exfalso. apply client_hist in H' as [(-> & _)|[_ H']]; [lia|].
      destruct (mi_hist _ _ _ Hm _ _ _ H') as (_ & _ & _ & _ & c & Hw). eapply client_no_later; [done|by eapply won_step|done].
    + apply (client_choosable _ _ _ Hh) in Hcs. apply client_hist in H' as [(-> & -> & ->)|[_ H']]; [|by eapply (ci_later _ _ Hinv)].
      apply prefix_app_r. rewrite Ht in Hlt. by eapply ci_leader.
  - intros t i l m w c args [(-> & -> & ->)|[_ Hh]]%client_hist Hcs Hst Hin Hb Hlt.
    + exfalso. apply client_only in Hst as ->.
      assert (voted s n (rvTerm args) c) as Hv by (exists m; split; [done|apply casts_ballot; eauto]).
      destruct (inv_voted _ _ Hel _ _ _ Hv) as (_ & _ & rv & Hrv & Hle & _). rewrite Hn in Hrv. injection Hrv as <-. lia.
    + eapply ci_vote; eauto using client_choosable, client_back.
Qed.
End ClientStep.

(** ** Runs *)

Lemma complete_inv_init ch : complete_inv (mkGhost ∅ ∅) (NewCluster ids ch).
Proof.
  assert (forall n rt, nodes (NewCluster ids ch) !! n = Some rt -> exists ps, rt = newRuntime n ps ch) as Hnodes.
  { intros n rt Hn. simpl in Hn. apply elem_of_list_to_map_2, list_elem_of_fmap in Hn as (i & [= -> ->] & _). eauto. }
  split; try (intros; simplify_map_eq; done); try (intros; match goal with H : _ ∈ net _ |- _ => by apply not_elem_of_nil in H end).
  intros n rt e (ps & ->)%Hnodes He. simpl in He. apply list_elem_of_singleton in He as ->. done.
Qed.

(** Everything known of a cluster after [k] guarded steps. *)
Record full_inv (k : nat) (g : Ghost) (s : Cluster) : Prop := {
  fi_election : election_inv ids s;
  fi_terms : terms_le (Z.of_nat k) s;
  fi_logs : logs_ok (Z.of_nat k) s;
  fi_threads : threads_ok s;
  fi_matching : matching_inv ids g s;
  fi_complete : complete_inv g s }.

Lemma full_inv_init ch : full_inv 0 (mkGhost ∅ ∅) (NewCluster ids ch).
Proof.
  split; [by apply election_inv_init|apply terms_le_init|apply logs_ok_init|apply threads_ok_init
    |apply matching_inv_init|apply complete_inv_init].
Qed.

Lemma full_inv_step k g s s' :
  Z.of_nat (S k) < 2 ^ 64 - 1 -> full_inv k g s -> gstep s s' -> exists g', hist g ⊆ hist g' /\ full_inv (S k) g' s'.
Proof.
  intros Hk [Hel Ht Hl Hth Hm Hc] Hg. pose proof (gstep_cstep _ _ Hg) as Hcs.
  assert (Z.of_nat k < 2 ^ 64 - 1) as Hk' by lia. pose proof (terms_le_no_wrap _ _ Ht Hk') as Hnw.
  assert (election_inv ids s') as Hel' by (by eapply election_inv_step).
  assert (forall g', matching_inv ids g' s' -> complete_inv g' s' -> full_inv (S k) g' s') as Hfull.
  { intros g' Hm' Hc'. split; try done; try replace (Z.of_nat (S k)) with (Z.of_nat k + 1) by lia.
    - eapply terms_le_step; [lia|done|done].
    - eapply logs_ok_step; [lia|done|done].
    - by eapply threads_ok_step. }
  destruct (matching_inv_step ids ids_nodup (Z.of_nat k) g s s' Hk' Hl Ht Hth Hel Hm Hg)
    as (n & rt & rt' & ms & Hn & -> & Heff & Hkept & g' & Hle & Hm').
  exists g'. destruct Hle as [Hkeep Hms Hplain|cmd Hs Hco Hpc Hlog|from rpc args reply b Hin Hh Hpc].
  - split; [done|]. apply Hfull; [done|]. apply tame_complete; try done. by apply keep_tame.
  - split.
    + apply insert_subseteq. simpl. destruct (hist g !! _) eqn:E; [|done].
      eapply (client_fresh ids g s n rt) in E; try done. lia.
    + apply Hfull; [done|]. by apply client_complete.
  - split; [done|]. apply Hfull; [done|]. apply tame_complete; try done. by eapply append_tame.
Qed.

Lemma full_inv_run k0 k g s s' :
  nsteps gstep k s s' -> Z.of_nat (k0 + k) < 2 ^ 64 - 1 -> full_inv k0 g s -> exists g', full_inv (k0 + k) g' s'.
Proof.
  intros Hrun. revert k0 g. induction Hrun as [|k s1 s2 s3 Hstep Hrun IH]; intros k0 g Hk Hinv.
  { rewrite Nat.add_0_r. eauto. }
  destruct (full_inv_step k0 g s1 s2) as (g' & _ & Hinv'); [lia|done|done|].
  replace (k0 + S k)%nat with (S k0 + k)%nat by lia. eapply IH; [lia|done].
Qed.
End CompletenessInvariant.
