(* ===== verification/RaftAcknowledged.v ===== *)
(** * What an acknowledgement promises

    [Replicate] starts one goroutine per peer and returns without an error once
    a majority of them reported a success.  This file follows the goroutines of
    one call: those of the peers are started right after the call's own, so that
    their position tells the peer; a success they report is an acknowledgement
    of the entry by that peer; and the count of the call is a count of different
    peers.  With the completeness of later leaders ([RaftCompleteness]) this
    gives the promise a client relies on. *)

From S2P Require Import Prelude RaftLog RaftNode RaftCluster RaftElection RaftReplication RaftCatchup RaftLogInvariant RaftTraces RaftLogMatching RaftCompleteness.

(** ** The shape of a node's goroutines *)

(** The call a goroutine works for. *)
Definition callOf (t : Thread) : option nat :=
  match t with
  | TReplicate c _ _ | TReplicateWait c _ _ _ | TAck c _ | TClient c _ _ _ | TCommit c _
  | TApplyStart (KClient c) | TApply (KClient c) _ => Some c
  | _ => None
  end.

Definition shape (n : Node) (k : nat) (t : Thread) : Prop :=
  match t with
  | TReplicate c p _ | TReplicateWait c p _ _ => (c < k)%nat /\ peers n !! (k - c - 1)%nat = Some p
  | TAck c _ => (c < k <= c + length (peers n))%nat
  | TClient c _ _ _ | TCommit c _ | TApplyStart (KClient c) | TApply (KClient c) _ => c = k
  | _ => True
  end.

Definition shape_ok (rt : Runtime) : Prop :=
  (forall k t, threads rt !! k = Some t -> shape (node rt) k t) /\
  (forall c r, (c, r) ∈ results rt -> (c < length (threads rt))%nat).

(** What one step does to the goroutines of a node: nothing, new ones at the
    end, or one transition of one goroutine. *)
Inductive threads_effect (self : string) (rt rt' : Runtime) (sent ms : list Message) : Prop :=
| T_spawn ts rs :
    threads rt' = threads rt ++ ts -> results rt' = results rt ++ rs ->
    (forall k t, ts !! k = Some t -> shape (node rt) (length (threads rt) + k)%nat t /\
       (forall c, callOf t = Some c -> c = length (threads rt))) ->
    (forall c r, (c, r) ∈ rs -> c = length (threads rt) /\ r <> None /\ ts <> []) ->
    threads_effect self rt rt' sent ms
| T_thread k c : threadStep self rt sent k c = Some (rt', ms) -> threads_effect self rt rt' sent ms.

Lemma T_same self rt rt' sent ms :
  threads rt' = threads rt -> results rt' = results rt -> threads_effect self rt rt' sent ms.
Proof.
  intros Ht Hr. apply (T_spawn _ _ _ _ _ [] []); rewrite ?app_nil_r; try done.
  intros c r Hin. by apply not_elem_of_nil in Hin.
Qed.

Lemma localStep_threads self rt sent ev rt' ms :
  localStep self rt sent ev = Some (rt', ms) -> threads_effect self rt rt' sent ms.
Proof.
  intros H. destruct ev as [n e|n k c|n cmd|i|n]; simpl in H.
  - unfold runStep in H. destruct e, (pc rt) eqn:E; simplify_eq/=;
      try match goal with
          | H : context [removeFirst ?p ?w] |- _ => destruct (removeFirst p w); simplify_eq/=
          end;
      repeat case_match; simplify_eq/=; try (by apply T_same).
    apply (T_spawn _ _ _ _ _ (THeartbeat <$> peers (node rt)) []); simpl; [done|by rewrite app_nil_r| |].
    + intros k t (p & -> & _)%list_lookup_fmap_Some. done.
    + intros c r Hin. by apply not_elem_of_nil in Hin.
  - by eapply T_thread.
  - simplify_eq. unfold clientStep, replicateBegin. destruct (IsLeader (node rt)); simpl.
    + eapply T_spawn; simpl; [done|by rewrite app_nil_r| |].
      * intros [|k] t Ht; simpl in Ht; [injection Ht as <-; simpl; split; [lia|by intros ? [= <-]]|].
        apply list_lookup_fmap_Some in Ht as (p & -> & Hp). simpl. split; [|by intros ? [= <-]].
        split; [lia|]. by replace (length (threads rt) + S k - length (threads rt) - 1)%nat with k by lia.
      * intros c r Hin. by apply not_elem_of_nil in Hin.
    + eapply T_spawn; simpl; [done|done| |].
      * intros [|k] t Ht; simpl in Ht; [|done]. by injection Ht as <-.
      * intros c r [= -> ->]%list_elem_of_singleton. done.
  - destruct (sent !! i) as [m|]; simplify_eq/=. destruct m as [from to args| |from to rpc args|]; simplify_eq/=.
    + destruct (HandleRequestVote args (node rt)). simplify_eq. by apply T_same.
    + destruct (HandleAppendEntries args (node rt)) as [[n' reply] b]. simplify_eq. destruct b.
      * eapply (T_spawn _ _ _ _ _ [TApplyStart KGo] []); simpl; [done|by rewrite app_nil_r| |].
        -- intros [|k] t Ht; simpl in Ht; [|done]. by injection Ht as <-.
        -- intros c r Hin. by apply not_elem_of_nil in Hin.
      * apply T_same; simpl; [by rewrite app_nil_r|done].
  - simplify_eq. by apply T_same.
Qed.

Lemma aeReplyAt_elem sent i from to rpc reply :
  aeReplyAt sent i from to rpc = Some reply -> MAppendEntriesReply from to rpc reply ∈ sent.
Proof.
  unfold aeReplyAt. destruct (sent !! i) as [[| | |f t r a]|] eqn:E; try done. intros H. case_if; simplify_eq.
  match goal with H : _ && _ = true |- _ => apply andb_true_iff in H as [[? ?]%andb_true_iff ->%Nat.eqb_eq] end.
  breflect. subst. by eapply list_elem_of_lookup_2.
Qed.

(** ** The goroutines of one call *)

Section Call.
Context (ids : list string) (ids_nodup : NoDup ids) (ids_nonempty : "" ∉ ids).
Context (n : string) (c : nat) (e : LogEntry).

Definition majority_stored (g : Ghost) (s : Cluster) : Prop :=
  exists q, NoDup q /\ q ⊆ ids /\ Z.of_nat (length ids) / 2 + 1 <= Z.of_nat (length q) /\
    forall v, v ∈ q -> stored ids g s v (eTerm e) (eIndex e).

Definition peer_acked (s : Cluster) (ps : list string) (j : nat) : Prop :=
  exists p, ps !! j = Some p /\ acked s p (eTerm e) (eIndex e).

(** What holds of the goroutine [t] of call [c] at position [k]. *)
Definition tinv (g : Ghost) (s : Cluster) (ps : list string) (ths : list Thread) (k : nat) (t : Thread) : Prop :=
  match t with
  | TReplicate _ _ pe => peEntry pe = e /\ peTerm pe = eTerm e
  | TReplicateWait _ p pe rpc =>
      peEntry pe = e /\ peTerm pe = eTerm e /\
      exists args, MAppendEntries n p rpc args ∈ net s /\ aeTerm args = eTerm e /\ covers args (eIndex e)
  | TAck _ ok => ok = true -> peer_acked s ps (k - c - 1)
  | TClient _ e' acks _ =>
      e' = e /\ exists js, NoDup js /\ acks = 1 + Z.of_nat (length js) /\
        forall j, j ∈ js -> ths !! (c + 1 + j)%nat = Some TDone /\ peer_acked s ps j
  | TCommit _ e' => e' = e /\ majority_stored g s
  | TApplyStart _ | TApply _ _ => majority_stored g s
  | _ => True
  end.

Record call_inv (g : Ghost) (s : Cluster) (rt : Runtime) : Prop := {
  cl_node : nodes s !! n = Some rt;
  cl_shape : shape_ok rt;
  cl_old : (c < length (threads rt))%nat;
  cl_won : won ids s n (eTerm e);
  cl_hist : exists l, hist g !! (eTerm e, eIndex e) = Some (l ++ [e]);
  cl_threads : forall k t, threads rt !! k = Some t -> callOf t = Some c ->
    tinv g s (peers (node rt)) (threads rt) k t;
  cl_result : (c, None) ∈ results rt -> majority_stored g s }.

(** *** Acknowledgements are for ever *)

Lemma acked_put m rm ms s v t i : acked s v t i -> acked (put m rm ms s) v t i.
Proof.
  intros (f & r & a & re & ? & ? & ? & ? & ?). exists f, r, a, re. cbn [net put].
  rewrite !elem_of_app. split_and!; auto.
Qed.

Lemma stored_step g g' s m rm rm' ms v t i :
  no_wrap s -> nodes s !! m = Some rm -> effect m rm rm' (net s) ms -> hist g ⊆ hist g' ->
  stored ids g s v t i -> stored ids g' (put m rm' ms s) v t i.
Proof.
  intros Hnw Hm Heff Hsub [Ha|[Hw [l Hl]]]; [left; by apply acked_put|right].
  split; [by eapply won_step|]. exists l. by eapply lookup_weaken.
Qed.

(** A goroutine that does not move keeps its invariant. *)
Lemma tinv_step g g' s m rm rm' ms ps ths ths' k t :
  no_wrap s -> nodes s !! m = Some rm -> effect m rm rm' (net s) ms -> hist g ⊆ hist g' ->
  (forall j, ths !! j = Some TDone -> ths' !! j = Some TDone) ->
  tinv g s ps ths k t -> tinv g' (put m rm' ms s) ps ths' k t.
Proof.
  intros Hnw Hm Heff Hsub Hdone.
  assert (majority_stored g s -> majority_stored g' (put m rm' ms s)) as Hmaj.
  { intros (q & ? & ? & ? & Hq). exists q. split_and!; try done. intros v Hv. eapply stored_step; eauto. }
  assert (forall j, peer_acked s ps j -> peer_acked (put m rm' ms s) ps j) as Hack.
  { intros j (p & ? & ?). exists p. eauto using acked_put. }
  destruct t; simpl; try done.
  - intros (? & ? & args & ? & ? & ?). split_and!; try done. exists args. rewrite elem_of_app. auto.
  - auto.
  - intros (? & js & ? & ? & Hjs). split; [done|]. exists js. split_and!; try done.
    intros j Hj. destruct (Hjs j Hj). auto.
  - intros [? ?]. auto.
Qed.

(** A peer's request reaches the entry. *)
Lemma replicate_covers k0 g s rt p pe args :
  full_inv ids k0 g s -> Z.of_nat k0 < 2 ^ 64 - 1 -> call_inv g s rt -> peEntry pe = e -> peTerm pe = eTerm e ->
  replicateArgs p pe (node rt) = Some args -> aeTerm args = eTerm e /\ covers args (eIndex e).
Proof.
  intros Hf Hk Hc He Ht H. pose proof (cl_node _ _ _ Hc) as Hn. destruct (cl_hist _ _ _ Hc) as [l Hl].
  pose proof (fi_matching _ _ _ _ Hf) as Hm. destruct (fi_logs _ _ _ _ Hf) as [Hlog _].
  pose proof (nextIndexOf_u64 _ _ p (Hlog _ _ Hn)) as Hu. destruct (Hlog _ _ Hn) as (Hwf & Hfe & _).
  pose proof (lastIndex_bound _ _ Hwf Hfe) as Hb. rewrite log_wf_lastIndex in Hb by done.
  unfold replicateArgs in H. case_if; simplify_eq. unfold IsLeader in *. breflect. simpl. split; [done|].
  assert (currentTerm (node rt) = eTerm e) as Hct by congruence. rewrite <- Hct in Hl. rewrite He.
  assert (state (node rt) = Leader) as Hs by (destruct (bool_decide_reflect (state (node rt) = Leader)); done).
  pose proof (mi_top _ _ _ Hm _ _ _ _ Hn Hs Hl) as Hpre. rewrite Hct in Hl.
  destruct (mi_hist _ _ _ Hm _ _ _ Hl) as ([Hwl _] & Hi & _ & Hpos & _). rewrite log_wf_lastIndex in Hi by done.
  apply prefix_length in Hpre. unfold covers. simpl. split; [done|].
  unfold collectEntries. rewrite omap_entryAt by (done || apply Hu). rewrite length_take, length_drop.
  unfold is_u64 in Hu. destruct (decide (nextIndexOf (node rt) p = 0)) as [->|].
  - change (u64 (0 - 1)) with (2 ^ 64 - 1). lia.
  - rewrite u64_small by (unfold is_u64; lia). lia.
Qed.

(** *** The shape is kept *)

Lemma forall_insert (P : nat -> Thread -> Prop) (ths : list Thread) k t :
  (forall j x, ths !! j = Some x -> P j x) -> P k t -> forall j x, <[k := t]> ths !! j = Some x -> P j x.
Proof. intros H Hk j x [(-> & <- & _)|[_ Hx]]%list_lookup_insert_Some; auto. Qed.

Lemma threadStep_shape self rt sent k ch rt' ms :
  threadStep self rt sent k ch = Some (rt', ms) -> shape_ok rt -> shape_ok rt'.
Proof.
  intros H [Hsh Hres]. destruct (threadStep_frame _ _ _ _ _ _ _ H) as (Hc & _ & _).
  assert (peers (node rt') = peers (node rt)) as Hp by (unfold core in Hc; congruence).
  assert (forall j x, shape (node rt) j x -> shape (node rt') j x) as Hup.
  { intros j x. destruct x as [| | | | | | |[]|[]|]; simpl; by rewrite ?Hp. }
  assert ((forall j x, threads rt' !! j = Some x -> shape (node rt) j x) /\
    forall c' r, (c', r) ∈ results rt' -> (c' < length (threads rt'))%nat) as [? ?]; [|split; auto].
  clear Hup Hp Hc. unfold threadStep in H. destruct (threads rt !! k) as [t|] eqn:Et; simplify_eq/=.
  pose proof (Hsh _ _ Et) as Hk. pose proof (lookup_lt_Some _ _ _ Et) as Hlt.
  destruct t, ch; simplify_eq/=;
    try match goal with
        | H : context [aeReplyAt ?a ?b ?c ?d ?e] |- _ => destruct (aeReplyAt a b c d e); simplify_eq/=
        | H : context [applyCh (node rt)] |- _ => destruct (applyCh (node rt)); simplify_eq/=
        end;
    repeat case_match; simplify_eq/=; unfold applyDone in *; repeat case_match; simplify_eq/=;
    rewrite ?length_insert;
    (split; [repeat apply forall_insert; try done; unfold countAck; try (by case_match)
            |intros c' r Hin; rewrite ?length_insert; first
               [by eapply Hres
               |apply elem_of_app in Hin as [Hin|[= -> ->]%list_elem_of_singleton]; [by eapply Hres|lia]]]);
    destruct Hk as [? Hk%lookup_lt_Some]; simpl; lia.
Qed.

Lemma threads_effect_shape self rt rt' sent ms :
  threads_effect self rt rt' sent ms -> peers (node rt') = peers (node rt) -> shape_ok rt -> shape_ok rt'.
Proof.
  intros [ts rs Ht Hr Hts Hrs|k ch H] Hp [Hsh Hres]; [|by eapply threadStep_shape].
  assert (forall j x, shape (node rt) j x -> shape (node rt') j x) as Hup.
  { intros j x. destruct x as [| | | | | | |[]|[]|]; simpl; by rewrite ?Hp. }
  split; rewrite ?Ht, ?Hr.
  - intros k t [Hk|[Hle Hk]]%lookup_app_Some; apply Hup; [by apply Hsh|].
    apply Hts in Hk as [Hk _]. by replace (length (threads rt) + (k - length (threads rt)))%nat with k in Hk by lia.
  - intros c' r [Hin|Hin]%elem_of_app; rewrite length_app; [apply Hres in Hin; lia|].
    apply Hrs in Hin as (-> & _ & Hne). destruct ts; [done|simpl; lia].
Qed.

(** *** The acknowledgements a call has counted *)

Lemma majority_from_acks g s rt js :
  election_inv ids s -> call_inv g s rt -> NoDup js ->
  (forall j, j ∈ js -> peer_acked s (peers (node rt)) j) ->
  majority (node rt) <= 1 + Z.of_nat (length js) -> majority_stored g s.
Proof.
  intros Hel Hc Hnd Hjs Hmaj. destruct (inv_node _ _ Hel _ _ (cl_node _ _ _ Hc)) as (Hn & _ & Hp).
  rewrite Hp in Hjs. unfold majority in Hmaj. rewrite Hp in Hmaj.
  pose proof (peersOf_length _ _ ids_nodup Hn) as Hlen.
  replace (Z.of_nat (length (peersOf ids n)) + 1) with (Z.of_nat (length ids)) in Hmaj by lia.
  assert (exists q, NoDup q /\ length q = length js /\ forall v, v ∈ q -> exists j, j ∈ js /\ peersOf ids n !! j = Some v /\
    acked s v (eTerm e) (eIndex e)) as (q & Hq & Hlq & Hqs).
  { clear Hmaj. induction Hnd as [|j js Hj Hnd IH]; [exists []; split_and!; [constructor|done|by intros v ?%not_elem_of_nil]|].
    destruct IH as (q & Hq & Hlq & Hqs); [intros j' Hj'; apply Hjs; by right|].
    destruct (Hjs j ltac:(by left)) as (p & Hpj & Ha). exists (p :: q). split_and!; [|simpl; lia|].
    - apply NoDup_cons. split; [|done]. intros (j' & Hj' & Hpj' & _)%Hqs. apply Hj.
      assert (NoDup (peersOf ids n)) as Hndp by (by apply NoDup_filter).
      by rewrite (NoDup_lookup _ _ _ _ Hndp Hpj Hpj').
    - intros v [->|Hv]%elem_of_cons; [exists j; split_and!; [by left|done|done]|].
      destruct (Hqs v Hv) as (j' & ? & ? & ?). exists j'. split_and!; [by right|done|done]. }
  exists (n :: q). split_and!.
  - apply NoDup_cons. split; [|done]. intros (j & _ & Hpj & _)%Hqs.
    apply list_elem_of_lookup_2, elem_of_filter_ne in Hpj as [? _]. done.
  - intros v [->|Hv]%elem_of_cons; [done|]. destruct (Hqs v Hv) as (j & _ & Hpj & _).
    by apply list_elem_of_lookup_2, elem_of_filter_ne in Hpj as [_ ?].
  - simpl. lia.
  - intros v [->|Hv]%elem_of_cons.
    + right. split; [apply (cl_won _ _ _ Hc)|]. destruct (cl_hist _ _ _ Hc). eauto.
    + left. by destruct (Hqs v Hv) as (_ & _ & _ & ?).
Qed.

(** [ths'] is [ths] after goroutine [k] became [t] and others may have ended. *)
Definition moved (k : nat) (t : Thread) (ths ths' : list Thread) : Prop :=
  (forall j x, ths' !! j = Some x -> x = TDone \/ ths !! j = Some x \/ (j = k /\ x = t)) /\
  (forall j, ths !! j = Some TDone -> ths' !! j = Some TDone).

Lemma moved_insert k t t0 ths : ths !! k = Some t0 -> t0 <> TDone -> moved k t ths (<[k := t]> ths).
Proof.
  intros Hk Hne. split.
  - intros j x [(-> & <- & _)|[_ ?]]%list_lookup_insert_Some; auto.
  - intros j Hj. rewrite list_lookup_insert_ne; [done|]. intros ->. congruence.
Qed.

Lemma moved_take k t t0 j ths :
  ths !! k = Some t0 -> t0 <> TDone -> moved k t ths (<[k := t]> (<[j := TDone]> ths)).
Proof.
  intros Hk Hne. split.
  - intros i x [(-> & <- & _)|[_ Hx]]%list_lookup_insert_Some; [auto|].
    apply list_lookup_insert_Some in Hx as [(-> & <- & _)|[_ ?]]; auto.
  - intros i Hi. rewrite list_lookup_insert_ne by (intros ->; congruence).
    destruct (decide (i = j)) as [->|]; [|by rewrite list_lookup_insert_ne].
    apply list_lookup_insert_eq. by eapply lookup_lt_Some.
Qed.

Section CallStep.
Context (g g' : Ghost) (s : Cluster) (k0 : nat) (rt rt' : Runtime) (ms : list Message).
Let s' := put n rt' ms s.
Context (Hf : full_inv ids k0 g s) (Hk : Z.of_nat k0 < 2 ^ 64 - 1) (Hsub : hist g ⊆ hist g')
  (Heff : effect n rt rt' (net s) ms) (Hc : call_inv g s rt).

Lemma call_no_wrap : no_wrap s.
Proof. eapply terms_le_no_wrap; [by eapply fi_terms|done]. Qed.

Lemma call_peers : peers (node rt') = peers (node rt).
Proof. eapply effect_vote_le; [exact Heff|]. by eapply call_no_wrap, cl_node. Qed.

Lemma call_keeps ths' j x :
  (forall i, threads rt !! i = Some TDone -> ths' !! i = Some TDone) ->
  threads rt !! j = Some x -> callOf x = Some c -> tinv g' s' (peers (node rt)) ths' j x.
Proof.
  intros Hdone Hx Hcx. eapply tinv_step; [apply call_no_wrap|by eapply cl_node|done|done|exact Hdone|].
  by eapply cl_threads.
Qed.

Lemma call_majority : majority_stored g s -> majority_stored g' s'.
Proof.
  intros (q & ? & ? & ? & Hq). exists q. split_and!; try done. intros v Hv.
  eapply stored_step; [apply call_no_wrap|by eapply cl_node|done|done|auto].
Qed.

Lemma call_moved k t :
  moved k t (threads rt) (threads rt') ->
  (callOf t = Some c -> tinv g' s' (peers (node rt)) (threads rt') k t) ->
  forall j x, threads rt' !! j = Some x -> callOf x = Some c -> tinv g' s' (peers (node rt')) (threads rt') j x.
Proof.
  intros [Hm Hdone] Ht j x Hx Hcx. rewrite call_peers.
  destruct (Hm j x Hx) as [->|[Hold|[-> ->]]]; [done|by apply call_keeps|auto].
Qed.

(** An acknowledgement is counted. *)
Lemma count_ack k e' acks remaining j ok :
  threads rt !! k = Some (TClient c e' acks remaining) -> threads rt !! j = Some (TAck c ok) ->
  threads rt' = <[k := countAck (node rt) c e' acks remaining ok]> (<[j := TDone]> (threads rt)) ->
  callOf (countAck (node rt) c e' acks remaining ok) = Some c ->
  tinv g' s' (peers (node rt)) (threads rt') k (countAck (node rt) c e' acks remaining ok).
Proof.
  intros Hkt Hjt Hths _. destruct (cl_threads _ _ _ Hc _ _ Hkt eq_refl) as (-> & js & Hnd & -> & Hjs).
  pose proof (cl_threads _ _ _ Hc _ _ Hjt eq_refl) as Hack. simpl in Hack.
  destruct (cl_shape _ _ _ Hc) as [Hsh _]. pose proof (Hsh _ _ Hjt) as Hj. pose proof (Hsh _ _ Hkt) as Hkc. simpl in Hj, Hkc.
  destruct (moved_take k (countAck (node rt) c e (1 + Z.of_nat (length js)) remaining ok) _ j _ Hkt ltac:(done)) as [_ Hdone].
  rewrite <- Hths in Hdone.
  assert (threads rt' !! j = Some TDone) as Hjd.
  { rewrite Hths, list_lookup_insert_ne by lia. apply list_lookup_insert_eq. by eapply lookup_lt_Some. }
  set (js' := if ok then (j - c - 1)%nat :: js else js).
  assert (NoDup js' /\ forall i, i ∈ js' -> threads rt' !! (c + 1 + i)%nat = Some TDone /\ peer_acked s (peers (node rt)) i)
    as [Hnd' Hjs'].
  { unfold js'. destruct ok; [|split; [done|]; intros i Hi; destruct (Hjs i Hi); auto]. split.
    - apply NoDup_cons. split; [|done]. intros Hin. destruct (Hjs _ Hin) as [Hd _].
      replace (c + 1 + (j - c - 1))%nat with j in Hd by lia. congruence.
    - intros i [->|Hi]%elem_of_cons; [|destruct (Hjs i Hi); auto].
      replace (c + 1 + (j - c - 1))%nat with j by lia. auto. }
  assert ((if ok then 1 + Z.of_nat (length js) + 1 else 1 + Z.of_nat (length js)) = 1 + Z.of_nat (length js')) as Hlen.
  { unfold js'. destruct ok; simpl; lia. }
  unfold countAck. rewrite Hlen. case_if; breflect; simpl; (split; [done|]).
  - apply call_majority. eapply majority_from_acks; [by eapply fi_election|exact Hc|exact Hnd'| |done].
    intros i Hi. by apply Hjs'.
  - exists js'. split_and!; [done|done|]. intros i Hi. destruct (Hjs' i Hi) as [? (p & ? & ?)]. split; [done|].
    exists p. eauto using acked_put.
Qed.

(** A peer's goroutine learns the answer to its request. *)
Lemma replicate_answer k p pe rpc i reply m ack :
  threads rt !! k = Some (TReplicateWait c p pe rpc) -> aeReplyAt (net s) i p n rpc = Some reply ->
  replicateReply p pe reply (node rt) = (m, RDone ack) -> ack = true -> peer_acked s' (peers (node rt)) (k - c - 1).
Proof.
  intros Hkt Hr Hrep ->. destruct (cl_shape _ _ _ Hc) as [Hsh _]. destruct (Hsh _ _ Hkt) as [_ Hp].
  destruct (cl_threads _ _ _ Hc _ _ Hkt eq_refl) as (_ & _ & args & Hin & Ht & Hcov).
  exists p. split; [done|]. apply acked_put. exists n, rpc, args, reply. split_and!; try done.
  - by eapply aeReplyAt_elem.
  - unfold replicateReply in Hrep. repeat case_match; simplify_eq; done.
Qed.

End CallStep.

Lemma result_snoc (P : Prop) rs c' (r : option ReplicateError) :
  ((c, None) ∈ rs -> P) -> (c' = c -> r = None -> P) -> (c, None) ∈ rs ++ [(c', r)] -> P.
Proof. intros H1 H2 [Hin|[= <- <-]%list_elem_of_singleton]%elem_of_app; auto. Qed.

Lemma threadStep_call g g' s k0 rt rt' ms k ch :
  full_inv ids k0 g s -> Z.of_nat k0 < 2 ^ 64 - 1 -> hist g ⊆ hist g' -> effect n rt rt' (net s) ms ->
  call_inv g s rt -> threadStep n rt (net s) k ch = Some (rt', ms) ->
  (forall j x, threads rt' !! j = Some x -> callOf x = Some c ->
     tinv g' (put n rt' ms s) (peers (node rt')) (threads rt') j x) /\
  ((c, None) ∈ results rt' -> majority_stored g' (put n rt' ms s)).
Proof.
  intros Hf Hk Hsub Heff Hc H.
  pose proof (fun t => call_moved g g' s k0 rt rt' ms Hf Hk Hsub Heff Hc k t) as Hmoved.
  pose proof (call_majority g g' s k0 rt rt' ms Hf Hk Hsub Heff Hc) as Hmaj.
  pose proof (fun e' a r j ok => count_ack g g' s k0 rt rt' ms Hf Hk Hsub Heff Hc k e' a r j ok) as Hcount.
  pose proof (fun p pe rpc i re m a => replicate_answer g s rt rt' ms Hc k p pe rpc i re m a) as Hans.
  pose proof (fun p pe a => replicate_covers k0 g s rt p pe a Hf Hk Hc) as Hcov.
  unfold threadStep in H. destruct (threads rt !! k) as [t|] eqn:Et; simplify_eq/=.
  assert (callOf t = Some c -> tinv g s (peers (node rt)) (threads rt) k t) as Hold by (intros; by eapply cl_threads).
  assert ((c, None) ∈ results rt -> majority_stored g' (put n rt' ms s)) as Hres by (intros; by eapply Hmaj, cl_result).
  destruct t, ch; simplify_eq/=;
    try match goal with
        | H : context [aeReplyAt ?a ?b ?c ?d ?e] |- _ => destruct (aeReplyAt a b c d e) eqn:Er; simplify_eq/=
        | H : context [applyCh (node rt)] |- _ => destruct (applyCh (node rt)) eqn:Ea; simplify_eq/=
        end;
    repeat case_match; simplify_eq/=; unfold applyDone in *; repeat case_match; simplify_eq/=;
    (split; [eapply Hmoved; [first [eapply moved_insert; [exact Et|done]|eapply moved_take; [exact Et|done]]|simpl]
            |try done; try (apply result_snoc; [done|try done; intros -> _; by apply Hmaj, Hold])]); try done.
  - intros [= ->]. destruct (Hold eq_refl) as [He Ht]. split_and!; try done. exists a.
    rewrite elem_of_app, list_elem_of_singleton. destruct (Hcov peer p a He Ht) as [? ?]; auto.
  - intros [= ->]. by eapply Hans.
  - intros [= ->]. by destruct (Hold eq_refl) as (? & ? & _).
  - match goal with H : (_ =? _)%nat = true |- _ => apply Nat.eqb_eq in H as <- end. intros E.
    assert (call = c) as ->; [unfold countAck in E; case_match; by injection E|]. by eapply Hcount.
  - intros [= ->]. by apply Hmaj, Hold.
  - intros [= ->]. by apply Hmaj, Hold.
  - intros [= ->]. by apply Hmaj, Hold.
Qed.

(** *** Every step keeps the invariant of the call *)

Lemma call_inv_step k0 g g' s m rm rm' ms rt :
  full_inv ids k0 g s -> Z.of_nat k0 < 2 ^ 64 - 1 -> hist g ⊆ hist g' -> nodes s !! m = Some rm ->
  effect m rm rm' (net s) ms -> threads_effect m rm rm' (net s) ms -> call_inv g s rt ->
  exists rt', call_inv g' (put m rm' ms s) rt'.
Proof.
  intros Hf Hk Hsub Hm Heff Hth Hc.
  assert (no_wrap s) as Hnw by (eapply terms_le_no_wrap; [by eapply fi_terms|done]).
  assert (won ids (put m rm' ms s) n (eTerm e)) as Hwon by (eapply won_step; eauto; by eapply cl_won).
  assert (exists l, hist g' !! (eTerm e, eIndex e) = Some (l ++ [e])) as Hhist.
  { destruct (cl_hist _ _ _ Hc) as [l Hl]. exists l. by eapply lookup_weaken. }
  destruct (decide (m = n)) as [->|Hne].
  2: { exists rt. split; try apply Hc; try done.
       - simpl. rewrite lookup_insert_ne by done. apply Hc.
       - intros k t Hk' Hct. eapply tinv_step; eauto. by eapply cl_threads.
       - intros Hin. destruct (cl_result _ _ _ Hc Hin) as (q & ? & ? & ? & Hq). exists q. split_and!; try done.
         intros v Hv. eapply stored_step; eauto. }
  pose proof (cl_node _ _ _ Hc) as Hn. rewrite Hm in Hn. injection Hn as ->.
  pose proof (call_peers g s k0 rt rm' ms Hf Hk Heff Hc) as Hp.
  exists rm'. assert (shape_ok rm') as Hsh by (eapply threads_effect_shape; eauto; apply Hc).
  destruct Hth as [ts rs Ht Hr Hts Hrs|k ch H].
  - pose proof (cl_old _ _ _ Hc) as Hold. split; try done; [by apply lookup_insert_eq|rewrite Ht, length_app; lia| |].
    + intros k t Hkt Hct. rewrite Hp. rewrite Ht in Hkt. apply lookup_app_Some in Hkt as [Hkt|[_ Hkt]].
      * eapply call_keeps; eauto. intros i Hi. rewrite Ht. by apply lookup_app_l_Some.
      * apply Hts in Hkt as [_ Hkt]. apply Hkt in Hct. lia.
    + rewrite Hr, elem_of_app. intros [Hin|Hin]; [|by apply Hrs in Hin as (_ & ? & _)].
      eapply (call_majority g); eauto. by eapply cl_result.
  - destruct (threadStep_call g g' s k0 rt rm' ms k ch Hf Hk Hsub Heff Hc H) as [Hths Hres].
    split; try done; [by apply lookup_insert_eq|].
    pose proof (cl_old _ _ _ Hc). unfold threadStep in H. destruct (threads rt !! k) as [t|] eqn:Et; simplify_eq/=.
    destruct t, ch; simplify_eq/=;
      try match goal with
          | H : context [aeReplyAt ?a ?b ?c ?d ?e] |- _ => destruct (aeReplyAt a b c d e) eqn:Er; simplify_eq/=
          | H : context [applyCh (node rt)] |- _ => destruct (applyCh (node rt)) eqn:Ea; simplify_eq/=
          end;
      repeat case_match; simplify_eq/=; unfold applyDone in *; repeat case_match; simplify_eq/=; rewrite ?length_insert; done.
Qed.

Lemma call_inv_run k0 k g s s' rt :
  nsteps gstep k s s' -> Z.of_nat (k0 + k) < 2 ^ 64 - 1 -> full_inv ids k0 g s -> call_inv g s rt ->
  exists g' rt', full_inv ids (k0 + k) g' s' /\ call_inv g' s' rt'.
Proof.
  intros Hrun. revert k0 g rt. induction Hrun as [|k s1 s2 s3 Hstep Hrun IH]; intros k0 g rt Hk Hf Hc.
  { rewrite Nat.add_0_r. eauto. }
  destruct (full_inv_step ids ids_nodup ids_nonempty k0 g s1 s2) as (g' & Hsub & Hf'); [lia|done|done|].
  pose proof (gstep_cstep _ _ Hstep) as (ev & m & rm & rm' & ms & Ha & Hm & Hloc & ->)%cstep_inv.
  destruct (call_inv_step k0 g g' s1 m rm rm' ms rt) as [rt' Hc']; try done; [lia| |by eapply localStep_threads|].
  { eapply localStep_effect; [exact Hloc|]. intros i x -> Hx. simpl in Ha. rewrite Hx in Ha. by simplify_eq/=. }
  replace (k0 + S k)%nat with (S k0 + k)%nat by lia. eapply IH; [lia|done|done].
Qed.
End Call.

Definition shapes_ok (s : Cluster) : Prop := map_Forall (fun _ => shape_ok) (nodes s).

Lemma shapes_ok_step s s' : no_wrap s -> shapes_ok s -> cstep s s' -> shapes_ok s'.
Proof.
  intros Hnw Hsh (ev & n & rt & rt' & ms & Ha & Hn & Hloc & ->)%cstep_inv.
  apply map_Forall_insert_2; [|done].
  eapply threads_effect_shape; [by eapply localStep_threads| |exact (Hsh _ _ Hn)].
  eapply effect_vote_le; [|exact (Hnw _ _ Hn)]. eapply localStep_effect; [exact Hloc|].
  intros i x -> Hx. simpl in Ha. rewrite Hx in Ha. by simplify_eq/=.
Qed.

Lemma shapes_ok_run ids k0 k g s s' :
  NoDup ids -> "" ∉ ids -> nsteps gstep k s s' -> Z.of_nat (k0 + k) < 2 ^ 64 - 1 ->
  full_inv ids k0 g s -> shapes_ok s -> (exists g', full_inv ids (k0 + k) g' s') /\ shapes_ok s'.
Proof.
  intros Hnd Hne Hrun. revert k0 g. induction Hrun as [|k s1 s2 s3 Hstep Hrun IH]; intros k0 g Hk Hf Hsh.
  { rewrite Nat.add_0_r. eauto. }
  destruct (full_inv_step ids Hnd Hne k0 g s1 s2) as (g' & _ & Hf'); [lia|done|done|].
  replace (k0 + S k)%nat with (S k0 + k)%nat by lia. eapply IH; [lia|done|].
  eapply shapes_ok_step; [|done|by apply gstep_cstep]. eapply terms_le_no_wrap; [by eapply fi_terms|lia].
Qed.

Lemma shapes_ok_init ids ch : shapes_ok (NewCluster ids ch).
Proof.
  intros n rt Hl. simpl in Hl. apply elem_of_list_to_map_2, list_elem_of_fmap in Hl as (i & [= -> ->] & ?).
  split; [done|]. intros c r Hin. by apply not_elem_of_nil in Hin.
Qed.

Lemma shape_call rt k t c : shape_ok rt -> threads rt !! k = Some t -> callOf t = Some c -> (c <= k)%nat.
Proof.
  intros [Hsh _] Hk Hc. specialize (Hsh _ _ Hk). destruct t as [| | | | | | |[]|[]|]; simplify_eq/=; lia.
Qed.

(** The entry a leader appends for a client's command. *)
Definition clientEntry (n : Node) (cmd : string) : LogEntry :=
  mkEntry (currentTerm n) (lastIndex (log n) + 1) cmd.

Lemma call_inv_start ids k0 g s n rt cmd s' :
  NoDup ids -> "" ∉ ids -> Z.of_nat (S k0) < 2 ^ 64 - 1 -> full_inv ids k0 g s -> shapes_ok s ->
  nodes s !! n = Some rt -> state (node rt) = Leader -> step s (EvClient n cmd) = Some s' ->
  exists g' rt', full_inv ids (S k0) g' s' /\
    call_inv ids n (length (threads rt)) (clientEntry (node rt) cmd) g' s' rt'.
Proof.
  intros Hnd Hne Hk Hf Hsh Hn Hs Hstep. set (e := clientEntry (node rt) cmd).
  destruct (full_inv_step ids Hnd Hne k0 g s s') as (g' & _ & Hf'); [done|done|by exists (EvClient n cmd)|].
  assert (s' = put n (clientStep rt cmd) [] s) as ->.
  { unfold step in Hstep. simpl in Hstep. rewrite Hn in Hstep. simpl in Hstep. congruence. }
  set (rt' := clientStep rt cmd) in *. set (s' := put n rt' [] s) in *.
  assert (nodes s' !! n = Some rt') as Hn' by apply lookup_insert_eq.
  destruct (clientStep_frame rt cmd) as [Hcore _]. fold rt' in Hcore.
  assert (peers (node rt') = peers (node rt)) as Hpeers by (unfold core in Hcore; by injection Hcore).
  destruct (fi_logs _ _ _ _ Hf) as [Hlog _]. destruct (Hlog _ _ Hn) as (Hwf & Hle & _).
  pose proof (lastIndex_bound _ _ Hwf Hle) as Hb. pose proof (lastIndex_nonneg _ Hwf).
  assert (u64 (lastIndex (log (node rt)) + 1) = lastIndex (log (node rt)) + 1) as Hu by (apply u64_small; unfold is_u64; lia).
  assert (log (node rt') = log (node rt) ++ [e] /\ results rt' = results rt /\
    threads rt' = threads rt ++ TClient (length (threads rt)) e 1 (length (peers (node rt))) ::
      ((fun p => TReplicate (length (threads rt)) p (mkPending e (currentTerm (node rt)) (commitIndex (node rt)))) <$> peers (node rt)))
    as (Hl & Hr & Ht).
  { unfold rt', clientStep, replicateBegin, IsLeader. rewrite bool_decide_eq_true_2 by done. simpl.
    change (eIndex (lastEntry (log (node rt)))) with (lastIndex (log (node rt))). by rewrite Hu. }
  exists g', rt'. split; [done|]. pose proof (Hsh _ _ Hn) as Hshape. simpl in Hshape. split.
  - done.
  - eapply threads_effect_shape; [|exact Hpeers|exact Hshape].
    by eapply (localStep_threads n rt (net s) (EvClient n cmd)).
  - rewrite Ht, length_app. simpl. lia.
  - unfold e, clientEntry. simpl. rewrite <- (core_term _ _ Hcore). eapply leader_won; [by eapply fi_election|done|].
    by rewrite (core_state _ _ Hcore).
  - exists (log (node rt)). destruct (mi_log _ _ _ (fi_matching _ _ _ _ Hf') _ _ Hn') as [_ Hh]. rewrite Hl in Hh.
    assert (length (log (node rt)) = Z.to_nat (eIndex e)) as Hlen.
    { unfold e, clientEntry. simpl. rewrite log_wf_lastIndex by done. pose proof (log_wf_length _ Hwf). lia. }
    specialize (Hh (length (log (node rt))) e ltac:(by apply log_wf_length)).
    rewrite take_ge in Hh by (rewrite length_app; simpl; lia). rewrite <- Hh; [|by rewrite lookup_app_r, Nat.sub_diag by lia].
    f_equal. f_equal. rewrite Hlen, Z2Nat.id; [done|]. unfold e, clientEntry. simpl. lia.
  - intros k t Hkt Hct. rewrite Ht in Hkt. apply lookup_app_Some in Hkt as [Hkt|[Hge Hkt]].
    { pose proof (shape_call _ _ _ _ Hshape Hkt Hct). apply lookup_lt_Some in Hkt. lia. }
    destruct (k - length (threads rt))%nat as [|j]; simpl in Hkt.
    + injection Hkt as <-. simpl. split; [done|]. exists []. split_and!; [constructor|done|by intros j ?%not_elem_of_nil].
    + apply list_lookup_fmap_Some in Hkt as (p & -> & _). done.
  - rewrite Hr. intros Hin. destruct Hshape as [_ Hres]. apply Hres in Hin. lia.
Qed.

(** Once the majority is reached, every leader of the entry's term or a later
    one has the leader's log of that moment. *)
Lemma stored_survives ids k g s n c e rt m rtm :
  NoDup ids -> full_inv ids k g s -> call_inv ids n c e g s rt -> (c, None) ∈ results rt ->
  nodes s !! m = Some rtm -> state (node rtm) = Leader -> eTerm e <= currentTerm (node rtm) ->
  exists l, hist g !! (eTerm e, eIndex e) = Some (l ++ [e]) /\ l ++ [e] `prefix_of` log (node rtm).
Proof.
  intros Hnd Hf Hc Hres Hm Hs Ht. destruct (cl_hist _ _ _ _ _ _ _ Hc) as [l Hl]. exists l. split; [done|].
  destruct (cl_result _ _ _ _ _ _ _ Hc Hres) as (q & Hq & Hsub & Hlen & Hst).
  assert (choosable ids g s (eTerm e) (eIndex e)) as Hch by (exists q; split_and!; auto).
  destruct (decide (eTerm e = currentTerm (node rtm))) as [E|].
  - rewrite E in Hl. by eapply mi_top; [by eapply fi_matching|..].
  - eapply ci_leader; [by eapply fi_complete|done..|lia].
Qed.

(** C1. An acknowledged write is never lost: let node [n], leading, receive a
    client's command, and let [Replicate] return without an error for that call in
    some later state [s] of the run; then the log of every leader of [s] whose term
    is not older has that command at the index and in the term it was given.
    Results are never withdrawn, so [s] may be any state after the
    acknowledgement.  This holds over every interleaving, message delay, loss and
    duplication, while heartbeats are sent by nodes that lead and no node
    restarts. *)
Theorem acknowledged_survives ids ch k1 k2 s1 s2 s n rt1 cmd rt m rtm :
  NoDup ids -> "" ∉ ids -> Z.of_nat (k1 + 1 + k2) < 2 ^ 64 - 1 ->
  nsteps gstep k1 (NewCluster ids ch) s1 -> nodes s1 !! n = Some rt1 -> state (node rt1) = Leader ->
  step s1 (EvClient n cmd) = Some s2 -> nsteps gstep k2 s2 s ->
  nodes s !! n = Some rt -> (length (threads rt1), None) ∈ results rt ->
  nodes s !! m = Some rtm -> state (node rtm) = Leader -> currentTerm (node rt1) <= currentTerm (node rtm) ->
  entryAt (log (node rtm)) (lastIndex (log (node rt1)) + 1) = Some (clientEntry (node rt1) cmd).
Proof.
  intros Hnd Hne Hk Hrun1 Hn1 Hs1 Hstep Hrun2 Hn Hres Hm Hsm Ht.
  destruct (shapes_ok_run ids 0 k1 (mkGhost ∅ ∅) (NewCluster ids ch) s1) as [[g1 Hf1] Hsh1];
    [done|done|done|lia|by apply full_inv_init|apply shapes_ok_init|].
  destruct (call_inv_start ids (0 + k1) g1 s1 n rt1 cmd s2) as (g2 & rt2 & Hf2 & Hc2); try done; [lia|].
  destruct (call_inv_run ids Hnd Hne n _ _ (S (0 + k1)) k2 g2 s2 s rt2 Hrun2 ltac:(lia) Hf2 Hc2) as (g & rt' & Hf & Hc).
  pose proof (cl_node _ _ _ _ _ _ _ Hc) as Hn'. rewrite Hn in Hn'. injection Hn' as <-.
  destruct (stored_survives ids _ g s n _ _ rt m rtm Hnd Hf Hc Hres Hm Hsm Ht) as (l & Hl & Hpre).
  destruct (mi_hist _ _ _ (fi_matching _ _ _ _ Hf) _ _ _ Hl) as ([Hwl _] & Hi & _ & Hpos & _).
  destruct (fi_logs _ _ _ _ Hf) as [Hlog _]. destruct (Hlog _ _ Hm) as (Hwf & _).
  change (lastIndex (log (node rt1)) + 1) with (eIndex (clientEntry (node rt1) cmd)).
  rewrite log_wf_entryAt by (done || lia). rewrite log_wf_lastIndex, length_app in Hi by done. simpl in Hi.
  eapply prefix_lookup_Some; [|exact Hpre]. rewrite lookup_app_r by (simpl; lia).
  simpl. by replace (Z.to_nat (lastIndex (log (node rt1)) + 1) - length l)%nat with 0%nat by lia.
Qed.

(** nodeA acknowledges "x"; then nodeB, which has it, leads term 2. *)
Definition acknowledge_x : list Event := go "nodeA" 1 1 ++
  [EvDeliver 3; EvThread "nodeA" 1 (Reply 4); EvThread "nodeA" 0 (Take 1)] ++ go "nodeA" 0 4 ++
  campaign "nodeB" ++ [EvDeliver 6] ++ win "nodeB" "nodeC" 7.

Definition lead_A : list Event := campaign "nodeA" ++ [EvDeliver 0] ++ win "nodeA" "nodeB" 2.

Lemma lead_A_facts s1 : gexec (NewCluster abc (Some [])) lead_A = Some s1 ->
  exists rt1, nodes s1 !! "nodeA" = Some rt1 /\ state (node rt1) = Leader /\ threads rt1 = [] /\
    currentTerm (node rt1) = 1 /\ log (node rt1) = [sentinel].
Proof. intros E. vm_compute in E. injection E as <-. eexists. split; [by vm_compute|done]. Qed.

Lemma acknowledge_x_facts s : gexec (NewCluster abc (Some [])) (lead_A ++ [EvClient "nodeA" "x"] ++ acknowledge_x) = Some s ->
  exists rtA rtB, nodes s !! "nodeA" = Some rtA /\ results rtA = [(0%nat, None)] /\
    nodes s !! "nodeB" = Some rtB /\ state (node rtB) = Leader /\ currentTerm (node rtB) = 2.
Proof. intros E. vm_compute in E. injection E as <-. do 2 eexists. do 2 (split; [by vm_compute|]). split; [by vm_compute|done]. Qed.

Lemma gexec_app s evs evs' : gexec s (evs ++ evs') = (s' ← gexec s evs; gexec s' evs').
Proof.
  revert s. induction evs as [|ev evs IH]; intros s; simpl; [done|]. case_match; [|done]. by destruct (step s ev); simpl.
Qed.

Lemma acknowledged_survives_witness :
  exists s rtA rtB, nodes s !! "nodeA" = Some rtA /\ results rtA = [(0%nat, None)] /\
    nodes s !! "nodeB" = Some rtB /\ state (node rtB) = Leader /\ currentTerm (node rtB) = 2 /\
    entryAt (log (node rtB)) 1 = Some (mkEntry 1 1 "x").
Proof.
  destruct (gexec (NewCluster abc (Some [])) (lead_A ++ [EvClient "nodeA" "x"] ++ acknowledge_x)) as [s|] eqn:E; [|by vm_compute in E].
  destruct (acknowledge_x_facts s E) as (rtA & rtB & HA & HrA & HB & HsB & HtB). rewrite gexec_app in E.
  destruct (gexec (NewCluster abc (Some [])) lead_A) as [s1|] eqn:E1; [|done].
  destruct (lead_A_facts s1 E1) as (rt1 & H1 & Hs1 & Hth & Ht1 & Hl1).
  change ((s' ← step s1 (EvClient "nodeA" "x"); gexec s' acknowledge_x) = Some s) in E.
  destruct (step s1 (EvClient "nodeA" "x")) as [s2|] eqn:E2; [|done].
  change (gexec s2 acknowledge_x = Some s) in E.
  exists s, rtA, rtB. split_and!; try done.
  assert (Z.of_nat (length lead_A + 1 + length acknowledge_x) < 2 ^ 64 - 1) as Hlen by (by vm_compute).
  pose proof (acknowledged_survives abc (Some []) (length lead_A) (length acknowledge_x) s1 s2 s "nodeA" rt1 "x" rtA "nodeB" rtB abc_nodup abc_nonempty
    Hlen (gexec_nsteps _ _ _ E1) H1 Hs1 E2 (gexec_nsteps _ _ _ E) HA) as Hthm.
  unfold clientEntry in Hthm. rewrite Hl1, Ht1, Hth, HrA, HtB in Hthm.
  apply Hthm; [by left|exact HB|exact HsB|done].
Defined.
