(* ===== verification/ClusterTransport.v ===== *)
(** * The in-process cluster and its partitions (src/raft/cluster.go)

    [Cluster] of cluster.go holds the nodes, the set of isolated ids and a
    latency; its transport resolves the peer first (an isolated sender or peer
    is not reachable), releases the lock, sleeps for the latency and only then
    calls the peer's handler.  An id isolated in between still gets the call.
    The state below adds to the goroutines of RaftCluster the isolated ids and,
    for each request sent, how far its call has come.  The caller of a refused
    request sees an error, one of the outcomes RaftCluster allows at any time. *)

From S2P Require Import Prelude RaftLog RaftNode RaftCluster RaftElection RaftReplication RaftCatchup RaftLogInvariant RaftTraces RaftLogMatching RaftCompleteness RaftAcknowledged.

Record ErrNotReachable := mkNotReachable { PeerID : string }.

Definition ErrNotReachable_Error (e : ErrNotReachable) : string :=
  String.append "peer " (String.append (PeerID e) " is not reachable").

(** The call of a request: past [resolve], refused by it, or answered. *)
Inductive Call := Resolved | Refused | Handled.

Record Sim := mkSim { cluster : Cluster; isolated : gset string; calls : gmap nat Call }.

Definition Isolate (nid : string) (s : Sim) : Sim := mkSim (cluster s) ({[nid]} ∪ isolated s) (calls s).
Definition Restore (nid : string) (s : Sim) : Sim := mkSim (cluster s) (isolated s ∖ {[nid]}) (calls s).

(** [AddNode] stores the node under its id, in place of one that is there. *)
Definition AddNode (nid : string) (rt : Runtime) (s : Sim) : Sim :=
  mkSim (mkCluster (<[nid := rt]> (nodes (cluster s))) (net (cluster s))) (isolated s) (calls s).

Definition resolve (s : Sim) (sender peerID : string) : result ErrNotReachable Runtime :=
  if bool_decide (sender ∈ isolated s) || bool_decide (peerID ∈ isolated s) then Err (mkNotReachable peerID)
  else match nodes (cluster s) !! peerID with
       | None => Err (mkNotReachable peerID)
       | Some peer => Ok peer
       end.

(** The sender of a request. *)
Definition senderOf (m : Message) : option string :=
  match m with
  | MRequestVote from _ _ | MAppendEntries from _ _ _ => Some from
  | _ => None
  end.

Inductive SimEvent :=
| SNode (ev : Event)                  (* a goroutine moves *)
| SCall (i : nat)                     (* the transport resolves the peer of request i *)
| SHandle (i : nat)                   (* the handler of request i runs *)
| SIsolate (nid : string)
| SRestore (nid : string)
| SAddNode (nid : string) (ps : list string) (ch : option (list string)).

Definition with_cluster (c : Cluster) (s : Sim) : Sim := mkSim c (isolated s) (calls s).
Definition with_call (i : nat) (c : Call) (s : Sim) : Sim := mkSim (cluster s) (isolated s) (<[i := c]> (calls s)).

(** A resolved request is handled by the node that has the id by then; the code
    keeps the pointer it resolved, which is that node unless [AddNode] replaced it
    in between. *)
Definition simStep (s : Sim) (ev : SimEvent) : option Sim :=
  match ev with
  | SNode (EvDeliver _) => None
  | SNode e => c ← step (cluster s) e; Some (with_cluster c s)
  | SCall i =>
      m ← net (cluster s) !! i; from ← senderOf m;
      match calls s !! i with
      | Some _ => None
      | None => Some (with_call i (match resolve s from (destination m) with Ok _ => Resolved | Err _ => Refused end) s)
      end
  | SHandle i =>
      match calls s !! i with
      | Some Resolved => c ← step (cluster s) (EvDeliver i); Some (with_call i Handled (with_cluster c s))
      | _ => None
      end
  | SIsolate nid => Some (Isolate nid s)
  | SRestore nid => Some (Restore nid s)
  | SAddNode nid ps ch => Some (AddNode nid (newRuntime nid ps ch) s)
  end.

Definition NewSim (ids : list string) (ch : option (list string)) : Sim := mkSim (NewCluster ids ch) ∅ ∅.

(** The ids [NewCluster] makes up for [n] nodes: "nodeA", "nodeB", ... (a
    rune past ASCII, from the 64th node on, is not modelled). *)
Definition simIds (n : nat) : list string :=
  (fun i => String.append "node" (String (Ascii.ascii_of_nat (65 + i)) "")) <$> seq 0 n.

Fixpoint simExec (s : Sim) (evs : list SimEvent) : option Sim :=
  match evs with
  | [] => Some s
  | ev :: evs' => s' ← simStep s ev; simExec s' evs'
  end.

(** ** Partitions add no behaviour

    Without [AddNode], what the goroutines do under any isolations is something
    they can do in RaftCluster: its theorems hold of the in-process cluster. *)

Definition fixedMembers (ev : SimEvent) : bool := match ev with SAddNode _ _ _ => false | _ => true end.

Lemma simStep_cluster s ev s' : simStep s ev = Some s' -> fixedMembers ev = true ->
  cluster s' = cluster s \/ cstep (cluster s) (cluster s').
Proof.
  intros H Hf. destruct ev as [e|i|i|nid|nid|nid ps ch]; cbn [simStep] in H; try done.
  - destruct e as [n e|n k c|n cmd|i|n]; try done.
    all: destruct (step (cluster s) _) as [c'|] eqn:E; cbn in H; simplify_eq; right; by eexists.
  - left. destruct (net (cluster s) !! i); cbn in H; [|done]. destruct (senderOf _); cbn in H; [|done]. repeat case_match; by simplify_eq.
  - right. repeat case_match; try done. destruct (step (cluster s) (EvDeliver i)) as [c'|] eqn:E; cbn in H; simplify_eq. by exists (EvDeliver i).
  - left. by simplify_eq.
  - left. by simplify_eq.
Qed.

Lemma simExec_cluster evs : forall s s', simExec s evs = Some s' -> Forall (fun ev => fixedMembers ev = true) evs ->
  exists k, (k <= length evs)%nat /\ nsteps cstep k (cluster s) (cluster s').
Proof.
  induction evs as [|ev evs IH]; intros s s' H Hf; cbn in H; [simplify_eq; exists 0%nat; split; [done|constructor]|].
  destruct (simStep s ev) as [s1|] eqn:E; cbn in H; [|done]. apply Forall_cons in Hf as [Hev Hf].
  destruct (IH s1 s' H Hf) as (k & Hk & Hrun). cbn [length].
  destruct (simStep_cluster _ _ _ E Hev) as [<-|Hs]; [exists k|exists (S k)]; (split; [lia|]); [done|by econstructor].
Qed.

(** Election safety under any schedule of partitions. *)
Lemma partitions_one_leader ids ch evs1 evs2 s1 s2 n1 n2 t :
  NoDup ids -> "" ∉ ids -> Z.of_nat (length (evs1 ++ evs2)) < 2 ^ 64 - 1 ->
  Forall (fun ev => fixedMembers ev = true) (evs1 ++ evs2) ->
  simExec (NewSim ids ch) evs1 = Some s1 -> simExec s1 evs2 = Some s2 ->
  leader_of (cluster s1) n1 t -> leader_of (cluster s2) n2 t -> n1 = n2.
Proof.
  intros Hnd Hne Hlen [Hf1 Hf2]%Forall_app H1 H2. rewrite length_app in Hlen.
  destruct (simExec_cluster _ _ _ H1 Hf1) as (k1 & Hk1 & R1). destruct (simExec_cluster _ _ _ H2 Hf2) as (k2 & Hk2 & R2).
  intros (rt1 & Hn1 & Hs1 & Ht1) (rt2 & Hn2 & Hs2 & Ht2). eapply (leaders_agree ids ch k1 k2 (cluster s1) (cluster s2) n1 n2 rt1 rt2); eauto; [lia|congruence].
Qed.

(** ** A leader behind a partition *)

(** A goroutine works for a call that has begun, as does a result. *)
Definition calls_ok (rt : Runtime) : Prop :=
  (forall k t c, threads rt !! k = Some t -> callOf t = Some c -> (c < length (threads rt))%nat) /\
  (forall c r, (c, r) ∈ results rt -> (c < length (threads rt))%nat).

(** Requests, calls and replies. *)
Record net_ok (s : Sim) : Prop := {
  no_rpc : forall i from to rpc args, net (cluster s) !! i = Some (MAppendEntries from to rpc args) -> rpc = i;
  no_reply : forall i from to rpc reply, net (cluster s) !! i = Some (MAppendEntriesReply from to rpc reply) ->
    (rpc < length (net (cluster s)))%nat;
  no_calls : forall i c, calls s !! i = Some c -> (i < length (net (cluster s)))%nat;
  no_threads : forall n rt, nodes (cluster s) !! n = Some rt -> calls_ok rt }.

Lemma net_ok_init ids ch : net_ok (NewSim ids ch).
Proof.
  split; try done. intros n rt Hn. cbn in Hn. apply elem_of_list_to_map_2, list_elem_of_fmap in Hn as (i & [= -> ->] & ?).
  split; [done|]. intros c r Hin. by apply not_elem_of_nil in Hin.
Qed.

(** The cases of a goroutine's transition, once its kind is known. *)
Ltac threadCases :=
  simplify_eq/=;
  try match goal with
      | H : context [aeReplyAt ?a ?b ?c ?d ?e] |- _ => destruct (aeReplyAt a b c d e) eqn:Ereply; simplify_eq/=
      | H : context [applyCh (node ?rt)] |- _ => destruct (applyCh (node rt)); simplify_eq/=
      end;
  repeat (case_match; simplify_eq/=); unfold applyDone in *; repeat (case_match; simplify_eq/=).

(** What one step of a node sends: requests numbered by their place in the
    network, and the reply to a request it handles. *)
Lemma localStep_sends self rt sent ev rt' ms : localStep self rt sent ev = Some (rt', ms) ->
  (forall j from to rpc args, ms !! j = Some (MAppendEntries from to rpc args) -> rpc = (length sent + j)%nat) /\
  (forall from to rpc reply, MAppendEntriesReply from to rpc reply ∈ ms ->
     exists i args, ev = EvDeliver i /\ sent !! i = Some (MAppendEntries to from rpc args)).
Proof.
  intros H. destruct ev as [n e|n k c|n cmd|i|n]; cbn [localStep] in H.
  - unfold runStep in H. destruct e, (pc rt); simplify_eq/=;
      try match goal with H : context [removeFirst ?p ?w] |- _ => destruct (removeFirst p w); simplify_eq/= end;
      repeat case_match; simplify_eq/=; (split; [|set_solver]); try (by intros []).
    intros j from to rpc args Hj. apply list_lookup_fmap_Some in Hj as (p & Hj & _). done.
  - unfold threadStep in H. destruct (threads rt !! k) as [t|]; cbn in H; [|done].
    destruct t, c; threadCases; try (split; [by intros []|set_solver]).
    all: split; [intros [|j] from to rpc args Hj; simplify_eq/=; try done; lia|set_solver].
  - simplify_eq. split; [by intros []|set_solver].
  - destruct (sent !! i) as [m|] eqn:Em; cbn in H; [|done]. destruct m as [from to args| |from to rpc args|]; cbn in H; try done.
    + destruct (HandleRequestVote args (node rt)). simplify_eq. split; [by intros []|set_solver].
    + destruct (HandleAppendEntries args (node rt)) as [[n' reply] b]. simplify_eq. split; [by intros []|].
      intros f t r y [= -> -> -> ->]%list_elem_of_singleton. by exists i, args.
  - simplify_eq. split; [by intros []|set_solver].
Qed.

(** What one step does to the calls of a node's goroutines. *)
Lemma threadStep_calls self rt sent k ch rt' ms : threadStep self rt sent k ch = Some (rt', ms) ->
  length (threads rt') = length (threads rt) /\
  forall j t c, threads rt' !! j = Some t -> callOf t = Some c -> exists t', threads rt !! j = Some t' /\ callOf t' = Some c.
Proof.
  intros H. set (P := fun j t => forall c, callOf t = Some c -> exists t', threads rt !! j = Some t' /\ callOf t' = Some c).
  assert (forall j t, threads rt !! j = Some t -> P j t) as H0 by (intros j t Hj c Hc; by exists t).
  enough (length (threads rt') = length (threads rt) /\ forall j t, threads rt' !! j = Some t -> P j t) as [? HP]
    by (split; [done|]; intros; by eapply HP).
  unfold threadStep in H. destruct (threads rt !! k) as [t|] eqn:Et; cbn in H; [|done]. pose proof (H0 _ _ Et) as Hk.
  destruct t, ch; threadCases;
    rewrite ?length_insert; (split; [done|]); repeat apply forall_insert; try done; unfold countAck;
    try (by case_match); intros c' [=]; subst; by eapply Hk.
Qed.

Lemma threadStep_results self rt sent k ch rt' ms : threadStep self rt sent k ch = Some (rt', ms) ->
  forall c r, (c, r) ∈ results rt' -> (c, r) ∈ results rt \/ exists t, threads rt !! k = Some t /\ callOf t = Some c.
Proof.
  intros H c r. unfold threadStep in H. destruct (threads rt !! k) as [t|] eqn:Et; cbn in H; [|done].
  destruct t, ch; threadCases; try (by left); (intros [Hin|[= -> ->]%list_elem_of_singleton]%elem_of_app; [by left|right]); by eexists.
Qed.

Lemma localStep_calls self rt sent ev rt' ms : localStep self rt sent ev = Some (rt', ms) -> calls_ok rt -> calls_ok rt'.
Proof.
  intros H [Hold Hres]. apply localStep_threads in H as [ts rs Ht Hr Hts Hrs|k ch H].
  - unfold calls_ok. rewrite Ht, Hr. split; [intros j t c Hj Hc|intros c r Hin]; rewrite length_app.
    + apply lookup_app_Some in Hj as [Hj|[Hle Hj]]; [specialize (Hold _ _ _ Hj Hc); lia|].
      destruct (Hts _ _ Hj) as [_ Hts']. rewrite (Hts' _ Hc). apply lookup_lt_Some in Hj. lia.
    + apply elem_of_app in Hin as [Hin|Hin]; [specialize (Hres _ _ Hin); lia|].
      destruct (Hrs _ _ Hin) as (-> & _ & Hne). destruct ts; [done|cbn; lia].
  - pose proof (threadStep_results _ _ _ _ _ _ _ H) as Hr. apply threadStep_calls in H as [Hlen Hcalls]. split; rewrite Hlen.
    + intros j t c Hj Hc. destruct (Hcalls _ _ _ Hj Hc) as (t' & Hj' & Hc'). eauto.
    + intros c r Hin. destruct (Hr _ _ Hin) as [?|(t & Ht & Hc)]; eauto.
Qed.

(** A step of the goroutines, as a step of one node. *)
Lemma step_inv s ev s' : step s ev = Some s' -> exists n rt rt' ms,
  actor s ev = Some n /\ nodes s !! n = Some rt /\ localStep n rt (net s) ev = Some (rt', ms) /\ s' = put n rt' ms s.
Proof.
  unfold step. intros H. destruct (actor s ev) as [n|] eqn:Ha; simplify_eq/=.
  destruct (nodes s !! n) as [rt|] eqn:Hn; simplify_eq/=. destruct (localStep n rt (net s) ev) as [[rt' ms]|] eqn:Hl; simplify_eq/=.
  by exists n, rt, rt', ms.
Qed.

(** A step of the simulation: nothing moves, a node is added, or a goroutine or
    a handler moves; a handler only for a call that was resolved. *)
Inductive sim_effect (s s' : Sim) : SimEvent -> Prop :=
| E_quiet ev : cluster s' = cluster s -> (forall i c, calls s' !! i = Some c -> calls s !! i = Some c \/
    (c <> Handled /\ exists m from, net (cluster s) !! i = Some m /\ senderOf m = Some from /\
     (c = Resolved -> from ∉ isolated s))) -> sim_effect s s' ev
| E_add nid ps ch : s' = AddNode nid (newRuntime nid ps ch) s -> sim_effect s s' (SAddNode nid ps ch)
| E_move ev e : step (cluster s) e = Some (cluster s') -> isolated s' = isolated s ->
    (forall i, e = EvDeliver i -> calls s !! i = Some Resolved) ->
    (forall i c, calls s' !! i = Some c -> calls s !! i = Some c \/ (c = Handled /\ is_Some (calls s !! i))) -> sim_effect s s' ev.

Lemma simStep_effect s ev s' : simStep s ev = Some s' -> sim_effect s s' ev.
Proof.
  intros H. destruct ev as [e|i|i|nid|nid|nid ps ch]; cbn [simStep] in H.
  - destruct e as [n e|n k c|n cmd|i|n]; try done.
    all: destruct (step (cluster s) _) as [c'|] eqn:E; cbn in H; simplify_eq; eapply E_move; [exact E|done|done|by left].
  - destruct (net (cluster s) !! i) as [m|] eqn:Em; cbn in H; [|done]. destruct (senderOf m) as [from|] eqn:Ef; cbn in H; [|done].
    destruct (calls s !! i) eqn:Ec; simplify_eq. apply E_quiet; [done|]. intros j c Hj. cbn in Hj.
    apply lookup_insert_Some in Hj as [[<- <-]|[_ Hj]]; [right|by left].
    split; [by destruct (resolve s from (destination m))|]. exists m, from. split_and!; [done|done|].
    unfold resolve. destruct (bool_decide (from ∈ isolated s)) eqn:B; cbn; [done|]. intros _. by apply bool_decide_eq_false in B.
  - destruct (calls s !! i) as [[]|] eqn:Ec; try done. destruct (step (cluster s) (EvDeliver i)) as [c'|] eqn:E; cbn in H; simplify_eq.
    eapply E_move; [exact E|done|by intros ? [= <-]|]. intros j c Hj. cbn in Hj.
    apply lookup_insert_Some in Hj as [[<- <-]|[_ Hj]]; [right; split; [done|by eexists]|by left].
  - simplify_eq. apply E_quiet; [done|by left].
  - simplify_eq. apply E_quiet; [done|by left].
  - simplify_eq. by apply E_add.
Qed.

Lemma net_ok_move s e c : net_ok s -> step (cluster s) e = Some c ->
  (forall i from to rpc args, net c !! i = Some (MAppendEntries from to rpc args) -> rpc = i) /\
  (forall i from to rpc reply, net c !! i = Some (MAppendEntriesReply from to rpc reply) -> (rpc < length (net c))%nat) /\
  (length (net (cluster s)) <= length (net c))%nat /\
  (forall n rt, nodes c !! n = Some rt -> calls_ok rt).
Proof.
  intros [Hrpc Hrep _ Hth] (n & rt & rt' & ms & _ & Hn & Hl & ->)%step_inv.
  destruct (localStep_sends _ _ _ _ _ _ Hl) as [Hs1 Hs2]. cbn [put net nodes]. rewrite length_app. split_and!; [..|lia|].
  - intros i from to rpc args [Hi|[Hle Hi]]%lookup_app_Some; [by eapply Hrpc|]. apply Hs1 in Hi. lia.
  - intros i from to rpc reply [Hi|[Hle Hi]]%lookup_app_Some; [apply Hrep in Hi; lia|].
    apply list_elem_of_lookup_2, Hs2 in Hi as (j & args & _ & Hj). pose proof (Hrpc _ _ _ _ _ Hj) as ->. apply lookup_lt_Some in Hj. lia.
  - intros m rm [[<- <-]|[_ Hm]]%lookup_insert_Some; [|by eapply Hth]. eapply localStep_calls; [exact Hl|]. by eapply Hth.
Qed.

Lemma net_ok_step s ev s' : simStep s ev = Some s' -> net_ok s -> net_ok s'.
Proof.
  intros H%simStep_effect Hok. destruct H as [ev Hcl Hc|nid ps ch ->|ev e He _ _ Hc].
  - destruct Hok as [H1 H2 H3 H4]. split; rewrite ?Hcl; try done. intros i c Hi.
    destruct (Hc _ _ Hi) as [Hold|(_ & m & from & Hm & _)]; [by eapply H3|by eapply lookup_lt_Some].
  - destruct Hok as [H1 H2 H3 H4]. split; try done. intros n rt Hn. cbn in Hn.
    apply lookup_insert_Some in Hn as [[<- <-]|[_ Hn]]; [|by eapply H4]. split; [done|]. intros c r Hin. by apply not_elem_of_nil in Hin.
  - destruct (net_ok_move s e _ Hok He) as (H1 & H2 & Hle & H4). split; try done.
    intros i c Hi. destruct (Hc _ _ Hi) as [Hold|[_ [c' Hold]]]; apply (no_calls s Hok) in Hold; lia.
Qed.

(** Call [c] of node [self] began when the network held [N] messages, [self]
    being isolated: no request of it gets through. *)
Section CutOff.
Context (self : string) (c N : nat).

(** A goroutine that has not heard of any success of the call. *)
Definition hushed (t : Thread) : Prop :=
  match t with
  | TReplicateWait c' _ _ rpc => c' = c -> (N <= rpc)%nat
  | TAck c' ok => c' = c -> ok = false
  | TCommit c' _ | TApplyStart (KClient c') | TApply (KClient c') _ => c' <> c
  | _ => True
  end.

Record cut_off (s : Sim) : Prop := {
  co_isolated : self ∈ isolated s;
  co_length : (N <= length (net (cluster s)))%nat;
  co_calls : forall i to rpc args, net (cluster s) !! i = Some (MAppendEntries self to rpc args) ->
    (N <= i)%nat -> calls s !! i <> Some Resolved;
  co_replies : forall from rpc reply, MAppendEntriesReply from self rpc reply ∈ net (cluster s) -> (rpc < N)%nat;
  co_node : exists rt, nodes (cluster s) !! self = Some rt /\ (c < length (threads rt))%nat /\
    (forall j t, threads rt !! j = Some t -> hushed t) /\ (c, None) ∉ results rt }.

Lemma threadStep_hushed rt sent k ch rt' ms : threadStep self rt sent k ch = Some (rt', ms) ->
  (N <= length sent)%nat -> (forall from rpc reply, MAppendEntriesReply from self rpc reply ∈ sent -> (rpc < N)%nat) ->
  (forall j t, threads rt !! j = Some t -> hushed t) -> (c, None) ∉ results rt ->
  (forall j t, threads rt' !! j = Some t -> hushed t) /\ (c, None) ∉ results rt'.
Proof.
  intros H HN Hrep Hth Hres. unfold threadStep in H. destruct (threads rt !! k) as [t|] eqn:Et; cbn in H; [|done].
  pose proof (Hth _ _ Et) as Hk. destruct t, ch; threadCases;
    (split; [repeat apply (forall_insert (fun _ => hushed)); try done|try done; set_solver]).
  all: try (apply aeReplyAt_elem, Hrep in Ereply; cbn; intros ->; specialize (Hk eq_refl); lia).
  all: try (cbn; by intros _).
  unfold countAck. case_match eqn:B; [|done]. apply andb_true_iff in B as [-> _].
  match goal with H : (_ =? _)%nat = true |- _ => apply Nat.eqb_eq in H as -> end. intros ->.
  match goal with H : threads rt !! _ = Some (TAck c true) |- _ => by specialize (Hth _ _ H eq_refl) end.
Qed.

(** The steps that leave [self] behind its partition. *)
Definition keepsOut (ev : SimEvent) : bool :=
  match ev with
  | SRestore nid | SAddNode nid _ _ => negb (bool_decide (nid = self))
  | _ => true
  end.

Lemma stays_isolated s ev s' : simStep s ev = Some s' -> keepsOut ev = true -> self ∈ isolated s -> self ∈ isolated s'.
Proof.
  intros H Hk Hs. destruct ev as [e|i|i|nid|nid|nid ps ch]; cbn [simStep] in H.
  - destruct e; try done; (destruct (step (cluster s) _); cbn in H; by simplify_eq).
  - destruct (net (cluster s) !! i); cbn in H; [|done]. destruct (senderOf _); cbn in H; [|done]. repeat case_match; by simplify_eq.
  - repeat case_match; try done. destruct (step (cluster s) (EvDeliver i)); cbn in H; by simplify_eq.
  - simplify_eq. cbn. set_solver.
  - simplify_eq. cbn in *. apply negb_true_iff, bool_decide_eq_false in Hk. set_solver.
  - by simplify_eq.
Qed.

Lemma cut_off_node e n rt rt' ms (s : Cluster) : localStep n rt (net s) e = Some (rt', ms) -> n = self ->
  (N <= length (net s))%nat -> (forall from rpc reply, MAppendEntriesReply from self rpc reply ∈ net s -> (rpc < N)%nat) ->
  (c < length (threads rt))%nat -> (forall j t, threads rt !! j = Some t -> hushed t) -> (c, None) ∉ results rt ->
  (c < length (threads rt'))%nat /\ (forall j t, threads rt' !! j = Some t -> hushed t) /\ (c, None) ∉ results rt'.
Proof.
  intros H -> HN Hrep Hc Hth Hres. apply localStep_threads in H as [ts rs Ht Hr Hts Hrs|k ch H].
  - rewrite Ht, Hr, length_app. split_and!; [lia| |].
    + intros j t [Hj|[_ Hj]]%lookup_app_Some; [by eapply Hth|]. destruct (Hts _ _ Hj) as [_ Hcall].
      destruct t as [| | | | | | |[]|[]|]; try done; specialize (Hcall _ eq_refl); cbn; lia.
    + intros [?|Hin]%elem_of_app; [done|]. by destruct (Hrs _ _ Hin) as (_ & ? & _).
  - split; [by rewrite (proj1 (threadStep_calls _ _ _ _ _ _ _ H))|]. by eapply threadStep_hushed.
Qed.

Lemma cut_off_step s ev s' : simStep s ev = Some s' -> keepsOut ev = true -> net_ok s -> cut_off s -> cut_off s'.
Proof.
  intros H Hk Hok [Hiso HN Hcalls Hrep Hnode]. pose proof (stays_isolated _ _ _ H Hk Hiso) as Hiso'.
  apply simStep_effect in H. destruct H as [ev Hcl Hc|nid ps ch ->|ev e He _ Hd Hc].
  - split; rewrite ?Hcl; try done. intros i to rpc args Hm Hi Hr.
    destruct (Hc _ _ Hr) as [Hold|(_ & m & from & Hm' & Hf & Hout)]; [by eapply Hcalls|].
    rewrite Hm in Hm'. simplify_eq/=. by apply Hout.
  - split; try done. destruct Hnode as (rt & Hn & Hrt). exists rt. split; [|done]. cbn in *.
    apply negb_true_iff, bool_decide_eq_false in Hk. by rewrite lookup_insert_ne.
  - apply step_inv in He as (n & rt & rt' & ms & _ & Hn & Hl & Hcl). destruct (localStep_sends _ _ _ _ _ _ Hl) as [_ Hs2].
    split; rewrite ?Hcl; cbn [put net nodes]; [done|rewrite length_app; lia|..].
    + intros i to rpc args Hm Hi Hr. destruct (Hc _ _ Hr) as [Hold|[? _]]; [|done].
      pose proof (no_calls s Hok _ _ Hold). rewrite lookup_app_l in Hm by done. by eapply Hcalls.
    + intros from rpc reply [Hin|Hin]%elem_of_app; [by eapply Hrep|].
      apply Hs2 in Hin as (i & args & -> & Hi). pose proof (no_rpc s Hok _ _ _ _ _ Hi) as ->.
      destruct (decide (i < N)%nat); [done|]. exfalso. eapply Hcalls; [exact Hi|lia|by apply Hd].
    + destruct Hnode as (r & Hr & Hlt & Hth & Hres). destruct (decide (n = self)) as [->|Hns].
      * rewrite Hn in Hr. injection Hr as <-. exists rt'. split; [by rewrite lookup_insert_eq|]. by eapply cut_off_node.
      * exists r. by rewrite lookup_insert_ne.
Qed.
End CutOff.

Lemma net_ok_run evs : forall s s', simExec s evs = Some s' -> net_ok s -> net_ok s'.
Proof.
  induction evs as [|ev evs IH]; intros s s' H Hok; cbn in H; [by simplify_eq|].
  destruct (simStep s ev) as [s1|] eqn:E; cbn in H; [|done]. eapply IH; [exact H|]. by eapply net_ok_step.
Qed.

Lemma cut_off_run self c N evs : forall s s', simExec s evs = Some s' -> Forall (fun ev => keepsOut self ev = true) evs ->
  net_ok s -> cut_off self c N s -> cut_off self c N s'.
Proof.
  induction evs as [|ev evs IH]; intros s s' H Hk Hok Hc; cbn in H; [by simplify_eq|].
  destruct (simStep s ev) as [s1|] eqn:E; cbn in H; [|done]. apply Forall_cons in Hk as [Hev Hk].
  eapply IH; [exact H|done|by eapply net_ok_step|by eapply cut_off_step].
Qed.

(** The call begins. *)
Lemma cut_off_start self cmd s s' rt : net_ok s -> self ∈ isolated s -> nodes (cluster s) !! self = Some rt ->
  simStep s (SNode (EvClient self cmd)) = Some s' -> cut_off self (length (threads rt)) (length (net (cluster s))) s'.
Proof.
  intros Hok Hiso Hn H. destruct (no_threads s Hok _ _ Hn) as [Hcalls Hr].
  assert ((length (threads rt), None) ∉ results rt) as Hres by (intros Hin; apply Hr in Hin; lia). cbn in H. unfold step in H. cbn [actor mbind option_bind] in H. rewrite Hn in H. cbn in H. simplify_eq.
  split; cbn [with_cluster isolated cluster put net nodes calls]; rewrite ?app_nil_r; [done|done|..].
  - intros i to rpc args Hi ?. apply lookup_lt_Some in Hi. lia.
  - intros from rpc reply [i Hi]%list_elem_of_lookup. by eapply (no_reply s Hok).
  - exists (clientStep rt cmd). split; [by rewrite lookup_insert_eq|].
    assert (forall j t, threads rt !! j = Some t -> hushed (length (threads rt)) (length (net (cluster s))) t) as Hold.
    { intros j t Hj. pose proof (fun cc => Hcalls _ _ cc Hj) as Hc.
      destruct t as [| | | | | | |[]|[]|]; try done; specialize (Hc _ eq_refl); cbn; lia. }
    unfold clientStep, replicateBegin. destruct (IsLeader (node rt)); cbn [negb spawn finish with_node threads results];
      rewrite length_app; (split_and!; [cbn; lia| |]).
    + intros j t [Hj|[_ Hj]]%lookup_app_Some; [by eapply Hold|].
      destruct (j - _)%nat; cbn in Hj; [by simplify_eq|]. by apply list_lookup_fmap_Some in Hj as (p & -> & _).
    + done.
    + intros j t [Hj|[_ Hj]]%lookup_app_Some; [by eapply Hold|]. by apply list_lookup_singleton_Some in Hj as [_ <-].
    + set_solver.
Qed.

(** C6. A leader behind a partition acknowledges nothing: let a client's
    command reach a node of the in-process cluster while the node is isolated;
    as long as the node is neither restored nor replaced, whatever else happens
    (timeouts, elections, other clients, other isolations, requests resolved
    before the partition), its [Replicate] call does not return success. *)
Theorem isolated_acknowledges_nothing ids ch evs1 cmd evs2 s s1 s2 self rt rt2 :
  simExec (NewSim ids ch) evs1 = Some s -> self ∈ isolated s -> nodes (cluster s) !! self = Some rt ->
  simStep s (SNode (EvClient self cmd)) = Some s1 ->
  simExec s1 evs2 = Some s2 -> Forall (fun ev => keepsOut self ev = true) evs2 ->
  nodes (cluster s2) !! self = Some rt2 -> (length (threads rt), None) ∉ results rt2.
Proof.
  intros H1 Hiso Hn Hc H2 Hk Hn2. pose proof (net_ok_run _ _ _ H1 (net_ok_init ids ch)) as Hok.
  pose proof (cut_off_start _ _ _ _ _ Hok Hiso Hn Hc) as Hcut. pose proof (net_ok_step _ _ _ Hc Hok) as Hok1.
  destruct (co_node _ _ _ _ (cut_off_run _ _ _ _ _ _ H2 Hk Hok1 Hcut)) as (r & Hr & _ & _ & Hres).
  by rewrite Hn2 in Hr; simplify_eq.
Qed.

(** ** A partition, and its end

    nodeA leads and is isolated; a client's "x" reaches it.  Its requests are
    refused and the call times out.  nodeB wins nodeC's vote, and the client's
    "y" is acknowledged.  After [Restore] nodeB's heartbeat replaces "x". *)
Definition beforePartition : list SimEvent :=
  (SNode <$> campaign "nodeA") ++ [SCall 0; SHandle 0] ++ (SNode <$> win "nodeA" "nodeB" 2) ++ [SIsolate "nodeA"].

Definition duringPartition : list SimEvent :=
  (SNode <$> go "nodeA" 1 1) ++ [SCall 3; SNode (EvThread "nodeA" 1 Lost)] ++
  (SNode <$> go "nodeA" 2 1) ++ [SCall 4; SNode (EvThread "nodeA" 2 Lost)] ++
  (SNode <$> [EvThread "nodeA" 0 (Take 1); EvThread "nodeA" 0 (Take 2); EvThread "nodeA" 0 Go]) ++
  (SNode <$> campaign "nodeB") ++ [SCall 5; SCall 6; SHandle 6] ++ (SNode <$> win "nodeB" "nodeC" 7) ++
  [SNode (EvClient "nodeB" "y")] ++ (SNode <$> go "nodeB" 2 1) ++ [SCall 8; SHandle 8] ++
  (SNode <$> [EvThread "nodeB" 2 (Reply 9); EvThread "nodeB" 0 (Take 2)] ++ go "nodeB" 0 4).

Definition afterPartition : list SimEvent :=
  [SRestore "nodeA"] ++ (SNode <$> beat "nodeB") ++ (SNode <$> go "nodeB" 3 1) ++ [SCall 10; SHandle 10].

Definition partitionRun : list SimEvent :=
  beforePartition ++ [SNode (EvClient "nodeA" "x")] ++ duringPartition ++ afterPartition.

(** The calls of nodeA are refused, the others are answered. *)
Lemma partition_calls : option_map (fun s => omap (calls s !!.) [0; 3; 4; 5; 6; 8; 10]%nat) (simExec (NewSim (simIds 3) (Some [])) partitionRun)
  = Some [Handled; Refused; Refused; Refused; Handled; Handled; Handled].
Proof. by vm_compute. Qed.

Lemma partition_heals :
  exists s, simExec (NewSim (simIds 3) (Some [])) partitionRun = Some s /\
    outcomes (cluster s) "nodeA" = [(0%nat, Some ErrReplicationTimeout)] /\
    outcomes (cluster s) "nodeB" = [(0%nat, None)] /\
    (forall n, n ∈ simIds 3 -> commands (cluster s) n = [""; "y"]) /\ leader_of (cluster s) "nodeB" 2 /\
    (exists rt, nodes (cluster s) !! "nodeA" = Some rt /\ state (node rt) = Follower).
Proof.
  destruct (simExec (NewSim (simIds 3) (Some [])) partitionRun) as [s|] eqn:E; [|by vm_compute in E].
  exists s. split; [done|]. vm_compute in E. injection E as <-. split_and!; [done|done| |..].
  - apply Forall_forall. by vm_compute; repeat constructor.
  - eexists. split_and!; reflexivity.
  - eexists. split; reflexivity.
Qed.

Lemma isolated_acknowledges_nothing_witness : exists s s1 s2 rt rt2,
  simExec (NewSim (simIds 3) (Some [])) beforePartition = Some s /\ nodes (cluster s) !! "nodeA" = Some rt /\
  simStep s (SNode (EvClient "nodeA" "x")) = Some s1 /\ simExec s1 duringPartition = Some s2 /\
  nodes (cluster s2) !! "nodeA" = Some rt2 /\ IsLeader (node rt2) = true /\ (length (threads rt), None) ∉ results rt2.
Proof.
  assert (match simExec (NewSim (simIds 3) (Some [])) beforePartition with
          | Some s => match nodes (cluster s) !! "nodeA", simStep s (SNode (EvClient "nodeA" "x")) with
            | Some rt, Some s1 => match simExec s1 duringPartition with
              | Some s2 => match nodes (cluster s2) !! "nodeA" with
                | Some rt2 => IsLeader (node rt2) && bool_decide ("nodeA" ∈ isolated s) | None => false end
              | None => false end
            | _, _ => false end
          | None => false end = true) as Hrun by (by vm_compute).
  destruct (simExec (NewSim (simIds 3) (Some [])) beforePartition) as [s|] eqn:E1; [|done].
  destruct (nodes (cluster s) !! "nodeA") as [rt|] eqn:E2; [|done].
  destruct (simStep s (SNode (EvClient "nodeA" "x"))) as [s1|] eqn:E3; [|done].
  destruct (simExec s1 duringPartition) as [s2|] eqn:E4; [|done].
  destruct (nodes (cluster s2) !! "nodeA") as [rt2|] eqn:E5; [|done]. apply andb_true_iff in Hrun as [Hl Hi].
  exists s, s1, s2, rt, rt2. split_and!; try done.
  apply (isolated_acknowledges_nothing (simIds 3) (Some []) beforePartition "x" duringPartition s s1 s2 "nodeA" rt rt2); try done.
  - by apply bool_decide_eq_true in Hi.
  - apply (bool_decide_unpack _). by vm_compute.
Defined.
