(* ===== verification/PyStr.v ===== *)
(** * Strings and integers as the sources read them

    A string is its byte sequence: Go's [string] and [[]byte] are byte
    sequences, and a Python [str] is represented by its UTF-8 encoding, so that
    [s.encode()] is the list of its bytes.  The functions below are the parts
    of Python's and Go's string libraries the sources use, on ASCII text:
    [split(",")], [strip()], [int()], [strconv.Atoi], [strings.TrimSpace] and
    decimal formatting ([pretty]).  The characters both languages strip only
    beyond ASCII (U+0085, U+00A0, ...) are not modelled. *)

From stdpp Require Export pretty.
From Stdlib Require Import Ascii.
From S2P Require Import Prelude.

(** The Python exceptions the scripts can raise and do not catch. *)
Inductive PyErr :=
  ValueError | ZeroDivisionError | KeyError | IndexError | TypeError | OverflowError | StatisticsError
| AttributeError | OSError | CsvError | UnicodeEncodeError | UnicodeDecodeError.

(** [l[i]] for a Python list: a negative index counts from the end, and an
    index outside the list raises. *)
Definition py_index {A} (l : list A) (i : Z) : result PyErr A :=
  let j := if i <? 0 then i + Z.of_nat (length l) else i in
  if j <? 0 then Err IndexError
  else match l !! Z.to_nat j with Some x => Ok x | None => Err IndexError end.

Lemma py_index_Ok {A} (l : list A) i :
  0 <= i < Z.of_nat (length l) -> exists x, py_index l i = Ok x /\ l !! Z.to_nat i = Some x.
Proof.
  intros Hi. destruct (lookup_lt_is_Some_2 l (Z.to_nat i)) as [x Hx]; [lia|].
  exists x. split; [|done]. unfold py_index.
  destruct (Z.ltb_spec i 0); [lia|]. destruct (Z.ltb_spec i 0); [lia|]. by rewrite Hx.
Qed.

Lemma py_index_elem {A} (l : list A) i x : py_index l i = Ok x -> x ∈ l.
Proof.
  unfold py_index. set (j := if i <? 0 then _ else _).
  destruct (j <? 0); [done|]. destruct (l !! Z.to_nat j) eqn:E; [|done].
  intros [= ->]. by eapply list_elem_of_lookup_2.
Qed.

(** A text is a string as the list of its bytes. *)
Definition text := list ascii.

Definition chars (s : string) : text := String.list_ascii_of_string s.
Definition str (t : text) : string := String.string_of_list_ascii t.

Lemma str_chars s : str (chars s) = s.
Proof. apply String.string_of_list_ascii_of_string. Qed.
Lemma chars_str t : chars (str t) = t.
Proof. apply String.list_ascii_of_string_of_list_ascii. Qed.

Lemma chars_append a b : chars (a +:+ b) = chars a ++ chars b.
Proof. induction a as [|c a IH]; [done|]. exact (f_equal (cons c) IH). Qed.

(** The bytes of a string, as integers in [0, 256). *)
Definition byteZ (c : ascii) : Z := Z.of_N (N_of_ascii c).

Definition bytes (s : string) : list Z := byteZ <$> String.list_ascii_of_string s.


(** ** Splitting and stripping, on lists of characters *)

(** [s.split(sep)] / [strings.Split(s, sep)] for a one-character separator:
    always at least one piece. *)
Fixpoint splitChars (sep : ascii) (s : list ascii) : list (list ascii) :=
  match s with
  | [] => [[]]
  | c :: s' =>
      if Ascii.eqb c sep then [] :: splitChars sep s'
      else match splitChars sep s' with
           | [] => [[c]]
           | p :: ps => (c :: p) :: ps
           end
  end.

Definition split (sep : ascii) (s : string) : list string :=
  String.string_of_list_ascii <$> splitChars sep (String.list_ascii_of_string s).

Fixpoint dropWhile (p : ascii -> bool) (s : list ascii) : list ascii :=
  match s with
  | [] => []
  | c :: s' => if p c then dropWhile p s' else s
  end.

Definition stripChars (p : ascii -> bool) (s : list ascii) : list ascii :=
  reverse (dropWhile p (reverse (dropWhile p s))).

(** [unicode.IsSpace] on ASCII: tab, LF, VT, FF, CR and space. *)
Definition goSpace (c : ascii) : bool :=
  ((9 <=? byteZ c) && (byteZ c <=? 13)) || (byteZ c =? 32).

(** [str.isspace] on ASCII: the same and the separators 0x1c .. 0x1f. *)
Definition pySpace (c : ascii) : bool :=
  goSpace c || ((28 <=? byteZ c) && (byteZ c <=? 31)).

Definition strip (s : string) : string :=
  String.string_of_list_ascii (stripChars pySpace (String.list_ascii_of_string s)).

Definition TrimSpace (s : string) : string :=
  String.string_of_list_ascii (stripChars goSpace (String.list_ascii_of_string s)).

(** ** Integers *)

Definition digit (c : ascii) : option Z :=
  let b := byteZ c in
  if (48 <=? b) && (b <=? 57) then Some (b - 48) else None.

(** Decimal digits only; the accumulator is the value read so far. *)
Fixpoint readDigits (acc : Z) (s : list ascii) : option Z :=
  match s with
  | [] => Some acc
  | c :: s' => d ← digit c; readDigits (acc * 10 + d) s'
  end.

(** [int()] also accepts single underscores between digits. *)
Fixpoint readDigitsUnderscore (acc : Z) (s : list ascii) : option Z :=
  match s with
  | [] => Some acc
  | c :: s' =>
      match digit c with
      | Some d => readDigitsUnderscore (acc * 10 + d) s'
      | None =>
          if Ascii.eqb c "_"
          then match s' with
               | c' :: s'' => d ← digit c'; readDigitsUnderscore (acc * 10 + d) s''
               | [] => None
               end
          else None
      end
  end.

(** The sign and the rest. *)
Definition signed (s : list ascii) : Z * list ascii :=
  match s with
  | "-"%char :: s' => (-1, s')
  | "+"%char :: s' => (1, s')
  | _ => (1, s)
  end.

(** A nonempty digit sequence starts with a digit. *)
Definition pyIntChars (s : list ascii) : option Z :=
  let '(sg, ds) := signed s in
  match ds with
  | [] => None
  | c :: ds' => d ← digit c; v ← readDigitsUnderscore d ds'; Some (sg * v)
  end.

(** Python's [int(s)]; [None] is [ValueError]. *)
Definition py_int (s : string) : option Z :=
  pyIntChars (stripChars pySpace (String.list_ascii_of_string s)).

(** Go's [strconv.Atoi] on a 64-bit [int]; [None] is an error. *)
Definition Atoi (s : string) : option Z :=
  let '(sg, ds) := signed (String.list_ascii_of_string s) in
  match ds with
  | [] => None
  | _ =>
      v ← readDigits 0 ds;
      if (- 2 ^ 63 <=? sg * v) && (sg * v <? 2 ^ 63) then Some (sg * v) else None
  end.

(** ** Text *)

(** [sep.join(l)] *)
Fixpoint join (sep : string) (l : list string) : string :=
  match l with
  | [] => ""
  | [s] => s
  | s :: l' => s +:+ sep +:+ join sep l'
  end.

(** [s * n] *)
Fixpoint repeatStr (n : nat) (s : string) : string := match n with O => "" | S n' => s +:+ repeatStr n' s end.

(** [f"{s:<w}"] and [f"{s:>w}"] *)
Definition ljust (w : nat) (s : string) : string := s +:+ repeatStr (w - String.length s) " ".
Definition rjust (w : nat) (s : string) : string := repeatStr (w - String.length s) " " +:+ s.

(** ** Where the two languages agree *)

Lemma digit_not_space c d : digit c = Some d -> pySpace c = false.
Proof.
  unfold digit, pySpace, goSpace. case_if; [|done]. intros _. breflect.
  repeat match goal with |- context [?a <=? ?b] => destruct (Z.leb_spec a b)
                       | |- context [?a =? ?b] => destruct (Z.eqb_spec a b) end;
    simpl; try done; lia.
Qed.

Lemma readDigits_spaces acc s v :
  readDigits acc s = Some v -> Forall (fun c => pySpace c = false) s.
Proof.
  revert acc. induction s as [|c s IH]; intros acc H; simpl in H; [done|].
  destruct (digit c) as [d|] eqn:E; simplify_eq/=.
  constructor; [by eapply digit_not_space|by eapply IH].
Qed.

Lemma readDigits_underscore acc s v :
  readDigits acc s = Some v -> readDigitsUnderscore acc s = Some v.
Proof.
  revert acc. induction s as [|c s IH]; intros acc H; simpl in *; [done|].
  destruct (digit c) as [d|]; simplify_eq/=. by apply IH.
Qed.

Lemma dropWhile_none p s : Forall (fun c => p c = false) s -> dropWhile p s = s.
Proof. intros [|c s' Hc _]; simpl; [done|]. by rewrite Hc. Qed.

Lemma stripChars_none p s : Forall (fun c => p c = false) s -> stripChars p s = s.
Proof.
  intros H. unfold stripChars. rewrite (dropWhile_none p s) by done.
  rewrite dropWhile_none; [apply reverse_involutive|]. by apply Forall_reverse.
Qed.

Lemma dropWhile_ext p q s : Forall (fun c => p c = q c) s -> dropWhile p s = dropWhile q s.
Proof. induction 1 as [|c s Hc _ IH]; simpl; [done|]. rewrite Hc. by rewrite IH. Qed.

Lemma dropWhile_Forall (P : ascii -> Prop) p s : Forall P s -> Forall P (dropWhile p s).
Proof. induction 1 as [|c s Hc Hs IH]; simpl; [done|]. case_if; auto. Qed.

Lemma stripChars_ext p q s : Forall (fun c => p c = q c) s -> stripChars p s = stripChars q s.
Proof.
  intros H. unfold stripChars. rewrite (dropWhile_ext p q s) by done. f_equal.
  apply dropWhile_ext, Forall_reverse. by apply dropWhile_Forall.
Qed.

(** No character that only Python strips. *)
Definition plainChars (s : list ascii) : Prop := Forall (fun c => pySpace c = goSpace c) s.
Definition plain (s : string) : Prop := plainChars (String.list_ascii_of_string s).

#[export] Instance plain_dec s : Decision (plain s).
Proof. unfold plain, plainChars. apply _. Defined.

Lemma strip_TrimSpace s : plain s -> strip s = TrimSpace s.
Proof. intros H. unfold strip, TrimSpace. by rewrite (stripChars_ext pySpace goSpace). Qed.

Lemma splitChars_plain sep s : plainChars s -> Forall plainChars (splitChars sep s).
Proof.
  induction 1 as [|c s Hc _ IH]; simpl; [by repeat constructor|]. case_if; [by repeat constructor|].
  destruct (splitChars sep s) as [|q qs]; [by repeat constructor|].
  apply Forall_cons in IH as [? ?]. by repeat constructor.
Qed.

Lemma split_plain sep s : plain s -> Forall plain (split sep s).
Proof.
  intros H. unfold split. apply Forall_fmap. eapply Forall_impl; [by apply splitChars_plain|].
  intros x Hx. unfold compose, plain. by rewrite String.list_ascii_of_string_of_list_ascii.
Qed.

(** What Go accepts, Python reads as the same integer. *)
Lemma Atoi_py_int s z : Atoi s = Some z -> py_int s = Some z.
Proof.
  unfold Atoi, py_int. set (l := String.list_ascii_of_string s).
  destruct (signed l) as [sg ds] eqn:Hs. destruct ds as [|c ds]; [done|].
  destruct (readDigits 0 (c :: ds)) as [v|] eqn:Hr; [|done]. cbn [mbind option_bind].
  case_if; [|done]. intros [= <-].
  pose proof (readDigits_spaces _ _ _ Hr) as Hsp.
  assert (Forall (fun x => pySpace x = false) l) as Hl.
  { unfold signed in Hs. destruct l as [|x l']; [by simplify_eq|].
    destruct x as [[] [] [] [] [] [] [] []]; simplify_eq; (done || by constructor). }
  rewrite stripChars_none by done. unfold pyIntChars. rewrite Hs.
  cbn [readDigits] in Hr. cbn [readDigitsUnderscore]. destruct (digit c) as [d|]; [|done].
  cbn [mbind option_bind] in *. rewrite Z.mul_0_l, Z.add_0_l in Hr.
  by rewrite (readDigits_underscore _ _ _ Hr).
Qed.

Example py_int_ex : py_int " 12_3 " = Some 123 /\ Atoi " 12" = None /\ py_int "1__2" = None.
Proof. by vm_compute. Qed.

Example split_ex : split "," "a, b,,c" = ["a"; " b"; ""; "c"] /\ split "," "" = [""].
Proof. by vm_compute. Qed.

(** ** UTF-8

    A string is the list of its bytes in UTF-8.  Python's strings may also hold
    lone surrogates, whose three bytes are not valid UTF-8: a file opened with
    [encoding="utf-8"] refuses to write them, and refuses to read any other
    invalid byte. *)

(** [need] more bytes of a character are expected, the next one between [lo] and
    [hi]. *)
Fixpoint utf8From (need : nat) (lo hi : Z) (t : text) : bool :=
  match t with
  | [] => (need =? 0)%nat
  | c :: t' =>
      let b := byteZ c in
      match need with
      | O => if b <? 128 then utf8From 0 128 191 t'
             else if (194 <=? b) && (b <=? 223) then utf8From 1 128 191 t'
             else if b =? 224 then utf8From 2 160 191 t'
             else if b =? 237 then utf8From 2 128 159 t'
             else if (225 <=? b) && (b <=? 239) then utf8From 2 128 191 t'
             else if b =? 240 then utf8From 3 144 191 t'
             else if b =? 244 then utf8From 3 128 143 t'
             else if (241 <=? b) && (b <=? 243) then utf8From 3 128 191 t'
             else false
      | S n => (lo <=? b) && (b <=? hi) && utf8From n 128 191 t'
      end
  end.

Definition validUtf8 (t : text) : bool := utf8From 0 128 191 t.

Definition encodeUtf8 (t : text) : result PyErr text := if validUtf8 t then Ok t else Err UnicodeEncodeError.
Definition decodeUtf8 (t : text) : result PyErr text := if validUtf8 t then Ok t else Err UnicodeDecodeError.

Example validUtf8_ex :
  validUtf8 (chars "a✓") = true /\ validUtf8 (Ascii.ascii_of_nat <$> [237; 160; 128]%nat) = false /\ validUtf8 (Ascii.ascii_of_nat <$> [192; 128]%nat) = false /\
  validUtf8 (Ascii.ascii_of_nat <$> [226; 156]%nat) = false /\ validUtf8 (Ascii.ascii_of_nat <$> [244; 143; 191; 191]%nat) = true.
Proof. by vm_compute. Qed.
