(* ===== verification/Shard.v ===== *)
(** * Sharding: FNV-1a key placement, shard maps and the router

    The Go side ([shard/hashing.go], [config/config.go], [shard/router.go]) and
    the Python side ([horizontal_scaling/experiment.py]) each hash a key to a
    shard and read the shard addresses from the same environment variables.
    This file models both and proves that they place every key alike. *)

From Stdlib Require Import Ascii.
From S2P Require Import Prelude PyStr.
#[local] Open Scope Z_scope.

(** ** FNV-1a *)

Definition FNV_OFFSET : Z := 0x811C9DC5.
Definition FNV_PRIME : Z := 0x01000193.

(** One round of the Python loop: xor in the byte, multiply, mask. *)
Definition fnvRound (h b : Z) : Z := Z.land (Z.lxor h b * FNV_PRIME) 0xFFFFFFFF.

Definition fnv1a_32 (s : string) : Z := foldl fnvRound FNV_OFFSET (bytes s).

(** [total_shards] may be any integer: zero raises, and a negative modulus
    gives a result with its sign. *)
Definition key_to_shard (key : string) (total_shards : Z) : result PyErr Z :=
  if total_shards =? 0 then Err ZeroDivisionError else Ok (fnv1a_32 key mod total_shards).

(** [fnv.New32a().Write]: [uint32] arithmetic wraps around. *)
Definition sum32a (s : string) : Z :=
  foldl (fun h b => u32 (Z.lxor h b * 16777619)) 2166136261 (bytes s).

(** Go's [%] truncates toward zero; [None] is the division panic. *)
Definition KeyToShard (key : string) (totalShards : Z) : option Z :=
  if totalShards =? 0 then None else Some (Z.rem (sum32a key) totalShards).

(** ** Shard maps from the environment *)

Definition Env := gmap string string.

Definition addrsVar (i : Z) : string := "CLIENT_SHARD_" +:+ pretty i +:+ "_ADDRS".

(** [[a.strip() for a in raw.split(",") if a.strip()]] *)
Definition parseAddrs (raw : string) : list string :=
  filter (fun a => a <> "") (strip <$> split ","%char raw).

Definition addShard (env : Env) (shards : gmap Z (list string)) (i : Z) : gmap Z (list string) :=
  <[i := parseAddrs (default "" (env !! addrsVar i))]> shards.

Definition build_shard_map (env : Env) : result PyErr (Z * gmap Z (list string)) :=
  match py_int (default "1" (env !! "CLIENT_SHARDS_TOTAL")) with
  | None => Err ValueError
  | Some total => Ok (total, foldl (addShard env) ∅ (seqZ 0 total))
  end.

Record Shard := mkShard { ID : Z; Addrs : list string }.
Record Config := mkConfig { TotalShards : Z; Shards : list Shard }.

Inductive ConfigError :=
| ErrNotPositive (got : string)
| ErrMissing (var : string)
| ErrEmpty (var : string).

Definition Getenv (env : Env) (var : string) : string := default "" (env !! var).

(** The loop over [strings.Split(raw, ",")]. *)
Definition splitAddrs (raw : string) : list string :=
  foldl (fun addrs a => let a := TrimSpace a in if bool_decide (a = "") then addrs else addrs ++ [a])
        [] (split ","%char raw).

(** One iteration of the loop over the shards. *)
Definition loadShard (env : Env) (i : Z) : result ConfigError Shard :=
  let key := addrsVar i in
  let raw := Getenv env key in
  if bool_decide (raw = "") then Err (ErrMissing key)
  else let addrs := splitAddrs raw in
       if bool_decide (addrs = []) then Err (ErrEmpty key) else Ok (mkShard i addrs).

Fixpoint loadShards (env : Env) (ids : list Z) : result ConfigError (list Shard) :=
  match ids with
  | [] => Ok []
  | i :: ids' =>
      (s <-? loadShard env i ;; ss <-? loadShards env ids' ;; Ok (s :: ss))%result
  end.

Definition LoadFromEnv (env : Env) : result ConfigError Config :=
  let raw := Getenv env "CLIENT_SHARDS_TOTAL" in
  let totalStr := if bool_decide (raw = "") then "1" else raw in
  match Atoi totalStr with
  | Some total =>
      if total <? 1 then Err (ErrNotPositive totalStr)
      else (shards <-? loadShards env (seqZ 0 total) ;; Ok (mkConfig total shards))%result
  | None => Err (ErrNotPositive totalStr)
  end.

(** ** The router *)

(** [r.shards[id]]; [None] is the panic of an index out of range or of a
    division by zero. *)
Definition route (cfg : Config) (key : string) : option Shard :=
  id ← KeyToShard key (TotalShards cfg); if id <? 0 then None else Shards cfg !! Z.to_nat id.

Definition keyURL (addr key : string) : string := addr +:+ "/v1/keys/" +:+ key.

(** [resp.StatusCode], and what [json.NewDecoder(resp.Body).Decode(&body)]
    leaves in [(body.Value, body.Found)], or its error. *)
Record Response := mkResponse { StatusCode : Z; Decoded : option (string * bool) }.

Inductive Method := GET | PUT (value : string) | DELETE.

Inductive RouterError := ErrNoNode (shardID : Z) | ErrDecode.

Section Router.
(** The network: a request may change the world; [None] is a transport error. *)
Context {W : Type} (Do : W -> Method -> string -> W * option Response).

Fixpoint getLoop (w : W) (id : Z) (key : string) (addrs : list string)
    : W * result RouterError (string * bool) :=
  match addrs with
  | [] => (w, Err (ErrNoNode id))
  | addr :: rest =>
      let '(w', r) := Do w GET (keyURL addr key) in
      match r with
      | None => getLoop w' id key rest
      | Some resp =>
          if StatusCode resp =? 404 then (w', Ok ("", false))
          else if negb (StatusCode resp =? 200) then getLoop w' id key rest
          else (w', match Decoded resp with Some b => Ok b | None => Err ErrDecode end)
      end
  end.

(** The loop [Put] and [Delete] share: the first address whose status is
    accepted ends it. *)
Fixpoint tryEach (accept : Z -> bool) (m : Method) (w : W) (id : Z) (key : string) (addrs : list string)
    : W * result RouterError unit :=
  match addrs with
  | [] => (w, Err (ErrNoNode id))
  | addr :: rest =>
      let '(w', r) := Do w m (keyURL addr key) in
      match r with
      | None => tryEach accept m w' id key rest
      | Some resp => if accept (StatusCode resp) then (w', Ok tt) else tryEach accept m w' id key rest
      end
  end.

(** The three operations; [None] is the panic of [route]. *)
Definition Get (cfg : Config) (w : W) (key : string) : option (W * result RouterError (string * bool)) :=
  s ← route cfg key; Some (getLoop w (ID s) key (Addrs s)).

Definition Put (cfg : Config) (w : W) (key value : string) : option (W * result RouterError unit) :=
  s ← route cfg key; Some (tryEach (fun c => c =? 200) (PUT value) w (ID s) key (Addrs s)).

Definition Delete (cfg : Config) (w : W) (key : string) : option (W * result RouterError unit) :=
  s ← route cfg key;
  Some (tryEach (fun c => (c =? 204) || (c =? 200)) DELETE w (ID s) key (Addrs s)).

(** The addresses were asked in turn, and none gave an answer with a wanted
    status. *)
Inductive refusedBy (m : Method) (wanted : Z -> Prop) (key : string) : list string -> W -> W -> Prop :=
| refusedBy_none w : refusedBy m wanted key [] w w
| refusedBy_next addr addrs w w1 a w2 : Do w m (addr +:+ "/v1/keys/" +:+ key) = (w1, a) ->
    (forall resp, a = Some resp -> ~ wanted (StatusCode resp)) -> refusedBy m wanted key addrs w1 w2 ->
    refusedBy m wanted key (addr :: addrs) w w2.

(** The first wanted answer ends the operation, with the result it gives; without
    one every address was asked, and the error names the shard. *)
Definition firstAnswer {A} (m : Method) (wanted : Z -> Prop) (answer : Response -> result RouterError A)
    (s : Shard) (key : string) (w w' : W) (r : result RouterError A) : Prop :=
  (exists pre addr post w1 resp, Addrs s = pre ++ addr :: post /\ refusedBy m wanted key pre w w1 /\
     Do w1 m (addr +:+ "/v1/keys/" +:+ key) = (w', Some resp) /\ wanted (StatusCode resp) /\ r = answer resp) \/
  (refusedBy m wanted key (Addrs s) w w' /\ r = Err (ErrNoNode (ID s))).

Lemma firstAnswer_next {A} m wanted (res : Response -> result RouterError A) id addr addrs key w w1 a w' r :
  Do w m (addr +:+ "/v1/keys/" +:+ key) = (w1, a) -> (forall resp, a = Some resp -> ~ wanted (StatusCode resp)) ->
  firstAnswer m wanted res (mkShard id addrs) key w1 w' r -> firstAnswer m wanted res (mkShard id (addr :: addrs)) key w w' r.
Proof.
  intros Hd Ha [(pre & addr' & post & w2 & resp & Heq & Hpre & Hrest)|[Hall ->]].
  - left. cbn in Heq. subst addrs. exists (addr :: pre), addr', post, w2, resp. split; [done|]. split; [by econstructor|done].
  - right. split; [by econstructor|done].
Qed.

Lemma tryEach_first (accept : Z -> bool) (wanted : Z -> Prop) m w id key addrs :
  (forall c, accept c = true <-> wanted c) ->
  exists w' r, tryEach accept m w id key addrs = (w', r) /\ firstAnswer m wanted (fun _ => Ok tt) (mkShard id addrs) key w w' r.
Proof.
  intros Hw. revert w. induction addrs as [|addr rest IH]; intros w; cbn [tryEach].
  { exists w, (Err (ErrNoNode id)). split; [done|right; split; [constructor|done]]. }
  destruct (Do w m (keyURL addr key)) as [w1 a] eqn:Hd. destruct (IH w1) as (w' & r & Ht & Hf).
  assert ((forall resp, a = Some resp -> ~ wanted (StatusCode resp)) -> exists w' r, tryEach accept m w1 id key rest = (w', r) /\
    firstAnswer m wanted (fun _ => Ok tt) (mkShard id (addr :: rest)) key w w' r) as Hnext.
  { intros Ha. exists w', r. split; [done|]. by eapply firstAnswer_next. }
  destruct a as [resp|]; [|by apply Hnext]. destruct (accept (StatusCode resp)) eqn:Hac.
  - exists w1, (Ok tt). split; [done|]. left. exists [], addr, rest, w, resp. split_and!; [done|constructor|done|by apply Hw|done].
  - apply Hnext. intros ? [= <-] Hwant%Hw. congruence.
Qed.

Lemma getLoop_first w id key addrs :
  exists w' r, getLoop w id key addrs = (w', r) /\
    firstAnswer GET (fun c => c = 200 \/ c = 404)
      (fun resp => if decide (StatusCode resp = 404) then Ok ("", false)
                   else match Decoded resp with Some b => Ok b | None => Err ErrDecode end) (mkShard id addrs) key w w' r.
Proof.
  revert w. induction addrs as [|addr rest IH]; intros w; cbn [getLoop].
  { exists w, (Err (ErrNoNode id)). split; [done|right; split; [constructor|done]]. }
  destruct (Do w GET (keyURL addr key)) as [w1 a] eqn:Hd. destruct (IH w1) as (w' & r & Ht & Hf).
  destruct a as [resp|]; [|exists w', r; split; [done|]; by eapply firstAnswer_next].
  assert (StatusCode resp = 200 \/ StatusCode resp = 404 -> forall r', r' = (if decide (StatusCode resp = 404) then Ok ("", false)
    else match Decoded resp with Some b => Ok b | None => Err ErrDecode end) -> firstAnswer GET (fun c => c = 200 \/ c = 404)
      (fun resp => if decide (StatusCode resp = 404) then Ok ("", false)
                   else match Decoded resp with Some b => Ok b | None => Err ErrDecode end) (mkShard id (addr :: rest)) key w w1 r') as Hhere.
  { intros Hw r' ->. left. exists [], addr, rest, w, resp. split_and!; [done|constructor|done|done|done]. }
  destruct (Z.eqb_spec (StatusCode resp) 404) as [H4|H4]; [eexists _, _; split; [done|]; apply Hhere; [by right|by rewrite decide_True]|].
  destruct (Z.eqb_spec (StatusCode resp) 200) as [H2|H2]; cbn [negb].
  - eexists _, _. split; [done|]. apply Hhere; [by left|by rewrite decide_False].
  - exists w', r. split; [done|]. eapply firstAnswer_next; [done|by intros ? [= <-] [?|?]|done].
Qed.
End Router.

(** ** The hashes agree *)

Lemma sum32a_fnv1a s : sum32a s = fnv1a_32 s.
Proof.
  unfold sum32a, fnv1a_32. generalize (bytes s) as l. change 2166136261 with FNV_OFFSET.
  generalize FNV_OFFSET as h. intros h l. revert h.
  induction l as [|b l IH]; intros h; cbn [foldl]; [done|]. rewrite IH. f_equal.
  unfold u32, fnvRound, FNV_PRIME. change 0xFFFFFFFF with (Z.ones 32).
  by rewrite Z.land_ones by lia.
Qed.

Lemma fnv1a_32_range s : 0 <= fnv1a_32 s < 2 ^ 32.
Proof.
  unfold fnv1a_32. generalize (bytes s) as l. assert (0 <= FNV_OFFSET < 2 ^ 32) as H by done.
  revert H. generalize FNV_OFFSET as h. intros h H l. revert h H.
  induction l as [|b l IH]; intros h H; cbn [foldl]; [done|]. apply IH.
  unfold fnvRound. change 0xFFFFFFFF with (Z.ones 32). rewrite Z.land_ones by lia.
  apply Z.mod_pos_bound. lia.
Qed.

Lemma KeyToShard_key_to_shard key total :
  0 < total -> exists id, KeyToShard key total = Some id /\ key_to_shard key total = Ok id /\ 0 <= id < total.
Proof.
  intros Ht. unfold KeyToShard, key_to_shard. pose proof (fnv1a_32_range key).
  destruct (Z.eqb_spec total 0); [lia|].
  exists (fnv1a_32 key mod total). rewrite sum32a_fnv1a, Z.rem_mod_nonneg by lia.
  split_and!; [done|done|..]; apply Z.mod_pos_bound; lia.
Qed.

(** ** The shard maps agree *)

Lemma splitAddrs_filter raw : splitAddrs raw = filter (fun a => a <> "") (TrimSpace <$> split ","%char raw).
Proof.
  unfold splitAddrs. generalize (split ","%char raw) as l. intros l.
  enough (forall acc, foldl (fun addrs a => let a := TrimSpace a in
      if bool_decide (a = "") then addrs else addrs ++ [a]) acc l
      = acc ++ filter (fun a => a <> "") (TrimSpace <$> l)) as H by apply (H []).
  induction l as [|a l IH]; intros acc; cbn [foldl fmap list_fmap]; [by rewrite app_nil_r|].
  rewrite IH, filter_cons. case_bool_decide; case_decide; try done; by rewrite <- app_assoc.
Qed.

Lemma parseAddrs_splitAddrs raw : plain raw -> parseAddrs raw = splitAddrs raw.
Proof.
  intros H. rewrite splitAddrs_filter. unfold parseAddrs. f_equal.
  apply list_fmap_ext. intros i x Hx. apply strip_TrimSpace.
  pose proof (split_plain ","%char raw H) as Hp. rewrite Forall_lookup in Hp. by eapply Hp.
Qed.

(** What a Python shard map holds: exactly the shards [0 .. total - 1]. *)
Lemma addShards_lookup env ids m i :
  foldl (addShard env) m ids !! i =
  if bool_decide (i ∈ ids) then Some (parseAddrs (default "" (env !! addrsVar i))) else m !! i.
Proof.
  revert m. induction ids as [|j ids IH]; intros m; cbn [foldl]; [done|].
  rewrite IH. unfold addShard. destruct (decide (i = j)) as [->|Hne].
  - rewrite (bool_decide_eq_true_2 (j ∈ j :: ids)) by by left. 
    case_bool_decide; [done|]. by rewrite lookup_insert_eq.
  - rewrite lookup_insert_ne by done. erewrite bool_decide_ext; [done|]. set_solver.
Qed.

Lemma build_shard_map_lookup env total m i :
  build_shard_map env = Ok (total, m) ->
  m !! i = if bool_decide (0 <= i < total) then Some (parseAddrs (default "" (env !! addrsVar i))) else None.
Proof.
  unfold build_shard_map. case_match; [|done]. intros [= -> <-]. rewrite addShards_lookup.
  rewrite lookup_empty. erewrite bool_decide_ext; [done|]. rewrite elem_of_seqZ. lia.
Qed.

(** A configuration in which every key has an owner with an address. *)
Definition config_ok (env : Env) (cfg : Config) : Prop :=
  0 < TotalShards cfg /\ Z.of_nat (length (Shards cfg)) = TotalShards cfg /\
  forall i, 0 <= i < TotalShards cfg -> exists s, Shards cfg !! Z.to_nat i = Some s /\ ID s = i /\
    Addrs s = splitAddrs (Getenv env (addrsVar i)) /\ Addrs s <> [].

Lemma loadShard_Ok env i s :
  loadShard env i = Ok s -> s = mkShard i (splitAddrs (Getenv env (addrsVar i))) /\ Addrs s <> [].
Proof. unfold loadShard. case_bool_decide; [done|]. case_bool_decide; [done|]. by intros [= <-]. Qed.

Lemma loadShards_Ok env ids ss :
  loadShards env ids = Ok ss ->
  Forall2 (fun i s => s = mkShard i (splitAddrs (Getenv env (addrsVar i))) /\ Addrs s <> []) ids ss.
Proof.
  revert ss. induction ids as [|i ids IH]; intros ss H; simpl in H; [by simplify_eq|].
  apply rbind_Ok in H as (s & Hs & H). apply rbind_Ok in H as (ss' & Hss & [= <-]).
  constructor; [by apply loadShard_Ok|by apply IH].
Qed.

Lemma LoadFromEnv_ok env cfg : LoadFromEnv env = Ok cfg -> config_ok env cfg.
Proof.
  unfold LoadFromEnv. case_match; [|done]. case_if; [done|]. breflect.
  intros (ss & Hss & [= <-])%rbind_Ok. apply loadShards_Ok in Hss. unfold config_ok; simpl.
  pose proof (Forall2_length _ _ _ Hss) as Hlen. rewrite length_seqZ in Hlen.
  split_and!; [lia..|]. intros i Hi.
  destruct (Forall2_lookup_l _ _ _ (Z.to_nat i) i Hss) as (s & Hs & -> & ?).
  { rewrite lookup_seqZ. lia. }
  eexists. split_and!; [done|done|done|done].
Qed.

Lemma route_config_ok env cfg key :
  config_ok env cfg -> exists id s, KeyToShard key (TotalShards cfg) = Some id /\
    route cfg key = Some s /\ ID s = id /\ Addrs s = splitAddrs (Getenv env (addrsVar id)) /\ Addrs s <> [].
Proof.
  intros (Ht & Hlen & Hall). destruct (KeyToShard_key_to_shard key _ Ht) as (id & Hk & _ & Hid).
  destruct (Hall id Hid) as (s & Hs & ? & ? & ?). exists id, s.
  unfold route. rewrite Hk. cbn [mbind option_bind]. destruct (Z.ltb_spec id 0); [lia|]. done.
Qed.

(** The owner of a key, seen by both sides. *)
Lemma shard_owner env cfg m key :
  LoadFromEnv env = Ok cfg -> map_Forall (fun _ v => plain v) env ->
  build_shard_map env = Ok (TotalShards cfg, m) ->
  exists id s, key_to_shard key (TotalShards cfg) = Ok id /\ route cfg key = Some s /\
    ID s = id /\ m !! id = Some (Addrs s) /\ Addrs s <> [].
Proof.
  intros Hload Hplain Hm. pose proof (LoadFromEnv_ok _ _ Hload) as Hok.
  destruct (route_config_ok _ _ key Hok) as (id & s & Hk & Hr & Hid & Ha & Hnil).
  destruct (KeyToShard_key_to_shard key (TotalShards cfg)) as (id' & Hk' & Hpy & Hrange); [apply Hok|].
  rewrite Hk in Hk'. injection Hk' as <-. exists id, s. split_and!; try done.
  rewrite (build_shard_map_lookup _ _ _ id Hm), bool_decide_eq_true_2 by done.
  rewrite Ha. f_equal. unfold Getenv. destruct (env !! addrsVar id) as [v|] eqn:Hv; [|done].
  by apply parseAddrs_splitAddrs, (Hplain _ _ Hv).
Qed.

(** C30. Key placement: for every positive shard count, the load generator's
    [key_to_shard] and the server side's [KeyToShard] give the same shard, and
    it is one of [0 .. total - 1]: masking with [0xFFFFFFFF] after each
    multiplication is [uint32] wrap-around, and Python's [%] is Go's on the
    result. With zero shards, Python raises and Go panics. *)
Theorem shard_placement_agrees (key : string) (total : Z) :
  (0 < total -> exists id, KeyToShard key total = Some id /\ key_to_shard key total = Ok id /\ 0 <= id < total) /\
  (total = 0 -> KeyToShard key total = None /\ key_to_shard key total = Err ZeroDivisionError).
Proof. split; [apply KeyToShard_key_to_shard|by intros ->]. Qed.

(** At two shards the key [key-7] of the load generator is on shard 0. *)
Lemma shard_placement_agrees_witness :
  exists id, KeyToShard "key-7" 2 = Some id /\ key_to_shard "key-7" 2 = Ok id /\ 0 <= id < 2.
Proof. apply (proj1 (shard_placement_agrees "key-7" 2)). lia. Defined.

(** C31. The two readers of [CLIENT_SHARDS_TOTAL] and [CLIENT_SHARD_<i>_ADDRS]
    agree: whenever [config.LoadFromEnv] accepts an environment (whose total is
    unset or nonempty, and whose values have no character that only Python
    strips), [build_shard_map] accepts it with the same total, and for every
    key the addresses the load generator looks up are exactly those of the
    shard the Go router routes to, which exist and are not empty. *)
Theorem shard_maps_agree (env : Env) (cfg : Config) :
  LoadFromEnv env = Ok cfg ->
  env !! "CLIENT_SHARDS_TOTAL" <> Some "" ->
  map_Forall (fun _ v => plain v) env ->
  exists m, build_shard_map env = Ok (TotalShards cfg, m) /\
    forall key, exists id s, key_to_shard key (TotalShards cfg) = Ok id /\
      route cfg key = Some s /\ ID s = id /\ m !! id = Some (Addrs s) /\ Addrs s <> [].
Proof.
  intros Hload Hne Hplain. pose proof (LoadFromEnv_ok _ _ Hload) as Hok.
  assert (exists m, build_shard_map env = Ok (TotalShards cfg, m)) as [m Hm].
  { unfold LoadFromEnv, Getenv in Hload. unfold build_shard_map.
    destruct (env !! "CLIENT_SHARDS_TOTAL") as [v|]; cbn [default from_option id] in *.
    - rewrite bool_decide_eq_false_2 in Hload by congruence.
      destruct (Atoi v) as [t|] eqn:Ht; [|done]. rewrite (Atoi_py_int _ _ Ht).
      case_if; [done|]. apply rbind_Ok in Hload as (ss & _ & [= <-]). by eexists.
    - rewrite bool_decide_eq_true_2 in Hload by done.
      destruct (Atoi "1") as [t|] eqn:Ht; [|done]. rewrite (Atoi_py_int _ _ Ht).
      case_if; [done|]. apply rbind_Ok in Hload as (ss & _ & [= <-]). by eexists. }
  exists m. split; [done|]. intros key. by apply (shard_owner env).
Qed.

(** The two-shard setup the load generator documents. *)
Definition two_shards : Env :=
  {[ "CLIENT_SHARDS_TOTAL" := "2";
     "CLIENT_SHARD_0_ADDRS" := "http://a:8000, http://b:8000";
     "CLIENT_SHARD_1_ADDRS" := "http://c:8000" ]}.

Definition two_shards_config : Config :=
  mkConfig 2 [mkShard 0 ["http://a:8000"; "http://b:8000"]; mkShard 1 ["http://c:8000"]].

Lemma shard_maps_agree_witness :
  LoadFromEnv two_shards = Ok two_shards_config /\
  exists m, build_shard_map two_shards = Ok (2, m) /\
    forall key, exists id s, key_to_shard key 2 = Ok id /\
      route two_shards_config key = Some s /\ ID s = id /\ m !! id = Some (Addrs s) /\ Addrs s <> [].
Proof.
  split; [by vm_compute|].
  apply (shard_maps_agree two_shards two_shards_config); [by vm_compute|by vm_compute|].
  apply (bool_decide_eq_true_1 (map_Forall (fun _ v => plain v) two_shards)). by vm_compute.
Defined.


(** Shard 0 has two nodes, and the first is a follower that answers 503: the
    write of a key it owns is accepted by the second, after two requests. *)
Definition follower_then_leader (w : nat) (m : Method) (url : string) : nat * option Response :=
  (S w, Some (mkResponse (if bool_decide (url = keyURL "http://a:8000" "key-7") then 503 else 200) None)).

