(* ===== verification/ClientMain.v ===== *)
(** * The command-line client

    [cmd/client/main.go]: [client get|put|del] over the router of [Shard.v], with
    what it prints and its exit status.  [log.Fatal]'s time stamp is left out;
    characters of a key beyond ASCII are taken to be printable in [%q]. *)

From Stdlib Require Import Ascii.
From S2P Require Import Prelude PyStr Shard.
#[local] Open Scope Z_scope.

(** ** Texts *)

Definition nl : string := String (ascii_of_nat 10) "".

Definition hexDigit (n : Z) : ascii := ascii_of_nat (Z.to_nat (if n <? 10 then 48 + n else 87 + n)).

(** [strconv.Quote] on a character. *)
Definition quoteChar (c : ascii) : text :=
  let n := byteZ c in
  let esc (l : ascii) : text := ["\"%char; l] in
  if n =? 34 then esc c
  else if n =? 92 then esc c
  else if n =? 7 then esc "a"%char
  else if n =? 8 then esc "b"%char
  else if n =? 9 then esc "t"%char
  else if n =? 10 then esc "n"%char
  else if n =? 11 then esc "v"%char
  else if n =? 12 then esc "f"%char
  else if n =? 13 then esc "r"%char
  else if (n <? 32) || (n =? 127) then ["\"; "x"]%char ++ [hexDigit (n / 16); hexDigit (n mod 16)]
  else [c].

Definition Quote (s : string) : string :=
  let q := ascii_of_nat 34 in str ([q] ++ (chars s ≫= quoteChar) ++ [q]).

Definition configErrorText (e : ConfigError) : string :=
  match e with
  | ErrNotPositive got => "CLIENT_SHARDS_TOTAL must be a positive integer, got " +:+ Quote got
  | ErrMissing var => "missing env var " +:+ var
  | ErrEmpty var => var +:+ " is empty"
  end.

(** The error of each operation when no node did; [decode] is the text of the
    decoder's error, which is [encoding/json]'s. *)
Definition routerErrorText (decode what : string) (e : RouterError) : string :=
  match e with
  | ErrNoNode id => "shard " +:+ pretty id +:+ ": no node " +:+ what
  | ErrDecode => decode
  end.

(** ** The program *)

(** How the process ends: its two output streams and its status; a panic has
    status 2 and Go's own report. *)
Inductive Exit := Exited (out err : string) (status : Z) | Panicked.

Definition ok (out : string) : Exit := Exited (out +:+ nl) "" 0.
Definition fatal (message : string) : Exit := Exited "" (message +:+ nl) 1.

Definition usage : Exit :=
  Exited "" ("usage:" +:+ nl +:+ "  client get <key>" +:+ nl +:+ "  client put <key> <value>" +:+ nl +:+ "  client del <key>" +:+ nl) 1.

Definition ShardFor (cfg : Config) (key : string) : option Z := KeyToShard key (TotalShards cfg).

Section Client.
Context {W : Type} (Do : W -> Method -> string -> W * option Response) (decode : string).

(** A line that ends with the key's shard. *)
Definition withShard (cfg : Config) (key text : string) : Exit :=
  match ShardFor cfg key with Some id => ok (text +:+ "  (shard " +:+ pretty id +:+ ")") | None => Panicked end.

Definition getCmd (cfg : Config) (key : string) (w : W) : W * Exit :=
  match Get Do cfg w key with
  | None => (w, Panicked)
  | Some (w', Err e) => (w', fatal ("get failed: " +:+ routerErrorText decode "responded" e))
  | Some (w', Ok (value, found)) =>
      (w', if (found : bool) then withShard cfg key (key +:+ " = " +:+ value)
           else Exited ("key " +:+ Quote key +:+ " not found" +:+ nl) "" 1)
  end.

Definition putCmd (cfg : Config) (key value : string) (w : W) : W * Exit :=
  match Put Do cfg w key value with
  | None => (w, Panicked)
  | Some (w', Err e) => (w', fatal ("put failed: " +:+ routerErrorText decode "accepted the write" e))
  | Some (w', Ok _) => (w', withShard cfg key "ok")
  end.

Definition delCmd (cfg : Config) (key : string) (w : W) : W * Exit :=
  match Delete Do cfg w key with
  | None => (w, Panicked)
  | Some (w', Err e) => (w', fatal ("delete failed: " +:+ routerErrorText decode "accepted the delete" e))
  | Some (w', Ok _) => (w', withShard cfg key "deleted")
  end.

(** [main]; [args] is [os.Args] without the program's name. *)
Definition main (env : Env) (args : list string) (w : W) : W * Exit :=
  match args with
  | [] | [_] => (w, usage)
  | cmd :: key :: rest =>
      match LoadFromEnv env with
      | Err e => (w, fatal ("config error: " +:+ configErrorText e))
      | Ok cfg =>
          if bool_decide (cmd = "get") then getCmd cfg key w
          else if bool_decide (cmd = "put") then
            match rest with
            | [] => (w, fatal "put requires a value: client put <key> <value>")
            | value :: _ => putCmd cfg key value w
            end
          else if bool_decide (cmd = "del") then delCmd cfg key w
          else (w, fatal ("unknown command " +:+ Quote cmd +:+ " — use get / put / del"))
      end
  end.
End Client.

