(* ===== verification/LoadGen.v ===== *)
(** * The Locust load generators

    [horizontal_scaling/experiment.py], [replication_overhead/experiment.py]
    and [leader_election/locust_election.py].  Locust runs many users as gevent
    greenlets that switch only inside a network call, so each task is split at
    its call: a write is its request and, after the answer, the update of the
    shared [WRITTEN_KEYS]; a read is its request.  An interleaving of users is a
    list of such steps.  Every draw of the [random] module is an argument (a raw
    integer reduced to the asked range), so a theorem for all draws covers every
    random outcome.  The client and its answers are Locust's. *)

From Stdlib Require Import Ascii.
From S2P Require Import Prelude PyStr Shard.
#[local] Open Scope Z_scope.

(** ** Random choices *)

(** [random.randint(lo, hi)], both ends included. *)
Definition randint (lo hi r : Z) : Z := lo + r mod (hi - lo + 1).

(** [random.choice(l)]: an empty list raises. *)
Definition choice {A} (l : list A) (r : Z) : result PyErr A :=
  if bool_decide (length l = 0%nat) then Err IndexError
  else py_index l (r mod Z.of_nat (length l)).

(** [string.ascii_lowercase[i]] *)
Definition lowercase (r : Z) : ascii := ascii_of_nat (97 + Z.to_nat (r mod 26)).

Definition random_value (length : nat) (draws : nat -> Z) : string :=
  String.string_of_list_ascii ((fun i => lowercase (draws i)) <$> seq 0 length).


Lemma choice_elem {A} (l : list A) r x : choice l r = Ok x -> x ∈ l.
Proof. unfold choice. case_bool_decide; [done|]. apply py_index_elem. Qed.

Lemma choice_Ok {A} (l : list A) r : l <> [] -> exists x, choice l r = Ok x /\ x ∈ l.
Proof.
  intros Hl. destruct l as [|a l]; [done|]. unfold choice. rewrite bool_decide_eq_false_2 by done.
  destruct (py_index_Ok (a :: l) (r mod Z.of_nat (length (a :: l)))) as (x & Hx & Hi).
  { apply Z.mod_pos_bound. simpl. lia. }
  exists x. split; [done|]. by eapply list_elem_of_lookup_2.
Qed.

(** ** Requests and answers *)

Record Request := mkRequest { rq_method : Method; rq_key : string; rq_url : string; rq_name : string }.

(** An answer's truth value ([resp and ...] tests [Response.ok]) and status. *)
Record Answer := mkAnswer { ok : bool; status_code : Z }.

Definition acked (a : Answer) : bool := ok a && (status_code a =? 200).

(** ** The shared list of written keys *)

Definition MAX_TRACKED_KEYS : Z := 5000.

(** What a write does with its answer: append, or overwrite a random slot when
    the list is full. *)
Definition track (WRITTEN_KEYS : list string) (key : string) (resp : Answer) (slot : Z) : list string :=
  if acked resp then
    if Z.of_nat (length WRITTEN_KEYS) <? MAX_TRACKED_KEYS then WRITTEN_KEYS ++ [key]
    else <[Z.to_nat (randint 0 (MAX_TRACKED_KEYS - 1) slot) := key]> WRITTEN_KEYS
  else WRITTEN_KEYS.

Lemma track_bound ks key resp slot :
  Z.of_nat (length ks) <= MAX_TRACKED_KEYS -> Z.of_nat (length (track ks key resp slot)) <= MAX_TRACKED_KEYS.
Proof.
  intros H. unfold track. repeat case_if; breflect; [|by rewrite length_insert|done].
  rewrite length_app. simpl. lia.
Qed.

Lemma track_elem ks key resp slot k :
  k ∈ track ks key resp slot -> k ∈ ks \/ (k = key /\ acked resp = true).
Proof.
  unfold track. destruct (acked resp); [|by left]. case_if.
  - intros [?| ->%list_elem_of_singleton]%elem_of_app; [by left|by right].
  - intros [j Hj]%list_elem_of_lookup. apply list_lookup_insert_Some in Hj as [(_ & <- & _)|[_ Hj]]; [by right|].
    left. by eapply list_elem_of_lookup_2.
Qed.

Lemma elem_of_list_delete {A} (l : list A) i x : x ∈ delete i l -> x ∈ l.
Proof.
  rewrite delete_take_drop. intros [Hx|Hx]%elem_of_app.
  - by eapply subseteq_take.
  - by eapply subseteq_drop.
Qed.

(** ** What a load generator promises

    [writeRequest] and [readRequest] compute the request a task makes from the
    draws; [readRequest] is [None] when the task returns without a request. *)

Class LoadGenerator := {
  writeRequest : (nat -> Z) -> result PyErr Request;
  readRequest : list string -> (nat -> Z) -> result PyErr (option Request);
  writeRequest_put d req : writeRequest d = Ok req -> exists v, rq_method req = PUT v;
  readRequest_get ks d req :
    readRequest ks d = Ok (Some req) -> rq_method req = GET /\ rq_key req ∈ ks }.

Inductive Event := Issued (req : Request) | Answered (req : Request) (resp : Answer) | Raised (e : PyErr).

Record Load := mkLoad { WRITTEN_KEYS : list string; inflight : list Request; trace : list Event }.

Definition newLoad : Load := mkLoad [] [] [].

Inductive LoadStep :=
| StartWrite (draws : nat -> Z)
| FinishWrite (i : nat) (resp : Answer) (slot : Z)
| DoRead (draws : nat -> Z).

Section Machine.
Context `{LoadGenerator}.

Definition loadStep (s : Load) (l : LoadStep) : Load :=
  let '(mkLoad ks fl tr) := s in
  match l with
  | StartWrite d =>
      match writeRequest d with
      | Ok req => mkLoad ks (fl ++ [req]) (tr ++ [Issued req])
      | Err e => mkLoad ks fl (tr ++ [Raised e])
      end
  | FinishWrite i resp slot =>
      match fl !! i with
      | Some req => mkLoad (track ks (rq_key req) resp slot) (delete i fl) (tr ++ [Answered req resp])
      | None => s
      end
  | DoRead d =>
      match readRequest ks d with
      | Ok (Some req) => mkLoad ks fl (tr ++ [Issued req])
      | Ok None => s
      | Err e => mkLoad ks fl (tr ++ [Raised e])
      end
  end.

Definition loadRun (ls : list LoadStep) : Load := foldl loadStep newLoad ls.

(** The key was written: a PUT of it was issued and answered with 200. *)
Definition written (tr : list Event) (k : string) : Prop :=
  exists req resp v, Answered req resp ∈ tr /\ acked resp = true /\ rq_method req = PUT v /\ rq_key req = k.

Definition load_inv (s : Load) : Prop :=
  Z.of_nat (length (WRITTEN_KEYS s)) <= MAX_TRACKED_KEYS /\
  (forall k, k ∈ WRITTEN_KEYS s -> written (trace s) k) /\
  (forall req, req ∈ inflight s -> exists v, rq_method req = PUT v) /\
  (forall t1 t2 req, trace s = t1 ++ Issued req :: t2 -> rq_method req = GET -> written t1 (rq_key req)).

Lemma written_app tr tr' k : written tr k -> written (tr ++ tr') k.
Proof. intros (req & resp & v & ? & ?). exists req, resp, v. split; [|done]. apply elem_of_app. by left. Qed.

(** An event appended to the trace keeps the fact about earlier reads. *)
Lemma reads_snoc tr e :
  (forall t1 t2 req, tr = t1 ++ Issued req :: t2 -> rq_method req = GET -> written t1 (rq_key req)) ->
  (forall req, e = Issued req -> rq_method req = GET -> written tr (rq_key req)) ->
  forall t1 t2 req, tr ++ [e] = t1 ++ Issued req :: t2 -> rq_method req = GET -> written t1 (rq_key req).
Proof.
  intros Hold Hnew t1 t2 req Heq Hget. destruct t2 as [|e2 t2 _] using rev_ind.
  - apply app_inj_tail in Heq as [-> ->]. by apply Hnew.
  - rewrite app_comm_cons, app_assoc in Heq. apply app_inj_tail in Heq as [-> _]. by eapply Hold.
Qed.

Lemma loadStep_inv s l : load_inv s -> load_inv (loadStep s l).
Proof.
  destruct s as [ks fl tr]. intros (Hlen & Hks & Hfl & Hrd). unfold load_inv in *; simpl in *.
  assert (forall e k, k ∈ ks -> written (tr ++ [e]) k) as Hw by (intros; by apply written_app, Hks).
  destruct l as [d|i resp slot|d]; simpl.
  - destruct (writeRequest d) as [req|e] eqn:Hq; simpl; split_and!; auto.
    + intros q [?| ->%list_elem_of_singleton]%elem_of_app; [by apply Hfl|by eapply writeRequest_put].
    + apply reads_snoc; [done|]. intros req' [= <-] Hg.
      destruct (writeRequest_put _ _ Hq) as [v Hv]. congruence.
    + by apply reads_snoc.
  - destruct (fl !! i) as [req|] eqn:Hi; [|done]. simpl. split_and!.
    + by apply track_bound.
    + intros k [?|[-> Ha]]%track_elem; [by apply Hw|].
      destruct (Hfl req) as [v Hv]; [by eapply list_elem_of_lookup_2|].
      exists req, resp, v. split_and!; [|done..]. apply elem_of_app. right. by left.
    + intros q Hq. apply Hfl. by eapply elem_of_list_delete.
    + by apply reads_snoc.
  - destruct (readRequest ks d) as [[req|]|e] eqn:Hq; simpl; split_and!; auto.
    + apply reads_snoc; [done|]. intros req' [= <-] Hg. by apply Hks, (readRequest_get ks d req).
    + by apply reads_snoc.
Qed.

Lemma loadRun_inv ls : load_inv (loadRun ls).
Proof.
  unfold loadRun. assert (load_inv newLoad) as H0.
  { split_and!; simpl; [done|..]; [set_solver|set_solver|]. by intros [|? ?]. }
  revert H0. generalize newLoad as s. induction ls as [|l ls IH]; intros s Hs; simpl; [done|].
  by apply IH, loadStep_inv.
Qed.
End Machine.

(** ** The load generators *)

(** [f"key-{random.randint(0, hi)}"] *)
Definition randomKey (hi : Z) (draws : nat -> Z) : string := "key-" +:+ pretty (randint 0 hi (draws 0%nat)).

Definition shift (n : nat) (draws : nat -> Z) : nat -> Z := fun i => draws (n + i)%nat.

Section Sharded.
Context (TOTAL_SHARDS : Z) (SHARD_MAP : gmap Z (list string)).

(** [SHARD_MAP.get(shard_id, SHARD_MAP[0])]: the default is evaluated first. *)
Definition shardAddrs (shard_id : Z) : result PyErr (list string) :=
  match SHARD_MAP !! 0 with
  | None => Err KeyError
  | Some dflt => Ok (default dflt (SHARD_MAP !! shard_id))
  end.

Definition ShardedUser_target (key : string) (r : Z) : result PyErr (Z * string) :=
  (shard_id <-? key_to_shard key TOTAL_SHARDS ;; addrs <-? shardAddrs shard_id ;;
   target <-? choice addrs r ;; Ok (shard_id, target))%result.

Definition ShardedUser_write (draws : nat -> Z) : result PyErr Request :=
  let key := randomKey 9999 draws in
  (st <-? ShardedUser_target key (draws 1%nat) ;;
   Ok (mkRequest (PUT (random_value 8 (shift 2 draws))) key (keyURL (snd st) key)
         ("/v1/keys/[key] PUT shard" +:+ pretty (fst st))))%result.

Definition ShardedUser_read (WRITTEN_KEYS : list string) (draws : nat -> Z) : result PyErr (option Request) :=
  if bool_decide (length WRITTEN_KEYS = 0%nat) then Ok None
  else
    (key <-? choice WRITTEN_KEYS (draws 0%nat) ;;
     st <-? ShardedUser_target key (draws 1%nat) ;;
     Ok (Some (mkRequest GET key (keyURL (snd st) key)
                 ("/v1/keys/[key] GET shard" +:+ pretty (fst st)))))%result.

#[refine, global] Instance ShardedUser : LoadGenerator :=
  {| writeRequest := ShardedUser_write; readRequest := ShardedUser_read |}.
Proof.
  - intros d req. unfold ShardedUser_write. intros (st & _ & [= <-])%rbind_Ok. by eexists.
  - intros ks d req. unfold ShardedUser_read. case_bool_decide; [done|].
    intros (key & Hk%choice_elem & (st & _ & [= <-])%rbind_Ok)%rbind_Ok. done.
Defined.

End Sharded.

(** [replication_overhead/experiment.py]: the same tasks against one host. *)
Definition _write (name_prefix : string) (draws : nat -> Z) : Request :=
  let key := randomKey 9999 draws in
  mkRequest (PUT (random_value 8 (shift 1 draws))) key ("/v1/keys/" +:+ key) (name_prefix +:+ " PUT").

Definition _read (name_prefix : string) (WRITTEN_KEYS : list string) (draws : nat -> Z)
    : result PyErr (option Request) :=
  if bool_decide (length WRITTEN_KEYS = 0%nat) then Ok None
  else (key <-? choice WRITTEN_KEYS (draws 0%nat) ;;
        Ok (Some (mkRequest GET key ("/v1/keys/" +:+ key) (name_prefix +:+ " GET"))))%result.

#[refine, global] Instance OverheadUser (name_prefix : string) : LoadGenerator :=
  {| writeRequest := fun d => Ok (_write name_prefix d); readRequest := _read name_prefix |}.
Proof.
  - intros d req [= <-]. by eexists.
  - intros ks d req. unfold _read. case_bool_decide; [done|].
    by intros (key & Hk%choice_elem & [= <-])%rbind_Ok.
Defined.

Definition SimpleKVSUser : LoadGenerator := OverheadUser "/v1/keys/[key] SimpleKVS".
Definition RaftUser : LoadGenerator := OverheadUser "/v1/keys/[key] Raft".

(** [locust_election.py]: no written keys are tracked, a read asks for any of
    the thousand keys. *)
Definition Election_write (draws : nat -> Z) : Request :=
  let key := randomKey 999 draws in
  mkRequest (PUT (random_value 8 (shift 1 draws))) key ("/v1/keys/" +:+ key) "/v1/keys/[key] PUT".

Definition Election_read (draws : nat -> Z) : Request :=
  let key := randomKey 999 draws in
  mkRequest GET key ("/v1/keys/" +:+ key) "/v1/keys/[key] GET".

(** ** Properties *)

(** C32. For every load generator that tracks its keys, and every interleaving
    of any number of users at their network calls, whatever the draws and the
    answers: [WRITTEN_KEYS] never exceeds [MAX_TRACKED_KEYS], every key in it
    was written (a PUT of it was answered with 200), and every GET ever issued
    is for a key whose write had been acknowledged before the GET. *)
Theorem reads_follow_acknowledged_writes (G : LoadGenerator) (ls : list LoadStep) :
  let s := loadRun ls in
  Z.of_nat (length (WRITTEN_KEYS s)) <= MAX_TRACKED_KEYS /\
  (forall k, k ∈ WRITTEN_KEYS s -> written (trace s) k) /\
  (forall t1 t2 req, trace s = t1 ++ Issued req :: t2 -> rq_method req = GET -> written t1 (rq_key req)).
Proof. intros s. destruct (loadRun_inv ls) as (? & ? & _ & ?). done. Qed.

(** A write acknowledged, one refused, and a read: the read is of the first. *)
Lemma reads_follow_acknowledged_writes_witness :
  let s := loadRun (H := RaftUser)
             [StartWrite (fun _ => 7); StartWrite (fun _ => 8);
              FinishWrite 1 (mkAnswer false 503) 0; FinishWrite 0 (mkAnswer true 200) 0; DoRead (fun _ => 3)] in
  WRITTEN_KEYS s = ["key-7"] /\
  (forall t1 t2 req, trace s = t1 ++ Issued req :: t2 -> rq_method req = GET -> written t1 (rq_key req)).
Proof.
  split; [by vm_compute|]. apply (reads_follow_acknowledged_writes RaftUser).
Defined.

(** The target of a key under a shard map the router's configuration agrees with. *)
Lemma ShardedUser_target_owner env cfg total m key r :
  LoadFromEnv env = Ok cfg -> map_Forall (fun _ v => plain v) env ->
  build_shard_map env = Ok (total, m) -> total = TotalShards cfg ->
  exists s target, route cfg key = Some s /\ target ∈ Addrs s /\
    ShardedUser_target total m key r = Ok (ID s, target).
Proof.
  intros Hload Hplain Hm ->.
  destruct (shard_owner _ _ _ key Hload Hplain Hm) as (id & s & Hpy & Hr & Hid & Hmid & Hnil).
  destruct (choice_Ok (Addrs s) r Hnil) as (target & Ht & Hin).
  exists s, target. split_and!; [done|done|]. unfold ShardedUser_target, shardAddrs. rewrite Hpy. cbn [rbind].
  rewrite (build_shard_map_lookup _ _ _ 0 Hm), bool_decide_eq_true_2.
  - cbn [rbind]. rewrite Hmid. simpl. rewrite Ht. cbn [rbind]. by rewrite Hid.
  - destruct (LoadFromEnv_ok _ _ Hload) as [? _]. lia.
Qed.

(** A request sent to an address of the shard that owns its key. *)
Definition to_owner (cfg : Config) (req : Request) : Prop :=
  exists s addr, route cfg (rq_key req) = Some s /\ addr ∈ Addrs s /\ rq_url req = keyURL addr (rq_key req).

Definition event_to_owner (cfg : Config) (e : Event) : Prop :=
  match e with Raised _ => False | Issued req | Answered req _ => to_owner cfg req end.

Section Owner.
Context (env : Env) (cfg : Config) (m : gmap Z (list string)).
Hypothesis (Hload : LoadFromEnv env = Ok cfg) (Hplain : map_Forall (fun _ v => plain v) env).
Hypothesis (Hm : build_shard_map env = Ok (TotalShards cfg, m)).

Lemma ShardedUser_write_owner d : exists req, ShardedUser_write (TotalShards cfg) m d = Ok req /\ to_owner cfg req.
Proof.
  unfold ShardedUser_write.
  destruct (ShardedUser_target_owner _ _ _ _ (randomKey 9999 d) (d 1%nat) Hload Hplain Hm eq_refl)
    as (s & target & ? & ? & ->).
  eexists. split; [done|]. by exists s, target.
Qed.

Lemma ShardedUser_read_owner ks d :
  ShardedUser_read (TotalShards cfg) m ks d = Ok None \/
  exists req, ShardedUser_read (TotalShards cfg) m ks d = Ok (Some req) /\ to_owner cfg req.
Proof.
  unfold ShardedUser_read. case_bool_decide as Hks; [by left|]. right.
  destruct (choice_Ok ks (d 0%nat)) as (key & -> & _); [by destruct ks|]. cbn [rbind].
  destruct (ShardedUser_target_owner _ _ _ _ key (d 1%nat) Hload Hplain Hm eq_refl)
    as (s & target & ? & ? & ->).
  eexists. split; [done|]. by exists s, target.
Qed.

Lemma loadStep_owner s l :
  Forall (to_owner cfg) (inflight s) /\ Forall (event_to_owner cfg) (trace s) ->
  let s' := loadStep (H := ShardedUser (TotalShards cfg) m) s l in
  Forall (to_owner cfg) (inflight s') /\ Forall (event_to_owner cfg) (trace s').
Proof.
  destruct s as [ks fl tr]. intros [Hfl Htr]. simpl in Hfl, Htr. destruct l as [d|i resp slot|d]; simpl.
  - destruct (ShardedUser_write_owner d) as (req & -> & Hq). simpl. by rewrite !Forall_app, !Forall_singleton.
  - destruct (fl !! i) as [req|] eqn:Hi; [|done]. simpl. rewrite Forall_app, Forall_singleton. simpl.
    split_and!; [by apply Forall_delete|done|]. by eapply (Forall_lookup_1 (to_owner cfg)).
  - destruct (ShardedUser_read_owner ks d) as [->|(req & -> & Hq)]; [done|]. simpl.
    by rewrite Forall_app, Forall_singleton.
Qed.
End Owner.

(** C33. Where the horizontal-scaling load goes: when [config.LoadFromEnv]
    accepts the environment the script was started with, no task of any
    interleaving raises, and every request, PUT or GET, is sent to an address
    of the shard the Go router routes its key to, under the URL the router
    would use for that address. *)
Theorem sharded_load_reaches_owner (env : Env) (cfg : Config) (m : gmap Z (list string)) (ls : list LoadStep) :
  LoadFromEnv env = Ok cfg -> map_Forall (fun _ v => plain v) env ->
  build_shard_map env = Ok (TotalShards cfg, m) ->
  forall e, e ∈ trace (loadRun (H := ShardedUser (TotalShards cfg) m) ls) -> event_to_owner cfg e.
Proof.
  intros Hload Hplain Hm. apply Forall_forall. unfold loadRun.
  assert (Forall (to_owner cfg) (inflight newLoad) /\ Forall (event_to_owner cfg) (trace newLoad)) as H0 by done.
  revert H0. generalize newLoad as s. induction ls as [|l ls IH]; intros s Hs; cbn [foldl]; [apply Hs|].
  by apply IH, (loadStep_owner env).
Qed.

Definition two_shards_map : gmap Z (list string) :=
  {[ 0 := ["http://a:8000"; "http://b:8000"]; 1 := ["http://c:8000"] ]}.

Lemma sharded_load_reaches_owner_witness :
  build_shard_map two_shards = Ok (2, two_shards_map) /\
  forall e, e ∈ trace (loadRun (H := ShardedUser 2 two_shards_map)
      [StartWrite (fun _ => 7); FinishWrite 0 (mkAnswer true 200) 0; DoRead (fun _ => 3)]) ->
    event_to_owner two_shards_config e.
Proof.
  split; [by vm_compute|].
  apply (sharded_load_reaches_owner two_shards two_shards_config two_shards_map); [by vm_compute| |by vm_compute].
  apply (bool_decide_eq_true_1 (map_Forall (fun _ v => plain v) two_shards)). by vm_compute.
Defined.
