(* ===== verification/PyFloat.v ===== *)
(** * Python floats

    A finite float is its rational value; an operation is the exact one followed
    by [rnd], IEEE 754 rounding to nearest, ties to even, in binary64 (53-bit
    significands, exponents from -1074, overflow to infinity from 2^1024).  The
    sign of a zero, which only the text of a formatted zero shows, is not
    represented.  The file proves that [rnd] is monotone and fixes the
    representable numbers, on which every bound of the reports rests. *)

From Stdlib Require Export QArith Qround Qpower Qabs.
From Stdlib Require Import Lqa.
From Stdlib Require Export Sorted.
From S2P Require Import Prelude PyStr.
#[local] Open Scope Z_scope.

(** ** Powers of two *)

Definition pow2 (e : Z) : Q := (2 # 1) ^ e.

Lemma pow2_pos e : (0 < pow2 e)%Q.
Proof. by apply Qpower_0_lt. Qed.
#[export] Hint Resolve pow2_pos : pylib.

Lemma pow2_plus a b : (pow2 (a + b) == pow2 a * pow2 b)%Q.
Proof. by apply Qpower_plus. Qed.

Lemma pow2_mono a b : a <= b -> (pow2 a <= pow2 b)%Q.
Proof. intros. by apply Qpower_le_compat_l. Qed.

Lemma pow2_lt_inv a b : (pow2 a < pow2 b)%Q -> a < b.
Proof. intros H. by apply (Qpower_lt_compat_l_inv (2 # 1)). Qed.

Lemma pow2_Z e : 0 <= e -> (pow2 e == inject_Z (2 ^ e))%Q.
Proof. intros. symmetry. by apply Zpower_Qpower. Qed.

(** ** Rounding to an integer, ties to even *)

Definition rhe (q : Q) : Z :=
  let f := Qfloor q in
  match Qcompare (q - inject_Z f) (1 # 2) with
  | Lt => f
  | Gt => f + 1
  | Eq => if Z.even f then f else f + 1
  end.

Lemma rhe_floor q : Qfloor q <= rhe q <= Qfloor q + 1.
Proof. unfold rhe. destruct (_ ?= _)%Q; [case_if|..]; lia. Qed.

Lemma rhe_mono p q : (p <= q)%Q -> rhe p <= rhe q.
Proof.
  intros H. pose proof (Qfloor_resp_le p q H). pose proof (rhe_floor p). pose proof (rhe_floor q).
  destruct (Z.eq_dec (Qfloor p) (Qfloor q)) as [E|]; [|lia]. unfold rhe. rewrite E.
  assert (p - inject_Z (Qfloor q) <= q - inject_Z (Qfloor q))%Q as Hle by lra.
  destruct (Qcompare_spec (p - inject_Z (Qfloor q)) (1 # 2)) as [Hp|Hp|Hp],
    (Qcompare_spec (q - inject_Z (Qfloor q)) (1 # 2)) as [Hq|Hq|Hq];
    try case_if; try lia; exfalso; lra.
Qed.

Lemma rhe_Z z : rhe (inject_Z z) = z.
Proof.
  unfold rhe. rewrite Qfloor_Z.
  destruct (Qcompare_spec (inject_Z z - inject_Z z) (1 # 2)); [exfalso; lra|done|exfalso; lra].
Qed.

#[export] Instance rhe_proper : Proper (Qeq ==> eq) rhe.
Proof. intros p q H. apply Z.le_antisymm; apply rhe_mono; rewrite H; apply Qle_refl. Qed.

Lemma rhe_ge z q : (inject_Z z <= q)%Q -> z <= rhe q.
Proof. intros H. rewrite <- (rhe_Z z). by apply rhe_mono. Qed.

Lemma rhe_le z q : (q <= inject_Z z)%Q -> rhe q <= z.
Proof. intros H. rewrite <- (rhe_Z z). by apply rhe_mono. Qed.

(** ** The binary exponent of a positive rational *)

Definition elog (q : Q) : Z :=
  let k := Z.log2 (Qnum q) - Z.log2 (Zpos (Qden q)) in
  if Qle_bool (pow2 k) q then k else k - 1.

Lemma elog_spec q : (0 < q)%Q -> (pow2 (elog q) <= q)%Q /\ (q < pow2 (elog q + 1))%Q.
Proof.
  intros Hq. destruct q as [a d]. assert (0 < a) as Ha by (unfold Qlt in Hq; simpl in Hq; lia).
  unfold elog. cbn [Qnum Qden]. set (k := Z.log2 a - Z.log2 (Zpos d)).
  pose proof (Z.log2_spec a Ha) as [La Ua]. pose proof (Z.log2_spec (Zpos d) ltac:(lia)) as [Ld Ud].
  pose proof (Z.log2_nonneg a). pose proof (Z.log2_nonneg (Zpos d)).
  assert (a # d == inject_Z a / inject_Z (Zpos d))%Q as Hdiv by (rewrite (Qmake_Qdiv a d); reflexivity).
  assert (0 < inject_Z (Zpos d))%Q as Hd by (unfold Qlt; simpl; lia).
  rewrite Zle_Qle in La, Ld. rewrite Zlt_Qlt in Ua, Ud.
  rewrite <- pow2_Z in La, Ua, Ld, Ud by lia.
  assert (pow2 (k - 1) <= a # d)%Q as Hlow.
  { rewrite Hdiv. apply Qle_shift_div_l; [done|]. 
    eapply Qle_trans; [|apply La]. replace (Z.log2 a) with (k - 1 + Z.succ (Z.log2 (Zpos d))) by lia.
    rewrite pow2_plus. apply Qmult_le_l; [auto with pylib|]. by apply Qlt_le_weak. }
  assert (a # d < pow2 (k + 1))%Q as Hup.
  { rewrite Hdiv. apply Qlt_shift_div_r; [done|].
    eapply Qlt_le_trans; [apply Ua|]. replace (Z.succ (Z.log2 a)) with (k + 1 + Z.log2 (Zpos d)) by lia.
    rewrite pow2_plus. by apply Qmult_le_l; [auto with pylib|]. }
  destruct (Qle_bool (pow2 k) (a # d)) eqn:E.
  - by apply Qle_bool_iff in E.
  - split; [done|]. replace (k - 1 + 1) with k by lia. apply Qnot_le_lt. intros Hc.
    apply Qle_bool_iff in Hc. congruence.
Qed.

Lemma elog_mono p q : (0 < p)%Q -> (p <= q)%Q -> elog p <= elog q.
Proof.
  intros Hp Hpq. destruct (elog_spec p Hp) as [Lp _]. destruct (elog_spec q) as [_ Uq]; [lra|].
  assert (pow2 (elog p) < pow2 (elog q + 1))%Q as H%pow2_lt_inv by lra. lia.
Qed.

(** ** Rounding to binary64 *)

(** The exponent of the last place of a positive rational. *)
Definition ulpExp (q : Q) : Z := Z.max (elog q - 52) (-1074).

Definition rndPos (q : Q) : Q :=
  (inject_Z (rhe (q * pow2 (- ulpExp q))) * pow2 (ulpExp q))%Q.

(** The rounding of any rational, before overflow. *)
Definition rndQ (q : Q) : Q :=
  match Qcompare q 0 with
  | Eq => 0%Q
  | Gt => Qred (rndPos q)
  | Lt => Qred (- rndPos (- q))
  end.

(** The finite floats, without the overflow bound: an integer below [2^53] in
    magnitude times a power of two from [2^-1074] up. *)
Definition representable (q : Q) : Prop :=
  exists m e, Z.abs m < 2 ^ 53 /\ -1074 <= e /\ (q == inject_Z m * pow2 e)%Q.

Lemma scale_iff q r e : (q * pow2 (- e) <= r)%Q <-> (q <= r * pow2 e)%Q.
Proof.
  pose proof (pow2_pos e) as He. assert (q == q * pow2 (- e) * pow2 e)%Q as Hq.
  { rewrite <- Qmult_assoc, <- pow2_plus, Z.add_opp_diag_l. change (pow2 0) with 1%Q. ring. }
  rewrite Hq at 2. by rewrite Qmult_le_r.
Qed.

Lemma scale_iff' q r e : (r <= q * pow2 (- e))%Q <-> (r * pow2 e <= q)%Q.
Proof.
  pose proof (pow2_pos e) as He. assert (q == q * pow2 (- e) * pow2 e)%Q as Hq.
  { rewrite <- Qmult_assoc, <- pow2_plus, Z.add_opp_diag_l. change (pow2 0) with 1%Q. ring. }
  rewrite Hq at 2. by rewrite Qmult_le_r.
Qed.

(** The significand before rounding is below [2^53], and at least [2^52] above
    the subnormal range. *)
Lemma significand_le q : (0 < q)%Q -> (q * pow2 (- ulpExp q) <= inject_Z (2 ^ 53))%Q.
Proof.
  intros Hq. apply scale_iff. rewrite <- pow2_Z, <- pow2_plus by lia.
  destruct (elog_spec q Hq) as [_ Hu]. apply Qlt_le_weak. eapply Qlt_le_trans; [apply Hu|].
  apply pow2_mono. unfold ulpExp. lia.
Qed.

Lemma significand_ge q : (0 < q)%Q -> -1074 < ulpExp q -> (inject_Z (2 ^ 52) <= q * pow2 (- ulpExp q))%Q.
Proof.
  intros Hq He. apply scale_iff'. rewrite <- pow2_Z, <- pow2_plus by lia.
  destruct (elog_spec q Hq) as [Hl _]. eapply Qle_trans; [|apply Hl].
  apply pow2_mono. unfold ulpExp in *. lia.
Qed.

Lemma rndPos_nonneg q : (0 < q)%Q -> (0 <= rndPos q)%Q.
Proof.
  intros Hq. unfold rndPos. apply Qmult_le_0_compat; [|auto using Qlt_le_weak with pylib].
  change 0%Q with (inject_Z 0). rewrite <- Zle_Qle. apply rhe_ge. change (inject_Z 0) with 0%Q.
  apply Qmult_le_0_compat; auto using Qlt_le_weak with pylib.
Qed.

Lemma rndPos_mono p q : (0 < p)%Q -> (p <= q)%Q -> (rndPos p <= rndPos q)%Q.
Proof.
  intros Hp Hpq. assert (0 < q)%Q as Hq by lra. pose proof (elog_mono p q Hp Hpq) as He.
  destruct (Z.eq_dec (ulpExp p) (ulpExp q)) as [E|Hne]; unfold rndPos.
  - rewrite E. apply Qmult_le_r; [auto with pylib|]. rewrite <- Zle_Qle. apply rhe_mono.
    apply Qmult_le_r; [auto with pylib|done].
  - assert (ulpExp p < ulpExp q /\ -1074 < ulpExp q) as [Hlt Hsub] by (unfold ulpExp in *; lia).
    apply Qle_trans with (pow2 (ulpExp q + 52)).
    + apply Qle_trans with (inject_Z (2 ^ 53) * pow2 (ulpExp p))%Q.
      * apply Qmult_le_r; [auto with pylib|]. rewrite <- Zle_Qle. by apply rhe_le, significand_le.
      * rewrite <- pow2_Z, <- pow2_plus by lia. apply pow2_mono. lia.
    + rewrite Z.add_comm, pow2_plus, pow2_Z by lia. apply Qmult_le_r; [auto with pylib|].
      rewrite <- Zle_Qle. by apply rhe_ge, significand_ge.
Qed.

Lemma rndPos_representable q : (0 < q)%Q -> representable (rndPos q).
Proof.
  intros Hq. unfold rndPos. set (m := rhe _). assert (0 <= m <= 2 ^ 53) as [H0 H53].
  { split; [apply rhe_ge|by apply rhe_le, significand_le]. change (inject_Z 0) with 0%Q.
    apply Qmult_le_0_compat; auto using Qlt_le_weak with pylib. }
  assert (-1074 <= ulpExp q) by (unfold ulpExp; lia).
  destruct (Z.eq_dec m (2 ^ 53)) as [->|].
  - exists (2 ^ 52), (ulpExp q + 1). split_and!; [lia|lia|].
    rewrite <- (pow2_Z 52), <- (pow2_Z 53), <- !pow2_plus by lia. by replace (52 + (ulpExp q + 1)) with (53 + ulpExp q) by lia.
  - exists m, (ulpExp q). split_and!; [lia|lia|reflexivity].
Qed.

Lemma rndPos_fix q : (0 < q)%Q -> representable q -> (rndPos q == q)%Q.
Proof.
  intros Hq (m & e & Hm & He & Heq). assert (ulpExp q <= e) as Hle.
  { unfold ulpExp. enough (elog q < e + 53) by lia. apply pow2_lt_inv.
    eapply Qle_lt_trans; [apply elog_spec, Hq|]. rewrite Heq, (Z.add_comm e 53), (pow2_plus 53 e), (pow2_Z 53) by lia.
    apply Qmult_lt_r; [auto with pylib|]. rewrite <- Zlt_Qlt. lia. }
  unfold rndPos. set (u := ulpExp q) in *. clearbody u.
  assert (q * pow2 (- u) == inject_Z (m * 2 ^ (e - u)))%Q as Hs.
  { rewrite Heq, inject_Z_mult, <- pow2_Z by lia.
    rewrite <- Qmult_assoc, <- pow2_plus. reflexivity. }
  rewrite Hs, rhe_Z, <- Hs, <- Qmult_assoc, <- pow2_plus, Z.add_opp_diag_l.
  change (pow2 0) with 1%Q. ring.
Qed.

#[export] Instance representable_proper : Proper (Qeq ==> iff) representable.
Proof. intros p q H. unfold representable. by setoid_rewrite H. Qed.

Lemma representable_opp q : representable q -> representable (- q).
Proof.
  intros (m & e & ? & ? & Hq). exists (- m), e. split_and!; [lia|lia|].
  rewrite Hq, inject_Z_opp. ring.
Qed.

Lemma representable_Z z : Z.abs z < 2 ^ 53 -> representable (inject_Z z).
Proof. intros. exists z, 0. split_and!; [done|lia|]. change (pow2 0) with 1%Q. ring. Qed.

Lemma rndQ_mono p q : (p <= q)%Q -> (rndQ p <= rndQ q)%Q.
Proof.
  intros Hpq. unfold rndQ.
  destruct (Qcompare_spec p 0) as [Hp|Hp|Hp], (Qcompare_spec q 0) as [Hq|Hq|Hq];
    rewrite ?Qred_correct; try (exfalso; lra); try lra.
  - by apply rndPos_nonneg.
  - pose proof (rndPos_nonneg (- p)). lra.
  - pose proof (rndPos_mono (- q) (- p)). lra.
  - pose proof (rndPos_nonneg (- p)). pose proof (rndPos_nonneg q). lra.
  - by apply rndPos_mono.
Qed.

Lemma rndQ_representable q : representable (rndQ q).
Proof.
  unfold rndQ. destruct (Qcompare_spec q 0) as [Hq|Hq|Hq]; rewrite ?Qred_correct.
  - by apply (representable_Z 0).
  - apply representable_opp, rndPos_representable. lra.
  - by apply rndPos_representable.
Qed.

Lemma rndQ_fix q : representable q -> (rndQ q == q)%Q.
Proof.
  intros H. unfold rndQ. destruct (Qcompare_spec q 0) as [Hq|Hq|Hq]; rewrite ?Qred_correct.
  - by symmetry.
  - rewrite rndPos_fix; [ring|lra|by apply representable_opp].
  - by apply rndPos_fix.
Qed.

#[export] Instance rndQ_proper : Proper (Qeq ==> Qeq) rndQ.
Proof. intros p q H. apply Qle_antisym; apply rndQ_mono; rewrite H; apply Qle_refl. Qed.

(** Rounding stays between representable bounds. *)
Lemma rndQ_between a b q :
  representable a -> representable b -> (a <= q)%Q -> (q <= b)%Q -> (a <= rndQ q)%Q /\ (rndQ q <= b)%Q.
Proof.
  intros Ha Hb Hl%rndQ_mono Hu%rndQ_mono. by rewrite (rndQ_fix _ Ha) in Hl; rewrite (rndQ_fix _ Hb) in Hu.
Qed.

(** ** Floats and their operations *)

Inductive float := Fin (q : Q) | Inf (neg : bool) | NaN.

(** A float that binary64 can hold. *)
Definition is_float (f : float) : Prop :=
  match f with Fin q => representable q /\ (Qabs q < pow2 1024)%Q | _ => True end.

Definition negQ (q : Q) : bool := negb (Qle_bool 0 q).

Definition rnd (q : Q) : float :=
  let r := rndQ q in if Qle_bool (pow2 1024) (Qabs r) then Inf (negQ q) else Fin r.

Definition fadd (a b : float) : float :=
  match a, b with
  | Fin p, Fin q => rnd (p + q)
  | NaN, _ | _, NaN => NaN
  | Inf s, Inf t => if Bool.eqb s t then Inf s else NaN
  | Inf s, Fin _ | Fin _, Inf s => Inf s
  end.

Definition fopp (a : float) : float :=
  match a with Fin q => Fin (- q) | Inf s => Inf (negb s) | NaN => NaN end.

Definition fsub (a b : float) : float := fadd a (fopp b).

Definition fmul (a b : float) : float :=
  match a, b with
  | Fin p, Fin q => rnd (p * q)
  | NaN, _ | _, NaN => NaN
  | Inf s, Inf t => Inf (xorb s t)
  | Inf s, Fin q | Fin q, Inf s => if Qeq_bool q 0 then NaN else Inf (xorb s (negQ q))
  end.

(** [a / b]: a zero divisor raises, whatever [a] is. *)
Definition fdiv (a b : float) : result PyErr float :=
  match a, b with
  | _, Fin q => if Qeq_bool q 0 then Err ZeroDivisionError
                else Ok match a with
                        | Fin p => rnd (p / q)
                        | Inf s => Inf (xorb s (negQ q))
                        | NaN => NaN
                        end
  | NaN, _ | _, NaN | Inf _, Inf _ => Ok NaN
  | Fin _, Inf _ => Ok (Fin 0)
  end.

(** [a < b]; comparisons with a NaN are false. *)
Definition flt (a b : float) : bool :=
  match a, b with
  | Fin p, Fin q => negb (Qle_bool q p)
  | NaN, _ | _, NaN => false
  | Inf s, Inf t => s && negb t
  | Inf s, Fin _ => s
  | Fin _, Inf t => negb t
  end.

(** [a == b] *)
Definition feqb (a b : float) : bool :=
  match a, b with
  | Fin p, Fin q => Qeq_bool p q
  | Inf s, Inf t => Bool.eqb s t
  | _, _ => false
  end.

Definition float_of_int (z : Z) : float := rnd (inject_Z z).

(** [int(f)] truncates toward zero. *)
Definition int_of_float (f : float) : result PyErr Z :=
  match f with
  | Fin q => Ok (if negQ q then - Qfloor (- q) else Qfloor q)
  | Inf _ => Err OverflowError
  | NaN => Err ValueError
  end.

(** ** [sorted], [min], [max], [sum] and [statistics] *)

(** Insertion after the elements that are not greater: on lists without NaN,
    Python's stable order. *)
Fixpoint insort (x : float) (l : list float) : list float :=
  match l with
  | [] => [x]
  | y :: l' => if flt x y then x :: l else y :: insort x l'
  end.

Definition sorted (l : list float) : list float := foldl (fun acc x => insort x acc) [] l.

Definition py_min (x : float) (l : list float) : float := foldl (fun m y => if flt y m then y else m) x l.
Definition py_max (x : float) (l : list float) : float := foldl (fun m y => if flt m y then y else m) x l.

(** [sum(l)] of floats, left to right from the integer zero (interpreters from
    3.12 on compensate the rounding errors, which integral values do not have). *)
Definition py_sum (l : list float) : float := foldl fadd (Fin 0) l.

Definition finite (f : float) : bool := match f with Fin _ => true | _ => false end.
Definition valQ (f : float) : Q := match f with Fin q => q | _ => 0 end.
Definition sumQ (l : list float) : Q := foldr (fun f acc => valQ f + acc)%Q 0%Q l.

(** [statistics.mean]: an exact sum of fractions, rounded once; when some value
    is not finite, the sum of those. *)
Definition mean (l : list float) : result PyErr float :=
  match l with
  | [] => Err StatisticsError
  | _ =>
      let n := inject_Z (Z.of_nat (length l)) in
      match filter (fun f => finite f = false) l with
      | [] => match rnd (sumQ l / n) with Inf _ => Err OverflowError | r => Ok r end
      | g :: gs => fdiv (foldl fadd g gs) (Fin n)
      end
  end.

(** [statistics.median] *)
Definition median (l : list float) : result PyErr float :=
  let data := sorted l in
  let n := Z.of_nat (length data) in
  if n =? 0 then Err StatisticsError
  else if n mod 2 =? 1 then py_index data (n / 2)
  else (a <-? py_index data (n / 2 - 1) ;; b <-? py_index data (n / 2) ;; fdiv (fadd a b) (Fin 2))%result.

(** ** Reading and printing *)

(** Digits with single underscores between them: value, number, rest. *)
Fixpoint scanDigits (acc : Z) (n : nat) (s : list Ascii.ascii) : Z * nat * list Ascii.ascii :=
  match s with
  | c :: s' =>
      match digit c with
      | Some d => scanDigits (acc * 10 + d) (S n) s'
      | None =>
          match n, s' with
          | S _, c' :: s'' =>
              if Ascii.eqb c (Ascii.ascii_of_nat 95) then
                match digit c' with
                | Some d => scanDigits (acc * 10 + d) (S n) s''
                | None => (acc, n, s)
                end
              else (acc, n, s)
          | _, _ => (acc, n, s)
          end
      end
  | [] => (acc, n, s)
  end.

Definition lower (c : Ascii.ascii) : Ascii.ascii :=
  if (65 <=? byteZ c) && (byteZ c <=? 90) then Ascii.ascii_of_nat (Z.to_nat (byteZ c + 32)) else c.

(** The exponent part: empty, or [e], an optional sign and digits. *)
Definition scanExponent (s : list Ascii.ascii) : option Z :=
  match s with
  | [] => Some 0
  | c :: s' =>
      if byteZ (lower c) =? 101 then
        let '(sg, ds) := signed s' in
        match scanDigits 0 0 ds with
        | (v, S _, []) => Some (sg * v)
        | _ => None
        end
      else None
  end.

(** A point and more digits, which extend the value read so far: value, number
    of digits, rest. *)
Definition scanFraction (ip : Z) (rest : list Ascii.ascii) : Z * nat * list Ascii.ascii :=
  match rest with
  | c :: r => if byteZ c =? 46 then let '(fp, nf, r') := scanDigits 0 0 r in (ip * 10 ^ Z.of_nat nf + fp, nf, r')
              else (ip, 0%nat, rest)
  | [] => (ip, 0%nat, rest)
  end.

(** [float(s)]; [None] is [ValueError]. *)
Definition py_float (s : string) : option float :=
  let '(sg, body) := signed (stripChars pySpace (String.list_ascii_of_string s)) in
  let name := String.string_of_list_ascii (lower <$> body) in
  if bool_decide (name = "inf" \/ name = "infinity") then Some (Inf (sg =? -1))
  else if bool_decide (name = "nan") then Some NaN
  else
    let '(ip, ni, rest) := scanDigits 0 0 body in
    let '(m, nf, rest') := scanFraction ip rest in
    if bool_decide (ni + nf = 0)%nat then None
    else e ← scanExponent rest';
         Some (rnd (inject_Z (sg * m) * Qpower (10 # 1) (e - Z.of_nat nf))).

Fixpoint zeros (n : nat) : string := match n with O => "" | S n' => String (Ascii.ascii_of_nat 48) (zeros n') end.

Definition padZeros (n : nat) (s : string) : string := zeros (n - String.length s) +:+ s.

(** [f"{v:.<d>f}"]: the exact value rounded half to even at [d] decimals. *)
Definition fmtFixed (d : nat) (f : float) : string :=
  match f with
  | NaN => "nan"
  | Inf s => if s then "-inf" else "inf"
  | Fin q =>
      let p := 10 ^ Z.of_nat d in
      let z := rhe (Qabs q * inject_Z p) in
      (if negQ q then "-" else "") +:+ pretty (z / p) +:+
      (if bool_decide (d = 0%nat) then "" else "." +:+ padZeros d (pretty (z mod p)))
  end.

Example py_float_ex :
  py_float " 1_0.5e1 " = Some (Fin 105) /\ py_float "-Infinity" = Some (Inf true) /\
  py_float "." = None /\ py_float "1e999" = Some (Inf false) /\ py_float "1__0" = None.
Proof. by vm_compute. Qed.

Example fmtFixed_ex :
  (fmtFixed 2 <$> py_float "2.675") = Some "2.67" /\ fmtFixed 2 (Fin (1 # 8)) = "0.12" /\
  fmtFixed 0 (Fin (5 # 2)) = "2" /\ fmtFixed 2 (Fin (-1 # 1000)) = "-0.00" /\ fmtFixed 2 (Fin 7) = "7.00".
Proof. by vm_compute. Qed.

(** The decimal 0.1 + 0.2 of every float tutorial. *)
Example fadd_ex :
  (a ← py_float "0.1"; b ← py_float "0.2"; Some (fadd a b)) = py_float "0.30000000000000004".
Proof. by vm_compute. Qed.

(** ** Rounding as floats *)

Lemma negb_Qle_bool p q : negb (Qle_bool q p) = true <-> (p < q)%Q.
Proof.
  rewrite negb_true_iff. split.
  - intros H. apply Qnot_le_lt. intros Hc%Qle_bool_iff. congruence.
  - intros H. destruct (Qle_bool q p) eqn:E; [|done]. apply Qle_bool_iff in E. lra.
Qed.

Lemma rnd_Fin a b q :
  is_float (Fin a) -> is_float (Fin b) -> (a <= q)%Q -> (q <= b)%Q ->
  exists r, rnd q = Fin r /\ (a <= r)%Q /\ (r <= b)%Q /\ is_float (Fin r) /\ (r == rndQ q)%Q.
Proof.
  intros [Ha Hla] [Hb Hlb] Hl Hu. destruct (rndQ_between a b q Ha Hb Hl Hu) as [Hl' Hu'].
  assert (Qabs (rndQ q) < pow2 1024)%Q as Hlt.
  { apply Qabs_Qlt_condition in Hla as [? ?], Hlb as [? ?]. apply Qabs_Qlt_condition. split; lra. }
  exists (rndQ q). unfold rnd. destruct (Qle_bool (pow2 1024) (Qabs (rndQ q))) eqn:E.
  - apply Qle_bool_iff in E. lra.
  - split_and!; [done|done|done|split; [apply rndQ_representable|done]|reflexivity].
Qed.

Lemma rnd_is_float q : is_float (rnd q).
Proof.
  unfold rnd. destruct (Qle_bool (pow2 1024) (Qabs (rndQ q))) eqn:E; [done|].
  split; [apply rndQ_representable|]. apply negb_Qle_bool. by rewrite E.
Qed.

Lemma is_float_Z z : Z.abs z < 2 ^ 53 -> is_float (Fin (inject_Z z)).
Proof.
  intros H. split; [by apply representable_Z|]. rewrite (pow2_Z 1024) by lia.
  change (Qabs (inject_Z z)) with (inject_Z (Z.abs z)).
  rewrite <- Zlt_Qlt. eapply Z.lt_trans; [done|]. by apply Z.pow_lt_mono_r.
Qed.

#[export] Hint Resolve rnd_is_float is_float_Z : pylib.

(** Integers below [2^53] are floats. *)
Lemma rnd_Z z : Z.abs z < 2 ^ 53 -> exists r, rnd (inject_Z z) = Fin r /\ (r == inject_Z z)%Q /\ is_float (Fin r).
Proof.
  intros H. destruct (rnd_Fin (inject_Z z) (inject_Z z) (inject_Z z)) as (r & Hr & ? & ? & ? & _);
    auto using Qle_refl with pylib.
  exists r. split_and!; [done|lra|done].
Qed.

(** ** Order on finite floats *)

Definition isFin (f : float) : Prop := finite f = true.
Definition fle (a b : float) : Prop := (valQ a <= valQ b)%Q.

Lemma flt_Fin a b : isFin a -> isFin b -> flt a b = true <-> (valQ a < valQ b)%Q.
Proof. destruct a as [p| |], b as [q| |]; try done. intros _ _. apply negb_Qle_bool. Qed.

Lemma flt_fle a b : isFin a -> isFin b -> flt a b = false -> fle b a.
Proof.
  intros Ha Hb H. unfold fle. apply Qnot_lt_le. intros Hc%flt_Fin; [congruence|done|done].
Qed.

Lemma insort_perm x l : insort x l ≡ₚ x :: l.
Proof. induction l as [|y l IH]; simpl; [done|]. case_if; [done|]. rewrite IH. apply perm_swap. Qed.

Lemma sorted_perm l : sorted l ≡ₚ l.
Proof.
  unfold sorted. enough (forall acc, foldl (fun acc x => insort x acc) acc l ≡ₚ acc ++ l) as H by apply (H []).
  induction l as [|x l IH]; intros acc; simpl; [by rewrite app_nil_r|].
  rewrite IH, insort_perm. by rewrite <- Permutation_middle.
Qed.

Lemma insort_sorted x l :
  isFin x -> Forall isFin l -> StronglySorted fle l -> StronglySorted fle (insort x l).
Proof.
  intros Hx Hl Hs. induction Hs as [|y l Hs IH Hy]; simpl; [by repeat constructor|].
  apply Forall_cons in Hl as [Hfy Hl]. case_if.
  - apply flt_Fin in Heqb; [|done..]. assert (fle x y) by (unfold fle; lra).
    constructor; [by constructor|]. constructor; [done|].
    eapply Forall_impl; [apply Hy|]. unfold fle. intros z Hz. lra.
  - constructor; [by apply IH|]. rewrite insort_perm. constructor; [by apply flt_fle|done].
Qed.

Lemma sorted_sorted l : Forall isFin l -> StronglySorted fle (sorted l).
Proof.
  unfold sorted. intros Hl.
  enough (forall acc, Forall isFin acc -> StronglySorted fle acc ->
    StronglySorted fle (foldl (fun acc x => insort x acc) acc l)) as H by (apply H; by constructor).
  induction Hl as [|x l Hx Hl IH]; intros acc Ha Hs; simpl; [done|].
  apply IH; [|by apply insort_sorted]. rewrite insort_perm. by constructor.
Qed.

(** The extrema are members and bounds. *)
Lemma py_min_spec x l : Forall isFin (x :: l) ->
  py_min x l ∈ x :: l /\ Forall (fle (py_min x l)) (x :: l).
Proof.
  unfold py_min. revert x. induction l as [|y l IH]; intros x Hl; simpl.
  { split; [by left|]. repeat constructor. unfold fle. lra. }
  apply Forall_cons in Hl as [Hx [Hy Hl]%Forall_cons]. destruct (flt y x) eqn:E.
  - apply flt_Fin in E; [|done..]. destruct (IH y) as [Hin Hall]; [by constructor|].
    split; [by right|]. constructor; [|done]. apply Forall_cons in Hall as [Hall _]. unfold fle in *. lra.
  - apply flt_fle in E; [|done..]. destruct (IH x) as [Hin Hall]; [by constructor|].
    apply Forall_cons in Hall as [Hx' Hall]. split; [set_solver|].
    repeat (constructor; [unfold fle in *; lra|]). done.
Qed.

Lemma py_max_spec x l : Forall isFin (x :: l) ->
  py_max x l ∈ x :: l /\ Forall (fun y => fle y (py_max x l)) (x :: l).
Proof.
  unfold py_max. revert x. induction l as [|y l IH]; intros x Hl; simpl.
  { split; [by left|]. repeat constructor. unfold fle. lra. }
  apply Forall_cons in Hl as [Hx [Hy Hl]%Forall_cons]. destruct (flt x y) eqn:E.
  - apply flt_Fin in E; [|done..]. destruct (IH y) as [Hin Hall]; [by constructor|].
    split; [by right|]. constructor; [|done]. apply Forall_cons in Hall as [Hall _]. unfold fle in *. lra.
  - apply flt_fle in E; [|done..]. destruct (IH x) as [Hin Hall]; [by constructor|].
    apply Forall_cons in Hall as [Hx' Hall]. split; [set_solver|].
    repeat (constructor; [unfold fle in *; lra|]). done.
Qed.

(** ** The mean *)

Lemma sumQ_bounds a b l :
  Forall (fun f => a <= valQ f /\ valQ f <= b)%Q l ->
  (inject_Z (Z.of_nat (length l)) * a <= sumQ l)%Q /\ (sumQ l <= inject_Z (Z.of_nat (length l)) * b)%Q.
Proof.
  induction 1 as [|f l [Ha Hb] _ IH]; cbn [sumQ foldr length].
  { change (inject_Z (Z.of_nat 0)) with 0%Q. split; lra. }
  rewrite Nat2Z.inj_succ, <- Z.add_1_r, inject_Z_plus. change (inject_Z 1) with 1%Q. fold (sumQ l). split; lra.
Qed.

(** The mean of finite floats is a finite float between any bounds of them. *)
Lemma mean_between a b l :
  l <> [] -> Forall isFin l -> is_float (Fin a) -> is_float (Fin b) ->
  Forall (fun f => a <= valQ f /\ valQ f <= b)%Q l ->
  exists r, mean l = Ok (Fin r) /\ (a <= r)%Q /\ (r <= b)%Q /\ is_float (Fin r).
Proof.
  intros Hne Hfin Ha Hb Hall. destruct (sumQ_bounds a b l Hall) as [Hl Hu].
  assert (0 < inject_Z (Z.of_nat (length l)))%Q as Hn.
  { destruct l; [done|]. change 0%Q with (inject_Z 0). rewrite <- Zlt_Qlt. simpl. lia. }
  destruct (rnd_Fin a b (sumQ l / inject_Z (Z.of_nat (length l)))) as (r & Hr & ? & ? & ? & _); [done|done|..].
  { apply Qle_shift_div_l; [done|]. lra. }
  { apply Qle_shift_div_r; [done|]. lra. }
  exists r. split_and!; [|done..]. unfold mean. destruct l as [|x l]; [done|].
  assert (filter (fun f => finite f = false) (x :: l) = []) as ->; [|by rewrite Hr].
  generalize Hfin. generalize (x :: l) as k. induction 1 as [|y k Hy _ IH]; [done|].
  rewrite filter_cons_False; [done|]. unfold isFin in Hy. by rewrite Hy.
Qed.

(** ** Means and quotients that do not raise *)

Lemma fdiv_Ok a b : feqb b (Fin 0) = false -> exists r, fdiv a b = Ok r.
Proof.
  destruct b as [q| |]; cbn [feqb]; intros Hb; unfold fdiv; destruct a; rewrite ?Hb; by eexists.
Qed.

Lemma is_float_abs_le a b : is_float (Fin a) -> is_float (Fin b) -> exists c, is_float (Fin c) /\ (Qabs a <= c)%Q /\ (Qabs b <= c)%Q.
Proof.
  assert (forall x, is_float (Fin x) -> is_float (Fin (Qabs x))) as Habs.
  { intros x [Hr Hx]. split.
    - apply (Qabs_case x (fun y => representable y)); [done|]. intros _. by apply representable_opp.
    - by rewrite (Qabs_pos (Qabs x)) by apply Qabs_nonneg. }
  intros Ha%Habs Hb%Habs. destruct (Qlt_le_dec (Qabs a) (Qabs b)).
  - exists (Qabs b). split_and!; [done|lra|apply Qle_refl].
  - exists (Qabs a). split_and!; [done|apply Qle_refl|done].
Qed.

(** A bound of the magnitudes of a list of finite floats, itself a float. *)
Lemma floats_bound l : Forall isFin l -> Forall is_float l ->
  exists c, is_float (Fin c) /\ Forall (fun f => - c <= valQ f /\ valQ f <= c)%Q l.
Proof.
  induction l as [|[q| |] l IH]; intros Hf Hi; try (by apply Forall_cons in Hf as [? _]).
  { exists 0%Q. split; [by apply (is_float_Z 0)|done]. }
  apply Forall_cons in Hf as [_ Hf], Hi as [Hq Hi]. destruct (IH Hf Hi) as (c & Hc & Hall).
  destruct (is_float_abs_le q c Hq Hc) as (d & Hd & Hqd & Hcd). exists d. split; [done|].
  assert (c <= d)%Q by (pose proof (Qle_Qabs c); lra).
  constructor; [by apply Qabs_Qle_condition|]. eapply Forall_impl; [apply Hall|]. simpl. intros f [? ?]. split; lra.
Qed.

Lemma is_float_opp q : is_float (Fin q) -> is_float (Fin (- q)).
Proof. intros [? ?]. split; [by apply representable_opp|]. by rewrite Qabs_opp. Qed.

Lemma nonfinite_nil l : filter (fun f => finite f = false) l = [] -> Forall isFin l.
Proof.
  induction l as [|f l IH]; intros H; [done|]. rewrite filter_cons in H. case_decide as Hf; [done|].
  constructor; [by apply not_false_is_true|by apply IH].
Qed.

Lemma mean_Ok l : l <> [] -> Forall is_float l -> exists r, mean l = Ok r.
Proof.
  intros Hne Hl. destruct (filter (fun f => finite f = false) l) as [|g gs] eqn:E.
  - apply nonfinite_nil in E. destruct (floats_bound l E Hl) as (c & Hc & Hall).
    destruct (mean_between (- c) c l Hne E (is_float_opp _ Hc) Hc Hall) as (r & Hr & _). eauto.
  - unfold mean. destruct l as [|x l]; [done|]. rewrite E. apply fdiv_Ok. simpl.
    destruct (Qeq_bool _ 0) eqn:Hz; [|done]. apply Qeq_bool_iff in Hz. unfold Qeq in Hz. simpl in Hz. lia.
Qed.

Lemma fadd_is_float a b : is_float (fadd a b).
Proof. destruct a as [p|s|], b as [q|t|]; simpl; try done; [apply rnd_is_float|by case_if]. Qed.

Lemma fmul_is_float a b : is_float (fmul a b).
Proof. destruct a as [p|s|], b as [q|t|]; simpl; try done; [apply rnd_is_float|by case_if|by case_if]. Qed.
#[export] Hint Resolve fadd_is_float fmul_is_float : pylib.
