(* ===== verification/PyStdev.v ===== *)
(** * The standard deviation

    [statistics.stdev] (Python 3.11 on): the sample variance is computed
    exactly as a fraction, and its square root by integer arithmetic with
    rounding to odd, so that the one final rounding is correct.  The file models
    that algorithm and proves that it is: the result is the float nearest to the
    real square root. *)

From Stdlib Require Import Lqa.
From S2P Require Import Prelude PyStr PyFloat.
#[local] Open Scope Z_scope.

(** ** The algorithm *)

(** [_integer_sqrt_of_frac_rto(n, m)]: the root of [n/m] rounded to odd. *)
Definition integer_sqrt_of_frac_rto (n m : Z) : Z :=
  let a := Z.sqrt (n / m) in Z.lor a (if a * a * m =? n then 0 else 1).

Definition bit_length (n : Z) : Z := if n =? 0 then 0 else Z.log2 n + 1.

(** The integer and the exponent of two whose product is rounded. *)
Definition sqrtScale (n m : Z) : Z := (bit_length n - bit_length m - 109) / 2.
Definition sqrtInt (n m : Z) : Z :=
  let q := sqrtScale n m in
  if 0 <=? q then integer_sqrt_of_frac_rto n (Z.shiftl m (2 * q))
  else integer_sqrt_of_frac_rto (Z.shiftl n (- (2 * q))) m.

(** [_float_sqrt_of_frac(n, m)]; the final division raises when its value is
    too large for a float. *)
Definition float_sqrt_of_frac (n m : Z) : result PyErr float :=
  let q := sqrtScale n m in
  match
    (if 0 <=? q then rnd (inject_Z (Z.shiftl (sqrtInt n m) q))
     else rnd (inject_Z (sqrtInt n m) / inject_Z (Z.shiftl 1 (- q))))
  with Fin r => Ok (Fin r) | _ => Err OverflowError end.

(** The sum of squared deviations from the mean, as an exact fraction. *)
Definition sumSquares (l : list float) : Q :=
  let n := inject_Z (Z.of_nat (length l)) in
  let c := (sumQ l / n)%Q in
  foldr (fun f acc => (valQ f - c) * (valQ f - c) + acc)%Q 0%Q l.

Definition variance (l : list float) : Q :=
  (sumSquares l / inject_Z (Z.of_nat (length l) - 1))%Q.

(** [statistics.stdev]: an infinity or a NaN among the data leaves a float
    without numerator. *)
Definition stdev (l : list float) : result PyErr float :=
  if (length l <? 2)%nat then Err StatisticsError
  else if bool_decide (filter (fun f => finite f = false) l = []) then
    let v := Qred (variance l) in float_sqrt_of_frac (Qnum v) (Zpos (Qden v))
  else Err AttributeError.

Example stdev_ex :
  stdev [Fin 3; Fin 5; Fin 10] = Ok (Fin (8118979690322419 # 2251799813685248)) /\
  stdev [Fin 1; Fin 1] = Ok (Fin 0) /\ stdev [Fin 2] = Err StatisticsError /\ stdev [Fin 2; NaN] = Err AttributeError.
Proof. by vm_compute. Qed.

(** ** Rounding to odd does not move the final rounding *)

(** An integer part and the side of the half decide the rounding. *)
Lemma rhe_below q f : (inject_Z f <= q)%Q -> (q < inject_Z f + (1 # 2))%Q -> rhe q = f.
Proof.
  intros Hl Hu. assert (Qfloor q = f) as Hf.
  { apply Z.le_antisymm.
    - apply Z.lt_succ_r. rewrite Zlt_Qlt. eapply Qle_lt_trans; [apply Qfloor_le|].
      rewrite <- Z.add_1_r, inject_Z_plus. change (inject_Z 1) with 1%Q. lra.
    - rewrite <- (Qfloor_Z f) at 1. by apply Qfloor_resp_le. }
  unfold rhe. rewrite Hf. destruct (Qcompare_spec (q - inject_Z f) (1 # 2)); [exfalso; lra|done|exfalso; lra].
Qed.

Lemma rhe_above q f : (inject_Z f + (1 # 2) < q)%Q -> (q < inject_Z (f + 1))%Q -> rhe q = f + 1.
Proof.
  rewrite inject_Z_plus. change (inject_Z 1) with 1%Q. intros Hl Hu. assert (Qfloor q = f) as Hf.
  { apply Z.le_antisymm.
    - apply Z.lt_succ_r. rewrite Zlt_Qlt. eapply Qle_lt_trans; [apply Qfloor_le|].
      rewrite <- Z.add_1_r, inject_Z_plus. change (inject_Z 1) with 1%Q. lra.
    - rewrite <- (Qfloor_Z f) at 1. apply Qfloor_resp_le. lra. }
  unfold rhe. rewrite Hf. destruct (Qcompare_spec (q - inject_Z f) (1 # 2)); [exfalso; lra|exfalso; lra|done].
Qed.

(** Inside an open interval of length two around an odd multiple of [2^e] that
    has at least 55 bits, every number rounds the same way. *)
Section Odd.
Context (t e : Z).
Hypotheses (Hodd : Z.odd t = true) (Hbig : 2 ^ 54 < t).

Definition near (z : Q) : Prop := (inject_Z (t - 1) < z)%Q /\ (z < inject_Z (t + 1))%Q.

Lemma near_pos z : near z -> (0 < z)%Q.
Proof. intros [H _]. eapply Qlt_trans; [|exact H]. rewrite <- (Zlt_Qlt 0). lia. Qed.

(** The powers of two from [2^54] up are even: none lies in the interval. *)
Lemma near_log2 : 54 <= Z.log2 t /\ 2 ^ Z.log2 t <= t - 1 /\ t + 1 <= 2 ^ (Z.log2 t + 1).
Proof.
  destruct (Z.log2_spec t ltac:(lia)) as [Hl Hu]. rewrite <- Z.add_1_r in Hu.
  assert (54 <= Z.log2 t) as H54 by (apply Z.log2_le_pow2; lia).
  assert (forall k, 1 <= k -> t <> 2 ^ k) as Hne.
  { intros k Hk ->. rewrite Z.odd_pow in Hodd by lia. done. }
  pose proof (Hne (Z.log2 t) ltac:(lia)) as Hn. revert Hl Hu Hn. generalize (2 ^ Z.log2 t) (2 ^ (Z.log2 t + 1)). intros; split_and!; lia.
Qed.

Lemma near_elog z : near z -> elog (z * pow2 e) = Z.log2 t + e.
Proof.
  intros Hz. pose proof (near_pos z Hz) as Hp. destruct Hz as [Hl Hu]. destruct near_log2 as (H54 & Hlo & Hhi).
  assert (0 < z * pow2 e)%Q as Hpos by (apply Qmult_lt_0_compat; auto with pylib).
  destruct (elog_spec _ Hpos) as [H1 H2]. rewrite Zle_Qle in Hlo, Hhi. rewrite <- pow2_Z in Hlo, Hhi by lia.
  pose proof (pow2_pos e) as He.
  assert (pow2 (elog (z * pow2 e)) < pow2 (Z.log2 t + 1 + e))%Q as Hlt%pow2_lt_inv.
  { eapply Qle_lt_trans; [exact H1|]. rewrite pow2_plus. apply Qmult_lt_r; [done|]. lra. }
  assert (pow2 (Z.log2 t + e) < pow2 (elog (z * pow2 e) + 1))%Q as Hlt'%pow2_lt_inv.
  { eapply Qle_lt_trans; [|exact H2]. rewrite pow2_plus. apply Qmult_le_r; [done|]. lra. }
  lia.
Qed.

(** Scaled down by four or more, the interval contains no integer and no
    midpoint between integers. *)
Lemma near_rhe z j : near z -> 2 <= j -> rhe (z * pow2 (- j)) = rhe (inject_Z t * pow2 (- j)).
Proof.
  intros [Hl Hu] Hj. set (d := 2 ^ j). set (f := t / d). set (r := t mod d).
  assert (0 < d) as Hd by (unfold d; lia).
  assert (t = d * f + r) as Ht by (unfold f, r; apply Z.div_mod; lia).
  assert (exists h, d = 2 * h /\ Z.even h = true /\ 0 < h) as (h & Hdh & Hh & Hhp).
  { exists (2 ^ (j - 1)). split_and!; [unfold d; rewrite <- (Z.pow_succ_r 2 (j - 1)) by lia; f_equal; lia| |lia].
    rewrite Z.even_pow by lia. done. }
  assert (Z.odd r = true) as Hr.
  { rewrite Ht, Hdh, Z.odd_add, <- Z.mul_assoc, Z.odd_mul in Hodd. done. }
  assert (r <> h) as Hrh by (intros ->; rewrite <- Z.negb_odd, Hr in Hh; done).
  assert (r <> 0) as Hr0 by (intros Hz; rewrite Hz in Hr; done).
  assert (0 <= r < d) as Hrange by (unfold r; apply Z.mod_pos_bound; lia).
  assert (pow2 (- j) == 1 / inject_Z d)%Q as Hp.
  { unfold d. rewrite <- pow2_Z by lia. unfold pow2. rewrite Qpower_opp. field. apply Qnot_eq_sym, Qlt_not_eq, pow2_pos. }
  assert (0 < inject_Z d)%Q as HdQ by (rewrite <- (Zlt_Qlt 0); lia).
  enough (forall x, near x -> rhe (x * pow2 (- j)) = if r <? h then f else f + 1) as Hall.
  { rewrite !Hall; [done| |done]. split; rewrite <- Zlt_Qlt; lia. }
  clear z Hl Hu. intros x [Hl Hu].
  assert (x * pow2 (- j) == x / inject_Z d)%Q as -> by (rewrite Hp; field; lra).
  assert ((inject_Z f + (1 # 2)) * inject_Z d == inject_Z (f * d + h))%Q as Hmid.
  { rewrite inject_Z_plus, !inject_Z_mult, Hdh, inject_Z_mult. change (inject_Z 2) with 2%Q. ring. }
  destruct (Z.ltb_spec r h) as [Hc|Hc].
  - apply rhe_below.
    + apply Qle_shift_div_l; [done|]. rewrite <- inject_Z_mult. eapply Qle_trans; [|apply Qlt_le_weak, Hl].
      rewrite <- Zle_Qle. lia.
    + apply Qlt_shift_div_r; [done|]. eapply Qlt_le_trans; [exact Hu|].
      rewrite Hmid, <- Zle_Qle. lia.
  - apply rhe_above.
    + apply Qlt_shift_div_l; [done|]. eapply Qle_lt_trans; [|exact Hl].
      rewrite Hmid, <- Zle_Qle. lia.
    + apply Qlt_shift_div_r; [done|]. rewrite <- inject_Z_mult. eapply Qlt_le_trans; [exact Hu|].
      rewrite <- Zle_Qle. lia.
Qed.

Lemma near_rndQ z : near z -> (rndQ (z * pow2 e) == rndQ (inject_Z t * pow2 e))%Q.
Proof.
  intros Hz. assert (near (inject_Z t)) as Ht by (split; rewrite <- Zlt_Qlt; lia).
  assert (forall x, near x -> 0 < x * pow2 e)%Q as Hpos.
  { intros x Hx. apply Qmult_lt_0_compat; [by apply near_pos|auto with pylib]. }
  pose proof (Hpos _ Hz) as Pz. pose proof (Hpos _ Ht) as Pt. unfold rndQ.
  destruct (Qcompare_spec (z * pow2 e) 0); [exfalso; lra..|].
  destruct (Qcompare_spec (inject_Z t * pow2 e) 0); [exfalso; lra..|].
  rewrite !Qred_correct. unfold rndPos, ulpExp. rewrite !near_elog by done.
  set (u := Z.max _ _). destruct near_log2 as (H54 & _).
  assert (forall x, x * pow2 e * pow2 (- u) == x * pow2 (- (u - e)))%Q as Hsc.
  { intros x. rewrite <- Qmult_assoc, <- pow2_plus. by replace (e + - u) with (- (u - e)) by lia. }
  rewrite !Hsc. rewrite (near_rhe z (u - e)); [done|done|lia].
Qed.
End Odd.

(** ** The square root *)

Lemma lor_1 a : 0 <= a -> a <= Z.lor a 1 <= a + 1 /\ Z.odd (Z.lor a 1) = true.
Proof. destruct a as [|[p|p|]|p]; intros Ha; [done| | |done|lia]; (split; [|done]). all: change (Z.lor _ 1) with (Zpos (xI p)); lia. Qed.

(** Rounding to odd: exact, or the odd neighbour of the root. *)
Lemma rto_spec (n m : Z) : 0 <= n -> 0 < m ->
  let t := integer_sqrt_of_frac_rto n m in let v := (inject_Z n / inject_Z m)%Q in
  0 <= t /\
  ((inject_Z (t * t) == v)%Q \/
   (Z.odd t = true /\ exists a, a <= t <= a + 1 /\ 0 <= a /\ (inject_Z (a * a) < v)%Q /\ (v < inject_Z ((a + 1) * (a + 1)))%Q)).
Proof.
  intros Hn Hm t v. subst t v. unfold integer_sqrt_of_frac_rto. set (a := Z.sqrt (n / m)).
  assert (0 <= n / m) as Hq by (apply Z.div_pos; lia).
  destruct (Z.sqrt_spec (n / m) Hq) as [Hlo Hhi]. fold a in Hlo, Hhi.
  assert (0 <= a) as Ha by apply Z.sqrt_nonneg.
  assert (0 < inject_Z m)%Q as HmQ by (rewrite <- (Zlt_Qlt 0); lia).
  assert (a * a * m <= n) as H1 by (pose proof (Z.mul_div_le n m Hm); nia).
  assert (n < (a + 1) * (a + 1) * m) as H2.
  { pose proof (Z.mul_succ_div_gt n m Hm). nia. }
  destruct (Z.eqb_spec (a * a * m) n) as [He|He].
  - rewrite Z.lor_0_r. split; [done|]. left. rewrite <- He, (inject_Z_mult (a * a) m). field. lra.
  - assert (a <= Z.lor a 1 <= a + 1 /\ Z.odd (Z.lor a 1) = true) as [Hb Ho].
    { by apply lor_1. }
    split; [lia|]. right. split; [done|]. exists a. split_and!; [lia|lia|lia| |].
    + apply Qlt_shift_div_l; [done|]. rewrite <- inject_Z_mult, <- Zlt_Qlt. lia.
    + apply Qlt_shift_div_r; [done|]. rewrite <- inject_Z_mult, <- Zlt_Qlt. lia.
Qed.

(** The scaled square is the fraction itself, scaled by an even power of two
    that leaves at least 109 bits. *)
Lemma sqrtInt_spec n m : 0 <= n -> 0 < m ->
  exists n' m', 0 <= n' /\ 0 < m' /\ sqrtInt n m = integer_sqrt_of_frac_rto n' m' /\
    (inject_Z n' / inject_Z m' == inject_Z n / inject_Z m * pow2 (- (2 * sqrtScale n m)))%Q.
Proof.
  intros Hn Hm. unfold sqrtInt. set (q := sqrtScale n m).
  assert (0 < inject_Z m)%Q as HmQ by (rewrite <- (Zlt_Qlt 0); lia).
  destruct (Z.leb_spec 0 q) as [Hq|Hq].
  - exists n, (Z.shiftl m (2 * q)). rewrite Z.shiftl_mul_pow2 by lia. split_and!; [done|nia|done|].
    rewrite inject_Z_mult, <- pow2_Z by lia. unfold pow2. rewrite Qpower_opp. field. split; [|lra].
    apply Qnot_eq_sym, Qlt_not_eq, pow2_pos.
  - exists (Z.shiftl n (- (2 * q))), m. rewrite Z.shiftl_mul_pow2 by lia. split_and!; [nia|done|done|].
    rewrite inject_Z_mult, <- pow2_Z by lia. field. lra.
Qed.

Lemma bit_length_spec n : 0 < n -> 2 ^ (bit_length n - 1) <= n < 2 ^ bit_length n.
Proof.
  intros Hn. unfold bit_length. destruct (Z.eqb_spec n 0); [lia|].
  replace (Z.log2 n + 1 - 1) with (Z.log2 n) by lia. by apply Z.log2_spec.
Qed.

Lemma scaled_big n m : 0 < n -> 0 < m ->
  (inject_Z (2 ^ 108) < inject_Z n / inject_Z m * pow2 (- (2 * sqrtScale n m)))%Q.
Proof.
  intros Hn Hm. destruct (bit_length_spec n Hn) as [Ln _]. destruct (bit_length_spec m Hm) as [_ Um].
  assert (0 < inject_Z m)%Q as HmQ by (rewrite <- (Zlt_Qlt 0); lia).
  assert (0 < bit_length n /\ 0 < bit_length m) as [Bn Bm].
  { unfold bit_length. pose proof (Z.log2_nonneg n). pose proof (Z.log2_nonneg m).
    destruct (Z.eqb_spec n 0), (Z.eqb_spec m 0); lia. }
  rewrite Zle_Qle, <- pow2_Z in Ln by lia. rewrite Zlt_Qlt, <- pow2_Z in Um by lia.
  set (N := bit_length n) in *. set (L := bit_length m) in *. set (q := sqrtScale n m).
  assert (2 * q <= N - L - 109) as Hq by (apply Z.mul_div_le; lia).
  assert (pow2 (N - 1 - L) < inject_Z n / inject_Z m)%Q as Hv.
  { apply Qlt_shift_div_l; [done|]. eapply Qlt_le_trans; [|exact Ln].
    replace (N - 1) with (N - 1 - L + L) at 2 by lia. rewrite (pow2_plus _ L). apply Qmult_lt_l; [auto with pylib|done]. }
  eapply Qle_lt_trans; [|apply Qmult_lt_r; [auto with pylib|exact Hv]].
  rewrite <- pow2_plus, <- pow2_Z by lia. apply pow2_mono. lia.
Qed.

(** What is rounded at the end. *)
Lemma float_sqrt_rnd n m : 0 < m ->
  let T := (inject_Z (sqrtInt n m) * pow2 (sqrtScale n m))%Q in
  exists q, (q == rndQ T)%Q /\
    float_sqrt_of_frac n m = if Qle_bool (pow2 1024) (Qabs q) then Err OverflowError else Ok (Fin q).
Proof.
  intros Hm T. unfold T, float_sqrt_of_frac. set (t := sqrtInt n m). set (e := sqrtScale n m).
  assert (forall x, (x == inject_Z t * pow2 e)%Q ->
    exists q, (q == rndQ (inject_Z t * pow2 e))%Q /\
      match rnd x with Fin r => Ok (Fin r) | _ => Err OverflowError end =
      if Qle_bool (pow2 1024) (Qabs q) then Err OverflowError else Ok (Fin q)) as Hx.
  { intros x Hx. exists (rndQ x). split; [by rewrite Hx|]. unfold rnd. by destruct (Qle_bool _ _). }
  destruct (Z.leb_spec 0 e) as [He|He]; apply Hx.
  - by rewrite Z.shiftl_mul_pow2, inject_Z_mult, pow2_Z by lia.
  - rewrite Z.shiftl_mul_pow2, Z.mul_1_l, <- pow2_Z by lia. unfold pow2. rewrite Qpower_opp. field.
    apply Qnot_eq_sym, Qlt_not_eq, pow2_pos.
Qed.

Lemma square_nonneg x : (0 <= x * x)%Q.
Proof. destruct (Qlt_le_dec x 0); nra. Qed.
Lemma square_le x y : (0 <= y)%Q -> (x * x <= y * y)%Q -> (x <= y)%Q.
Proof. intros Hy Hxy. apply Qnot_lt_le. intros Hlt. nra. Qed.
Lemma square_lt x y : (0 <= y)%Q -> (x * x < y * y)%Q -> (x < y)%Q.
Proof. intros Hy Hxy. apply Qnot_le_lt. intros Hle. nra. Qed.

(** [r] is the rounding of the real square root of [v]: no number below the root
    rounds above [r], and none above it rounds below. *)
Definition rounds_sqrt (v r : Q) : Prop :=
  forall x, (0 <= x)%Q -> ((x * x <= v)%Q -> (rndQ x <= r)%Q) /\ ((v <= x * x)%Q -> (r <= rndQ x)%Q).

(** The scaled statement: [t] stands for the root of [V]. *)
Lemma rounds_scaled t e V : 0 <= t -> (V == 0 \/ inject_Z (2 ^ 108) < V)%Q ->
  ((inject_Z (t * t) == V)%Q \/
   (Z.odd t = true /\ exists a, a <= t <= a + 1 /\ 0 <= a /\ (inject_Z (a * a) < V)%Q /\ (V < inject_Z ((a + 1) * (a + 1)))%Q)) ->
  forall x, (0 <= x)%Q ->
    ((x * x <= V)%Q -> (rndQ (x * pow2 e) <= rndQ (inject_Z t * pow2 e))%Q) /\
    ((V <= x * x)%Q -> (rndQ (inject_Z t * pow2 e) <= rndQ (x * pow2 e))%Q).
Proof.
  intros Ht HV Hcase x Hx. assert (0 <= inject_Z t)%Q as HtQ by (rewrite <- (Zle_Qle 0); lia).
  assert (forall p q, (p <= q)%Q -> (rndQ (p * pow2 e) <= rndQ (q * pow2 e))%Q) as Hmono.
  { intros p q Hpq. apply rndQ_mono, Qmult_le_r; auto with pylib. }
  destruct Hcase as [Heq|(Hodd & a & Hat & Ha & Hlo & Hhi)]; rewrite inject_Z_mult in *.
  { split; intros Hc; apply Hmono, square_le; (done || by rewrite Heq). }
  assert (0 <= inject_Z a)%Q as HaQ by (rewrite <- (Zle_Qle 0); lia).
  assert (0 <= inject_Z (a + 1))%Q as HaQ' by (rewrite <- (Zle_Qle 0); lia).
  assert (2 ^ 54 < t) as Hbig.
  { destruct HV as [HV|HV]; [exfalso; nra|].
    assert (inject_Z (2 ^ 54) < inject_Z (a + 1))%Q as Hlt.
    { apply square_lt; [done|]. rewrite <- inject_Z_mult. change (2 ^ 54 * 2 ^ 54) with (2 ^ 108). lra. }
    rewrite <- Zlt_Qlt in Hlt. destruct (Z.eq_dec t (2 ^ 54)) as [->|]; [done|lia]. }
  rewrite Zle_Qle in Hat. destruct Hat as [Hat Hta]. rewrite Zle_Qle in Hta.
  split; intros Hc.
  - destruct (Qlt_le_dec (inject_Z t) x) as [Hlt|Hle]; [|by apply Hmono].
    rewrite (near_rndQ t e Hodd Hbig x); [apply Qle_refl|]. split.
    + eapply Qlt_trans; [|exact Hlt]. rewrite <- Zlt_Qlt. lia.
    + eapply Qlt_le_trans; [apply (square_lt x (inject_Z (a + 1))); [done|lra]|]. rewrite !inject_Z_plus. lra.
  - destruct (Qlt_le_dec x (inject_Z t)) as [Hlt|Hle]; [|by apply Hmono].
    rewrite (near_rndQ t e Hodd Hbig x); [apply Qle_refl|]. split.
    + eapply Qle_lt_trans; [|apply (square_lt (inject_Z a) x); [done|lra]]. rewrite <- Zle_Qle. rewrite <- Zle_Qle in Hta. lia.
    + eapply Qlt_trans; [exact Hlt|]. rewrite <- Zlt_Qlt. lia.
Qed.

(** The algorithm rounds the root correctly, and raises only for roots that
    round to [2^1024] or more. *)
Lemma float_sqrt_correct n m : 0 <= n -> 0 < m ->
  exists r, rounds_sqrt (inject_Z n / inject_Z m) r /\
    float_sqrt_of_frac n m = if Qle_bool (pow2 1024) (Qabs r) then Err OverflowError else Ok (Fin r).
Proof.
  intros Hn Hm. destruct (float_sqrt_rnd n m Hm) as (r & Hr & Hf). exists r. split; [|exact Hf].
  set (t := sqrtInt n m) in *. set (e := sqrtScale n m) in *. set (v := (inject_Z n / inject_Z m)%Q).
  destruct (sqrtInt_spec n m Hn Hm) as (n' & m' & Hn' & Hm' & Hti & HV).
  destruct (rto_spec n' m' Hn' Hm') as [Ht Hcase]. fold e v t in HV, Hti. rewrite <- Hti in Ht, Hcase.
  set (V := (v * pow2 (- (2 * e)))%Q) in *.
  assert (forall x, (x * pow2 (- e)) * (x * pow2 (- e)) == x * x * pow2 (- (2 * e)))%Q as Hsq.
  { intros x. replace (- (2 * e)) with (- e + - e) by lia. rewrite pow2_plus. ring. }
  assert (V == 0 \/ inject_Z (2 ^ 108) < V)%Q as HV0.
  { destruct (Z.eq_dec n 0) as [->|]; [left|right; apply scaled_big; lia]. unfold V, v. change (inject_Z 0) with 0%Q. unfold Qdiv. ring. }
  pose proof (pow2_pos (- (2 * e))) as Hp2. intros x Hx.
  destruct (rounds_scaled t e V Ht HV0) with (x := (x * pow2 (- e))%Q) as [H1 H2].
  { destruct Hcase as [Hc|(Ho & a & Hat & Ha & Hlo & Hhi)]; [left; by rewrite <- HV|right].
    split; [done|]. exists a. rewrite <- HV. done. }
  { apply Qmult_le_0_compat; [done|]. apply Qlt_le_weak. auto with pylib. }
  assert (x * pow2 (- e) * pow2 e == x)%Q as Hxe.
  { rewrite <- Qmult_assoc, <- pow2_plus, Z.add_opp_diag_l. change (pow2 0) with 1%Q. ring. }
  rewrite Hxe, <- Hr in H1, H2. rewrite Hsq in H1, H2. unfold V in H1, H2.
  split; intros Hc; [apply H1|apply H2]; by apply Qmult_le_r.
Qed.

(** ** The variance *)

#[export] Instance rounds_sqrt_proper : Proper (Qeq ==> eq ==> iff) rounds_sqrt.
Proof. intros v v' Hv r r' <-. unfold rounds_sqrt. by setoid_rewrite Hv. Qed.

Section Variance.
Context (l : list float).
Let n := inject_Z (Z.of_nat (length l)).

(** The squared deviations from the mean are the squares' sum less the
    mean's share, so no other centre gives a smaller sum. *)
Definition squaresFrom (y : Q) (l : list float) : Q :=
  foldr (fun f acc => (valQ f - y) * (valQ f - y) + acc)%Q 0%Q l.

Lemma squaresFrom_shift y c k : (squaresFrom y k == squaresFrom c k + 2 * (c - y) * (sumQ k - inject_Z (Z.of_nat (length k)) * c)
    + inject_Z (Z.of_nat (length k)) * ((c - y) * (c - y)))%Q.
Proof.
  induction k as [|f k IH]; [unfold squaresFrom, sumQ; cbn; change (inject_Z 0) with 0%Q; ring|].
  cbn [squaresFrom foldr sumQ length]. fold (squaresFrom y k) (squaresFrom c k) (sumQ k).
  rewrite IH, Nat2Z.inj_succ, <- Z.add_1_l, inject_Z_plus. change (inject_Z 1) with 1%Q. ring.
Qed.

Lemma squaresFrom_nonneg y k : (0 <= squaresFrom y k)%Q.
Proof. induction k as [|f k IH]; cbn; [lra|]. fold (squaresFrom y k). pose proof (square_nonneg (valQ f - y)). lra. Qed.

Lemma squaresFrom_le y d k : (0 <= d)%Q -> Forall (fun f => (y - d <= valQ f)%Q /\ (valQ f <= y + d)%Q) k ->
  (squaresFrom y k <= inject_Z (Z.of_nat (length k)) * (d * d))%Q.
Proof.
  intros Hd. induction 1 as [|f k [H1 H2] _ IH]; [by rewrite Qmult_0_l|].
  cbn [squaresFrom foldr length]. fold (squaresFrom y k). rewrite Nat2Z.inj_succ, <- Z.add_1_l, inject_Z_plus.
  change (inject_Z 1) with 1%Q. nra.
Qed.

Hypothesis Hlen : (2 <= length l)%nat.

Lemma sumSquares_le y : (sumSquares l <= squaresFrom y l)%Q.
Proof.
  assert (0 < n)%Q as Hn by (unfold n; rewrite <- (Zlt_Qlt 0); lia).
  unfold sumSquares. fold n. set (c := (sumQ l / n)%Q). change (foldr _ 0%Q l) with (squaresFrom c l).
  rewrite (squaresFrom_shift y c l). fold n.
  assert (n * c == sumQ l)%Q as Hc by (unfold c; field; lra). rewrite Hc.
  pose proof (square_nonneg (c - y)). assert (0 <= n * ((c - y) * (c - y)))%Q by (apply Qmult_le_0_compat; lra). lra.
Qed.

Lemma variance_nonneg : (0 <= variance l)%Q.
Proof.
  unfold variance. apply Qle_shift_div_l; [rewrite <- (Zlt_Qlt 0); lia|]. rewrite Qmult_0_l. apply squaresFrom_nonneg.
Qed.

(** The standard deviation is at most the spread of the data. *)
Lemma variance_le a b : Forall (fun f => (a <= valQ f)%Q /\ (valQ f <= b)%Q) l -> (variance l <= (b - a) * (b - a))%Q.
Proof.
  intros Hl. assert (a <= b)%Q as Hab.
  { destruct l as [|f k]; [simpl in Hlen; lia|]. apply Forall_cons in Hl as [[? ?] _]. lra. }
  pose proof (sumSquares_le ((a + b) / 2)) as Hle.
  pose proof (squaresFrom_le ((a + b) / 2) ((b - a) / 2) l) as Hb.
  assert ((b - a) / 2 == (b - a) * (1 # 2))%Q as Hh by (field).
  assert ((a + b) / 2 == (a + b) * (1 # 2))%Q as Hm by (field).
  unfold variance. apply Qle_shift_div_r; [rewrite <- (Zlt_Qlt 0); lia|].
  eapply Qle_trans; [exact Hle|]. eapply Qle_trans; [apply Hb|].
  - rewrite Hh. lra.
  - eapply Forall_impl; [exact Hl|]. cbn. intros f [H1 H2]. rewrite Hh, Hm. lra.
  - rewrite Hh. unfold Z.sub. rewrite inject_Z_plus. change (inject_Z (- (1))) with (-1)%Q.
    assert (2 <= inject_Z (Z.of_nat (length l)))%Q as H2 by (change 2%Q with (inject_Z 2); rewrite <- Zle_Qle; lia).
    pose proof (square_nonneg (b - a)) as Hsq.
    assert (0 <= (b - a) * (b - a) * (inject_Z (Z.of_nat (length l)) * (3 # 4) - 1))%Q by (apply Qmult_le_0_compat; lra). lra.
Qed.
End Variance.

(** The exact root whose rounding the algorithm returns. *)
Lemma variance_root (l : list float) : (2 <= length l)%nat ->
  let v := Qred (variance l) in
  exists r, rounds_sqrt (variance l) r /\
    float_sqrt_of_frac (Qnum v) (Zpos (Qden v)) = if Qle_bool (pow2 1024) (Qabs r) then Err OverflowError else Ok (Fin r).
Proof.
  intros Hlen v. pose proof (variance_nonneg l Hlen) as Hv0. assert (v == variance l)%Q as Hv by apply Qred_correct.
  assert (inject_Z (Qnum v) / inject_Z (Zpos (Qden v)) == variance l)%Q as Hq.
  { rewrite <- Hv. destruct v as [p d]. cbn. by rewrite (Qmake_Qdiv p d). }
  destruct (float_sqrt_correct (Qnum v) (Zpos (Qden v))) as (r & Hr & Hf); [|lia|].
  { rewrite <- Hv in Hv0. unfold Qle in Hv0. cbn in Hv0. lia. }
  rewrite Hq in Hr. by exists r.
Qed.

(** Whatever the data, a result is the correctly rounded root. *)
Lemma stdev_Ok (l : list float) d : stdev l = Ok d -> exists r, d = Fin r /\ rounds_sqrt (variance l) r.
Proof.
  unfold stdev. destruct (length l <? 2)%nat eqn:E; [done|]. apply Nat.ltb_ge in E. case_bool_decide; [|done].
  destruct (variance_root l E) as (r & Hr & ->). destruct (Qle_bool _ _); [done|]. intros [= <-]. by exists r.
Qed.

(** [statistics.stdev] of finite data whose magnitudes are at most [2^1000]
    returns, without raising, the float nearest to the real square root of the
    sample variance; it is never negative and never more than the (rounded)
    spread of the data. *)
Theorem stdev_correct (l : list float) : (2 <= length l)%nat ->
  Forall (fun f => isFin f /\ (Qabs (valQ f) <= pow2 1000)%Q) l ->
  exists r, stdev l = Ok (Fin r) /\ rounds_sqrt (variance l) r /\ (0 <= r)%Q /\
    forall a b, Forall (fun f => (a <= valQ f)%Q /\ (valQ f <= b)%Q) l -> (r <= rndQ (b - a))%Q.
Proof.
  intros Hlen Hl. pose proof (variance_nonneg l Hlen) as Hv0. destruct (variance_root l Hlen) as (r & Hr & Hf).
  assert (0 <= r)%Q as Hr0.
  { destruct (Hr 0%Q ltac:(lra)) as [H0 _]. change (rndQ 0) with 0%Q in H0. apply H0. lra. }
  assert (forall a b, Forall (fun f => (a <= valQ f)%Q /\ (valQ f <= b)%Q) l -> (r <= rndQ (b - a))%Q) as Hb.
  { intros a b Hab. apply Hr; [|by apply variance_le]. destruct l as [|f k]; [simpl in Hlen; lia|].
    apply Forall_cons in Hab as [[? ?] _]. lra. }
  exists r. split_and!; [|done|done|done].
  unfold stdev. rewrite (proj2 (Nat.ltb_ge _ _)) by done. rewrite bool_decide_eq_true_2; cycle 1.
  { clear -Hl. induction Hl as [|f k [Hf _] _ IH]; [done|]. rewrite filter_cons_False; [done|]. by rewrite Hf. }
  rewrite Hf. destruct (Qle_bool (pow2 1024) (Qabs r)) eqn:E; [|done]. exfalso. apply Qle_bool_iff in E.
  rewrite Qabs_pos in E by done.
  assert (r <= rndQ (pow2 1000 - - pow2 1000))%Q as Hle.
  { apply Hb. eapply Forall_impl; [exact Hl|]. cbn. intros f [_ Hf']. apply Qabs_Qle_condition in Hf'. lra. }
  assert (rndQ (pow2 1000 - - pow2 1000) < pow2 1024)%Q by (by vm_compute). lra.
Qed.
