(* ===== verification/CompareGeo.v ===== *)
(** * Comparing the geo-distribution results

    [compare_geo_results.py]: from the rows of two CSV files (what
    [csv.DictReader] yields: a dictionary of strings per line) to the Markdown
    and console reports.  A report is the list of its lines.  The bytes of
    the files are read in GeoPipeline.v, the command line in Scripts.v. *)

From Stdlib Require Import Lqa.
From S2P Require Import Prelude PyStr PyFloat.
#[local] Open Scope Z_scope.

(** ** Rows *)

(** A cell: [None], a string, or the float it was parsed to. *)
Inductive Cell := CNone | CStr (s : string) | CFloat (f : float).

Definition Row := gmap string Cell.

Definition NUMERIC_FIELDS : list string :=
  ["write_latency_ms"; "read_latency_avg_ms"; "read_latency_min_ms"; "read_latency_max_ms";
   "convergence_ms"; "immediate_stale_reads"; "replica_count"].

Definition to_float (value : Cell) : Cell :=
  match value with
  | CNone => CNone
  | CStr s => if bool_decide (s = "") then CNone
              else match py_float s with Some f => CFloat f | None => CNone end
  | CFloat f => CFloat f
  end.

(** The inner loop of [load_rows] on one row. *)
Definition parseRow (row : Row) : Row :=
  foldl (fun parsed field =>
           match parsed !! field with Some c => <[field := to_float c]> parsed | None => parsed end)
        row NUMERIC_FIELDS.

Definition load_rows (reader : list Row) : list Row := parseRow <$> reader.

Definition floatCell (c : option Cell) : option float :=
  match c with Some (CFloat f) => Some f | _ => None end.

Definition values (rows : list Row) (field : string) : list float :=
  omap (fun row => floatCell (row !! field)) rows.

(** ** Statistics *)

(** The literals [0.50], [0.95] and [1]. *)
Definition lit050 : float := rnd (50 # 100).
Definition lit095 : float := rnd (95 # 100).
Definition one : float := Fin 1.

Definition percentile (sorted_values : list float) (pct : float) : result PyErr (option float) :=
  match sorted_values with
  | [] => Ok None
  | [x] => Ok (Some x)
  | _ =>
      let n := Z.of_nat (length sorted_values) in
      let rank := fmul (float_of_int (n - 1)) pct in
      (lower <-? int_of_float rank ;;
       let upper := Z.min (lower + 1) (n - 1) in
       let weight := fsub rank (float_of_int lower) in
       lo <-? py_index sorted_values lower ;;
       hi <-? py_index sorted_values upper ;;
       Ok (Some (fadd (fmul lo (fsub one weight)) (fmul hi weight))))%result
  end.

Record Latency := mkLatency {
  count : Z; avg : option float; p50 : option float; p95 : option float;
  min : option float; max : option float }.

Definition summarize_latency (rows : list Row) (field : string) : result PyErr Latency :=
  let vals := sorted (values rows field) in
  match vals with
  | [] => Ok (mkLatency 0 None None None None None)
  | v :: vs =>
      (a <-? mean vals ;; q50 <-? percentile vals lit050 ;; q95 <-? percentile vals lit095 ;;
       Ok (mkLatency (Z.of_nat (length vals)) (Some a) q50 q95 (Some (py_min v vs)) (Some (py_max v vs))))%result
  end.

Record Staleness := mkStaleness { stale_total : float; read_total : float; rate : option float }.

Definition summarize_staleness (rows : list Row) : result PyErr Staleness :=
  let stale := values rows "immediate_stale_reads" in
  let replicas := values rows "replica_count" in
  let stale_total := py_sum stale in
  let read_total := py_sum replicas in
  (rate <-? (if feqb read_total (Fin 0) then Ok None
             else r <-? fdiv stale_total read_total ;; Ok (Some r)) ;;
   Ok (mkStaleness stale_total read_total rate))%result.

(** [row.get("write_status") in ("200", 200, 200.0)] *)
Definition isStatus200 (c : option Cell) : bool :=
  match c with
  | Some (CStr s) => bool_decide (s = "200")
  | Some (CFloat f) => feqb f (Fin 200)
  | _ => false
  end.

Definition successful_rounds (rows : list Row) : list Row :=
  filter (fun row => isStatus200 (row !! "write_status") = true) rows.

(** ** Reports *)

Definition fmt_ms (value : option float) : string :=
  match value with None => "n/a" | Some v => fmtFixed 2 v +:+ " ms" end.

Definition fmt_rate (value : option float) : string :=
  match value with None => "n/a" | Some v => fmtFixed 2 (fmul v (Fin 100)) +:+ "%" end.

Definition ratio (distributed colocated : option float) : result PyErr string :=
  match distributed, colocated with
  | Some d, Some c =>
      if feqb c (Fin 0) then Ok "n/a" else (r <-? fdiv d c ;; Ok (fmtFixed 2 r +:+ "x"))%result
  | _, _ => Ok "n/a"
  end.

Record Summary := mkSummary {
  name : string; rows : list Row; successful_rows : list Row;
  write : Latency; read : Latency; convergence : Latency; staleness : Staleness }.

Definition build_summary (name : string) (rows : list Row) : result PyErr Summary :=
  let ok_rows := successful_rounds rows in
  (w <-? summarize_latency ok_rows "write_latency_ms" ;;
   r <-? summarize_latency ok_rows "read_latency_avg_ms" ;;
   c <-? summarize_latency ok_rows "convergence_ms" ;;
   s <-? summarize_staleness ok_rows ;;
   Ok (mkSummary name rows ok_rows w r c s))%result.

Definition table (summary : Summary) : list (list string) :=
  [[name summary;
    pretty (length (successful_rows summary));
    fmt_ms (avg (write summary));
    fmt_ms (p95 (write summary));
    fmt_ms (avg (read summary));
    fmt_ms (avg (convergence summary));
    fmt_rate (rate (staleness summary))]].

Definition NEWLINE : string := String (Ascii.ascii_of_nat 10) "".

Definition markdown_report (colocated distributed : Summary) : result PyErr string :=
  (rw <-? ratio (avg (write distributed)) (avg (write colocated)) ;;
   rr <-? ratio (avg (read distributed)) (avg (read colocated)) ;;
   rc <-? ratio (avg (convergence distributed)) (avg (convergence colocated)) ;;
   let lines :=
     ["# Geo-Distribution Tradeoff Results"; "";
      "| Deployment | Successful rounds | Avg write | P95 write | Avg read | Avg convergence | Immediate stale rate |";
      "|---|---:|---:|---:|---:|---:|---:|"]
     ++ ((fun row => "| " +:+ join " | " row +:+ " |") <$> (table colocated ++ table distributed))
     ++ [""; "## Comparison"; "";
         "- Geo-distributed avg write latency ratio: " +:+ rw;
         "- Geo-distributed avg read latency ratio: " +:+ rr;
         "- Geo-distributed avg convergence ratio: " +:+ rc;
         ""; "## Interpretation Guide"; "";
         "- Higher write latency in the geo-distributed setup indicates the cost of cross-region Raft consensus.";
         "- Lower read latency on nearby replicas would indicate the benefit of client proximity.";
         "- A higher immediate stale rate means followers are more likely to lag right after a write.";
         "- Higher convergence time means replicas take longer to observe the latest committed value.";
         ""] in
   Ok (join NEWLINE lines))%result.

Definition consoleRow (summary : Summary) : string :=
  ljust 20 (name summary) +:+ " " +:+
  rjust 6 (pretty (length (successful_rows summary))) +:+ "  " +:+
  rjust 10 (fmt_ms (avg (write summary))) +:+ "  " +:+
  rjust 10 (fmt_ms (p95 (write summary))) +:+ "  " +:+
  rjust 10 (fmt_ms (avg (read summary))) +:+ "  " +:+
  rjust 10 (fmt_ms (avg (convergence summary))) +:+ "  " +:+
  rjust 8 (fmt_rate (rate (staleness summary))).

Definition print_console_report (colocated distributed : Summary) : result PyErr (list string) :=
  (rw <-? ratio (avg (write distributed)) (avg (write colocated)) ;;
   rr <-? ratio (avg (read distributed)) (avg (read colocated)) ;;
   rc <-? ratio (avg (convergence distributed)) (avg (convergence colocated)) ;;
   Ok ([repeatStr 80 "="; "Geo-Distribution Tradeoff Results"; repeatStr 80 "="; "";
        "Deployment           Rounds  Avg Write   P95 Write   Avg Read    Avg Conv.   Stale";
        repeatStr 80 "-"]
       ++ (consoleRow <$> [colocated; distributed])
       ++ [""; "Ratios: geo-distributed / co-located";
           "- Avg write latency: " +:+ rw; "- Avg read latency: " +:+ rr; "- Avg convergence: " +:+ rc]))%result.

(** [main], from the rows of the two files to the console and the report
    (written when [--output] is not empty). *)
Definition main (colocated_reader distributed_reader : list Row) (output : string)
    : result PyErr (list string * option string) :=
  let colocated_rows := load_rows colocated_reader in
  let distributed_rows := load_rows distributed_reader in
  (colocated <-? build_summary "Co-located" colocated_rows ;;
   distributed <-? build_summary "Geo-distributed" distributed_rows ;;
   console <-? print_console_report colocated distributed ;;
   if bool_decide (output = "") then Ok (console, None)
   else report <-? markdown_report colocated distributed ;;
        Ok (console ++ [""; "Wrote report: " +:+ output], Some report))%result.

(** ** The reports never raise *)

(** [0.50] and [0.95] are percentiles: floats between 0 and 1. *)
Definition is_pct (pct : float) : Prop := exists p, pct = Fin p /\ is_float (Fin p) /\ (0 <= p)%Q /\ (p <= 1)%Q.

Lemma literal_pct q : (0 <= q)%Q -> (q <= 1)%Q -> is_pct (rnd q).
Proof.
  intros H0 H1. destruct (rnd_Fin 0 1 q (is_float_Z 0 ltac:(lia)) (is_float_Z 1 ltac:(lia)) H0 H1) as (r & Hr & ? & ? & ? & _).
  by exists r.
Qed.

Lemma lit050_pct : is_pct lit050.
Proof. by apply literal_pct. Qed.
Lemma lit095_pct : is_pct lit095.
Proof. by apply literal_pct. Qed.
#[export] Hint Resolve lit050_pct lit095_pct : pylib.

(** The rank of a percentile is a float of the index range. *)
Lemma rank_spec n pct : 0 <= n < 2 ^ 53 -> is_pct pct ->
  exists r, fmul (float_of_int n) pct = Fin r /\ (0 <= r)%Q /\ (r <= inject_Z n)%Q /\ is_float (Fin r) /\
    (r == rndQ (inject_Z n * valQ pct))%Q.
Proof.
  intros Hn (p & -> & Hp & H0 & H1). unfold float_of_int.
  destruct (rnd_Z n) as (k & -> & Hk & _); [lia|]. cbn [fmul].
  assert (0 <= inject_Z n)%Q by (change 0%Q with (inject_Z 0); rewrite <- Zle_Qle; lia).
  destruct (rnd_Fin 0 (inject_Z n) (k * p)) as (r & Hr & ? & ? & ? & Heq).
  { by apply (is_float_Z 0). }
  { apply is_float_Z. lia. }
  { rewrite Hk. nra. }
  { rewrite Hk. nra. }
  exists r. split_and!; [done..|]. rewrite Heq. simpl. by rewrite Hk.
Qed.

Lemma Qfloor_between r n : (0 <= r)%Q -> (r <= inject_Z n)%Q -> 0 <= Qfloor r <= n.
Proof.
  intros H0 H1. split.
  - rewrite <- (Qfloor_Z 0). by apply Qfloor_resp_le.
  - rewrite <- (Qfloor_Z n). by apply Qfloor_resp_le.
Qed.

Lemma int_of_rank r : (0 <= r)%Q -> int_of_float (Fin r) = Ok (Qfloor r).
Proof. intros H. simpl. unfold negQ. apply Qle_bool_iff in H. by rewrite H. Qed.

(** On a list of at least two values, the two neighbours the result is made of. *)
Lemma percentile_eq l pct :
  (2 <= length l)%nat -> Z.of_nat (length l) < 2 ^ 53 -> is_pct pct ->
  exists r a b, fmul (float_of_int (Z.of_nat (length l) - 1)) pct = Fin r /\
    (0 <= r)%Q /\ (r <= inject_Z (Z.of_nat (length l) - 1))%Q /\
    l !! Z.to_nat (Qfloor r) = Some a /\
    l !! Z.to_nat (Z.min (Qfloor r + 1) (Z.of_nat (length l) - 1)) = Some b /\
    percentile l pct =
      Ok (Some (let w := fsub (Fin r) (float_of_int (Qfloor r)) in fadd (fmul a (fsub one w)) (fmul b w))).
Proof.
  intros H2 Hlen Hpct. set (n := Z.of_nat (length l)) in *.
  destruct (rank_spec (n - 1) pct) as (r & Hr & H0 & Hn & _); [lia|done|].
  pose proof (Qfloor_between r (n - 1) H0 Hn) as Hf.
  destruct (py_index_Ok l (Qfloor r)) as (a & Ha & Hla); [lia|].
  destruct (py_index_Ok l (Z.min (Qfloor r + 1) (n - 1))) as (b & Hb & Hlb); [lia|].
  exists r, a, b. split_and!; [done..|].
  unfold percentile. destruct l as [|x [|y l]]; [simpl in H2; lia..|]. fold n. rewrite Hr, int_of_rank by done.
  cbn [rbind]. rewrite Ha. cbn [rbind]. by rewrite Hb.
Qed.

Lemma percentile_Ok l pct : Z.of_nat (length l) < 2 ^ 53 -> is_pct pct ->
  exists o, percentile l pct = Ok o /\ (l <> [] -> exists v, o = Some v).
Proof.
  intros Hlen Hpct. destruct l as [|x [|y l]].
  - by exists None.
  - exists (Some x). split; [done|]. by eexists.
  - destruct (percentile_eq (x :: y :: l) pct) as (r & a & b & _ & _ & _ & _ & _ & ->); [simpl; lia|done|done|].
    eexists. split; [done|]. by eexists.
Qed.

(** Every float in a row is one that binary64 can hold. *)
Definition cell_ok (c : Cell) : Prop := match c with CFloat f => is_float f | _ => True end.
Definition row_ok (row : Row) : Prop := map_Forall (fun _ c => cell_ok c) row.

Lemma py_float_is_float s f : py_float s = Some f -> is_float f.
Proof.
  unfold py_float. destruct (signed _) as [sg body]. case_bool_decide; [by intros [= <-]|].
  case_bool_decide; [by intros [= <-]|]. destruct (scanDigits 0 0 body) as [[ip ni] rest].
  destruct (scanFraction ip rest) as [[m nf] rest']. case_bool_decide; [done|].
  destruct (scanExponent rest') as [e|]; [|done]. intros [= <-]. apply rnd_is_float.
Qed.

Lemma to_float_ok c : cell_ok c -> cell_ok (to_float c).
Proof.
  destruct c as [|s|f]; simpl; [done| |done]. intros _. case_bool_decide; [done|].
  destruct (py_float s) as [f|] eqn:E; [|done]. by apply py_float_is_float in E.
Qed.

Lemma load_rows_ok reader : Forall row_ok reader -> Forall row_ok (load_rows reader).
Proof.
  intros H. unfold load_rows. apply Forall_fmap. eapply Forall_impl; [apply H|].
  intros row Hrow. unfold compose, parseRow. revert row Hrow.
  induction NUMERIC_FIELDS as [|field fields IH]; intros row Hrow; simpl; [done|].
  apply IH. destruct (row !! field) as [c|] eqn:E; [|done].
  apply map_Forall_insert_2; [|done]. by apply to_float_ok, (Hrow field).
Qed.

Lemma values_ok rows field : Forall row_ok rows -> Forall is_float (values rows field).
Proof.
  unfold values. induction 1 as [|row rows Hrow _ IH]; simpl; [done|].
  destruct (row !! field) as [c|] eqn:E; simpl; [|done]. destruct c as [| |f]; simpl; [done|done|].
  constructor; [|done]. apply (Hrow field _ E).
Qed.

Lemma length_values rows field : (length (values rows field) <= length rows)%nat.
Proof.
  unfold values. induction rows as [|row rows IH]; [done|]. simpl.
  destruct (floatCell (row !! field)); simpl; [apply le_n_S, IH|apply le_S, IH].
Qed.

Lemma successful_rounds_ok rows : Forall row_ok rows -> Forall row_ok (successful_rounds rows).
Proof.
  rewrite !Forall_forall. intros H row Hr. apply H. by apply list_elem_of_filter in Hr as [_ ?].
Qed.

Lemma length_successful_rounds rows : (length (successful_rounds rows) <= length rows)%nat.
Proof. apply length_filter. Qed.

Section Total.
Context (rows : list Row).
Hypothesis (Hok : Forall row_ok rows) (Hlen : Z.of_nat (length rows) < 2 ^ 53).

Lemma summarize_latency_Ok field : exists s, summarize_latency rows field = Ok s.
Proof.
  unfold summarize_latency. pose proof (sorted_perm (values rows field)) as Hp.
  pose proof (values_ok rows field Hok) as Hv. pose proof (length_values rows field).
  rewrite <- Hp in Hv. apply Permutation_length in Hp.
  destruct (sorted (values rows field)) as [|v vs] eqn:E; [by eexists|].
  destruct (mean_Ok (v :: vs)) as [a ->]; [done|done|]. cbn [rbind].
  destruct (percentile_Ok (v :: vs) lit050) as (o1 & -> & _); [lia|auto with pylib|]. cbn [rbind].
  destruct (percentile_Ok (v :: vs) lit095) as (o2 & -> & _); [lia|auto with pylib|]. by eexists.
Qed.

Lemma summarize_staleness_Ok : exists s, summarize_staleness rows = Ok s.
Proof.
  unfold summarize_staleness. destruct (feqb _ (Fin 0)) eqn:E; [by eexists|].
  destruct (fdiv_Ok (py_sum (values rows "immediate_stale_reads")) _ E) as [r ->]. by eexists.
Qed.
End Total.

Lemma build_summary_Ok nm rows : Forall row_ok rows -> Z.of_nat (length rows) < 2 ^ 53 ->
  exists s, build_summary nm rows = Ok s.
Proof.
  intros Hok Hlen. unfold build_summary. pose proof (length_successful_rounds rows).
  pose proof (successful_rounds_ok rows Hok) as Hs.
  assert (Z.of_nat (length (successful_rounds rows)) < 2 ^ 53) as Hl by lia.
  destruct (summarize_latency_Ok _ Hs Hl "write_latency_ms") as [w ->]. cbn [rbind].
  destruct (summarize_latency_Ok _ Hs Hl "read_latency_avg_ms") as [r ->]. cbn [rbind].
  destruct (summarize_latency_Ok _ Hs Hl "convergence_ms") as [c ->]. cbn [rbind].
  destruct (summarize_staleness_Ok (successful_rounds rows)) as [s ->]. by eexists.
Qed.

Lemma ratio_Ok d c : exists s, ratio d c = Ok s.
Proof.
  unfold ratio. destruct d as [d|], c as [c|]; try by eexists. destruct (feqb c (Fin 0)) eqn:E; [by eexists|].
  destruct (fdiv_Ok d c E) as [r ->]. by eexists.
Qed.

Lemma main_Ok (colocated_reader distributed_reader : list Row) (output : string) :
  Forall row_ok colocated_reader -> Forall row_ok distributed_reader ->
  Z.of_nat (length colocated_reader) < 2 ^ 53 -> Z.of_nat (length distributed_reader) < 2 ^ 53 ->
  exists console report, main colocated_reader distributed_reader output = Ok (console, report) /\
    (report = None <-> output = "").
Proof.
  intros Hc Hd Hlc Hld. unfold main.
  assert (forall rd, length (load_rows rd) = length rd) as Hlen by (intros; apply length_fmap).
  destruct (build_summary_Ok "Co-located" (load_rows colocated_reader)) as [c ->];
    [by apply load_rows_ok|by rewrite Hlen|]. cbn [rbind].
  destruct (build_summary_Ok "Geo-distributed" (load_rows distributed_reader)) as [d ->];
    [by apply load_rows_ok|by rewrite Hlen|]. cbn [rbind].
  unfold print_console_report, markdown_report.
  destruct (ratio_Ok (avg (write d)) (avg (write c))) as [rw ->].
  destruct (ratio_Ok (avg (read d)) (avg (read c))) as [rr ->].
  destruct (ratio_Ok (avg (convergence d)) (avg (convergence c))) as [rc ->]. cbn [rbind].
  case_bool_decide; eexists _, _; (split; [done|]); done.
Qed.

(** A co-located row as the measurement script writes it, and a row without a
    leader. *)
Definition sample_row (w r c stale : string) : Row :=
  {[ "write_status" := CStr "200"; "write_latency_ms" := CStr w; "read_latency_avg_ms" := CStr r;
     "convergence_ms" := CStr c; "immediate_stale_reads" := CStr stale; "replica_count" := CStr "3" ]}.

Definition no_leader_row : Row :=
  {[ "write_status" := CStr ""; "write_latency_ms" := CStr ""; "replica_count" := CStr "3"; "error" := CStr "no leader" ]}.

(** ** The median *)

Lemma rnd_exact q : is_float (Fin q) -> exists r, rnd q = Fin r /\ (r == q)%Q /\ is_float (Fin r).
Proof.
  intros Hq. destruct (rnd_Fin q q q Hq Hq) as (r & Hr & ? & ? & ? & _); [apply Qle_refl..|].
  exists r. split_and!; [done|lra|done].
Qed.

Lemma lookup_Fin l i (x : float) : Forall isFin l -> Forall is_float l -> l !! i = Some x ->
  exists q, x = Fin q /\ is_float (Fin q).
Proof.
  intros Hf Hi Hx. pose proof (Forall_lookup_1 _ _ _ _ Hf Hx) as Hxf.
  pose proof (Forall_lookup_1 _ _ _ _ Hi Hx). destruct x as [q| |]; [by exists q|done|done].
Qed.

#[export] Instance is_float_proper : Proper (Qeq ==> iff) (fun q => is_float (Fin q)).
Proof. intros p q H. unfold is_float. by rewrite H. Qed.

(** A value whose half is exact: zero, or away from the subnormal range. *)
Definition halvable (q : Q) : Prop := (q == 0)%Q \/ (pow2 (-1021) <= Qabs q)%Q.

Lemma half_is_float q : is_float (Fin q) -> halvable q -> is_float (Fin (q * (1 # 2))).
Proof.
  intros [(m & e & Hm & He & Hq) Hlt] Hh. split.
  - destruct (Z.eq_dec m 0) as [->|Hm0].
    { exists 0, 0. split_and!; [lia|lia|]. rewrite Hq. ring. }
    assert (-1074 < e) as He'.
    { destruct Hh as [H0|Hh].
      - exfalso. rewrite Hq in H0. apply Qmult_integral in H0 as [H0|H0].
        + apply Hm0. unfold Qeq in H0. simpl in H0. lia.
        + pose proof (pow2_pos e). lra.
      - rewrite Hq, Qabs_Qmult, (Qabs_pos (pow2 e)) in Hh by auto using Qlt_le_weak with pylib.
        change (Qabs (inject_Z m)) with (inject_Z (Z.abs m)) in Hh.
        assert (pow2 (-1021) < pow2 (53 + e))%Q as H%pow2_lt_inv; [|lia].
        eapply Qle_lt_trans; [apply Hh|]. rewrite pow2_plus, (pow2_Z 53) by lia.
        apply Qmult_lt_r; [auto with pylib|]. by rewrite <- Zlt_Qlt. }
    exists m, (e - 1). split_and!; [done|lia|]. rewrite Hq, <- Qmult_assoc.
    unfold Z.sub. rewrite pow2_plus. reflexivity.
  - rewrite Qabs_Qmult. change (Qabs (1 # 2)) with (1 # 2). pose proof (Qabs_nonneg q). lra.
Qed.

(** Multiplying by the weights 0, 1/2 and 1 is exact. *)
Lemma mul_weight q w :
  is_float (Fin q) -> halvable q -> (w == 0)%Q \/ (w == 1 # 2)%Q \/ (w == 1)%Q ->
  exists r, fmul (Fin q) (Fin w) = Fin r /\ (r == q * w)%Q /\ is_float (Fin r).
Proof.
  intros Hq Hh Hw. apply (rnd_exact (q * w)).
  destruct Hw as [Hw|[Hw|Hw]]; apply (is_float_proper _ _ (Qmult_comp _ _ (Qeq_refl q) _ _ Hw)).
  - apply (is_float_proper _ _ (Qmult_0_r q)). by apply (is_float_Z 0).
  - by apply half_is_float.
  - by apply (is_float_proper _ _ (Qmult_1_r q)).
Qed.

(** The rank of the median, its integer part and its weight, all exact. *)
Lemma median_rank n : 1 <= n < 2 ^ 53 ->
  exists r w v, fmul (float_of_int n) lit050 = Fin r /\ Qfloor r = n / 2 /\
    fsub (Fin r) (float_of_int (Qfloor r)) = Fin w /\ fsub one (Fin w) = Fin v /\
    (w == inject_Z (n mod 2) * (1 # 2))%Q /\ (v == 1 - w)%Q.
Proof.
  intros Hn. destruct (rank_spec n lit050) as (r & Hr & _ & _ & _ & Hrq); [lia|auto with pylib|].
  assert (representable (inject_Z n * (1 # 2))) as Hrep.
  { exists n, (-1). split_and!; [lia|lia|reflexivity]. }
  change (valQ lit050) with (1 # 2) in Hrq. rewrite (rndQ_fix _ Hrep) in Hrq.
  assert (Qfloor r = n / 2) as Hf.
  { rewrite (Qfloor_comp _ _ Hrq). symmetry. rewrite Zdiv_Qdiv. by apply Qfloor_comp. }
  assert (0 <= n mod 2 < 2) as Hmod by (apply Z.mod_pos_bound; lia).
  assert (inject_Z n == inject_Z 2 * inject_Z (n / 2) + inject_Z (n mod 2))%Q as Hdm.
  { rewrite <- inject_Z_mult, <- inject_Z_plus, <- Z.div_mod by lia. reflexivity. }
  destruct (rnd_Z (n / 2)) as (k & Hk & Hkq & _). { div_lia. }
  assert (r + - k == inject_Z (n mod 2) * (1 # 2))%Q as Hw.
  { rewrite Hrq, Hkq, Hdm. change (inject_Z 2) with 2%Q. ring. }
  assert (is_float (Fin (inject_Z (n mod 2) * (1 # 2)))) as Hwf.
  { apply half_is_float; [apply is_float_Z; lia|]. destruct (Z.eq_dec (n mod 2) 0) as [->|]; [by left|].
    right. replace (n mod 2) with 1 by lia. by vm_compute. }
  destruct (rnd_exact (r + - k)) as (w & Hwr & Hwq & _); [by apply (is_float_proper _ _ Hw)|].
  destruct (rnd_exact (1 + - w)) as (v & Hvr & Hvq & _).
  { assert (1 + - w == inject_Z (2 - n mod 2) * (1 # 2))%Q as H1.
    { rewrite Hwq, Hw. unfold Z.sub. rewrite inject_Z_plus, inject_Z_opp. change (inject_Z 2) with 2%Q. ring. }
    apply (is_float_proper _ _ H1). apply half_is_float; [apply is_float_Z; lia|]. right.
    assert (n mod 2 = 0 \/ n mod 2 = 1) as [->| ->] by lia; by vm_compute. }
  exists r, w, v. rewrite Hf. split_and!; [done|done| |done|by rewrite Hwq|by rewrite Hvq].
  unfold fsub, float_of_int. by rewrite Hk.
Qed.

(** Indexing a sorted list is monotone. *)
Lemma sorted_lookup l i j a b :
  StronglySorted fle l -> (i <= j)%nat -> l !! i = Some a -> l !! j = Some b -> fle a b.
Proof.
  intros Hs. revert i j. induction Hs as [|x l Hs IH Hx]; intros i j Hij Ha Hb; [done|].
  destruct i as [|i], j as [|j]; simplify_eq/=; [unfold fle; lra| |lia|eapply (IH i j); [lia|done|done]].
  by eapply (Forall_lookup_1 (fle a)).
Qed.

(** The weighted sum of two ordered values at weight 0 or 1/2 is their
    correctly rounded midpoint (or the first), between them. *)
Lemma weighted_between p q w v :
  is_float (Fin p) -> is_float (Fin q) -> halvable p -> halvable q -> (p <= q)%Q ->
  (w == 0)%Q \/ (w == 1 # 2)%Q -> (v == 1 - w)%Q ->
  exists r, fadd (fmul (Fin p) (Fin v)) (fmul (Fin q) (Fin w)) = Fin r /\
    (p <= r)%Q /\ (r <= q)%Q /\ (r == rndQ (p * v + q * w))%Q.
Proof.
  intros Hp Hq Hhp Hhq Hpq Hw Hv.
  destruct (mul_weight p v Hp Hhp) as (x & -> & Hx & _).
  { destruct Hw as [Hw|Hw]; rewrite Hw in Hv; [right; right; lra|right; left; lra]. }
  destruct (mul_weight q w Hq Hhq) as (y & -> & Hy & _); [tauto|].
  destruct (rnd_Fin p q (x + y) Hp Hq) as (r & Hr & ? & ? & _ & Heq).
  { rewrite Hx, Hy. destruct Hw as [Hw|Hw]; rewrite Hv, Hw; lra. }
  { rewrite Hx, Hy. destruct Hw as [Hw|Hw]; rewrite Hv, Hw; lra. }
  exists r. split_and!; [done..|]. rewrite Heq, Hx, Hy. reflexivity.
Qed.

(** The median of a sorted list of finite values: exactly the middle one, or
    the correctly rounded midpoint of the middle two. *)
Lemma percentile_median l :
  (1 <= length l)%nat -> Z.of_nat (length l) < 2 ^ 53 ->
  Forall isFin l -> Forall is_float l -> Forall (fun f => halvable (valQ f)) l -> StronglySorted fle l ->
  exists r a b, percentile l lit050 = Ok (Some (Fin r)) /\
    l !! ((length l - 1) / 2)%nat = Some a /\ l !! (length l / 2)%nat = Some b /\
    (valQ a <= r)%Q /\ (r <= valQ b)%Q /\ (r == rndQ ((valQ a + valQ b) * (1 # 2)))%Q.
Proof.
  intros H1 Hlen Hf Hi Hh Hs. destruct (decide (length l = 1%nat)) as [E|Hne].
  { destruct l as [|x [|]]; try done. destruct (lookup_Fin [x] 0%nat x Hf Hi eq_refl) as (q & -> & [Hq _]).
    exists q, (Fin q), (Fin q). cbn [valQ]. split_and!; try done; try lra.
    rewrite (rndQ_proper _ q); [by rewrite rndQ_fix|ring]. }
  remember (Z.of_nat (length l) - 1) as n eqn:Hn.
  destruct (median_rank n) as (r & w & v & Hr & Hfl & Hw & Hv & Hwq & Hvq); [lia|].
  destruct (percentile_eq l lit050) as (r' & a & b & Hr' & _ & _ & Ha & Hb & ->); [lia|done|auto with pylib|].
  rewrite <- Hn in Hr', Hb. rewrite Hr in Hr'. injection Hr' as <-. cbv zeta. rewrite Hw, Hv.
  rewrite Hfl in Ha, Hb. pose proof (Z.mod_pos_bound n 2 ltac:(lia)) as Hmod.
  assert (Z.of_nat ((length l - 1) / 2) = n / 2) as Hd1 by (rewrite Nat2Z.inj_div; f_equal; lia).
  assert (Z.of_nat (length l / 2) = (n + 1) / 2) as Hd2 by (rewrite Nat2Z.inj_div; f_equal; lia).
  replace (Z.to_nat (n / 2)) with ((length l - 1) / 2)%nat in Ha by lia.
  assert (((length l - 1) / 2 <= Z.to_nat ((n / 2 + 1) `min` n))%nat) as Hidx by div_lia.
  destruct (lookup_Fin _ _ _ Hf Hi Ha) as (p & -> & Hp). destruct (lookup_Fin _ _ _ Hf Hi Hb) as (q & -> & Hq).
  pose proof (Forall_lookup_1 _ _ _ _ Hh Ha) as Hhp. pose proof (Forall_lookup_1 _ _ _ _ Hh Hb) as Hhq.
  destruct (weighted_between p q w v Hp Hq Hhp Hhq) as (s & -> & Hps & Hsq & Hs').
  { apply (sorted_lookup l _ _ _ _ Hs Hidx Ha Hb). }
  { assert (n mod 2 = 0 \/ n mod 2 = 1) as [E|E] by lia; rewrite E in Hwq; [left|right]; rewrite Hwq; reflexivity. }
  { done. }
  assert (n mod 2 = 0 \/ n mod 2 = 1) as [E|E] by lia; rewrite E in Hwq.
  - assert (s == p)%Q as Hsp.
    { rewrite Hs', (rndQ_proper _ p), rndQ_fix; [reflexivity|apply Hp|]. rewrite Hvq, Hwq.
      change (inject_Z 0) with 0%Q. ring. }
    exists s, (Fin p), (Fin p). replace (length l / 2)%nat with ((length l - 1) / 2)%nat by div_lia.
    cbn [valQ]. split_and!; try done; try lra.
    rewrite (rndQ_proper _ p), rndQ_fix; [done|apply Hp|ring].
  - exists s, (Fin p), (Fin q). replace (Z.to_nat ((n / 2 + 1) `min` n)) with (length l / 2)%nat in Hb by div_lia.
    cbn [valQ]. split_and!; try done. rewrite Hs'. apply rndQ_proper. rewrite Hvq, Hwq.
    change (inject_Z 1) with 1%Q. ring.
Qed.

Lemma Forall_sorted (P : float -> Prop) l : Forall P l -> Forall P (sorted l).
Proof. intros H. by rewrite sorted_perm. Qed.

Lemma mean_rounded l r : Forall isFin l -> mean l = Ok (Fin r) -> (r == rndQ (sumQ l / inject_Z (Z.of_nat (length l))))%Q.
Proof.
  intros Hf. unfold mean. destruct l as [|x l]; [done|].
  destruct (filter (fun f => finite f = false) (x :: l)) as [|g gs] eqn:E.
  - unfold rnd. destruct (Qle_bool _ _); [done|]. intros [= <-]. reflexivity.
  - exfalso. assert (g ∈ filter (fun f => finite f = false) (x :: l)) as Hg by (rewrite E; by left).
    apply list_elem_of_filter in Hg as [Hg Hin]. rewrite Forall_forall in Hf. specialize (Hf g Hin).
    unfold isFin in Hf. congruence.
Qed.

(** C35. The latency summary of a field whose parsed values are finite (and
    zero or at least 2^-1021 in magnitude, so that halving them is exact):
    [count] is their number, [min] and [max] are members that bound all of
    them, [avg] is their exact average rounded once and lies between [min] and
    [max], and [p50] is the middle value of the sorted list, or the correctly
    rounded midpoint of the middle two, also between [min] and [max]. *)
Theorem latency_summary_sound (rows : list Row) (field : string) :
  let vals := values rows field in
  vals <> [] -> Z.of_nat (length vals) < 2 ^ 53 ->
  Forall isFin vals -> Forall is_float vals -> Forall (fun f => halvable (valQ f)) vals ->
  exists s lo hi a m x y, summarize_latency rows field = Ok s /\
    count s = Z.of_nat (length vals) /\ min s = Some lo /\ max s = Some hi /\
    avg s = Some (Fin a) /\ p50 s = Some (Fin m) /\
    lo ∈ vals /\ hi ∈ vals /\ Forall (fun f => fle lo f /\ fle f hi) vals /\
    (a == rndQ (sumQ (sorted vals) / inject_Z (Z.of_nat (length vals))))%Q /\
    (valQ lo <= a)%Q /\ (a <= valQ hi)%Q /\
    sorted vals !! ((length vals - 1) / 2)%nat = Some x /\ sorted vals !! (length vals / 2)%nat = Some y /\
    (m == rndQ ((valQ x + valQ y) * (1 # 2)))%Q /\ (valQ lo <= m)%Q /\ (m <= valQ hi)%Q.
Proof.
  intros vals Hne Hlen Hf Hi Hh. pose proof (sorted_perm vals) as Hp.
  pose proof (sorted_sorted vals Hf) as Hs. pose proof (Permutation_length Hp) as Hl.
  apply (Forall_sorted isFin) in Hf. apply (Forall_sorted is_float) in Hi.
  apply (Forall_sorted (fun f => halvable (valQ f))) in Hh. rewrite <- Hl in *.
  unfold summarize_latency. fold vals.
  destruct (sorted vals) as [|v vs] eqn:E; [by apply Permutation_nil_l in Hp|].
  destruct (py_min_spec v vs Hf) as [Hmin Hlo]. destruct (py_max_spec v vs Hf) as [Hmax Hhi].
  set (lo := py_min v vs) in *. set (hi := py_max v vs) in *.
  assert (Forall (fun f => fle lo f /\ fle f hi) (v :: vs)) as Hall by (apply Forall_and; done).
  assert (is_float (Fin (valQ lo)) /\ is_float (Fin (valQ hi))) as [Hflo Hfhi].
  { rewrite Forall_forall in Hf, Hi. split.
    - specialize (Hf _ Hmin); specialize (Hi _ Hmin). by destruct lo.
    - specialize (Hf _ Hmax); specialize (Hi _ Hmax). by destruct hi. }
  destruct (mean_between (valQ lo) (valQ hi) (v :: vs)) as (a & Ha & ? & ? & _); [done..|].
  destruct (percentile_median (v :: vs)) as (m & x & y & Hm & Hx & Hy & Hxm & Hmy & Hmq);
    [simpl; lia|done|done|done|done|done|].
  rewrite Ha, Hm. cbn [rbind].
  destruct (percentile_Ok (v :: vs) lit095) as (o & -> & _); [done|auto with pylib|]. cbn [rbind].
  pose proof (Forall_lookup_1 _ _ _ _ Hall Hx) as [Hlx _]. pose proof (Forall_lookup_1 _ _ _ _ Hall Hy) as [_ Hyh].
  assert (lo ∈ vals /\ hi ∈ vals /\ Forall (fun f => fle lo f /\ fle f hi) vals) as (? & ? & ?).
  { split_and!; by rewrite <- Hp. }
  eexists _, lo, hi, a, m, x, y. cbn [count min max avg p50].
  split_and!; try done; [by apply mean_rounded|unfold fle in *; lra|unfold fle in *; lra].
Qed.

(** Three write latencies, one round without a leader. *)
Definition sample_rows : list Row :=
  load_rows [sample_row "3.5" "1.25" "4" "0"; no_leader_row; sample_row "4.5" "2" "5" "1"; sample_row "9" "3" "6" "3"].

Lemma latency_summary_sound_witness :
  values sample_rows "write_latency_ms" = [Fin (7 # 2); Fin (9 # 2); Fin 9] /\
  exists s lo hi a m, summarize_latency sample_rows "write_latency_ms" = Ok s /\
    count s = 3 /\ min s = Some lo /\ max s = Some hi /\ avg s = Some (Fin a) /\ p50 s = Some (Fin m) /\
    (valQ lo <= a)%Q /\ (a <= valQ hi)%Q /\ (valQ lo <= m)%Q /\ (m <= valQ hi)%Q.
Proof.
  split; [by vm_compute|].
  destruct (latency_summary_sound sample_rows "write_latency_ms")
    as (s & lo & hi & a & m & x & y & ? & ? & ? & ? & ? & ? & _ & _ & _ & _ & ? & ? & _ & _ & _ & ? & ?).
  - by vm_compute.
  - by vm_compute.
  - change (values sample_rows "write_latency_ms") with [Fin (7 # 2); Fin (9 # 2); Fin 9]. by repeat constructor.
  - change (values sample_rows "write_latency_ms") with [Fin (7 # 2); Fin (9 # 2); Fin 9].
    assert (forall m, Z.abs m < 2 ^ 50 -> is_float (Fin (m # 2))) as H.
    { intros k Hk. apply (is_float_proper (inject_Z k * (1 # 2))%Q (k # 2)).
      { unfold Qeq. simpl. lia. }
      apply half_is_float; [apply is_float_Z; lia|]. destruct (decide (k = 0)) as [->|]; [by left|].
      right. change (Qabs (inject_Z k)) with (inject_Z (Z.abs k)).
      eapply Qle_trans; [apply (pow2_mono _ 0); lia|]. change (pow2 0) with (inject_Z 1). rewrite <- Zle_Qle. lia. }
    repeat (apply Forall_cons_2; [(apply H || apply (is_float_Z 9)); lia|]). by constructor.
  - change (values sample_rows "write_latency_ms") with [Fin (7 # 2); Fin (9 # 2); Fin 9].
    repeat (apply Forall_cons_2; [right; by vm_compute|]). by constructor.
  - exists s, lo, hi, a, m. split_and!; done.
Defined.

(** The 95th percentile is not bounded by the maximum: the two products of
    the interpolation and their sum are each rounded, and for two rounds that
    both took 0.59 ms the summary's [p95] is 0.5900000000000001, above [max]
    (and above every measured value). *)
Theorem p95_above_max :
  exists s, summarize_latency (load_rows [sample_row "0.59" "1" "2" "0"; sample_row "0.59" "1" "2" "0"])
              "write_latency_ms" = Ok s /\
    p95 s = py_float "0.5900000000000001" /\ max s = py_float "0.59" /\
    (m ← max s; q ← p95 s; Some (flt m q)) = Some true.
Proof. eexists. split; [vm_compute; reflexivity|]. split_and!; by vm_compute. Qed.

(** ** The staleness rate *)

(** Exact sums of integral values. *)
Lemma py_sum_integers l zs acc z0 :
  Forall2 (fun f z => exists q, f = Fin q /\ (q == inject_Z z)%Q) l zs ->
  Forall (fun z => 0 <= z) zs -> 0 <= z0 -> (acc == inject_Z z0)%Q -> z0 + foldr Z.add 0 zs < 2 ^ 53 ->
  exists q, foldl fadd (Fin acc) l = Fin q /\ Qeq q (inject_Z (z0 + foldr Z.add 0 zs)).
Proof.
  intros H. revert acc z0. induction H as [|f z l zs (q & -> & Hq) _ IH]; intros acc z0 Hpos H0 Hacc Hlt; simpl.
  { exists acc. split; [done|]. by rewrite Z.add_0_r. }
  apply Forall_cons in Hpos as [Hz Hpos]. simpl in Hlt.
  assert (0 <= foldr Z.add 0 zs) by (clear -Hpos; induction Hpos; simpl; lia).
  destruct (rnd_exact (acc + q)%Q) as (r & -> & Hr & _).
  { apply (is_float_proper (inject_Z (z0 + z))); [rewrite inject_Z_plus, Hacc, Hq; reflexivity|apply is_float_Z; lia]. }
  rewrite Z.add_assoc. apply IH; [done|lia| |lia]. rewrite Hr, Hacc, Hq, inject_Z_plus. reflexivity.
Qed.

(** A row measured by the script: integral counts, stale reads among them. *)
Definition measured (row : Row) (c : Z * Z) : Prop :=
  0 <= c.1 <= c.2 /\
  (exists q, floatCell (row !! "immediate_stale_reads") = Some (Fin q) /\ (q == inject_Z c.1)%Q) /\
  (exists q, floatCell (row !! "replica_count") = Some (Fin q) /\ (q == inject_Z c.2)%Q).

Lemma values_measured rows cs : Forall2 measured rows cs ->
  Forall2 (fun f z => exists q, f = Fin q /\ (q == inject_Z z)%Q) (values rows "immediate_stale_reads") cs.*1 /\
  Forall2 (fun f z => exists q, f = Fin q /\ (q == inject_Z z)%Q) (values rows "replica_count") cs.*2.
Proof.
  unfold values. induction 1 as [|row c rows cs (_ & (q & Hq & ?) & (p & Hp & ?)) _ [IH1 IH2]]; simpl; [done|].
  rewrite Hq, Hp. split; constructor; eauto.
Qed.

(** C36. The staleness rate of rows whose counts are integers with no more
    stale reads than replicas (fewer than 2^53 in all): both totals are exact,
    the rate is absent exactly when there was no read at all, and otherwise it
    is the correctly rounded quotient, between 0 and 1. *)
Theorem staleness_rate_sound (rows : list Row) (counts : list (Z * Z)) :
  let stale := foldr Z.add 0 counts.*1 in
  let reads := foldr Z.add 0 counts.*2 in
  Forall2 measured rows counts -> reads < 2 ^ 53 ->
  exists s a b, summarize_staleness rows = Ok s /\
    stale_total s = Fin a /\ (a == inject_Z stale)%Q /\ read_total s = Fin b /\ (b == inject_Z reads)%Q /\
    (rate s = None <-> reads = 0) /\
    (reads <> 0 -> exists r, rate s = Some (Fin r) /\ (0 <= r)%Q /\ (r <= 1)%Q /\
       (r == rndQ (inject_Z stale / inject_Z reads))%Q).
Proof.
  intros stale reads Hm Hlt. destruct (values_measured rows counts Hm) as [H1 H2].
  assert (0 <= stale <= reads /\ Forall (fun z => 0 <= z) counts.*1 /\ Forall (fun z => 0 <= z) counts.*2) as (Hsr & Hp1 & Hp2).
  { clear -Hm. subst stale reads. induction Hm as [|row c rows cs ((? & ?) & _) _ (IH & ? & ?)]; [done|].
    rewrite !fmap_cons. cbn [foldr]. split; [lia|]. split; constructor; try done; lia. }
  destruct (py_sum_integers _ _ 0%Q 0 H1 Hp1) as (a & Ha & Haq); [lia|reflexivity|fold stale; lia|].
  destruct (py_sum_integers _ _ 0%Q 0 H2 Hp2) as (b & Hb & Hbq); [lia|reflexivity|fold reads; lia|].
  rewrite Z.add_0_l in Haq, Hbq. fold stale in Haq. fold reads in Hbq.
  unfold summarize_staleness, py_sum. rewrite Ha, Hb. cbn [feqb]. destruct (Qeq_bool b 0) eqn:E.
  - apply Qeq_bool_iff in E. assert (reads = 0) as Hz.
    { rewrite E in Hbq. unfold Qeq in Hbq. simpl in Hbq. lia. }
    eexists _, a, b. cbn [rbind rate stale_total read_total]. split_and!; try done.
  - assert (reads <> 0) as Hz.
    { intros Hz. rewrite Hz in Hbq. apply Qeq_bool_iff in Hbq. change (inject_Z 0) with 0%Q in Hbq. congruence. }
    assert (0 < inject_Z reads)%Q as Hpos by (change 0%Q with (inject_Z 0); rewrite <- Zlt_Qlt; lia).
    assert (0 <= inject_Z stale)%Q as Hst by (change 0%Q with (inject_Z 0); rewrite <- Zle_Qle; lia).
    assert (inject_Z stale <= inject_Z reads)%Q as Hle by (rewrite <- Zle_Qle; lia).
    destruct (rnd_Fin 0 1 (a / b)%Q) as (r & Hr & ? & ? & _ & Hrq); [by apply (is_float_Z 0)|by apply (is_float_Z 1)|..].
    { rewrite Haq, Hbq. by apply Qle_shift_div_l; [|rewrite Qmult_0_l]. }
    { rewrite Haq, Hbq. by apply Qle_shift_div_r; [|rewrite Qmult_1_l]. }
    cbn [fdiv]. rewrite E, Hr. cbn [rbind].
    eexists _, a, b. cbn [rate stale_total read_total]. split_and!; try done.
    intros _. exists r. split_and!; try done. by rewrite Hrq, Haq, Hbq.
Qed.

Definition measured_rows : list Row :=
  load_rows [sample_row "3.5" "1.25" "4" "0"; sample_row "4.5" "2" "5" "1"; sample_row "9" "3" "6" "3"].

Lemma staleness_rate_sound_witness :
  exists s, summarize_staleness measured_rows = Ok s /\
    exists r, rate s = Some (Fin r) /\ (0 <= r)%Q /\ (r <= 1)%Q /\ (r == rndQ (4 / 9))%Q.
Proof.
  destruct (staleness_rate_sound measured_rows [(0, 3); (1, 3); (3, 3)])
    as (s & a & b & Hs & _ & _ & _ & _ & _ & Hr).
  - repeat (apply Forall2_cons; split;
      [split; [simpl; lia|split; eexists; (split; [vm_compute; reflexivity|reflexivity])]|]).
    by constructor.
  - by vm_compute.
  - exists s. split; [done|]. apply Hr. by vm_compute.
Defined.
