(* ===== verification/PyRepr.v ===== *)
(** * The text of a float

    [repr] of a float (which [str], [f"{x}"] and [csv] use): the shortest
    decimal that rounds back to it and, among those, the closest one, laid out
    with or without an exponent.  The main result is that [float(repr(x))] is
    [x]; with it, numbers survive a CSV file. *)

From Stdlib Require Import Ascii Lqa.
From S2P Require Import Prelude PyStr PyFloat.
#[local] Open Scope Z_scope.

Definition pow10 (x : Z) : Q := (10 # 1) ^ x.

(** ** The shortest decimal *)

(** The position of the decimal point: [10^(k-1) <= q < 10^k]. *)
Fixpoint decptLoop (fuel : nat) (k : Z) (q : Q) : Z :=
  match fuel with
  | O => k
  | S fuel' => if Qle_bool (pow10 (k - 1)) q then k else decptLoop fuel' (k - 1) q
  end.

Definition decpt (q : Q) : Z :=
  decptLoop (S (S (Z.to_nat (Z.abs (elog q))))) (Z.max (elog q) 0 + 1) q.

(** Does the decimal [m * 10^x] round to [q]? *)
Definition readsBack (q : Q) (m x : Z) : bool := Qeq_bool (rndQ (inject_Z m * pow10 x)) q.

(** Of the two decimals of [n] digits around [q], the one to use. *)
Definition pick (q : Q) (k n : Z) : option Z :=
  let s := (q * pow10 (n - k))%Q in
  let lo := Qfloor s in
  let hi := Qceiling s in
  match readsBack q lo (k - n), readsBack q hi (k - n) with
  | true, true =>
      Some match Qcompare (s - inject_Z lo) (inject_Z hi - s) with
           | Lt => lo
           | Gt => hi
           | Eq => if Z.even lo then lo else hi
           end
  | true, false => Some lo
  | false, true => Some hi
  | false, false => None
  end.

(** The fewest digits that do; [q * 10^1074] is an integer, so [k + 1074] digits
    are always enough. *)
Fixpoint shortest (fuel : nat) (q : Q) (k n : Z) : Z * Z :=
  match pick q k n with
  | Some m => (m, k - n)
  | None => match fuel with O => (0, 0) | S fuel' => shortest fuel' q k (n + 1) end
  end.

(** Digits without trailing zeros, as a pair of an integer and an exponent. *)
Fixpoint stripZeros (fuel : nat) (m x : Z) : Z * Z :=
  match fuel with
  | O => (m, x)
  | S fuel' => if (m mod 10 =? 0) && (0 <? m) then stripZeros fuel' (m / 10) (x + 1) else (m, x)
  end.

Definition digits (q : Q) : Z * Z :=
  let k := decpt q in
  let '(m, x) := shortest (Z.to_nat (k + 1074)) q k 1 in
  stripZeros (Z.to_nat (Z.log2 m + 1)) m x.

(** ** Layout *)

(** The integer [m] with a decimal point before its last [n] digits. *)
Definition pointed (m n : Z) : string :=
  pretty (m / 10 ^ n) +:+ "." +:+ padZeros (Z.to_nat n) (pretty (m mod 10 ^ n)).

Definition expText (e : Z) : string := (if e <? 0 then "e-" else "e+") +:+ padZeros 2 (pretty (Z.abs e)).

(** The positive decimal [m * 10^x]: with an exponent when the point lies left of
    the fourth zero or right of the sixteenth digit. *)
Definition decimalText (m x : Z) : string :=
  let len := Z.of_nat (String.length (pretty m)) in
  let point := len + x in
  if (-4 <? point) && (point <=? 16) then
    if 0 <=? x then pretty (m * 10 ^ x) +:+ ".0" else pointed m (- x)
  else (if len =? 1 then pretty m else pointed m (len - 1)) +:+ expText (point - 1).

Definition repr_float (f : float) : string :=
  match f with
  | NaN => "nan"
  | Inf neg => if neg then "-inf" else "inf"
  | Fin q =>
      if Qeq_bool q 0 then "0.0"
      else let '(m, x) := digits (Qabs q) in
           (if negQ q then "-" else "") +:+ decimalText m x
  end.

Example repr_ex :
  (repr_float <$> py_float "0.1") = Some "0.1" /\ (repr_float <$> py_float "1e23") = Some "1e+23" /\
  (repr_float <$> py_float "1e16") = Some "1e+16" /\ (repr_float <$> py_float "123456789012345680") = Some "1.2345678901234568e+17" /\
  (repr_float <$> py_float "-12.50") = Some "-12.5" /\ (repr_float <$> py_float "0.00001") = Some "1e-05" /\
  (repr_float <$> py_float "0.0001234") = Some "0.0001234" /\ (repr_float <$> py_float "100") = Some "100.0" /\
  (repr_float <$> py_float "5e-324") = Some "5e-324" /\ (repr_float <$> py_float "9007199254740993") = Some "9007199254740992.0" /\
  repr_float (Fin (pow2 (-44))) = "5.684341886080802e-14".
Proof. by vm_compute. Qed.

(** ** The shortest decimal reads back *)

Lemma rndQ_red q : Qred (rndQ q) = rndQ q.
Proof. unfold rndQ. destruct (q ?= 0)%Q; [done|apply Qred_complete, Qred_correct..]. Qed.

Lemma rndQ_eq p q : (p == q)%Q -> rndQ p = rndQ q.
Proof. intros H. rewrite <- (rndQ_red p), <- (rndQ_red q). apply Qred_complete. by rewrite H. Qed.

Lemma rndQ_idem q : rndQ (rndQ q) = rndQ q.
Proof.
  rewrite <- rndQ_red. trans (Qred (rndQ q)); [|apply rndQ_red]. apply Qred_complete, rndQ_fix, rndQ_representable.
Qed.

Lemma negQ_eq p q : (p == q)%Q -> negQ p = negQ q.
Proof. intros H. unfold negQ. f_equal. apply Bool.eq_true_iff_eq. by rewrite !Qle_bool_iff, H. Qed.

Lemma rnd_eq p q : (p == q)%Q -> rnd p = rnd q.
Proof. intros H. unfold rnd. by rewrite (rndQ_eq p q H), (negQ_eq p q H). Qed.

Lemma rndQ_opp q : (0 < q)%Q -> (rndQ (- q) == - rndQ q)%Q.
Proof.
  intros H. unfold rndQ. destruct (Qcompare_spec (- q) 0) as [?|?|?]; [lra| |lra].
  destruct (Qcompare_spec q 0) as [?|?|?]; [lra|lra|]. rewrite !Qred_correct.
  assert (Qred (rndPos (- - q)) = Qred (rndPos q)) as E.
  { pose proof (rndQ_eq (- - q) q ltac:(ring)) as E. unfold rndQ in E.
    destruct (Qcompare_spec (- - q) 0); [lra|lra|]. destruct (Qcompare_spec q 0); [lra|lra|done]. }
  rewrite <- (Qred_correct (rndPos (- - q))), E. by rewrite Qred_correct.
Qed.

Lemma pow10_plus a b : (pow10 (a + b) == pow10 a * pow10 b)%Q.
Proof. by apply Qpower_plus. Qed.

Lemma pow10_Z x : 0 <= x -> (pow10 x == inject_Z (10 ^ x))%Q.
Proof. intros. symmetry. by apply Zpower_Qpower. Qed.

Lemma pow10_cancel x : (pow10 x * pow10 (- x) == 1)%Q.
Proof. rewrite <- pow10_plus, Z.add_opp_diag_r. reflexivity. Qed.

Lemma pick_spec q k n m : pick q k n = Some m -> readsBack q m (k - n) = true.
Proof.
  unfold pick. destruct (readsBack q (Qfloor _) _) eqn:El, (readsBack q (Qceiling _) _) eqn:Eh; intros [= <-]; try done.
  destruct (_ ?= _)%Q; [case_if|..]; done.
Qed.

(** With enough digits the decimal is the number itself. *)
Lemma scaled_integer q j : representable q -> 1074 <= j -> exists z, (q * pow10 j == inject_Z z)%Q.
Proof.
  intros (m & e & _ & He & Hq) Hj. exists (m * 2 ^ (e + j) * 5 ^ j). rewrite Hq, !inject_Z_mult.
  rewrite <- (pow2_Z (e + j)), pow2_plus by lia. rewrite pow10_Z by lia. change 10 with (2 * 5) at 1.
  rewrite Z.pow_mul_l, inject_Z_mult, <- (pow2_Z j) by lia. ring.
Qed.

Lemma pick_exact q k n : representable q -> 1074 <= n - k -> is_Some (pick q k n).
Proof.
  intros Hq Hn. destruct (scaled_integer q (n - k) Hq Hn) as [z Hz].
  unfold pick. assert (Qfloor (q * pow10 (n - k)) = z) as -> by by rewrite Hz, Qfloor_Z.
  assert (readsBack q z (k - n) = true) as ->.
  { apply Qeq_bool_iff. etrans; [|by apply rndQ_fix]. apply rndQ_proper.
    rewrite <- Hz, <- Qmult_assoc. replace (k - n) with (- (n - k)) by lia. rewrite pow10_cancel. ring. }
  by case_if.
Qed.

Lemma shortest_spec fuel q k n m x :
  representable q -> k + 1074 <= n + Z.of_nat fuel -> shortest fuel q k n = (m, x) -> readsBack q m x = true.
Proof.
  intros Hq. revert n. induction fuel as [|fuel IH]; intros n Hn; simpl; destruct (pick q k n) as [m'|] eqn:E.
  - intros [= <- <-]. by apply pick_spec.
  - destruct (pick_exact q k n Hq) as [? ?]; [lia|congruence].
  - intros [= <- <-]. by apply pick_spec.
  - apply IH. lia.
Qed.

Lemma stripZeros_value fuel m x : let '(m', x') := stripZeros fuel m x in
  (inject_Z m' * pow10 x' == inject_Z m * pow10 x)%Q.
Proof.
  revert m x. induction fuel as [|fuel IH]; intros m x; simpl; [reflexivity|]. case_if; [|reflexivity].
  specialize (IH (m / 10) (x + 1)). destruct (stripZeros fuel (m / 10) (x + 1)) as [m' x']. rewrite IH. breflect.
  rewrite pow10_plus. change (pow10 1) with 10%Q. replace m with (10 * (m / 10)) at 2 by div_lia.
  rewrite inject_Z_mult. change (inject_Z 10) with 10%Q. ring.
Qed.

Lemma digits_spec q m x : (0 < q)%Q -> representable q -> digits q = (m, x) ->
  0 < m /\ (rndQ (inject_Z m * pow10 x) == q)%Q.
Proof.
  intros Hq Hr. unfold digits. destruct (shortest _ q (decpt q) 1) as [m' x'] eqn:E.
  apply shortest_spec in E; [|done|lia]. apply Qeq_bool_iff in E.
  pose proof (stripZeros_value (Z.to_nat (Z.log2 m' + 1)) m' x') as Hv. intros Hs. rewrite Hs in Hv.
  assert (rndQ (inject_Z m * pow10 x) == q)%Q as Hb by by rewrite Hv. split; [|done].
  destruct (Z.lt_ge_cases 0 m) as [|Hm]; [done|exfalso].
  assert (inject_Z m * pow10 x <= 0)%Q as Hle%rndQ_mono.
  { assert (0 < pow10 x)%Q by by apply Qpower_0_lt. rewrite Zle_Qle in Hm. change (inject_Z 0) with 0%Q in Hm. nra. }
  rewrite Hb in Hle. change (rndQ 0) with 0%Q in Hle. lra.
Qed.

(** ** Digit strings *)

(** [ds] are digits, and their value is [v]. *)
Definition digitsOf (ds : text) (v : Z) : Prop := readDigits 0 ds = Some v.

Lemma readDigits_acc acc ds : readDigits acc ds = (fun v => acc * 10 ^ Z.of_nat (length ds) + v) <$> readDigits 0 ds.
Proof.
  revert acc. induction ds as [|c ds IH]; intros acc; cbn [readDigits length].
  { simpl. f_equal. lia. }
  destruct (digit c) as [d|]; [|done]. cbn [mbind option_bind]. rewrite (IH (acc * 10 + d)), (IH (0 * 10 + d)).
  destruct (readDigits 0 ds); [|done]. cbn [fmap option_fmap option_map].
  f_equal. rewrite Nat2Z.inj_succ, Z.pow_succ_r by lia. ring.
Qed.

Lemma digitsOf_app ds es v u : digitsOf ds v -> digitsOf es u -> digitsOf (ds ++ es) (v * 10 ^ Z.of_nat (length es) + u).
Proof.
  unfold digitsOf. intros Hd He. assert (forall acc, readDigits acc (ds ++ es) = a ← readDigits acc ds; readDigits a es) as Happ.
  { clear. induction ds as [|c ds IH]; intros acc; simpl; [done|]. destruct (digit c); [|done]. simpl. apply IH. }
  rewrite Happ, Hd. simpl. by rewrite readDigits_acc, He.
Qed.

Lemma digitsOf_one d : 0 <= d < 10 -> digitsOf [pretty_N_char (Z.to_N d)] d.
Proof.
  intros Hd. assert (d = 0 \/ d = 1 \/ d = 2 \/ d = 3 \/ d = 4 \/ d = 5 \/ d = 6 \/ d = 7 \/ d = 8 \/ d = 9) as H by lia.
  by repeat destruct H as [->|H]; [..|subst d].
Qed.

Lemma digitsOf_lt ds v : digitsOf ds v -> 0 <= v < 10 ^ Z.of_nat (length ds).
Proof.
  unfold digitsOf. revert v. induction ds as [|c ds IH]; intros v; cbn [readDigits length].
  { intros [= <-]. simpl. lia. }
  unfold digit. case_if; [|done]. cbn [mbind option_bind]. rewrite readDigits_acc. destruct (readDigits 0 ds) as [u|]; [|done].
  intros [= <-]. specialize (IH u eq_refl). breflect. rewrite Nat2Z.inj_succ, Z.pow_succ_r by lia. nia.
Qed.

Lemma pretty_go (n : nat) : forall x, (N.to_nat x < n)%nat -> (0 < x)%N ->
  exists ds, (forall s, chars (pretty_N_go x s) = ds ++ chars s) /\ digitsOf ds (Z.of_N x) /\
    ds <> [] /\ 10 ^ (Z.of_nat (length ds) - 1) <= Z.of_N x.
Proof.
  induction n as [|n IH]; intros x Hn Hx; [lia|].
  assert (digitsOf [pretty_N_char (x mod 10)] (Z.of_N x mod 10)) as Hd.
  { replace (x mod 10)%N with (Z.to_N (Z.of_N x mod 10)) by (rewrite Z2N.inj_mod, N2Z.id by lia; done). apply digitsOf_one. div_lia. }
  destruct (decide (x < 10)%N) as [Hlt|Hge].
  - exists [pretty_N_char (x mod 10)]. split_and!; [|by rewrite Z.mod_small in Hd by lia|done|simpl; lia].
    intros s. rewrite pretty_N_go_step, N.div_small by done. done.
  - destruct (IH (x / 10)%N) as (ds & Hs & Hds & Hne & Hle).
    { pose proof (N.div_lt x 10 Hx eq_refl). lia. }
    { apply N.div_str_pos. lia. }
    exists (ds ++ [pretty_N_char (x mod 10)]). split_and!.
    + intros s. rewrite pretty_N_go_step, Hs by done. by rewrite <- app_assoc.
    + pose proof (digitsOf_app _ _ _ _ Hds Hd) as H. rewrite N2Z.inj_div in H. 
      replace (Z.of_N x) with (Z.of_N x / Z.of_N 10 * 10 ^ 1 + Z.of_N x mod 10); [exact H|]. rewrite Z.pow_1_r. 
      change (Z.of_N 10) with 10. div_lia.
    + by destruct ds.
    + rewrite length_app. simpl length. rewrite N2Z.inj_div in Hle. change (Z.of_N 10) with 10 in Hle.
      destruct ds as [|c ds]; [done|]. cbn [length] in *.
      replace (Z.of_nat (S (length ds) + 1) - 1) with (Z.succ (Z.of_nat (S (length ds)) - 1)) by lia.
      rewrite Z.pow_succ_r by lia. div_lia.
Qed.

(** Decimal formatting: the digits, no more of them than needed. *)
Lemma pretty_digits z : 0 <= z -> digitsOf (chars (pretty z)) z /\ chars (pretty z) <> [] /\
  (0 < z -> 10 ^ (Z.of_nat (length (chars (pretty z))) - 1) <= z) /\ (z = 0 -> length (chars (pretty z)) = 1%nat).
Proof.
  intros Hz. destruct z as [|p|p]; [|clear Hz|lia]; [by split_and!|].
  destruct (pretty_go (S (N.to_nat (Npos p))) (Npos p)) as (ds & Hs & Hd & Hne & Hle); [lia|lia|].
  assert (chars (pretty (Zpos p)) = ds) as ->. { change (pretty (Z.pos p)) with (pretty_N_go (Npos p) ""). by rewrite Hs, app_nil_r. }
  split_and!; [done|done|done|lia].
Qed.

Lemma digitsOf_head ds v : digitsOf ds v -> ds <> [] -> exists c ds' d, ds = c :: ds' /\ digit c = Some d /\ readDigits d ds' = Some v.
Proof.
  unfold digitsOf. destruct ds as [|c ds']; [done|]. intros H _. cbn [readDigits] in H.
  destruct (digit c) as [d|] eqn:E; [|done]. exists c, ds', d. split_and!; [done|done|]. exact H.
Qed.

Lemma length_chars s : length (chars s) = String.length s.
Proof. induction s as [|c s IH]; simpl; [done|]. f_equal. apply IH. Qed.


Lemma chars_zeros n : digitsOf (chars (zeros n)) 0 /\ length (chars (zeros n)) = n.
Proof. induction n as [|n [IH1 IH2]]; simpl; [done|]. split; [exact IH1|]. f_equal. exact IH2. Qed.

(** Padding keeps the value and gives the width that holds it. *)
Lemma padZeros_digits n z : (0 < n)%nat -> 0 <= z ->
  digitsOf (chars (padZeros n (pretty z))) z /\ (z < 10 ^ Z.of_nat n -> length (chars (padZeros n (pretty z))) = n) /\
  chars (padZeros n (pretty z)) <> [].
Proof.
  intros Hn Hz. destruct (pretty_digits z Hz) as (Hd & Hne & Hpos & Hzero). unfold padZeros.
  rewrite chars_append, <- length_chars. destruct (chars_zeros (n - length (chars (pretty z)))) as [Hz0 Hl]. split_and!.
  - apply (digitsOf_app _ _ _ _ Hz0 Hd).
  - intros Hlt. rewrite length_app, Hl. enough (length (chars (pretty z)) <= n)%nat by lia.
    destruct (Z.eq_dec z 0) as [->|]; [rewrite Hzero by done; lia|].
    assert (Z.of_nat (length (chars (pretty z))) - 1 < Z.of_nat n) as Hlt'; [|lia].
    apply (Z.pow_lt_mono_r_iff 10); [lia|lia|]. specialize (Hpos ltac:(lia)). lia.
  - intros [_ ?]%app_eq_nil. done.
Qed.

(** ** Reading a decimal *)

Definition POINT : ascii := ascii_of_nat 46.
Definition EXP : ascii := ascii_of_nat 101.

(** A text at whose start the scanner of digits stops. *)
Definition stops (t : text) : Prop := match t with [] => True | c :: _ => digit c = None /\ c <> ascii_of_nat 95 end.

Lemma scanDigits_stops acc n rest : stops rest -> scanDigits acc n rest = (acc, n, rest).
Proof.
  destruct rest as [|c rest]; [done|]. intros [Hd Hu]. simpl. rewrite Hd.
  destruct n; [done|]. destruct rest; [done|]. by rewrite (proj2 (Ascii.eqb_neq _ _) Hu).
Qed.

Lemma scanDigits_digits ds rest : stops rest -> forall acc n v, readDigits acc ds = Some v ->
  scanDigits acc n (ds ++ rest) = (v, (n + length ds)%nat, rest).
Proof.
  intros Hs. induction ds as [|c ds IH]; intros acc n v; cbn [readDigits app length].
  - intros [= ->]. rewrite scanDigits_stops by done. by rewrite Nat.add_0_r.
  - simpl scanDigits. destruct (digit c) as [d|]; [|done]. cbn [mbind option_bind]. intros H. rewrite (IH _ _ _ H). by rewrite Nat.add_succ_comm.
Qed.

(** An optional fraction of [nf] digits with value [b]. *)
Definition fraction (fr : text) (nf : nat) (b : Z) : Prop :=
  (fr = [] /\ nf = 0%nat /\ b = 0) \/ (exists fp, fr = POINT :: fp /\ digitsOf fp b /\ nf = length fp).

(** An optional exponent. *)
Definition exponent (ex : text) (e : Z) : Prop :=
  (ex = [] /\ e = 0) \/
  (exists ds v, ds <> [] /\ digitsOf ds v /\
     ((ex = chars "e+" ++ ds /\ e = v) \/ (ex = chars "e-" ++ ds /\ e = - v))).

Lemma exponent_stops ex e : exponent ex e -> stops ex.
Proof. by intros [[-> _]|(ds & v & _ & _ & [[-> _]|[-> _]])]. Qed.

Lemma fraction_stops fr nf b ex e : fraction fr nf b -> exponent ex e -> stops (fr ++ ex).
Proof. intros [(-> & _ & _)|(fp & -> & _)] He; [by eapply exponent_stops|done]. Qed.

Lemma scanExponent_exponent ex e : exponent ex e -> scanExponent ex = Some e.
Proof.
  intros [[-> ->]|(ds & v & Hne & Hd & H)]; [done|].
  pose proof (scanDigits_digits ds [] I 0 0%nat v Hd) as Hs. rewrite app_nil_r in Hs.
  destruct H as [[-> ->]|[-> ->]]; unfold scanExponent; cbn -[scanDigits]; rewrite Hs; destruct ds as [|c ds]; try done;
    cbn [Nat.add length]; f_equal; lia.
Qed.

(** The characters of a decimal: no spaces, and no start of a special name. *)
Definition numeral (t : text) : Prop := Forall (fun c => pySpace c = false) t.

Lemma digits_numeral ds v : digitsOf ds v -> numeral ds.
Proof. apply readDigits_spaces. Qed.

Lemma fraction_numeral fr nf b : fraction fr nf b -> numeral fr.
Proof. intros [(-> & _)|(fp & -> & Hd & _)]; [constructor|]. constructor; [done|by eapply digits_numeral]. Qed.

Lemma exponent_numeral ex e : exponent ex e -> numeral ex.
Proof.
  intros [[-> _]|(ds & v & _ & Hd%digits_numeral & [[-> _]|[-> _]])]; [constructor|..]; repeat (constructor; [done|]); exact Hd.
Qed.

Lemma digit_lower c d : digit c = Some d -> lower c = c.
Proof. unfold digit, lower. case_if; [|done]. intros _. breflect. case_if; [|done]. breflect. lia. Qed.

Lemma not_special c d t s : digit c = Some d -> s ∈ ["inf"; "infinity"; "nan"] -> str (lower <$> (c :: t)) <> s.
Proof.
  intros Hc Hs Heq. apply (f_equal chars) in Heq. rewrite chars_str in Heq. cbn [fmap list_fmap] in Heq.
  rewrite (digit_lower c d Hc) in Heq. apply list_elem_of_In in Hs.
  destruct Hs as [<-|[<-|[<-|[]]]]; injection Heq as -> _; done.
Qed.

Lemma scanFraction_fraction a fr nf b ex e : fraction fr nf b -> exponent ex e ->
  scanFraction a (fr ++ ex) = (a * 10 ^ Z.of_nat nf + b, nf, ex).
Proof.
  intros [(-> & -> & ->)|(fp & -> & Hfp & ->)] Hex.
  - rewrite Z.pow_0_r, Z.mul_1_r, Z.add_0_r. by destruct Hex as [[-> _]|(ds & v & _ & _ & [[-> _]|[-> _]])].
  - cbn [app scanFraction]. change (byteZ POINT =? 46) with true. cbv iota.
    by rewrite (scanDigits_digits fp ex (exponent_stops _ _ Hex) 0 0%nat b Hfp).
Qed.

Lemma signed_digit c t d : digit c = Some d -> signed (c :: t) = (1, c :: t).
Proof. intros H. by destruct c as [[] [] [] [] [] [] [] []]. Qed.

Definition signText (neg : bool) : string := if neg then "-" else "".

Lemma py_float_parse neg ip a fr nf b ex e :
  ip <> [] -> digitsOf ip a -> fraction fr nf b -> exponent ex e ->
  py_float (signText neg +:+ str (ip ++ fr ++ ex)) =
  Some (rnd (inject_Z ((if neg then -1 else 1) * (a * 10 ^ Z.of_nat nf + b)) * pow10 (e - Z.of_nat nf))).
Proof.
  intros Hne Hip Hfr Hex. unfold py_float. change (String.list_ascii_of_string ?s) with (chars s).
  rewrite chars_append, chars_str. assert (numeral (ip ++ fr ++ ex)) as Hnum.
  { apply Forall_app_2; [by eapply digits_numeral|]. apply Forall_app_2; [by eapply fraction_numeral|by eapply exponent_numeral]. }
  rewrite stripChars_none by (destruct neg; [by constructor|done]).
  destruct ip as [|c ip]; [done|]. unfold digitsOf in Hip. pose proof Hip as Hip'. cbn [readDigits] in Hip'.
  destruct (digit c) as [d|] eqn:Hc; [|done]. clear Hip'.
  assert (signed (chars (signText neg) ++ (c :: ip) ++ fr ++ ex) = (if neg then -1 else 1, (c :: ip) ++ fr ++ ex)) as ->.
  { destruct neg; [done|]. by apply (signed_digit c _ d). }
  assert (forall s, s ∈ ["inf"; "infinity"; "nan"] -> str (lower <$> ((c :: ip) ++ fr ++ ex)) <> s) as Hspecial.
  { intros s Hs Heq. apply (not_special _ _ _ _ Hc Hs Heq). }
  cbv zeta. change String.string_of_list_ascii with str.
  rewrite bool_decide_eq_false_2 by (intros [H|H]; revert H; apply Hspecial; set_solver).
  rewrite bool_decide_eq_false_2 by (apply Hspecial; set_solver).
  rewrite (scanDigits_digits _ _ (fraction_stops _ _ _ _ _ Hfr Hex) 0 0%nat a Hip).
  rewrite (scanFraction_fraction _ _ _ _ _ _ Hfr Hex), bool_decide_eq_false_2 by (simpl; lia).
  by rewrite (scanExponent_exponent _ _ Hex).
Qed.

(** ** The round trip *)

Lemma str_parts s ip fr ex : chars s = ip ++ fr ++ ex -> s = str (ip ++ fr ++ ex).
Proof. intros <-. symmetry. apply str_chars. Qed.

Lemma pointed_parts m n : 0 <= m -> 0 < n ->
  exists ip fp, chars (pointed m n) = ip ++ POINT :: fp /\ ip <> [] /\ digitsOf ip (m / 10 ^ n) /\
    digitsOf fp (m mod 10 ^ n) /\ length fp = Z.to_nat n.
Proof.
  intros Hm Hn. assert (0 < 10 ^ n) as Hp by (apply Z.pow_pos_nonneg; lia).
  pose proof (Z.mod_pos_bound m (10 ^ n) Hp) as Hr. pose proof (Z.div_pos m (10 ^ n) Hm Hp) as Hd.
  destruct (pretty_digits (m / 10 ^ n) Hd) as (H1 & H2 & _).
  destruct (padZeros_digits (Z.to_nat n) (m mod 10 ^ n)) as (H3 & H4 & _); [lia|lia|].
  eexists _, _. split; [unfold pointed; by rewrite !chars_append|]. split_and!; [done..|]. apply H4. rewrite Z2Nat.id; lia.
Qed.

Lemma expText_exponent e : exponent (chars (expText e)) e.
Proof.
  right. destruct (padZeros_digits 2 (Z.abs e)) as (Hd & _ & Hne); [lia|lia|].
  eexists _, _. split; [exact Hne|]. split; [exact Hd|]. unfold expText. destruct (Z.ltb_spec e 0).
  - right. split; [apply chars_append|lia].
  - left. split; [apply chars_append|lia].
Qed.

Definition signQ (neg : bool) (q : Q) : Q := if neg then (- q)%Q else q.

Lemma decimalText_parse neg m x : 0 < m ->
  py_float (signText neg +:+ decimalText m x) = Some (rnd (signQ neg (inject_Z m * pow10 x))).
Proof.
  intros Hm. assert (forall k y, (inject_Z k * pow10 y == inject_Z m * pow10 x)%Q ->
    rnd (inject_Z ((if neg then -1 else 1) * k) * pow10 y) = rnd (signQ neg (inject_Z m * pow10 x))) as Hval.
  { intros k y H. apply rnd_eq. unfold signQ. rewrite inject_Z_mult, <- Qmult_assoc, H. destruct neg; [|ring].
    change (inject_Z (-1)) with (-1)%Q. ring. }
  destruct (pretty_digits m) as (Hd & Hne & _); [lia|].
  unfold decimalText. rewrite <- length_chars. set (len := Z.of_nat (length (chars (pretty m)))).
  assert (1 <= len) by (unfold len; destruct (chars (pretty m)); [done|simpl; lia]).
  destruct ((-4 <? len + x) && (len + x <=? 16)) eqn:Hfix; [destruct (Z.leb_spec 0 x)|destruct (Z.eqb_spec len 1)].
  - assert (0 <= m * 10 ^ x) as Hmx by (pose proof (Z.pow_pos_nonneg 10 x); nia).
    destruct (pretty_digits _ Hmx) as (Hd' & Hne' & _).
    rewrite (str_parts (_ +:+ ".0") (chars (pretty (m * 10 ^ x))) (chars ".0") []) by by rewrite chars_append, app_nil_r.
    erewrite py_float_parse; [|done|done|right; by exists (chars "0")|by left]. f_equal. apply Hval.
    change (Z.of_nat (length (chars "0"))) with 1. rewrite Z.add_0_r, !inject_Z_mult, <- pow10_Z by lia. 
    change (pow10 (0 - 1)) with (1 # 10)%Q. change (inject_Z (10 ^ 1)) with 10%Q. ring.
  - destruct (pointed_parts m (- x)) as (ip & fp & Hs & H1 & H2 & H3 & Hl); [lia|lia|].
    rewrite (str_parts (pointed m (- x)) ip (POINT :: fp) []) by by rewrite app_nil_r.
    erewrite py_float_parse; [|done|done|right; by exists fp|by left]. f_equal. apply Hval.
    rewrite Z2Nat.id, Z.mul_comm, <- Z.div_mod by (lia || apply Z.pow_nonzero; lia). by replace (0 - - x) with x by lia.
  - rewrite (str_parts (pretty m +:+ expText (len + x - 1)) (chars (pretty m)) [] (chars (expText (len + x - 1)))) by apply chars_append.
    erewrite py_float_parse; [|done|done|by left|apply expText_exponent]. f_equal. apply Hval.
    rewrite Z.pow_0_r, Z.mul_1_r, Z.add_0_r. by replace (len + x - 1 - Z.of_nat 0) with x by lia.
  - destruct (pointed_parts m (len - 1)) as (ip & fp & Hs & H1 & H2 & H3 & Hl); [lia|lia|].
    rewrite (str_parts (pointed m (len - 1) +:+ expText (len + x - 1)) ip (POINT :: fp) (chars (expText (len + x - 1))))
      by by rewrite chars_append, Hs, <- app_assoc.
    erewrite py_float_parse; [|done|done|right; by exists fp|apply expText_exponent]. f_equal. apply Hval.
    rewrite Z2Nat.id, Z.mul_comm, <- Z.div_mod by (lia || apply Z.pow_nonzero; lia).
    by replace (len + x - 1 - (len - 1)) with x by lia.
Qed.

(** A float in the form every operation returns: the reduced fraction of a
    number that binary64 holds. *)
Definition exact (f : float) : Prop := match f with Fin q => rnd q = Fin q | _ => True end.

Lemma rnd_is_exact q : exact (rnd q).
Proof.
  unfold rnd at 1. destruct (Qle_bool (pow2 1024) (Qabs (rndQ q))) eqn:E; [done|]. simpl. unfold rnd. by rewrite rndQ_idem, E.
Qed.

Lemma exact_Fin q p : exact (Fin q) -> (rndQ p == q)%Q -> rnd p = Fin q.
Proof.
  intros He Hp. simpl in He. unfold rnd in *. destruct (Qle_bool (pow2 1024) (Qabs (rndQ q))) eqn:E; [done|].
  injection He as He. assert (rndQ p = q) as ->; [|by rewrite He in E; rewrite E].
  by rewrite <- rndQ_idem, (rndQ_eq _ _ Hp).
Qed.

Lemma repr_roundtrip f : exact f -> py_float (repr_float f) = Some f.
Proof.
  destruct f as [q|[]|]; intros He; [|done..]. unfold repr_float. destruct (Qeq_bool q 0) eqn:Hz.
  { apply Qeq_bool_iff in Hz. change (py_float "0.0") with (Some (Fin 0)). simpl in He. rewrite (rnd_eq q 0 Hz) in He. by injection He as <-. }
  apply Qeq_bool_neq in Hz. pose proof (rnd_is_float q) as Hf. simpl in He. rewrite He in Hf. destruct Hf as [Hr Hlt].
  assert (signQ (negQ q) (Qabs q) == q)%Q as Hsign.
  { unfold negQ. destruct (Qle_bool 0 q) eqn:E; simpl.
    - apply Qle_bool_iff in E. by apply Qabs_pos.
    - assert (q <= 0)%Q by (apply Qnot_lt_le; intros ?; apply Bool.not_true_iff_false in E; apply E, Qle_bool_iff; lra).
      rewrite Qabs_neg by done. ring. }
  assert (0 < Qabs q)%Q as Hpos.
  { destruct (Qle_lt_or_eq 0 (Qabs q) (Qabs_nonneg q)) as [|H0]; [done|]. exfalso. apply Hz. rewrite <- Hsign. unfold signQ. destruct (negQ q); lra. }
  assert (representable (Qabs q)) as Hra.
  { apply (Qabs_case q (fun y => representable y)); [done|]. intros _. by apply representable_opp. }
  destruct (digits (Qabs q)) as [m x] eqn:Hd. apply digits_spec in Hd as [Hm Hb]; [|done|done].
  change (if negQ q then "-" else "") with (signText (negQ q)). rewrite decimalText_parse by done. f_equal.
  apply exact_Fin; [done|]. etrans; [|exact Hsign]. unfold signQ. destruct (negQ q); [|exact Hb].
  rewrite rndQ_opp, Hb; [reflexivity|]. assert (0 < pow10 x)%Q by by apply Qpower_0_lt. apply Qmult_lt_0_compat; [|done].
  change 0%Q with (inject_Z 0). by rewrite <- Zlt_Qlt.
Qed.

(** ** The results of the operations are exact *)

Lemma exact_is_float f : exact f -> is_float f.
Proof. destruct f as [q| |]; [|done..]. simpl. intros H. pose proof (rnd_is_float q) as Hf. by rewrite H in Hf. Qed.

Lemma fmul_exact a b : exact (fmul a b).
Proof. destruct a, b; simpl; try done; try apply rnd_is_exact; by case_if. Qed.

Lemma fdiv_exact a b r : fdiv a b = Ok r -> exact r.
Proof.
  unfold fdiv. destruct a, b; try case_if; intros [= <-]; try done; apply rnd_is_exact.
Qed.

Lemma mean_exact l r : mean l = Ok r -> exact r.
Proof.
  unfold mean. destruct l as [|x l]; [done|]. destruct (filter _ _) as [|g gs]; [|apply fdiv_exact].
  pose proof (rnd_is_exact (sumQ (x :: l) / inject_Z (Z.of_nat (length (x :: l))))) as H.
  destruct (rnd _); intros [= <-]; done.
Qed.

Lemma py_min_elem x l : py_min x l ∈ x :: l.
Proof.
  unfold py_min. revert x. induction l as [|y l IH]; intros x; simpl; [by left|].
  case_if; [right; apply IH|]. pose proof (IH x). set_solver.
Qed.

Lemma py_max_elem x l : py_max x l ∈ x :: l.
Proof.
  unfold py_max. revert x. induction l as [|y l IH]; intros x; simpl; [by left|].
  case_if; [right; apply IH|]. pose proof (IH x). set_solver.
Qed.

(** [float(str(z))] of an integer. *)
Lemma py_float_pretty z : py_float (pretty z) = Some (rnd (inject_Z z)).
Proof.
  assert (exists neg, pretty z = signText neg +:+ pretty (Z.abs z) /\ z = (if neg then -1 else 1) * Z.abs z) as (neg & -> & Hz).
  { destruct z as [|p|p]; [by exists false|by exists false|by exists true]. }
  destruct (pretty_digits (Z.abs z)) as (Hd & Hne & _); [lia|].
  rewrite (str_parts (pretty (Z.abs z)) (chars (pretty (Z.abs z))) [] []) by by rewrite !app_nil_r.
  erewrite py_float_parse; [|done|done|by left|by left]. f_equal. apply rnd_eq.
  rewrite Hz at 2. rewrite Z.pow_0_r, Z.mul_1_r, Z.add_0_r. change (pow10 (0 - Z.of_nat 0)) with 1%Q. ring.
Qed.
