(* ===== verification/PyArgs.v ===== *)
(** * Command lines

    Python's [argparse] for parsers whose arguments are all long options, which
    is what the scripts use: exact and abbreviated option names, [--name=value],
    options with one value or with one or more ([nargs="+"]), conversion by
    [int] or [float], defaults, required options, and the help option every
    parser has.  A parse yields the namespace, or ends the program: with status
    0 after help, with status 2 after an error.  The value [--] given with an
    equals sign, which interpreter versions treat differently, is taken as it
    is. *)

From Stdlib Require Import Ascii.
From S2P Require Import Prelude PyStr PyFloat PyRepr.
#[local] Open Scope Z_scope.

(** ** Options *)

Inductive ArgType := TStr | TInt | TFloat.

Inductive ArgVal := AStr (s : string) | AInt (z : Z) | AFloat (f : float) | AList (l : list string).

(** An [add_argument] call; without a default the option is required.  An option
    with [nargs="+"] keeps its values as strings. *)
Record Opt := mkOpt { flag : string; multi : bool; type : ArgType; dflt : option ArgVal }.

Definition required (flag : string) : Opt := mkOpt flag false TStr None.

(** The namespace, by option name. *)
Abbreviation Namespace := (gmap string ArgVal).

Inductive Parse (A : Type) := Parsed (a : A) | Exit (status : Z).
Arguments Parsed {A} a.
Arguments Exit {A} status.

(** ** Classifying the arguments *)

Inductive Target := Help (short : bool) | Known (o : Opt) | Unknown.

Inductive Token := Arg (s : string) | Option (t : Target) (explicit : option string) | DashDash.

Definition DASH : ascii := ascii_of_nat 45.
Definition EQUALS : ascii := ascii_of_nat 61.
Definition SPACE : ascii := ascii_of_nat 32.

(** [s.split("=", 1)], when there is an equals sign. *)
Fixpoint splitEquals (t : text) : text * option text :=
  match t with
  | [] => ([], None)
  | c :: t' => if Ascii.eqb c EQUALS then ([], Some t')
               else let '(a, b) := splitEquals t' in (c :: a, b)
  end.

Definition isDigit (c : ascii) : bool := match digit c with Some _ => true | None => false end.

(** The pattern of a negative number, digits or digits around a point; its [$]
    also matches before a final line feed. *)
Definition unsignedNumber (t : text) : bool :=
  match dropWhile isDigit t with
  | [] => negb (bool_decide (t = []))
  | c :: frac => Ascii.eqb c POINT && forallb isDigit frac && negb (bool_decide (frac = []))
  end.

Definition chomp (t : text) : text :=
  match reverse t with c :: r => if Ascii.eqb c (ascii_of_nat 10) then reverse r else t | [] => t end.

Definition negativeNumber (t : text) : bool :=
  match t with c :: t' => Ascii.eqb c DASH && unsignedNumber (chomp t') | [] => false end.

Section Parser.
Context (opts : list Opt).

Definition lookupFlag (s : string) : option Target :=
  if bool_decide (s = "-h") then Some (Help true)
  else if bool_decide (s = "--help") then Some (Help false)
  else Known <$> head (filter (fun o => flag o = s) opts).

(** The options a prefix may stand for. *)
Definition abbreviated (p : string) : list Target :=
  (if String.prefix p "--help" then [Help false] else []) ++
  (Known <$> filter (fun o => String.prefix p (flag o) = true) opts).

(** [_parse_optional]; [None] is an ambiguous option. *)
Definition classify (s : string) : option Token :=
  match chars s with
  | d :: rest =>
      if negb (Ascii.eqb d DASH) then Some (Arg s)
      else
        match lookupFlag s, rest with
        | Some t, _ => Some (Option t None)
        | None, [] => Some (Arg s)
        | None, c :: more =>
            let '(name, explicit) := splitEquals (chars s) in
            match explicit, lookupFlag (str name) with
            | Some e, Some t => Some (Option t (Some (str e)))
            | _, _ =>
                let candidates :=
                  if Ascii.eqb c DASH then (fun t => (t, str <$> explicit)) <$> abbreviated (str name)
                  else if Ascii.eqb c (ascii_of_nat 104) then [(Help true, Some (str more))]
                  else [] in
                match candidates with
                | [(t, e)] => Some (Option t e)
                | _ :: _ => None
                | [] => if negativeNumber (chars s) || existsb (Ascii.eqb SPACE) (chars s)
                        then Some (Arg s) else Some (Option Unknown None)
                end
            end
        end
  | [] => Some (Arg s)
  end.

(** After [--] everything is an argument. *)
Fixpoint tokens (argv : list string) : option (list Token) :=
  match argv with
  | [] => Some []
  | s :: argv' =>
      if bool_decide (s = "--") then Some (DashDash :: (Arg <$> argv'))
      else t ← classify s; ts ← tokens argv'; Some (t :: ts)
  end.

(** ** Consuming them *)

Definition convert (ty : ArgType) (s : string) : option ArgVal :=
  match ty with
  | TStr => Some (AStr s)
  | TInt => AInt <$> py_int s
  | TFloat => AFloat <$> py_float s
  end.

(** Store the values matched to an option; [None] is a conversion error. *)
Definition store (o : Opt) (vs : list string) (ns : Namespace) : option Namespace :=
  if multi o then Some (<[flag o := AList vs]> ns)
  else match vs with
       | [v] => x ← convert (type o) v; Some (<[flag o := x]> ns)
       | _ => None
       end.

(** Every option without a default is there, and nothing is left over. *)
Definition finish (ns : Namespace) (extras : bool) : Parse Namespace :=
  if forallb (fun o => bool_decide (is_Some (dflt o)) || bool_decide (is_Some (ns !! flag o))) opts && negb extras
  then Parsed (foldr (fun o acc => match ns !! flag o, dflt o with
                                   | None, Some d => <[flag o := d]> acc
                                   | _, _ => acc
                                   end) ns opts)
  else Exit 2.

(** [cur] is an option with [nargs="+"] and the values collected for it. *)
Fixpoint consume (cur : option (Opt * list string)) (toks : list Token) (ns : Namespace) (extras : bool) : Parse Namespace :=
  let flushed := match cur with Some (o, vs) => store o vs ns | None => Some ns end in
  match toks with
  | [] => match flushed with Some ns' => finish ns' extras | None => Exit 2 end
  | Arg v :: toks' =>
      match cur with
      | Some (o, vs) => consume (Some (o, vs ++ [v])) toks' ns extras
      | None => consume None toks' ns true
      end
  | DashDash :: toks' => match flushed with Some ns' => consume None toks' ns' true | None => Exit 2 end
  | Option t explicit :: toks' =>
      match flushed with
      | None => Exit 2
      | Some ns' =>
          match t, explicit with
          | Help _, None => Exit 0
          | Help short, Some e =>
              if short && negb (bool_decide (e = "")) && forallb (Ascii.eqb (ascii_of_nat 104)) (chars e) then Exit 0 else Exit 2
          | Unknown, _ => consume None toks' ns' true
          | Known o, Some e => match store o [e] ns' with Some ns'' => consume None toks' ns'' extras | None => Exit 2 end
          | Known o, None =>
              match toks' with
              | Arg v :: toks'' =>
                  if multi o then consume (Some (o, [v])) toks'' ns' extras
                  else match store o [v] ns' with Some ns'' => consume None toks'' ns'' extras | None => Exit 2 end
              | _ => Exit 2
              end
          end
      end
  end.

(** [parser.parse_args(argv)] *)
Definition parse (argv : list string) : Parse Namespace :=
  match tokens argv with Some toks => consume None toks ∅ false | None => Exit 2 end.
End Parser.

(** Reading the namespace. *)
Definition getStr (ns : Namespace) (f : string) : string := match ns !! f with Some (AStr s) => s | _ => "" end.
Definition getInt (ns : Namespace) (f : string) : Z := match ns !! f with Some (AInt z) => z | _ => 0 end.
Definition getFloat (ns : Namespace) (f : string) : float := match ns !! f with Some (AFloat x) => x | _ => NaN end.
Definition getList (ns : Namespace) (f : string) : list string := match ns !! f with Some (AList l) => l | _ => [] end.

(** ** Well-formed command lines *)

Definition plainArg (s : string) : Prop := match chars s with c :: _ => Ascii.eqb c DASH = false | [] => True end.

#[export] Instance plainArg_dec s : Decision (plainArg s).
Proof. unfold plainArg. destruct (chars s); apply _. Defined.

Section WellFormed.
Context (opts : list Opt).

(** The options of a parser: two dashes and a name of their own. *)
Definition well_formed : Prop :=
  NoDup (flag <$> opts) /\ Forall (fun o => String.prefix "--" (flag o) = true /\ flag o <> "--" /\ flag o <> "--help") opts.

Hypothesis Hwf : well_formed.

Lemma lookupFlag_known o : o ∈ opts -> lookupFlag opts (flag o) = Some (Known o).
Proof.
  destruct Hwf as [Hnd Hall]. intros Ho. destruct (proj1 (Forall_forall _ _) Hall o Ho) as (Hp & _ & Hh).
  unfold lookupFlag. rewrite bool_decide_eq_false_2 by (intros E; rewrite E in Hp; by vm_compute in Hp).
  rewrite bool_decide_eq_false_2 by done. clear -Ho Hnd. revert Hnd. induction opts as [|o' l IH]; intros Hnd; [set_solver|].
  cbn [fmap list_fmap] in Hnd. apply NoDup_cons in Hnd as [Hn Hnd]. apply elem_of_cons in Ho as [->|Ho].
  - by rewrite filter_cons_True.
  - rewrite filter_cons_False; [by apply IH|]. intros E. apply Hn. rewrite E. by apply list_elem_of_fmap_2.
Qed.

Lemma tokens_flag o argv : o ∈ opts ->
  tokens opts (flag o :: argv) = ts ← tokens opts argv; Some (Option (Known o) None :: ts).
Proof.
  intros Ho. pose proof (lookupFlag_known o Ho) as Hl. destruct Hwf as [_ Hall].
  destruct (proj1 (Forall_forall _ _) Hall o Ho) as (Hp & Hd & _).
  cbn [tokens]. rewrite bool_decide_eq_false_2 by done. unfold classify. rewrite Hl.
  destruct (flag o) as [|c s]; [done|]. cbn [chars String.list_ascii_of_string].
  cbn [String.prefix] in Hp. destruct (ascii_dec _ c) as [<-|]; [|done]. done.
Qed.

Lemma tokens_plain vs argv : Forall plainArg vs ->
  tokens opts (vs ++ argv) = ts ← tokens opts argv; Some ((Arg <$> vs) ++ ts).
Proof.
  induction 1 as [|v vs Hv _ IH]; [simpl; by destruct (tokens opts argv)|]. cbn [app tokens].
  rewrite bool_decide_eq_false_2 by (intros ->; done). unfold classify. rewrite IH. unfold plainArg in Hv.
  destruct (chars v) as [|c t]; [|rewrite Hv]; by destruct (tokens opts argv).
Qed.

(** Options with their values, as a command line. *)
Fixpoint render (items : list (Opt * list string)) : list string :=
  match items with [] => [] | (o, vs) :: items' => flag o :: vs ++ render items' end.

Definition item_ok (item : Opt * list string) : Prop :=
  item.1 ∈ opts /\ Forall plainArg item.2 /\ (if multi item.1 then item.2 <> [] else exists v, item.2 = [v]).

Fixpoint itemTokens (items : list (Opt * list string)) : list Token :=
  match items with [] => [] | (o, vs) :: items' => Option (Known o) None :: (Arg <$> vs) ++ itemTokens items' end.

Lemma tokens_render items : Forall item_ok items -> tokens opts (render items) = Some (itemTokens items).
Proof.
  induction 1 as [|[o vs] items (Ho & Hp & _) _ IH]; [done|]. cbn [render itemTokens].
  by rewrite tokens_flag, tokens_plain, IH.
Qed.

(** All the values are stored in order, the last of an option wins. *)
Fixpoint storeAll (items : list (Opt * list string)) (ns : option Namespace) : option Namespace :=
  match items with
  | [] => ns
  | (o, vs) :: items' => storeAll items' (n ← ns; store o vs n)
  end.

Lemma storeAll_None items : storeAll items None = None.
Proof. induction items as [|[o vs] items IH]; [done|]. apply IH. Qed.

Lemma consume_collect o vs us toks ns extras :
  consume opts (Some (o, vs)) ((Arg <$> us) ++ toks) ns extras = consume opts (Some (o, vs ++ us)) toks ns extras.
Proof.
  revert vs. induction us as [|u us IH]; intros vs; [by rewrite app_nil_r|]. cbn [fmap list_fmap app consume]. rewrite IH.
  by rewrite <- app_assoc.
Qed.

Lemma consume_items items : Forall item_ok items -> forall cur ns extras,
  consume opts cur (itemTokens items) ns extras =
  match storeAll items (match cur with Some (o, vs) => store o vs ns | None => Some ns end) with
  | Some ns' => finish opts ns' extras
  | None => Exit 2
  end.
Proof.
  induction 1 as [|[o vs] items (Ho & Hp & Hm) _ IH]; intros cur ns extras; [done|].
  cbn [itemTokens storeAll consume].
  destruct (match cur with Some (o', vs') => store o' vs' ns | None => Some ns end) as [ns'|]; [|by rewrite storeAll_None].
  cbn [mbind option_bind fst snd] in *. destruct (multi o) eqn:E.
  - destruct vs as [|v vs]; [done|]. cbn [fmap list_fmap app].
    by rewrite consume_collect, IH.
  - destruct Hm as [v ->]. cbn [fmap list_fmap app]. destruct (store o [v] ns') as [ns''|]; [|by rewrite storeAll_None].
    by rewrite IH.
Qed.

Lemma parse_render items : Forall item_ok items ->
  parse opts (render items) =
  match storeAll items (Some ∅) with Some ns => finish opts ns false | None => Exit 2 end.
Proof. intros H. unfold parse. rewrite tokens_render by done. by rewrite consume_items. Qed.
End WellFormed.

(** ** A successful parse gives every option a value of its type *)

Definition hasType (o : Opt) (v : ArgVal) : Prop :=
  if multi o then exists l, v = AList l /\ l <> []
  else match type o, v with TStr, AStr _ | TInt, AInt _ | TFloat, AFloat _ => True | _, _ => False end.

Section Typed.
Context (opts : list Opt).
Hypothesis Hnd : NoDup (flag <$> opts).
Hypothesis Hdflt : Forall (fun o => match dflt o with Some d => hasType o d | None => True end) opts.

Definition ns_typed (ns : Namespace) : Prop := forall o v, o ∈ opts -> ns !! flag o = Some v -> hasType o v.

Lemma flag_inj o o' : o ∈ opts -> o' ∈ opts -> flag o = flag o' -> o = o'.
Proof.
  intros Ho Ho' E. apply list_elem_of_lookup in Ho as [i Hi], Ho' as [j Hj].
  assert (i = j) as <-; [|congruence]. apply (NoDup_lookup _ i j (flag o) Hnd); rewrite list_lookup_fmap; [by rewrite Hi|].
  rewrite Hj. simpl. by rewrite E.
Qed.

Lemma ns_typed_insert o v ns : o ∈ opts -> hasType o v -> ns_typed ns -> ns_typed (<[flag o := v]> ns).
Proof.
  intros Ho Hv Hns o' v' Ho' Hl. destruct (decide (flag o = flag o')) as [E|Hne].
  - rewrite E, lookup_insert_eq in Hl. injection Hl as <-. by rewrite <- (flag_inj o o').
  - rewrite lookup_insert_ne in Hl by done. by eapply Hns.
Qed.

Lemma store_typed o vs ns ns' : o ∈ opts -> vs <> [] -> ns_typed ns -> store o vs ns = Some ns' -> ns_typed ns'.
Proof.
  intros Ho Hvs Hns. unfold store. destruct (multi o) eqn:Em.
  - intros [= <-]. apply ns_typed_insert; [done| |done]. unfold hasType. rewrite Em. eauto.
  - destruct vs as [|v [|]]; [done| |done]. destruct (convert (type o) v) as [x|] eqn:E; [|done]. intros [= <-].
    apply ns_typed_insert; [done| |done]. unfold hasType. rewrite Em.
    unfold convert in E. destruct (type o); [by injection E as <-|..]; by apply fmap_Some in E as (? & _ & ->).
Qed.

Lemma finish_typed ns extras ns' : ns_typed ns -> finish opts ns extras = Parsed ns' ->
  forall o, o ∈ opts -> exists v, ns' !! flag o = Some v /\ hasType o v.
Proof.
  intros Hns. unfold finish. destruct (forallb _ opts && negb extras) eqn:E; [|done]. intros [= <-] o Ho.
  apply andb_true_iff in E as [E _]. rewrite forallb_forall in E. specialize (E o (proj1 (list_elem_of_In _ _) Ho)).
  set (add := fun o acc => match ns !! flag o, dflt o with None, Some d => <[flag o := d]> acc | _, _ => acc end).
  assert (forall l, l ⊆ opts -> (o ∈ l \/ is_Some (ns !! flag o)) ->
    exists v, foldr add ns l !! flag o = Some v /\ hasType o v) as H; [|apply (H opts); [done|by left]].
  induction l as [|o' l IH]; intros Hsub Hin.
  { destruct Hin as [?|[v Hv]]; [set_solver|]. exists v. split; [done|by eapply Hns]. }
  cbn [foldr]. unfold add at 1. assert (o' ∈ opts) as Ho' by set_solver.
  destruct (decide (flag o' = flag o)) as [Ef|Hne].
  - assert (o' = o) as -> by by apply flag_inj. destruct (ns !! flag o) as [v|] eqn:En; [apply IH; [set_solver|right; by eexists]|].
    destruct (dflt o) as [d|] eqn:Ed; [|by rewrite !bool_decide_eq_false_2 in E by by intros [? ?]].
    exists d. rewrite lookup_insert_eq. split; [done|]. pose proof (proj1 (Forall_forall _ _) Hdflt o Ho) as Hd. cbv beta in Hd. by rewrite Ed in Hd.
  - assert (o ∈ l \/ is_Some (ns !! flag o)) as Hin' by set_solver.
    destruct (IH ltac:(set_solver) Hin') as (v & Hv & Ht). exists v. split; [|done].
    destruct (ns !! flag o'); [done|]. destruct (dflt o'); [by rewrite lookup_insert_ne|done].
Qed.

Definition token_ok (t : Token) : Prop := match t with Option (Known o) _ => o ∈ opts | _ => True end.

Definition cur_ok (cur : option (Opt * list string)) : Prop :=
  match cur with Some (o, vs) => o ∈ opts /\ vs <> [] | None => True end.

Lemma consume_typed toks : Forall token_ok toks -> forall cur ns extras ns', cur_ok cur -> ns_typed ns ->
  consume opts cur toks ns extras = Parsed ns' ->
  forall o, o ∈ opts -> exists v, ns' !! flag o = Some v /\ hasType o v.
Proof.
  intros Htoks. remember (length toks) as n eqn:Hn. assert (length toks <= n)%nat as Hle by lia. clear Hn.
  revert toks Hle Htoks. induction n as [|n IH]; intros toks Hle Htoks cur ns extras ns' Hcur Hns;
    (assert (forall ns1, match cur with Some (o, vs) => store o vs ns | None => Some ns end = Some ns1 -> ns_typed ns1) as Hfl
      by (destruct cur as [[o vs]|]; [intros ns1; by apply store_typed; [apply Hcur..|]|by intros ns1 [= <-]])).
  { destruct toks; [|simpl in Hle; lia]. cbn [consume]. destruct (match cur with Some _ => _ | None => _ end) as [ns1|]; [|done].
    apply finish_typed. by apply Hfl. }
  destruct toks as [|t toks]; cbn [consume].
  { destruct (match cur with Some _ => _ | None => _ end) as [ns1|]; [|done]. apply finish_typed. by apply Hfl. }
  simpl in Hle. apply Forall_cons in Htoks as [Ht Htoks]. destruct t as [v|t explicit|].
  - destruct cur as [[o vs]|]; apply IH; try done; [lia| |lia]. split; [apply Hcur|]. by destruct vs.
  - destruct (match cur with Some _ => _ | None => _ end) as [ns1|]; [|done]. specialize (Hfl ns1 eq_refl).
    destruct t as [short|o|].
    + destruct explicit; [by case_if|done].
    + destruct explicit as [e|].
      * destruct (store o [e] ns1) as [ns2|] eqn:Es; [|done]. apply IH; try done; [lia|]. by apply (store_typed o [e] ns1).
      * destruct toks as [|[v|? ?|] toks]; try done. apply Forall_cons in Htoks as [_ Htoks]. simpl in Hle.
        destruct (multi o); [by apply IH; [lia|..]|].
        destruct (store o [v] ns1) as [ns2|] eqn:Es; [|done]. apply IH; try done; [lia|]. by apply (store_typed o [v] ns1).
    + apply IH; try done. lia.
  - destruct (match cur with Some _ => _ | None => _ end) as [ns1|]; [|done]. apply IH; try done; [lia|]. by apply Hfl.
Qed.

Lemma lookupFlag_ok s t : lookupFlag opts s = Some t -> token_ok (Option t None).
Proof.
  unfold lookupFlag. case_bool_decide; [by intros [= <-]|]. case_bool_decide; [by intros [= <-]|].
  intros (o & Ho & ->)%fmap_Some. apply head_Some_elem_of, list_elem_of_filter in Ho as [_ ?]. done.
Qed.

Lemma abbreviated_ok p t : t ∈ abbreviated opts p -> token_ok (Option t None).
Proof.
  unfold abbreviated. intros [H|H]%elem_of_app; [case_if; [by apply list_elem_of_singleton in H as ->|set_solver]|].
  apply list_elem_of_fmap in H as (o & -> & [_ ?]%list_elem_of_filter). done.
Qed.

Lemma classify_ok s t : classify opts s = Some t -> token_ok t.
Proof.
  unfold classify. destruct (chars s) as [|d rest]; [by intros [= <-]|]. case_if; [by intros [= <-]|].
  destruct (lookupFlag opts s) as [tg|] eqn:El; [intros [= <-]; by eapply lookupFlag_ok|].
  destruct rest as [|c more]; [by intros [= <-]|]. destruct (splitEquals (d :: c :: more)) as [name explicit].
  set (cands := if Ascii.eqb c DASH then _ else _).
  assert (Forall (fun te : Target * option string => token_ok (Option te.1 None)) cands) as Hc.
  { unfold cands. case_if; [|case_if; [by constructor|constructor]]. apply Forall_fmap, Forall_forall.
    intros x Hx. by eapply abbreviated_ok. }
  assert (forall o : option Token, o = match cands with
    | [] => if negativeNumber (d :: c :: more) || existsb (Ascii.eqb SPACE) (d :: c :: more) then Some (Arg s) else Some (Option Unknown None)
    | [(t, e)] => Some (Option t e) | _ :: _ => None end -> o = Some t -> token_ok t) as Hcase.
  { intros o -> Ho. destruct cands as [|[t' e] [|]]; [by case_if; injection Ho as <-|injection Ho as <-|done].
    apply Forall_cons in Hc as [Hc _]. by destruct t'. }
  destruct explicit as [e|]; [|by apply Hcase]. destruct (lookupFlag opts (str name)) as [tg|] eqn:E2; [|by apply Hcase].
  intros [= <-]. apply lookupFlag_ok in E2. by destruct tg.
Qed.

(** A namespace that [parse] returns has every option, at its type. *)
Lemma parse_typed argv ns : parse opts argv = Parsed ns ->
  forall o, o ∈ opts -> exists v, ns !! flag o = Some v /\ hasType o v.
Proof.
  unfold parse. destruct (tokens opts argv) as [toks|] eqn:E; [|done]. intros Hc.
  refine (consume_typed toks _ None ∅ false ns I _ Hc).
  - clear Hc. revert toks E. induction argv as [|s argv IH]; intros toks E; cbn [tokens] in E; [by injection E as <-|].
    case_bool_decide; [injection E as <-; constructor; [done|]; apply Forall_fmap, Forall_true; by intros x|].
    destruct (classify opts s) as [t|] eqn:Ec; [|done]. destruct (tokens opts argv) as [ts|]; [|done]. injection E as <-.
    constructor; [by eapply classify_ok|by apply IH].
  - intros o v _ Hl. done.
Qed.
End Typed.

(** ** Numbers on a command line *)

Lemma py_int_pretty z : 0 <= z -> py_int (pretty z) = Some z.
Proof.
  intros Hz. destruct (pretty_digits z Hz) as (Hd & Hne & _). pose proof (digits_numeral _ _ Hd) as Hnum.
  destruct (digitsOf_head _ _ Hd Hne) as (c & ds & d & Hc & Hdc & Hr). unfold py_int.
  change (String.list_ascii_of_string (pretty z)) with (chars (pretty z)). rewrite stripChars_none, Hc by done.
  unfold pyIntChars. rewrite (signed_digit c ds d Hdc), Hdc. cbn [mbind option_bind].
  rewrite (readDigits_underscore _ _ _ Hr). cbn [mbind option_bind]. f_equal. lia.
Qed.

Lemma plainArg_pretty z : 0 <= z -> plainArg (pretty z).
Proof.
  intros Hz. destruct (pretty_digits z Hz) as (Hd & Hne & _). destruct (digitsOf_head _ _ Hd Hne) as (c & ds & d & Hc & Hdc & _).
  unfold plainArg. rewrite Hc. apply Ascii.eqb_neq. intros ->. done.
Qed.
