(* ===== verification/PyCsv.v ===== *)
(** * Python's [csv] module

    The parts of the standard library's [csv] that the scripts use, in the
    default dialect: [DictWriter] (fields with a comma, a quote or a line break
    are quoted, quotes doubled, records end in CR LF) and [DictReader], whose
    reader is the state machine of the module's C code, fed with the lines of a
    file opened with [newline=""].  The round trip holds for every content of
    the fields that the reader's size limit admits. *)

From Stdlib Require Import Ascii.
From S2P Require Import Prelude PyStr.
#[local] Open Scope Z_scope.

Definition QUOTE : ascii := ascii_of_nat 34.
Definition COMMA : ascii := ascii_of_nat 44.
Definition CR : ascii := ascii_of_nat 13.
Definition LF : ascii := ascii_of_nat 10.

Definition isNewline (c : ascii) : bool := Ascii.eqb c CR || Ascii.eqb c LF.

(** ** Writing *)

Definition special (c : ascii) : bool := isNewline c || Ascii.eqb c COMMA || Ascii.eqb c QUOTE.

(** A quote inside a quoted field is doubled. *)
Fixpoint doubled (t : text) : text :=
  match t with
  | [] => []
  | c :: t' => if Ascii.eqb c QUOTE then c :: c :: doubled t' else c :: doubled t'
  end.

Definition quoteField (t : text) : text :=
  if existsb special t then QUOTE :: doubled t ++ [QUOTE] else t.

Fixpoint joinFields (fs : list text) : text :=
  match fs with
  | [] => []
  | [f] => quoteField f
  | f :: fs' => quoteField f ++ COMMA :: joinFields fs'
  end.

(** A record; a single empty field is quoted, to tell it from no field. *)
Definition writeRecord (fs : list text) : text :=
  match fs with [[]] => [QUOTE; QUOTE] | _ => joinFields fs end ++ [CR; LF].

Definition writeRecords (rs : list (list text)) : text := r ← rs; writeRecord r.

Section DictWriter.
Context {V : Type} (cell : V -> text) (fieldnames : list string).

(** [DictWriter._dict_to_list]: keys that are no field names raise, missing
    ones are written as empty fields. *)
Definition dictToList (row : gmap string V) : result PyErr (list text) :=
  if bool_decide (map_Forall (fun k _ => k ∈ fieldnames) row)
  then Ok ((fun name => match row !! name with Some v => cell v | None => [] end) <$> fieldnames)
  else Err ValueError.

Fixpoint dictsToLists (rows : list (gmap string V)) : result PyErr (list (list text)) :=
  match rows with
  | [] => Ok []
  | row :: rows' => (r <-? dictToList row ;; rs <-? dictsToLists rows' ;; Ok (r :: rs))%result
  end.

(** The file after [writeheader()] and [writerows(rows)]. *)
Definition writeFile (rows : list (gmap string V)) : result PyErr text :=
  (rs <-? dictsToLists rows ;; Ok (writeRecords ((chars <$> fieldnames) :: rs)))%result.
End DictWriter.

(** ** Reading *)

Inductive ParserState := StartRecord | StartField | InField | InQuotedField | QuoteInQuotedField | EatCrnl.

#[export] Instance ParserState_eq_dec : EqDecision ParserState.
Proof. solve_decision. Defined.

Record Parser := mkParser { pstate : ParserState; field : text; fields : list text }.

Definition newParser : Parser := mkParser StartRecord [] [].

(** The default of [csv.field_size_limit()], in characters: the continuation
    bytes of UTF-8 do not count. *)
Definition FIELD_LIMIT : Z := 131072.

Definition nchars (t : text) : Z :=
  foldr (fun c n => if (128 <=? byteZ c) && (byteZ c <? 192) then n else n + 1) 0 t.

Definition addChar (st : ParserState) (c : ascii) (p : Parser) : result PyErr Parser :=
  if FIELD_LIMIT <? nchars (field p ++ [c]) then Err CsvError
  else Ok (mkParser st (field p ++ [c]) (fields p)).

Definition saveField (st : ParserState) (p : Parser) : Parser := mkParser st [] (fields p ++ [field p]).

Definition setState (st : ParserState) (p : Parser) : Parser := mkParser st (field p) (fields p).

(** One character, or the end of a line ([None]). *)
Definition startField (p : Parser) (c : option ascii) : result PyErr Parser :=
  match c with
  | None => Ok (saveField StartRecord p)
  | Some a =>
      if isNewline a then Ok (saveField EatCrnl p)
      else if Ascii.eqb a QUOTE then Ok (setState InQuotedField p)
      else if Ascii.eqb a COMMA then Ok (saveField StartField p)
      else addChar InField a p
  end.

Definition parseChar (p : Parser) (c : option ascii) : result PyErr Parser :=
  match pstate p, c with
  | StartRecord, None => Ok p
  | StartRecord, Some a => if isNewline a then Ok (setState EatCrnl p) else startField p c
  | StartField, _ => startField p c
  | InField, None => Ok (saveField StartRecord p)
  | InField, Some a =>
      if isNewline a then Ok (saveField EatCrnl p)
      else if Ascii.eqb a COMMA then Ok (saveField StartField p)
      else addChar InField a p
  | InQuotedField, None => Ok p
  | InQuotedField, Some a =>
      if Ascii.eqb a QUOTE then Ok (setState QuoteInQuotedField p) else addChar InQuotedField a p
  | QuoteInQuotedField, None => Ok (saveField StartRecord p)
  | QuoteInQuotedField, Some a =>
      if Ascii.eqb a QUOTE then addChar InQuotedField a p
      else if Ascii.eqb a COMMA then Ok (saveField StartField p)
      else if isNewline a then Ok (saveField EatCrnl p)
      else addChar InField a p
  | EatCrnl, None => Ok (setState StartRecord p)
  | EatCrnl, Some a => if isNewline a then Ok p else Err CsvError
  end.

Fixpoint parseLine (p : Parser) (line : text) : result PyErr Parser :=
  match line with
  | [] => parseChar p None
  | c :: line' => (p' <-? parseChar p (Some c) ;; parseLine p' line')%result
  end.

(** The lines of a file opened with [newline=""]: LF, CR and CR LF end a line
    and stay part of it. *)
Fixpoint fileLines (t : text) : list text :=
  match t with
  | [] => []
  | c :: t' =>
      if Ascii.eqb c LF then [c] :: fileLines t'
      else if Ascii.eqb c CR then
        match t' with
        | c' :: t'' => if Ascii.eqb c' LF then [c; c'] :: fileLines t'' else [c] :: fileLines t'
        | [] => [[c]]
        end
      else match fileLines t' with
           | [] => [[c]]
           | l :: ls => (c :: l) :: ls
           end
  end.

(** The records of the lines that follow; at the end of the file an open field
    is still a record. *)
Fixpoint readRecords (p : Parser) (lines : list text) : result PyErr (list (list text)) :=
  match lines with
  | [] => if bool_decide (field p <> [] \/ pstate p = InQuotedField) then Ok [fields p ++ [field p]] else Ok []
  | l :: ls =>
      (p' <-? parseLine p l ;;
       if bool_decide (pstate p' = StartRecord)
       then rest <-? readRecords newParser ls ;; Ok (fields p' :: rest)
       else readRecords p' ls)%result
  end.

Definition reader (t : text) : result PyErr (list (list text)) := readRecords newParser (fileLines t).

(** [dict(zip(fieldnames, row))], with [None] for missing fields; the fields
    beyond the names, which [DictReader] keeps under the key [None], are left
    out. *)
Fixpoint dictRow (names row : list text) (acc : gmap string (option string)) : gmap string (option string) :=
  match names, row with
  | [], _ => acc
  | n :: names', f :: row' => dictRow names' row' (<[str n := Some (str f)]> acc)
  | n :: names', [] => dictRow names' [] (<[str n := None]> acc)
  end.

(** Empty records are skipped, except as the header. *)
Definition DictReader (t : text) : result PyErr (list (gmap string (option string))) :=
  (rs <-? reader t ;;
   match rs with
   | [] => Ok []
   | names :: rows => Ok ((fun row => dictRow names row ∅) <$> filter (fun row => row <> []) rows)
   end)%result.

(** ** The reader as one scan of the text *)

Definition endsLine (c : ascii) (t : text) : bool :=
  Ascii.eqb c LF || (Ascii.eqb c CR && match t with c' :: _ => negb (Ascii.eqb c' LF) | [] => true end).

(** [readRecords] without the split into lines, for texts whose last line ends. *)
Fixpoint scan (p : Parser) (t : text) : result PyErr (list (list text)) :=
  match t with
  | [] => readRecords p []
  | c :: t' =>
      (p1 <-? parseChar p (Some c) ;;
       if endsLine c t' then
         p2 <-? parseChar p1 None ;;
         if bool_decide (pstate p2 = StartRecord)
         then rest <-? scan newParser t' ;; Ok (fields p2 :: rest)
         else scan p2 t'
       else scan p1 t')%result
  end.

Definition terminated (t : text) : Prop := t = [] \/ last t = Some LF.

Lemma terminated_tail c t : terminated (c :: t) -> terminated t.
Proof. intros [?|H]; [done|]. destruct t; [by left|by right]. Qed.

Lemma fileLines_nil t : fileLines t = [] -> t = [].
Proof.
  destruct t as [|c t]; simpl; [done|]. repeat case_match; done.
Qed.

Lemma readRecords_cons p c l ls :
  readRecords p ((c :: l) :: ls) = (p' <-? parseChar p (Some c) ;; readRecords p' (l :: ls))%result.
Proof. simpl. by destruct (parseChar p (Some c)). Qed.

Lemma reader_scan n : forall t p, (length t <= n)%nat -> terminated t -> readRecords p (fileLines t) = scan p t.
Proof.
  induction n as [|n IH]; intros [|c t] p Hn Ht; simpl in Hn; try lia; [done..|].
  pose proof (terminated_tail _ _ Ht) as Ht'.
  cbn [fileLines scan]. unfold endsLine. destruct (Ascii.eqb_spec c LF) as [->|HLF].
  { cbn [orb]. rewrite readRecords_cons. destruct (parseChar p (Some LF)) as [p1|e]; [|done]. cbn [rbind readRecords parseLine].
    destruct (parseChar p1 None) as [p2|e]; [|done]. cbn [rbind]. by rewrite !IH by (done || lia). }
  destruct (Ascii.eqb_spec c CR) as [->|HCR]; cbn [orb andb].
  - destruct t as [|c' t]; [by destruct Ht|]. destruct (Ascii.eqb_spec c' LF) as [->|HLF']; cbn [negb].
    + rewrite readRecords_cons. destruct (parseChar p (Some CR)) as [p1|e]; [|done]. cbn [rbind].
      rewrite <- IH by (done || lia). done.
    + rewrite readRecords_cons. destruct (parseChar p (Some CR)) as [p1|e]; [|done]. cbn [rbind readRecords parseLine].
      destruct (parseChar p1 None) as [p2|e]; [|done]. cbn [rbind]. by rewrite !IH by (done || lia).
  - destruct (fileLines t) as [|l ls] eqn:E.
    + apply fileLines_nil in E as ->. destruct Ht as [?|Ht]; [done|]. by injection Ht as ->.
    + rewrite readRecords_cons. destruct (parseChar p (Some c)) as [p1|e]; [|done]. cbn [rbind]. specialize (IH t p1). rewrite E in IH. apply IH; [lia|done].
Qed.

(** ** Scanning what was written *)

Definition fits (f : text) : Prop := nchars f <= FIELD_LIMIT.

Lemma nchars_app t u : nchars (t ++ u) = nchars t + nchars u.
Proof. induction t as [|c t IH]; simpl; [done|]. fold (nchars (t ++ u)) (nchars t). rewrite IH. case_if; lia. Qed.

Lemma nchars_nonneg t : 0 <= nchars t.
Proof. induction t as [|c t IH]; simpl; [done|]. fold (nchars t). case_if; lia. Qed.

Lemma addChar_fits st c p f : fits (field p ++ c :: f) -> addChar st c p = Ok (mkParser st (field p ++ [c]) (fields p)).
Proof.
  intros H. unfold addChar, fits in *. rewrite cons_middle, app_assoc, nchars_app in H.
  pose proof (nchars_nonneg f). destruct (Z.ltb_spec FIELD_LIMIT (nchars (field p ++ [c]))); [lia|done].
Qed.

Lemma endsLine_plain c t : isNewline c = false -> endsLine c t = false.
Proof. unfold isNewline, endsLine. intros [-> ->]%orb_false_iff. done. Qed.

Definition plainField (f : text) : Prop := existsb special f = false.

Lemma special_false c : special c = false -> isNewline c = false /\ Ascii.eqb c COMMA = false /\ Ascii.eqb c QUOTE = false.
Proof. unfold special. intros [[? ?]%orb_false_iff ?]%orb_false_iff. done. Qed.

(** Characters of an unquoted field. *)
Lemma scan_plain f : forall g acc t, plainField f -> fits (g ++ f) ->
  scan (mkParser InField g acc) (f ++ t) = scan (mkParser InField (g ++ f) acc) t.
Proof.
  induction f as [|c f IH]; intros g acc t Hf Hfit; [by rewrite app_nil_r|].
  apply orb_false_iff in Hf as [(Hn & Hc & _)%special_false Hf]. cbn [app scan parseChar pstate].
  rewrite Hn, Hc, (addChar_fits _ _ _ f) by done. cbn [rbind fields field].
  rewrite endsLine_plain, IH by (done || by rewrite <- app_assoc). by rewrite <- app_assoc.
Qed.

(** Characters of a quoted field, up to the closing quote: line ends inside
    do not end the record. *)
Lemma scan_quoted f : forall g acc t, fits (g ++ f) ->
  scan (mkParser InQuotedField g acc) (doubled f ++ t) = scan (mkParser InQuotedField (g ++ f) acc) t.
Proof.
  induction f as [|c f IH]; intros g acc t Hfit; [by rewrite app_nil_r|].
  assert (fits ((g ++ [c]) ++ f)) as Hfit' by by rewrite <- app_assoc.
  cbn [doubled]. destruct (Ascii.eqb_spec c QUOTE) as [->|Hc]; cbn [app scan parseChar pstate].
  - change (Ascii.eqb QUOTE QUOTE) with true. cbn [rbind setState field fields].
    rewrite (endsLine_plain QUOTE) by done. unfold setState. cbn [app scan parseChar pstate field fields].
    change (Ascii.eqb QUOTE QUOTE) with true. cbv iota. rewrite (addChar_fits _ _ _ f) by done. cbn [rbind field fields].
    rewrite (endsLine_plain QUOTE), IH by done. by rewrite <- app_assoc.
  - rewrite (proj2 (Ascii.eqb_neq c QUOTE) Hc), (addChar_fits _ _ _ f) by done. cbn [rbind fields field parseChar pstate].
    change (bool_decide (InQuotedField = StartRecord)) with false. cbv iota.
    assert (forall A (b : bool) (x : A), (if b then x else x) = x) as -> by by intros ? [].
    rewrite IH by done. by rewrite <- app_assoc.
Qed.

(** A field, from the state before it to one of the states after its last
    character; [q] is the written form. *)
Definition written (f q : text) : Prop := q = quoteField f \/ (f = [] /\ q = [QUOTE; QUOTE]).

Lemma scan_written f q st acc t :
  st = StartRecord \/ st = StartField -> written f q -> fits f -> q <> [] ->
  exists st', (st' = InField \/ st' = QuoteInQuotedField) /\
    scan (mkParser st [] acc) (q ++ t) = scan (mkParser st' f acc) t.
Proof.
  intros Hst Hq Hf Hne. assert (forall u, scan (mkParser st [] acc) (QUOTE :: u) = scan (mkParser InQuotedField [] acc) u) as Hopen.
  { intros u. cbn [scan]. rewrite endsLine_plain by done. by destruct Hst as [-> | ->]. }
  assert (forall u, scan (mkParser InQuotedField f acc) (QUOTE :: u) = scan (mkParser QuoteInQuotedField f acc) u) as Hclose.
  { intros u. cbn [scan]. by rewrite endsLine_plain by done. }
  destruct Hq as [->|[-> ->]]; [|exists QuoteInQuotedField; split; [by right|]; by rewrite <- app_comm_cons, Hopen, <- Hclose].
  unfold quoteField in *. destruct (existsb special f) eqn:E.
  - exists QuoteInQuotedField. split; [by right|].
    by rewrite <- app_comm_cons, Hopen, <- app_assoc, scan_quoted, app_nil_l, <- Hclose.
  - destruct f as [|c f]; [done|]. exists InField. split; [by left|].
    pose proof E as E'. apply orb_false_iff in E' as [(Hn & Hc & Hq)%special_false Hpl].
    rewrite <- app_comm_cons. cbn [scan].
    assert (parseChar (mkParser st [] acc) (Some c) = addChar InField c (mkParser st [] acc)) as ->.
    { unfold parseChar, startField. cbn [pstate]. rewrite Hn, Hq, Hc. by destruct Hst as [-> | ->]. }
    rewrite (addChar_fits _ _ _ f) by done. cbn [rbind fields field app]. rewrite endsLine_plain by done. by apply scan_plain.
Qed.

Lemma scan_comma f st acc t :
  st = StartRecord \/ st = StartField -> fits f ->
  scan (mkParser st [] acc) (quoteField f ++ COMMA :: t) = scan (mkParser StartField [] (acc ++ [f])) t.
Proof.
  intros Hst Hf. destruct (decide (quoteField f = [])) as [Hnil|Hne].
  - rewrite Hnil. assert (f = []) as ->. { unfold quoteField in Hnil. by destruct (existsb special f). }
    cbn [app scan]. rewrite endsLine_plain by done. by destruct Hst as [-> | ->].
  - destruct (scan_written f _ st acc (COMMA :: t) Hst (or_introl eq_refl) Hf Hne) as (st' & Hst' & ->).
    cbn [scan]. rewrite endsLine_plain by done. by destruct Hst' as [-> | ->].
Qed.

Lemma scan_crlf st f acc t :
  (st = StartField /\ f = []) \/ st = InField \/ st = QuoteInQuotedField ->
  scan (mkParser st f acc) (CR :: LF :: t) = (rest <-? scan newParser t ;; Ok ((acc ++ [f]) :: rest))%result.
Proof.
  intros H. assert (parseChar (mkParser st f acc) (Some CR) = Ok (mkParser EatCrnl [] (acc ++ [f]))) as Hc.
  { by destruct H as [[-> ->]|[-> | ->]]. }
  cbn [scan]. by rewrite Hc.
Qed.

(** The last field of a record. *)
Lemma scan_last f q st acc t :
  st = StartField \/ (st = StartRecord /\ q <> []) -> written f q -> fits f ->
  scan (mkParser st [] acc) (q ++ CR :: LF :: t) = (rest <-? scan newParser t ;; Ok ((acc ++ [f]) :: rest))%result.
Proof.
  intros Hst Hq Hf. destruct (decide (q = [])) as [->|Hne].
  - destruct Hst as [->|[_ ?]]; [|done]. destruct Hq as [Hq|[_ ?]]; [|done].
    assert (f = []) as ->. { unfold quoteField in Hq. by destruct (existsb special f). }
    apply scan_crlf. by left.
  - destruct (scan_written f q st acc (CR :: LF :: t)) as (st' & Hst' & ->); [naive_solver|done..|].
    apply scan_crlf. by right.
Qed.

Lemma scan_fields fs : forall st acc t,
  fs <> [] -> Forall fits fs -> st = StartField \/ (st = StartRecord /\ fs <> [[]]) ->
  scan (mkParser st [] acc) (joinFields fs ++ CR :: LF :: t) = (rest <-? scan newParser t ;; Ok ((acc ++ fs) :: rest))%result.
Proof.
  induction fs as [|f fs IH]; intros st acc t Hne Hf Hst; [done|]. apply Forall_cons in Hf as [Hf Hfs].
  destruct fs as [|f' fs].
  - apply (scan_last f (quoteField f)); [|by left|done]. destruct Hst as [->|[-> Hst]]; [by left|right].
    split; [done|]. intros Hq. apply Hst. unfold quoteField in Hq. by destruct (existsb special f); subst.
  - cbn [joinFields]. fold (joinFields (f' :: fs)). rewrite <- app_assoc, <- app_comm_cons, scan_comma by naive_solver.
    rewrite IH by (done || by left). by rewrite <- app_assoc.
Qed.

Lemma scan_record fs t :
  fs <> [] -> Forall fits fs ->
  scan newParser (writeRecord fs ++ t) = (rest <-? scan newParser t ;; Ok (fs :: rest))%result.
Proof.
  intros Hne Hf. unfold writeRecord. destruct (decide (fs = [[]])) as [->|Hne'].
  - change ([QUOTE; QUOTE] ++ [CR; LF]) with ([QUOTE; QUOTE] ++ CR :: LF :: []). rewrite <- app_assoc.
    apply (scan_last [] [QUOTE; QUOTE]); [by right|by right|]. by apply Forall_cons in Hf as [? _].
  - destruct fs as [|[|c f] [|f' fs]]; [done|done|..]; rewrite <- app_assoc; (apply scan_fields; [done|done|by right]).
Qed.

(** What was written is read back: any number of records, any field contents
    (commas, quotes and line breaks included). *)
Lemma reader_writeRecords rs :
  Forall (fun fs => fs <> [] /\ Forall fits fs) rs -> reader (writeRecords rs) = Ok rs.
Proof.
  intros Hrs. unfold reader. rewrite (reader_scan (length (writeRecords rs))); [|done|].
  - induction Hrs as [|fs rs [Hne Hf] _ IH]; [done|]. change (writeRecords (fs :: rs)) with (writeRecord fs ++ writeRecords rs).
    by rewrite scan_record, IH.
  - clear Hrs. induction rs as [|fs rs IH]; [by left|right]. change (writeRecords (fs :: rs)) with (writeRecord fs ++ writeRecords rs).
    destruct IH as [->|IH]; [|by rewrite last_app, IH]. unfold writeRecord. rewrite app_nil_r.
    by rewrite last_app.
Qed.

(** ** Dictionaries *)

Lemma dictRow_lookup (g : string -> text) names acc k :
  NoDup names ->
  dictRow (chars <$> names) (g <$> names) acc !! k =
  if bool_decide (k ∈ names) then Some (Some (str (g k))) else acc !! k.
Proof.
  revert acc. induction names as [|n names IH]; intros acc Hnd; [done|]. apply NoDup_cons in Hnd as [Hn Hnd].
  cbn [fmap list_fmap dictRow]. rewrite IH, str_chars by done. destruct (decide (k = n)) as [->|Hk].
  - rewrite bool_decide_eq_false_2, bool_decide_eq_true_2 by set_solver. apply lookup_insert_eq.
  - rewrite lookup_insert_ne by done. by rewrite (bool_decide_ext (k ∈ n :: names) (k ∈ names)) by set_solver.
Qed.

Lemma filter_all {A} (P : A -> Prop) `{!forall x, Decision (P x)} l : Forall P l -> filter P l = l.
Proof. induction 1 as [|x l Hx _ IH]; [done|]. by rewrite filter_cons_True, IH. Qed.

Section RoundTrip.
Context {V : Type} (cell : V -> text) (fieldnames : list string).
Hypothesis Hnames : NoDup fieldnames.
Hypothesis Hsome : fieldnames <> [].
Hypothesis Hfit : Forall (fun n => fits (chars n)) fieldnames.

Definition cellText (row : gmap string V) (name : string) : text :=
  match row !! name with Some v => cell v | None => [] end.

(** A row [DictWriter] accepts and [DictReader] can read back. *)
Definition writable (row : gmap string V) : Prop :=
  map_Forall (fun k v => k ∈ fieldnames /\ fits (cell v)) row.

(** Every row that is written is read back with the text of each of its
    cells, and an empty one where it had no entry. *)
Lemma DictReader_writeFile rows : Forall writable rows ->
  exists t ds, writeFile cell fieldnames rows = Ok t /\ DictReader t = Ok ds /\
    Forall2 (fun row d => forall k, d !! k =
      if bool_decide (k ∈ fieldnames) then Some (Some (str (cellText row k))) else None) rows ds.
Proof.
  intros Hrows. assert (dictsToLists cell fieldnames rows = Ok ((fun row => cellText row <$> fieldnames) <$> rows)) as Hd.
  { induction Hrows as [|row rows Hrow _ IH]; [done|]. cbn [dictsToLists]. unfold dictToList.
    rewrite bool_decide_eq_true_2 by (by apply (map_Forall_impl _ _ _ Hrow); intros ? ? [? _]). cbn [rbind].
    by rewrite IH. }
  exists (writeRecords ((chars <$> fieldnames) :: ((fun row => cellText row <$> fieldnames) <$> rows))).
  exists ((fun row => dictRow (chars <$> fieldnames) (cellText row <$> fieldnames) ∅) <$> rows).
  split; [|split].
  - unfold writeFile. by rewrite Hd.
  - unfold DictReader. rewrite reader_writeRecords.
    + cbn [rbind]. rewrite filter_all, <- list_fmap_compose; [done|]. apply Forall_fmap, Forall_true.
      intros row. unfold compose. by destruct fieldnames.
    + constructor; [split; [by destruct fieldnames|by apply Forall_fmap]|]. apply Forall_fmap.
      eapply Forall_impl; [exact Hrows|]. intros row Hrow. split; [by destruct fieldnames|]. apply Forall_fmap, Forall_true.
      intros name. unfold compose, cellText. destruct (row !! name) as [v|] eqn:E; [by apply (Hrow name v)|done].
  - apply Forall2_fmap_r, Forall_Forall2_diag, Forall_true. intros row k. by rewrite dictRow_lookup.
Qed.
End RoundTrip.

(** A field with every special character. *)
Example csv_ex :
  let r := [[chars "a,b"; [QUOTE]; [CR; LF]]; [[]]; [[]; chars "x"]] in reader (writeRecords r) = Ok r.
Proof. by vm_compute. Qed.

(** ** When reading fails

    Only a field beyond the size limit makes the reader raise: the lines of a
    file have no character after their end. *)

Fixpoint oneLine (l : text) : bool :=
  match l with [] => true | c :: l' => if isNewline c then forallb isNewline l' else oneLine l' end.

Lemma fileLines_concat t : mjoin (fileLines t) = t.
Proof.
  remember (length t) as n eqn:Hn. assert (length t <= n)%nat as Hle by lia. clear Hn. revert t Hle.
  induction n as [|n IH]; intros [|c t] Hn; cbn in Hn; try lia; [done..|]. cbn [fileLines].
  destruct (Ascii.eqb c LF); [cbn; by rewrite IH by lia|]. destruct (Ascii.eqb c CR).
  - destruct t as [|c' t]; [done|]. cbn in Hn. destruct (Ascii.eqb c' LF); cbn [mjoin list_join app]; by rewrite IH by (cbn; lia).
  - specialize (IH t ltac:(lia)). destruct (fileLines t); cbn in *; by rewrite IH.
Qed.

Lemma fileLines_oneLine t : Forall (fun l => oneLine l = true /\ l <> []) (fileLines t).
Proof.
  remember (length t) as n eqn:Hn. assert (length t <= n)%nat as Hle by lia. clear Hn. revert t Hle.
  induction n as [|n IH]; intros [|c t] Hn; cbn in Hn; try lia; [constructor..|]. cbn [fileLines].
  destruct (Ascii.eqb_spec c LF) as [->|HLF]; [constructor; [done|apply IH; lia]|].
  destruct (Ascii.eqb_spec c CR) as [->|HCR].
  - destruct t as [|c' t]; [by repeat constructor|]. cbn in Hn. destruct (Ascii.eqb_spec c' LF) as [->|].
    + constructor; [done|apply IH; lia].
    + constructor; [done|apply IH; cbn; lia].
  - specialize (IH t ltac:(lia)). assert (isNewline c = false) as Hc.
    { unfold isNewline. by rewrite (proj2 (Ascii.eqb_neq c CR)), (proj2 (Ascii.eqb_neq c LF)). }
    destruct (fileLines t) as [|l ls]; [constructor; [|constructor]|apply Forall_cons in IH as [[Hl _] IH]; constructor; [|done]];
      cbn; by rewrite Hc.
Qed.

Lemma nchars_single c : 0 <= nchars [c] <= 1.
Proof. cbn. case_if; lia. Qed.

(** One character: the field grows by it at most; only the limit raises. *)
Lemma parseChar_bound p c : (pstate p = EatCrnl -> isNewline c = true) ->
  match parseChar p (Some c) with
  | Ok p' => nchars (field p') <= nchars (field p) + nchars [c] /\ (pstate p' = EatCrnl -> isNewline c = true)
  | Err e => e = CsvError /\ FIELD_LIMIT < nchars (field p) + nchars [c]
  end.
Proof.
  intros Hp. pose proof (nchars_nonneg (field p)) as H0. pose proof (nchars_single c) as Hc.
  assert (forall st, st <> EatCrnl -> match addChar st c p with
    | Ok p' => nchars (field p') <= nchars (field p) + nchars [c] /\ (pstate p' = EatCrnl -> isNewline c = true)
    | Err e => e = CsvError /\ FIELD_LIMIT < nchars (field p) + nchars [c] end) as Hadd.
  { intros st Hst. unfold addChar. rewrite nchars_app. case_if; breflect; [by split|]. cbn. by rewrite nchars_app. }
  unfold parseChar, startField, saveField, setState. destruct (pstate p) eqn:Es;
    repeat case_if; cbn [field pstate]; try apply Hadd; try done; try (split; [change (nchars []) with 0; lia|done]).
  all: specialize (Hp eq_refl); congruence.
Qed.

Lemma parseLine_bound l : forall p, oneLine l = true -> (pstate p = EatCrnl -> forallb isNewline l = true) ->
  match parseLine p l with
  | Ok p' => nchars (field p') <= nchars (field p) + nchars l /\ pstate p' <> EatCrnl
  | Err e => e = CsvError /\ FIELD_LIMIT < nchars (field p) + nchars l
  end.
Proof.
  induction l as [|c l IH]; intros p Hl Hp; cbn [parseLine].
  { pose proof (nchars_nonneg (field p)). unfold parseChar, startField, saveField, setState. change (nchars []) with 0.
    destruct (pstate p) eqn:Es; cbn [field pstate]; (split; [change (nchars []) with 0; lia|congruence]). }
  assert (nchars (c :: l) = nchars [c] + nchars l) as -> by apply (nchars_app [c] l). pose proof (nchars_nonneg l) as Hn.
  pose proof (parseChar_bound p c) as Hb. destruct (parseChar p (Some c)) as [p1|e]; cbn [rbind].
  - destruct Hb as [Hf Hs]; [intros E; specialize (Hp E); by apply andb_true_iff in Hp as [-> _]|].
    assert (isNewline c = true -> forallb isNewline l = true) as Hnl by (intros E; cbn in Hl; by rewrite E in Hl).
    specialize (IH p1). destruct (parseLine p1 l) as [p2|e].
    + destruct IH as [H1 H2]; [|auto|split; [lia|done]]. cbn in Hl. destruct (isNewline c) eqn:E; [|done].
      clear -Hl. destruct l as [|d l]; [done|]. cbn in *. apply andb_true_iff in Hl as [-> Hl]. done.
    + destruct IH as [H1 H2]; [|auto|split; [done|lia]]. cbn in Hl. destruct (isNewline c) eqn:E; [|done].
      clear -Hl. destruct l as [|d l]; [done|]. cbn in *. apply andb_true_iff in Hl as [-> Hl]. done.
  - destruct Hb as [-> Hb]; [intros E; specialize (Hp E); by apply andb_true_iff in Hp as [-> _]|]. split; [done|lia].
Qed.

Lemma readRecords_bound ls : forall p, Forall (fun l => oneLine l = true /\ l <> []) ls -> pstate p <> EatCrnl ->
  match readRecords p ls with
  | Ok rs => (length rs <= S (length ls))%nat
  | Err e => e = CsvError /\ FIELD_LIMIT < nchars (field p) + nchars (mjoin ls)
  end.
Proof.
  induction ls as [|l ls IH]; intros p Hall Hp; cbn [readRecords].
  { case_bool_decide; cbn; lia. }
  apply Forall_cons in Hall as [[Hl _] Hall]. change (mjoin (l :: ls)) with (l ++ mjoin ls). rewrite nchars_app.
  pose proof (parseLine_bound l p Hl) as Hb. pose proof (nchars_nonneg (mjoin ls)) as Hn. pose proof (nchars_nonneg (field p)) as Hf.
  pose proof (nchars_nonneg l) as Hnl. destruct (parseLine p l) as [p1|e]; cbn [rbind].
  - destruct Hb as [H1 H2]; [by intros ?|]. case_bool_decide.
    + specialize (IH newParser Hall ltac:(done)). destruct (readRecords newParser ls) as [rs|e]; cbn [rbind length] in *; [lia|].
      destruct IH as [-> IH]. change (nchars (field newParser)) with 0 in *. split; [done|lia].
    + specialize (IH p1 Hall H2). destruct (readRecords p1 ls) as [rs|e]; cbn [length] in *; [lia|].
      destruct IH as [-> IH]. split; [done|lia].
  - destruct Hb as [-> Hb]; [by intros ?|]. split; [done|lia].
Qed.

Lemma length_fileLines t : (length (fileLines t) <= length t)%nat.
Proof.
  rewrite <- (fileLines_concat t) at 2. pose proof (fileLines_oneLine t) as H. induction H as [|l ls [_ Hne] _ IH]; [done|].
  change (mjoin (l :: ls)) with (l ++ mjoin ls). rewrite length_app. destruct l; [done|]. cbn [length]. lia.
Qed.

(** Reading a file raises only for a text of more characters than a field may
    have, and yields at most as many rows as the text has characters. *)
Lemma DictReader_bound t :
  match DictReader t with
  | Ok ds => (length ds <= length t)%nat
  | Err e => e = CsvError /\ FIELD_LIMIT < nchars t
  end.
Proof.
  unfold DictReader, reader. pose proof (readRecords_bound (fileLines t) newParser (fileLines_oneLine t) ltac:(done)) as Hb.
  pose proof (length_fileLines t). rewrite fileLines_concat in Hb. destruct (readRecords newParser (fileLines t)) as [[|names rows]|e]; cbn [rbind].
  - cbn. lia.
  - rewrite length_fmap. pose proof (length_filter (fun row : list text => row <> []) rows). cbn in Hb. lia.
  - by destruct Hb.
Qed.
