(* ===== verification/PyWorld.v ===== *)
(** * The world of the measurement scripts

    The scripts talk to nodes over HTTP ([requests]), read clocks, sleep, draw
    identifiers and call the AWS command line.  None of that code is part of
    the repository: it is an interface, [World], whose operations may change an
    abstract state [W] in any way.  What the scripts rely on is stated apart:
    [Requests] is what the documentation of [requests] says about exceptions,
    [Clock] and [WallClock] what that of Python's [time] module promises.
    [Recorded] worlds keep a record of what a script did and got, in which the
    theorems about a script say what it asked and whom.  A script is a program in
    the state monad [M], whose outcomes are a value, an exception that leaves the
    function, or the end of the fuel of a polling loop. *)

From Stdlib Require Import Lqa.
From S2P Require Import Prelude PyStr PyFloat.
#[local] Open Scope Z_scope.

(** ** JSON *)

Inductive Json :=
| JNull | JBool (b : bool) | JInt (z : Z) | JFloat (f : float) | JStr (s : string)
| JList (l : list Json) | JObj (fields : list (string * Json)).

(** [d.get(k)] *)
Fixpoint assoc (k : string) (fields : list (string * Json)) : option Json :=
  match fields with
  | [] => None
  | (k', v) :: rest => if bool_decide (k = k') then Some v else assoc k rest
  end.

(** Python's truth value of a decoded JSON value. *)
Definition truthy (j : Json) : bool :=
  match j with
  | JNull => false
  | JBool b => b
  | JInt z => negb (z =? 0)
  | JFloat f => negb (feqb f (Fin 0))
  | JStr s => negb (bool_decide (s = ""))
  | JList l => negb (bool_decide (length l = 0%nat))
  | JObj fs => negb (bool_decide (length fs = 0%nat))
  end.

(** [j == s] for a string [s] *)
Definition eqStr (j : option Json) (s : string) : bool :=
  match j with Some (JStr t) => bool_decide (t = s) | _ => false end.

(** ** The monad *)

Inductive outcome (A : Type) := Ret (a : A) | Raise (e : PyErr) | NoFuel.
Arguments Ret {A} a.
Arguments Raise {A} e.
Arguments NoFuel {A}.

Definition M (W A : Type) : Type := W -> W * outcome A.

Definition ret {W A} (a : A) : M W A := fun w => (w, Ret a).
Definition raise {W A} (e : PyErr) : M W A := fun w => (w, Raise e).
Definition bind {W A B} (m : M W A) (k : A -> M W B) : M W B :=
  fun w => match m w with
           | (w', Ret a) => k a w'
           | (w', Raise e) => (w', Raise e)
           | (w', NoFuel) => (w', NoFuel)
           end.

Declare Scope py_scope.
Delimit Scope py_scope with py.
Notation "'let*' x := m 'in' k" := (bind m (fun x => k))
  (at level 200, x name, m at level 200, k at level 200) : py_scope.
Notation "'let*' ' p := m 'in' k" := (bind m (fun p => k))
  (at level 200, p strict pattern, m at level 200, k at level 200) : py_scope.
Notation "m ;;; k" := (bind m (fun _ => k)) (at level 100, right associativity) : py_scope.

(** [for x in l: acc = body(acc, x)] *)
Fixpoint forM {W A S} (body : S -> A -> M W S) (acc : S) (l : list A) : M W S :=
  match l with
  | [] => ret acc
  | x :: l' => bind (body acc x) (fun acc' => forM body acc' l')
  end.

Definition liftR {W A} (r : result PyErr A) : M W A :=
  match r with Ok a => ret a | Err e => raise e end.

Lemma bind_Ret {W A B} (m : M W A) (k : A -> M W B) w w' b :
  bind m k w = (w', Ret b) <-> exists w1 a, m w = (w1, Ret a) /\ k a w1 = (w', Ret b).
Proof.
  unfold bind. destruct (m w) as [w1 [a|e|]] eqn:E; split.
  - eauto.
  - by intros (? & ? & [= -> ->] & ?).
  - done.
  - by intros (? & ? & ? & ?).
  - done.
  - by intros (? & ? & ? & ?).
Qed.

(** A loop keeps an invariant over what it has consumed. *)
Lemma forM_inv {W A S} (body : S -> A -> M W S) (I : W -> list A -> S -> Prop) acc l w w' acc' :
  I w [] acc ->
  (forall w1 w2 done x s s', I w1 done s -> body s x w1 = (w2, Ret s') -> I w2 (done ++ [x]) s') ->
  forM body acc l w = (w', Ret acc') -> I w' l acc'.
Proof.
  intros H0 Hstep. change l with ([] ++ l) at 2. revert H0. generalize (@nil A) as pre.
  revert acc w. induction l as [|x l IH]; intros acc w pre HI H; simpl in H.
  - injection H as -> ->. by rewrite app_nil_r.
  - apply bind_Ret in H as (w1 & s & Hb & H). rewrite cons_middle, app_assoc.
    eapply IH; [|exact H]. by eapply Hstep.
Qed.

(** ** The interface *)

Record HttpResp := mkHttpResp { http_status : Z; http_json : option Json }.

(** How [requests.request] fails: a [RequestException] with its message, or
    another exception. *)
Inductive ReqErr := RequestException (message : string) | OtherError (e : PyErr).

(** An answer to the read of a key that shows the value. *)
Definition showsValue (value : string) (a : result ReqErr HttpResp) : Prop :=
  exists fields, a = Ok (mkHttpResp 200 (Some (JObj fields))) /\ assoc "value" fields = Some (JStr value).

Class World (W : Type) := {
  (** [requests.request(method, url, timeout=, json=)]; the body of an answer is
      [None] when it is not JSON. *)
  request : string -> string -> float -> option Json -> W -> W * result ReqErr HttpResp;
  (** [time.perf_counter()] and [time.time()], in seconds *)
  perf_counter : W -> W * float;
  time_time : W -> W * float;
  (** [time.sleep(t)], for a [t] it accepts *)
  sleep : float -> W -> W;
  (** [uuid.uuid4().hex] *)
  uuid4_hex : W -> W * string;
  (** [random.choices(string.ascii_lowercase, k=n)], joined *)
  random_letters : nat -> W -> W * string;
  (** [subprocess.run(argv, capture_output=True).stdout]; [None] when the
      program cannot be started *)
  subprocess_run : list string -> W -> W * option string }.

(** A timeout that [requests] and the sockets under it can use: positive, and of
    less than a million seconds. *)
Definition usableTimeout (t : float) : Prop := exists q, t = Fin q /\ (0 < q)%Q /\ (q < 1000000)%Q.

(** The exceptions of [requests] inherit from [RequestException], as long as the
    timeout can be used. *)
Class Requests (W : Type) `{World W} := {
  request_exceptions m u t b w e : usableTimeout t -> (request m u t b w).2 <> Err (OtherError e) }.

(** What the clocks promise: [perf_counter] reads a time [now] that never goes
    back, and a sleep lasts at least as long as asked. *)
Class Clock (W : Type) `{World W} := {
  now : W -> Q;
  request_now m u t b w : (now w <= now (request m u t b w).1)%Q;
  perf_counter_now w : exists q, (perf_counter w).2 = Fin q /\ (now w <= q)%Q /\ (q <= now (perf_counter w).1)%Q;
  time_now w : (now w <= now (time_time w).1)%Q;
  sleep_now q w : (0 <= q)%Q -> (now w + q <= now (sleep (Fin q) w))%Q;
  random_now n w : (now w <= now (random_letters n w).1)%Q;
  subprocess_now argv w : (now w <= now (subprocess_run argv w).1)%Q }.

(** [time.time()] is the time since the epoch as the system clock has it.  That
    clock may be set, forward or back, at any moment: [skew] bounds how far it is
    off the time that passes. *)
Class WallClock (W : Type) `{Clock W} := {
  epoch : Q;
  skew : Q;
  skew_nonneg : (0 <= skew)%Q;
  time_skew w : exists q, (time_time w).2 = Fin q /\
    (now w - epoch - skew <= q)%Q /\ (q <= now (time_time w).1 - epoch + skew)%Q }.

(** [time.sleep] converts its argument to nanoseconds in 64 bits, and refuses a
    time that is not a number, does not fit, or is negative. *)
Definition sleepError (t : float) : option PyErr :=
  match t with
  | NaN => Some ValueError
  | Inf _ => Some OverflowError
  | Fin q => if flt (fmul t (Fin 1000000000)) (Fin (inject_Z (- 2 ^ 63))) || negb (flt (fmul t (Fin 1000000000)) (Fin (inject_Z (2 ^ 63))))
             then Some OverflowError
             else if flt t (Fin 0) then Some ValueError else None
  end.

(** The operations as programs. *)
Section Prims.
Context {W : Type} `{World W}.

Definition readPerf : M W float := fun w => let '(w', t) := perf_counter w in (w', Ret t).
Definition readTime : M W float := fun w => let '(w', t) := time_time w in (w', Ret t).
Definition doSleep (t : float) : M W unit :=
  fun w => match sleepError t with Some e => (w, Raise e) | None => (sleep t w, Ret tt) end.
Definition uuidHex : M W string := fun w => let '(w', s) := uuid4_hex w in (w', Ret s).
Definition doRequest (method url : string) (timeout : float) (json : option Json) : M W (result ReqErr HttpResp) :=
  fun w => let '(w', r) := request method url timeout json w in (w', Ret r).
Definition randomLetters (n : nat) : M W string := fun w => let '(w', s) := random_letters n w in (w', Ret s).
Definition runProcess (argv : list string) : M W string :=
  fun w => match subprocess_run argv w with (w', Some out) => (w', Ret out) | (w', None) => (w', Raise OSError) end.
End Prims.

(** ** The record of a script

    What a script did, and what it got for it. *)

Inductive IOEvent :=
| EvRequest (method url : string) (timeout : float) (json : option Json) (answer : result ReqErr HttpResp)
| EvPerf (t : float) | EvTime (t : float) | EvSleep (t : float)
| EvUuid (s : string) | EvLetters (n : nat) (s : string) | EvProcess (argv : list string) (out : option string).

(** A world that remembers, in order. *)
Class Recorded (W : Type) `{World W} := {
  record : W -> list IOEvent;
  request_record m u t b w : record (request m u t b w).1 = record w ++ [EvRequest m u t b (request m u t b w).2];
  perf_record w : record (perf_counter w).1 = record w ++ [EvPerf (perf_counter w).2];
  time_record w : record (time_time w).1 = record w ++ [EvTime (time_time w).2];
  sleep_record t w : record (sleep t w) = record w ++ [EvSleep t];
  uuid_record w : record (uuid4_hex w).1 = record w ++ [EvUuid (uuid4_hex w).2];
  letters_record n w : record (random_letters n w).1 = record w ++ [EvLetters n (random_letters n w).2];
  process_record argv w : record (subprocess_run argv w).1 = record w ++ [EvProcess argv (subprocess_run argv w).2] }.

(** Every world can be made to remember: the record is written beside it, and
    what a script gets from it is the same. *)
Record Rec (W : Type) := mkRec { inner : W; history : list IOEvent }.
Arguments mkRec {W} inner history.
Arguments inner {W} r.
Arguments history {W} r.

Definition recording {W A} (f : W -> W * A) (ev : A -> IOEvent) (w : Rec W) : Rec W * A :=
  let '(w', a) := f (inner w) in (mkRec w' (history w ++ [ev a]), a).

#[export] Instance recWorld {W} `{World W} : World (Rec W) := {|
  request := fun m u t b => recording (request m u t b) (EvRequest m u t b);
  perf_counter := recording perf_counter EvPerf;
  time_time := recording time_time EvTime;
  sleep := fun t w => mkRec (sleep t (inner w)) (history w ++ [EvSleep t]);
  uuid4_hex := recording uuid4_hex EvUuid;
  random_letters := fun n => recording (random_letters n) (EvLetters n);
  subprocess_run := fun argv => recording (subprocess_run argv) (EvProcess argv) |}.

Lemma recording_fst {W A} (f : W -> W * A) ev w :
  inner (recording f ev w).1 = (f (inner w)).1 /\ history (recording f ev w).1 = history w ++ [ev (f (inner w)).2] /\
  (recording f ev w).2 = (f (inner w)).2.
Proof. unfold recording. by destruct (f (inner w)). Qed.

#[export] Instance recRecorded {W} `{World W} : Recorded (Rec W).
Proof.
  refine {| record := fun w : Rec W => history w |}; intros; cbn;
    try match goal with |- context [recording ?f ?ev ?w] => destruct (recording_fst f ev w) as (_ & Hh & Ha); by rewrite Hh, Ha end.
  done.
Defined.

#[export] Instance recRequests {W} `{Requests W} : Requests (Rec W).
Proof.
  constructor; intros; cbn; match goal with |- context [recording ?f ?ev ?w] => destruct (recording_fst f ev w) as (_ & _ & ->) end.
  by apply request_exceptions.
Defined.

#[export] Instance recClock {W} `{Clock W} : Clock (Rec W).
Proof.
  refine {| now := fun w : Rec W => now (inner w) |}; intros; cbn;
    try match goal with |- context [recording ?f ?ev ?w] => destruct (recording_fst f ev w) as (Hi & _ & Ha); rewrite ?Hi, ?Ha end.
  - apply request_now.
  - apply perf_counter_now.
  - apply time_now.
  - by apply sleep_now.
  - apply random_now.
  - apply subprocess_now.
Defined.

#[export] Instance recWallClock {W} `{WallClock W} : WallClock (Rec W).
Proof.
  refine {| epoch := epoch; skew := skew |}; [exact skew_nonneg|]. intros w. cbn.
  destruct (recording_fst time_time EvTime w) as (-> & _ & ->). apply time_skew.
Defined.

(** ** Reasoning about programs

    [wpx R N m P w]: run from [w], the program ends with a value and a state in
    [P]; it may raise the exceptions of [R], and run out of fuel when [N] holds.
    [wp] forbids exceptions and leaves the fuel open; [ends] requires the fuel to
    suffice and leaves exceptions open. *)

Definition wpx {W A} (R : PyErr -> Prop) (N : Prop) (m : M W A) (P : A -> W -> Prop) (w : W) : Prop :=
  match m w with (w', Ret a) => P a w' | (_, Raise e) => R e | (_, NoFuel) => N end.

Abbreviation wp := (wpx (fun _ => False) True).
Abbreviation ends := (wpx (fun _ => True) False).

Section WP.
Context {W : Type} {R : PyErr -> Prop} {N : Prop}.

Lemma wp_ret {A} (a : A) (P : A -> W -> Prop) w : P a w -> wpx R N (ret a) P w.
Proof. done. Qed.

Lemma wp_raise {A} e (P : A -> W -> Prop) w : R e -> wpx R N (raise e) P w.
Proof. done. Qed.

Lemma wp_bind {A B} (m : M W A) (k : A -> M W B) P w :
  wpx R N m (fun a => wpx R N (k a) P) w -> wpx R N (bind m k) P w.
Proof. unfold wpx, bind. by destruct (m w) as [w' [a|e|]]. Qed.

Lemma wp_mono {A} (m : M W A) (P Q : A -> W -> Prop) w :
  wpx R N m P w -> (forall a w', P a w' -> Q a w') -> wpx R N m Q w.
Proof. unfold wpx. destruct (m w) as [w' [a|e|]]; eauto. Qed.

Lemma wp_liftR {A} (r : result PyErr A) (P : A -> W -> Prop) w a : r = Ok a -> P a w -> wpx R N (liftR r) P w.
Proof. by intros ->. Qed.

(** A result that may be an exception the program is allowed to raise. *)
Lemma wp_lift {A} (r : result PyErr A) (P : A -> W -> Prop) w :
  (forall e, r = Err e -> R e) -> (forall a, r = Ok a -> P a w) -> wpx R N (liftR r) P w.
Proof. destruct r; intros He Ha; [by apply Ha|by apply He]. Qed.

(** A loop with an invariant on the part of the list it has consumed. *)
Lemma wp_forM {A S} (body : S -> A -> M W S) (I : list A -> S -> W -> Prop) (P : S -> W -> Prop) acc l w :
  I [] acc w ->
  (forall pre x post s w, l = pre ++ x :: post -> I pre s w -> wpx R N (body s x) (fun s' => I (pre ++ [x]) s') w) ->
  (forall s w, I l s w -> P s w) ->
  wpx R N (forM body acc l) P w.
Proof.
  intros H0 Hstep HP.
  enough (forall suf pre acc w, l = pre ++ suf -> I pre acc w -> wpx R N (forM body acc suf) P w) as H by by apply (H l []).
  induction suf as [|x suf IH]; intros pre s w1 Hl HI; simpl.
  - apply HP. by rewrite Hl, app_nil_r.
  - apply wp_bind. eapply wp_mono; [by eapply Hstep|]. intros s' w2 HI'. eapply IH; [|exact HI'].
    by rewrite Hl, <- app_assoc.
Qed.
End WP.

(** The steps, when only their results matter. *)
Section Steps.
Context {W : Type} `{World W} {R : PyErr -> Prop} {N : Prop}.

Lemma wp_readPerf (P : float -> W -> Prop) w : (forall t w', P t w') -> wpx R N readPerf P w.
Proof. intros HP. unfold wpx, readPerf. destruct (perf_counter w). apply HP. Qed.
Lemma wp_doRequest m u t b (P : result ReqErr HttpResp -> W -> Prop) w :
  (forall r w', r = (request m u t b w).2 -> P r w') -> wpx R N (doRequest m u t b) P w.
Proof. intros HP. unfold wpx, doRequest. destruct (request m u t b w) as [w' r]. by apply HP. Qed.
Lemma wp_uuidHex (P : string -> W -> Prop) w : (forall s w', P s w') -> wpx R N uuidHex P w.
Proof. intros HP. unfold wpx, uuidHex. destruct (uuid4_hex w). apply HP. Qed.
Lemma wp_doSleep t (P : unit -> W -> Prop) w :
  (forall e, sleepError t = Some e -> R e) -> (forall w', P tt w') -> wpx R N (doSleep t) P w.
Proof. intros HR HP. unfold wpx, doSleep. destruct (sleepError t); [by apply HR|apply HP]. Qed.
End Steps.

(** ** Steps in a world that keeps time and remembers *)

Section Passed.
Context {W : Type} {HW : World W} {HC : Clock W} {HR : Recorded W} {R : PyErr -> Prop} {N : Prop}.

(** From [w] to [w'] the script did [evs], and time did not go back. *)
Definition passed (w : W) (evs : list IOEvent) (w' : W) : Prop := record w' = record w ++ evs /\ (now w <= now w')%Q.

Lemma passed_refl w : passed w [] w.
Proof. split; [by rewrite app_nil_r|apply Qle_refl]. Qed.

Lemma passed_trans w1 w2 w3 evs evs' : passed w1 evs w2 -> passed w2 evs' w3 -> passed w1 (evs ++ evs') w3.
Proof. intros [H1 T1] [H2 T2]. split; [by rewrite H2, H1, app_assoc|lra]. Qed.

Lemma rec_doRequest m u t b (P : result ReqErr HttpResp -> W -> Prop) w :
  (forall r w', r = (request m u t b w).2 -> passed w [EvRequest m u t b r] w' -> P r w') -> wpx R N (doRequest m u t b) P w.
Proof.
  intros HP. unfold wpx, doRequest. pose proof (request_record m u t b w) as Hr. pose proof (request_now m u t b w) as Hn.
  destruct (request m u t b w) as [w' r]. by apply HP.
Qed.

Lemma rec_readPerf (P : float -> W -> Prop) w :
  (forall q w', (perf_counter w).2 = Fin q -> passed w [EvPerf (Fin q)] w' -> (now w <= q)%Q -> (q <= now w')%Q -> P (Fin q) w') ->
  wpx R N readPerf P w.
Proof.
  intros HP. unfold wpx, readPerf. pose proof (perf_record w) as Hr. destruct (perf_counter_now w) as (q & Hq & Hl & Hu).
  destruct (perf_counter w) as [w' t]. cbn in *. subst t. apply HP; [done| |done|done]. split; [done|]. lra.
Qed.

Lemma rec_readTime (P : float -> W -> Prop) w : (forall t w', passed w [EvTime t] w' -> P t w') -> wpx R N readTime P w.
Proof.
  intros HP. unfold wpx, readTime. pose proof (time_record w) as Hr. pose proof (time_now w) as Hn.
  destruct (time_time w) as [w' t]. by apply HP.
Qed.

Lemma rec_readWall {HWC : WallClock W} (P : float -> W -> Prop) w :
  (forall q w', passed w [EvTime (Fin q)] w' -> (now w - epoch - skew <= q)%Q -> (q <= now w' - epoch + skew)%Q -> P (Fin q) w') ->
  wpx R N readTime P w.
Proof.
  intros HP. unfold wpx, readTime. pose proof (time_record w) as Hr. pose proof (time_now w) as Hn.
  destruct (time_skew w) as (q & Hq & Hl & Hu). destruct (time_time w) as [w' t]. cbn in *. subst t. by apply HP.
Qed.

Lemma rec_doSleep q (P : unit -> W -> Prop) w : sleepError (Fin q) = None -> (0 <= q)%Q ->
  (forall w', passed w [EvSleep (Fin q)] w' -> (now w + q <= now w')%Q -> P tt w') -> wpx R N (doSleep (Fin q)) P w.
Proof.
  intros He Hq HP. unfold wpx, doSleep. rewrite He. pose proof (sleep_now q w Hq). apply HP; [|done].
  split; [apply sleep_record|lra].
Qed.

Lemma rec_randomLetters n (P : string -> W -> Prop) w :
  (forall s w', passed w [EvLetters n s] w' -> P s w') -> wpx R N (randomLetters n) P w.
Proof.
  intros HP. unfold wpx, randomLetters. pose proof (letters_record n w) as Hr. pose proof (random_now n w) as Hn.
  destruct (random_letters n w) as [w' s]. by apply HP.
Qed.

Lemma rec_runProcess argv (P : string -> W -> Prop) w : R OSError ->
  (forall s w', passed w [EvProcess argv (Some s)] w' -> P s w') -> wpx R N (runProcess argv) P w.
Proof.
  intros HO HP. unfold wpx, runProcess. pose proof (process_record argv w) as Hr. pose proof (subprocess_now argv w) as Hn.
  destruct (subprocess_run argv w) as [w' [s|]]; [by apply HP|done].
Qed.
End Passed.

#[export] Hint Resolve wp_ret : pylib.

(** ** A simulated world

    The state is the time.  A request takes a hundredth of a second; a node
    answers reads with 404 for the first half second and then with the value
    ["v"]; every node says whether [up] lets it lead.  A timeout that is not
    positive is refused. *)

Definition simRequest (up : bool) (m u : string) (t : float) (b : option Json) (w : Q) : Q * result ReqErr HttpResp :=
  ((w + (1 # 100))%Q,
   if negb (flt (Fin 0) t) then Err (OtherError ValueError)
   else if up then
     if Qle_bool (1 # 2) w then Ok (mkHttpResp 200 (Some (JObj [("isLeader", JBool true); ("value", JStr "v")])))
     else Ok (mkHttpResp 404 None)
   else Err (RequestException "connection refused")).

#[export] Instance simWorld (up : bool) : World Q := {|
  request := simRequest up;
  perf_counter := fun w => (w, Fin w);
  time_time := fun w => (w, Fin w);
  sleep := fun t w => (w + valQ t)%Q;
  uuid4_hex := fun w => (w, "0123456789abcdef0123456789abcdef");
  random_letters := fun _ w => (w, "abcdefgh");
  subprocess_run := fun _ w => (w, Some "") |}.

#[export] Instance simRequests (up : bool) : @Requests Q (simWorld up).
Proof.
  constructor. intros m u t b w e (q & -> & Hq & _). cbn.
  destruct (Qle_bool q 0) eqn:E; [apply Qle_bool_iff in E; lra|]. cbn. destruct up; [|done]. by case_if.
Defined.

#[export] Instance simClock (up : bool) : @Clock Q (simWorld up).
Proof.
  refine {| now := fun w => w |}.
  - intros. simpl. lra.
  - intros w. exists w. simpl. split_and!; [done|lra|lra].
  - intros. apply Qle_refl.
  - intros q w Hq. simpl. lra.
  - intros. apply Qle_refl.
  - intros. apply Qle_refl.
Defined.
