(* ===== verification/PyConsole.v ===== *)
(** * Standard output of the scripts

    A script that prints runs in a world extended with the lines printed so far
    ([Term W]); the operations of the underlying world leave them alone.  Also
    here: [str] and [repr] of a decoded JSON value, as an f-string shows it.
    Characters beyond ASCII are taken to be printable. *)

From Stdlib Require Import Ascii.
From S2P Require Import Prelude PyStr PyFloat PyRepr PyWorld.
#[local] Open Scope Z_scope.

(** ** The terminal *)

Definition Term (W : Type) : Type := W * list string.

Definition beside {W A} (f : W -> W * A) (w : Term W) : Term W * A := let '(w', a) := f w.1 in ((w', w.2), a).

Lemma beside_fst {W A} (f : W -> W * A) w :
  (beside f w).1.1 = (f w.1).1 /\ (beside f w).1.2 = w.2 /\ (beside f w).2 = (f w.1).2.
Proof. unfold beside. by destruct (f w.1). Qed.

#[export] Instance termWorld {W} `{World W} : World (Term W) := {|
  request := fun m u t b => beside (request m u t b);
  perf_counter := beside perf_counter;
  time_time := beside time_time;
  sleep := fun t w => (sleep t w.1, w.2);
  uuid4_hex := beside uuid4_hex;
  random_letters := fun n => beside (random_letters n);
  subprocess_run := fun argv => beside (subprocess_run argv) |}.

(** What the underlying world promises still holds. *)
Ltac beside :=
  match goal with |- context [beside ?f ?w] => destruct (beside_fst f w) as (Hi & _ & Ha); rewrite ?Hi, ?Ha end.

#[export] Instance termClock {W} `{Clock W} : Clock (Term W).
Proof.
  refine {| now := fun w : Term W => now w.1 |}; intros; cbn; try beside.
  - apply request_now.
  - apply perf_counter_now.
  - apply time_now.
  - by apply sleep_now.
  - apply random_now.
  - apply subprocess_now.
Defined.

#[export] Instance termWallClock {W} `{WallClock W} : WallClock (Term W).
Proof. refine {| epoch := epoch; skew := skew |}; [exact skew_nonneg|]. intros w. cbn. beside. apply time_skew. Defined.

#[export] Instance termRecorded {W} `{Recorded W} : Recorded (Term W).
Proof.
  refine {| record := fun w : Term W => record w.1 |}; intros; cbn; try beside.
  - apply request_record.
  - apply perf_record.
  - apply time_record.
  - apply sleep_record.
  - apply uuid_record.
  - apply letters_record.
  - apply process_record.
Defined.

(** [print(line)] *)
Definition println {W} (line : string) : M (Term W) unit := fun w => ((w.1, w.2 ++ [line]), Ret tt).

Fixpoint printLines {W} (lines : list string) : M (Term W) unit :=
  match lines with [] => ret tt | l :: rest => bind (println l) (fun _ => printLines rest) end.

Lemma wp_println {W} R N line (P : unit -> Term W -> Prop) w : P tt (w.1, w.2 ++ [line]) -> wpx R N (println line) P w.
Proof. done. Qed.

Lemma wp_printLines {W} R N lines (P : unit -> Term W -> Prop) w : P tt (w.1, w.2 ++ lines) -> wpx R N (printLines lines) P w.
Proof.
  revert w. induction lines as [|l lines IH]; intros [w out] HP; cbn [printLines].
  - apply wp_ret. cbn in HP. by rewrite app_nil_r in HP.
  - apply wp_bind, wp_println, IH. cbn in *. by rewrite <- app_assoc.
Qed.

(** ** Programs that print nothing *)

(** Whatever the program does, the lines printed so far stay the same. *)
Definition silent {W A} (m : M (Term W) A) : Prop := forall w, (m w).1.2 = w.2.

Section Silent.
Context {W : Type} `{World W}.

Lemma silent_ret {A} (a : A) : silent (W := W) (ret a).
Proof. done. Qed.
Lemma silent_liftR {A} (r : result PyErr A) : silent (W := W) (liftR r).
Proof. by destruct r. Qed.
Lemma silent_bind {A B} (m : M (Term W) A) (k : A -> M (Term W) B) :
  silent m -> (forall a, silent (k a)) -> silent (bind m k).
Proof.
  intros Hm Hk w. unfold bind. specialize (Hm w). destruct (m w) as [w1 [a|e|]]; cbn in *; [|done..].
  by rewrite Hk.
Qed.
Lemma silent_forM {A S} (body : S -> A -> M (Term W) S) acc l :
  (forall s x, silent (body s x)) -> silent (forM body acc l).
Proof. intros Hb. revert acc. induction l as [|x l IH]; intros acc; cbn [forM]; [apply silent_ret|by apply silent_bind]. Qed.
Lemma silent_readPerf : silent (W := W) readPerf.
Proof. intros [w out]. unfold readPerf. cbn. unfold beside. by destruct (perf_counter _). Qed.
Lemma silent_readTime : silent (W := W) readTime.
Proof. intros [w out]. unfold readTime. cbn. unfold beside. by destruct (time_time _). Qed.
Lemma silent_doSleep t : silent (W := W) (doSleep t).
Proof. intros w. unfold doSleep. by destruct (sleepError t). Qed.
Lemma silent_doRequest m u t b : silent (W := W) (doRequest m u t b).
Proof. intros [w out]. unfold doRequest. cbn. unfold beside. by destruct (request m u t b _). Qed.
Lemma silent_randomLetters n : silent (W := W) (randomLetters n).
Proof. intros [w out]. unfold randomLetters. cbn. unfold beside. by destruct (random_letters n _). Qed.
Lemma silent_runProcess argv : silent (W := W) (runProcess argv).
Proof. intros [w out]. unfold runProcess. cbn. unfold beside. by destruct (subprocess_run argv _) as [? []]. Qed.
End Silent.

Create HintDb silent.
#[export] Hint Resolve silent_ret silent_liftR silent_readPerf silent_readTime silent_doSleep silent_doRequest silent_randomLetters
  silent_runProcess : silent.
#[export] Hint Extern 2 (silent (bind _ _)) => apply silent_bind; [|intros ?] : silent.
#[export] Hint Extern 2 (silent (forM _ _ _)) => apply silent_forM; intros ? ? : silent.

(** A silent step of a printing program keeps the output. *)
Lemma wp_silent {W A} R N (m : M (Term W) A) (P : A -> Term W -> Prop) w :
  silent m -> wpx R N m (fun a w' => w'.2 = w.2 -> P a w') w -> wpx R N m P w.
Proof. intros Hs. specialize (Hs w). unfold wpx. destruct (m w) as [w' [a|e|]]; cbn in *; auto. Qed.

(** A program only ever adds lines. *)
Definition grows {W A} (m : M (Term W) A) : Prop := forall w, w.2 `prefix_of` (m w).1.2.

Lemma silent_grows {W A} (m : M (Term W) A) : silent m -> grows m.
Proof. intros Hm w. by rewrite Hm. Qed.
Lemma grows_bind {W A B} (m : M (Term W) A) (k : A -> M (Term W) B) :
  grows m -> (forall a, grows (k a)) -> grows (bind m k).
Proof.
  intros Hm Hk w. unfold bind. specialize (Hm w). destruct (m w) as [w1 [a|e|]]; cbn in *; [|done..].
  by etrans; [|apply Hk].
Qed.
Lemma grows_println {W} line : grows (println (W := W) line).
Proof. intros w. by eexists. Qed.

#[export] Hint Extern 5 (grows (bind _ _)) => apply grows_bind; [|intros ?] : silent.
#[export] Hint Resolve grows_println : silent.
#[export] Hint Extern 6 (grows _) => apply silent_grows : silent.

Lemma wp_grows {W A} R N (m : M (Term W) A) (P : A -> Term W -> Prop) w :
  grows m -> wpx R N m (fun a w' => w.2 `prefix_of` w'.2 -> P a w') w -> wpx R N m P w.
Proof. intros Hs. specialize (Hs w). unfold wpx. destruct (m w) as [w' [a|e|]]; cbn in *; auto. Qed.

(** ** [str] and [repr] *)

Definition hexDigit (n : Z) : ascii := ascii_of_nat (Z.to_nat (if n <? 10 then 48 + n else 87 + n)).

(** A character inside the quotes [q]. *)
Definition escChar (q c : ascii) : text :=
  let n := byteZ c in
  if Ascii.eqb c q || Ascii.eqb c "\"%char then ["\"%char; c]
  else if n =? 9 then ["\"; "t"]%char
  else if n =? 10 then ["\"; "n"]%char
  else if n =? 13 then ["\"; "r"]%char
  else if (n <? 32) || (n =? 127) then ["\"; "x"]%char ++ [hexDigit (n / 16); hexDigit (n mod 16)]
  else [c].

Definition quote1 : ascii := ascii_of_nat 39.
Definition quote2 : ascii := ascii_of_nat 34.

(** [repr(s)]: double quotes only when the text has single ones and no double
    ones. *)
Definition repr_str (s : string) : string :=
  let t := chars s in
  let q := if existsb (Ascii.eqb quote1) t && negb (existsb (Ascii.eqb quote2) t) then quote2 else quote1 in
  str ([q] ++ (t ≫= escChar q) ++ [q]).

(** [repr(l)] of a list, from the [repr]s of its elements. *)
Definition repr_list (l : list string) : string := "[" +:+ join ", " l +:+ "]".

Fixpoint repr_json (j : Json) : string :=
  match j with
  | JNull => "None"
  | JBool b => if b then "True" else "False"
  | JInt z => pretty z
  | JFloat f => repr_float f
  | JStr s => repr_str s
  | JList l => repr_list (map repr_json l)
  | JObj fields => "{" +:+ join ", " (map (fun '(k, v) => repr_str k +:+ ": " +:+ repr_json v) fields) +:+ "}"
  end.

(** [str(j)], as in an f-string. *)
Definition str_json (j : Json) : string := match j with JStr s => s | _ => repr_json j end.

(** [d.get(k)] as an f-string shows it. *)
Definition str_opt (o : option Json) : string := match o with Some j => str_json j | None => "None" end.

Example repr_json_ex :
  repr_str "it's" = str (chars "" ++ [quote2] ++ chars "it's" ++ [quote2]) /\
  str_json (JObj [("a", JList [JInt 1; JStr "x"; JBool true; JNull])]) = "{'a': [1, 'x', True, None]}" /\
  str_json (JStr "Leader") = "Leader" /\
  repr_str (str [ascii_of_nat 1; ascii_of_nat 10; "a"; "\"]%char) = "'\x01\na\\'".
Proof. by vm_compute. Qed.
