(* ===== verification/GeoExperiment.v ===== *)
(** * The geo-distribution measurement

    [geo_distributed/experiment.py] (and its copy in [geo_colocated]): per
    round, find the leader, write a fresh key, read it at once from every node,
    then poll until every node shows it.  A run yields its rows, the lines it
    prints and the text of its CSV file; the command line is in Scripts.v, and a
    CSV path that cannot be opened is not modelled. *)

From Stdlib Require Import Lqa.
From S2P Require Import Prelude PyStr PyFloat PyRepr PyCsv PyWorld.
#[local] Open Scope Z_scope.
#[local] Open Scope py_scope.

Section Geo.
Context {W : Type} `{World W}.

(** ** Requests *)

Record Reply := mkReply { code : option Z; body : option Json; latency_ms : float; err : option string }.

Definition request_json (method url : string) (timeout : float) (json : option Json) : M W Reply :=
  let* start := readPerf in
  let* r := doRequest method url timeout json in
  match r with
  | Ok resp =>
      let* t := readPerf in
      ret (mkReply (Some (http_status resp)) (http_json resp) (fmul (fsub t start) (Fin 1000)) None)
  | Err (RequestException exc) =>
      let* t := readPerf in
      ret (mkReply None None (fmul (fsub t start) (Fin 1000)) (Some exc))
  | Err (OtherError e) => raise e
  end.

Definition isCode200 (c : option Z) : bool := bool_decide (c = Some 200).

Definition get_status (node : string) (timeout : float)
    : M W (option (list (string * Json)) * float * option string) :=
  let* r := request_json "GET" (node +:+ "/status") timeout None in
  match isCode200 (code r), body r with
  | true, Some (JObj fields) => ret (Some fields, latency_ms r, None)
  | _, _ => ret (None, latency_ms r, err r)
  end.

Record NodeStatus := mkNodeStatus { ns_status : option (list (string * Json)); ns_latency : float; ns_error : option string }.

(** [status and status.get("isLeader")]; an empty dictionary is false. *)
Definition claimsLeader (status : option (list (string * Json))) : bool :=
  match status with
  | Some fields => negb (bool_decide (length fields = 0%nat)) &&
                   match assoc "isLeader" fields with Some j => truthy j | None => false end
  | None => false
  end.

Fixpoint find_leader_loop (nodes : list string) (timeout : float) (statuses : gmap string NodeStatus)
    : M W (option string * gmap string NodeStatus) :=
  match nodes with
  | [] => ret (None, statuses)
  | node :: rest =>
      let* '(status, latency_ms, err) := get_status node timeout in
      let statuses := <[node := mkNodeStatus status latency_ms err]> statuses in
      if claimsLeader status then ret (Some node, statuses) else find_leader_loop rest timeout statuses
  end.

Definition find_leader (nodes : list string) (timeout : float) : M W (option string * gmap string NodeStatus) :=
  find_leader_loop nodes timeout ∅.

Definition put_key (leader key value : string) (timeout : float) : M W Reply :=
  request_json "PUT" (leader +:+ "/v1/keys/" +:+ key) timeout (Some (JObj [("value", JStr value)])).

(** The reply's code, the value found, the latency and the error. *)
Record KeyReply := mkKeyReply { kr_code : option Z; kr_value : option Json; kr_latency : float; kr_error : option string }.

Definition get_key (node key : string) (timeout : float) : M W KeyReply :=
  let* r := request_json "GET" (node +:+ "/v1/keys/" +:+ key) timeout None in
  let value := match body r with Some (JObj fields) => assoc "value" fields | _ => None end in
  ret (mkKeyReply (code r) value (latency_ms r) (err r)).

(** [not (code != 200 or got != value)] *)
Definition visible (value : string) (r : KeyReply) : bool := isCode200 (kr_code r) && eqStr (kr_value r) value.

(** ** Polling until every node shows the value *)

(** One pass over the nodes. *)
Definition pollNodes (nodes : list string) (key value : string) (request_timeout : float)
    (latest : gmap string KeyReply) : M W (bool * gmap string KeyReply) :=
  forM (fun '(all_visible, latest) node =>
          let* r := get_key node key request_timeout in
          ret (all_visible && visible value r, <[node := r]> latest))
       (true, latest) nodes.

Fixpoint waitLoop (fuel : nat) (nodes : list string) (key value : string) (start deadline poll_interval request_timeout : float)
    (latest : gmap string KeyReply) : M W (option float * gmap string KeyReply) :=
  match fuel with
  | O => fun w => (w, NoFuel)
  | S fuel' =>
      let* t := readPerf in
      if flt t deadline then
        let* '(all_visible, latest) := pollNodes nodes key value request_timeout latest in
        if (all_visible : bool) then
          let* t' := readPerf in
          ret (Some (fmul (fsub t' start) (Fin 1000)), latest)
        else
          doSleep poll_interval ;;;
          waitLoop fuel' nodes key value start deadline poll_interval request_timeout latest
      else ret (None, latest)
  end.

Definition wait_until_all_visible (fuel : nat) (nodes : list string) (key value : string)
    (timeout poll_interval request_timeout : float) : M W (option float * gmap string KeyReply) :=
  let* start := readPerf in
  let deadline := fadd start timeout in
  waitLoop fuel nodes key value start deadline poll_interval request_timeout ∅.

(** ** Aggregates *)

Definition summarize (values : list (option float)) : result PyErr string :=
  match omap (fun v => v) values with
  | [] => Ok "n/a"
  | v :: vs =>
      (m <-? mean (v :: vs) ;; p <-? median (v :: vs) ;;
       Ok ("avg=" +:+ fmtFixed 2 m +:+ "ms p50=" +:+ fmtFixed 2 p +:+ "ms min=" +:+ fmtFixed 2 (py_min v vs)
           +:+ "ms max=" +:+ fmtFixed 2 (py_max v vs) +:+ "ms"))%result
  end.

Definition aggregate (values : list (option float)) : result PyErr (option float * option float * option float) :=
  match omap (fun v => v) values with
  | [] => Ok (None, None, None)
  | v :: vs => (m <-? mean (v :: vs) ;; Ok (Some m, Some (py_min v vs), Some (py_max v vs)))%result
  end.

(** ** The rounds *)

Inductive PyVal := VNone | VInt (z : Z) | VFloat (f : float) | VStr (s : string).

Definition Row := gmap string PyVal.

Record Args := mkArgs {
  nodes : list string; rounds : Z; timeout : float; convergence_timeout : float; poll_interval : float;
  csv : string }.

Definition optFloat (o : option float) : PyVal := match o with Some f => VFloat f | None => VNone end.
Definition optInt (o : option Z) : PyVal := match o with Some z => VInt z | None => VNone end.

Definition noLeaderRow (args : Args) (round_num : Z) : Row :=
  {[ "round" := VInt round_num; "leader" := VStr ""; "write_status" := VStr ""; "write_latency_ms" := VStr "";
     "immediate_stale_reads" := VStr ""; "replica_count" := VInt (Z.of_nat (length (nodes args)));
     "convergence_ms" := VStr ""; "error" := VStr "no leader" ]}.

(** The reads right after the write: the number that missed it, the latencies. *)
Definition immediateReads (args : Args) (key value : string) : M W (Z * list (option float)) :=
  forM (fun '(immediate_stale, read_latencies) node =>
          let* r := get_key node key (timeout args) in
          ret (if visible value r then immediate_stale else immediate_stale + 1,
               read_latencies ++ [Some (kr_latency r)]))
       (0, []) (nodes args).

Definition takeChars (n : nat) (s : string) : string := String.substring 0 n s.

Definition measureRound (fuel : nat) (args : Args) (round_num : Z) : M W Row :=
  let* '(leader, statuses) := find_leader (nodes args) (timeout args) in
  match leader with
  | None | Some "" => doSleep (Fin (1 # 4)) ;;; ret (noLeaderRow args round_num)
  | Some leader =>
      let* h1 := uuidHex in
      let key := "geo-" +:+ pretty round_num +:+ "-" +:+ takeChars 8 h1 in
      let* h2 := uuidHex in
      let value := "value-" +:+ h2 in
      let* wr := put_key leader key value (timeout args) in
      let* '(immediate_stale, read_latencies) := immediateReads args key value in
      let* '(read_avg, read_min, read_max) := liftR (aggregate read_latencies) in
      let* '(convergence_ms, _) :=
        wait_until_all_visible fuel (nodes args) key value (convergence_timeout args)
          (poll_interval args) (timeout args) in
      ret (<["round" := VInt round_num]> (<["leader" := VStr leader]>
          (<["write_status" := optInt (code wr)]> (<["write_latency_ms" := VFloat (latency_ms wr)]>
          (<["immediate_stale_reads" := VInt immediate_stale]>
          (<["replica_count" := VInt (Z.of_nat (length (nodes args)))]>
          (<["read_latency_avg_ms" := optFloat read_avg]> (<["read_latency_min_ms" := optFloat read_min]>
          (<["read_latency_max_ms" := optFloat read_max]> (<["convergence_ms" := optFloat convergence_ms]>
          {[ "error" := VStr (default "" (err wr)) ]}))))))))))
  end.

Definition measure (fuel : nat) (args : Args) : M W (list Row) :=
  forM (fun rows round_num => let* row := measureRound fuel args round_num in ret (rows ++ [row]))
       [] (seqZ 1 (rounds args)).

(** ** The final summary *)

Definition numeric (v : option PyVal) : option float :=
  match v with Some (VFloat f) => Some f | Some (VInt z) => Some (float_of_int z) | _ => None end.
Definition integer (v : option PyVal) : option Z := match v with Some (VInt z) => Some z | _ => None end.

Definition column (rows : list Row) (field : string) : list (option float) :=
  omap (fun row => Some <$> numeric (row !! field)) rows.

Definition total (rows : list Row) (field : string) : Z :=
  foldr Z.add 0 (omap (fun row => integer (row !! field)) rows).

(** The lines printed under [Summary]. *)
Definition summaryLines (rows : list Row) : result PyErr (list string) :=
  (w <-? summarize (column rows "write_latency_ms") ;;
   r <-? summarize (column rows "read_latency_avg_ms") ;;
   c <-? summarize (column rows "convergence_ms") ;;
   let stale_total := total rows "immediate_stale_reads" in
   let read_attempts := total rows "replica_count" in
   Ok (["write latency: " +:+ w; "read latency: " +:+ r; "convergence: " +:+ c]
       ++ (if read_attempts =? 0 then []
           else ["immediate stale reads: " +:+ pretty stale_total +:+ "/" +:+ pretty read_attempts])))%result.

(** ** What a run prints and writes *)

(** A value as [str] shows it, with the text used when it is [None]. *)
Definition show (none : string) (v : option PyVal) : string :=
  match v with
  | Some (VInt z) => pretty z
  | Some (VFloat f) => repr_float f
  | Some (VStr s) => s
  | Some VNone | None => none
  end.

(** The line of a round, from its row. *)
Definition progressLine (args : Args) (row : Row) : string :=
  let round := "[round " +:+ show "" (row !! "round") +:+ "] " in
  if bool_decide (show "" (row !! "leader") = "") then round +:+ "no leader found"
  else
    round +:+ "leader=" +:+ show "None" (row !! "leader") +:+
    " write=" +:+ show "None" (row !! "write_status") +:+
    " " +:+ fmtFixed 2 (default NaN (numeric (row !! "write_latency_ms"))) +:+
    "ms read_avg=" +:+ show "n/a" (row !! "read_latency_avg_ms") +:+
    "ms stale=" +:+ show "None" (row !! "immediate_stale_reads") +:+ "/" +:+ pretty (length (nodes args)) +:+
    " convergence=" +:+ show "timeout" (row !! "convergence_ms") +:+ "ms".

Definition rule : string := repeatStr 72 "=".

Definition fieldnames : list string :=
  ["round"; "leader"; "write_status"; "write_latency_ms"; "immediate_stale_reads"; "replica_count";
   "read_latency_avg_ms"; "read_latency_min_ms"; "read_latency_max_ms"; "convergence_ms"; "error"].

(** A cell of the file: [None] is written as the empty string. *)
Definition csvCell (v : PyVal) : text := chars (show "" (Some v)).

Record Run := mkRun { run_rows : list Row; printed : list string; csv_file : text }.

Definition main (fuel : nat) (args : Args) : M W Run :=
  let* rows := measure fuel args in
  let* file := liftR (t <-? writeFile csvCell fieldnames rows ;; encodeUtf8 t)%result in
  let* lines := liftR (summaryLines rows) in
  ret (mkRun rows
         ([rule; "Geo-distribution tradeoff experiment"; rule;
           "nodes: " +:+ join ", " (nodes args); "rounds: " +:+ pretty (rounds args); ""]
          ++ (progressLine args <$> rows)
          ++ [""; rule; "Summary"; rule] ++ lines ++ ["csv: " +:+ csv args])
         file).
End Geo.

(** ** What waiting for convergence asks and reports *)

(** A pass: every node was asked once for the key, in order, and gave these
    answers; each request is timed by two readings of the clock. *)
Inductive asked (key : string) (timeout : float) : list string -> list (result ReqErr HttpResp) -> list IOEvent -> Prop :=
| asked_none : asked key timeout [] [] []
| asked_next nodes answers evs node a t0 t1 : asked key timeout nodes answers evs ->
    asked key timeout (nodes ++ [node]) (answers ++ [a])
      (evs ++ [EvPerf t0; EvRequest "GET" (node +:+ "/v1/keys/" +:+ key) timeout None a; EvPerf t1]).

(** Passes made before the deadline in which some node did not show the value,
    each followed by a sleep. *)
Inductive failedPasses (nodes : list string) (key value : string) (timeout deadline p : float) : list IOEvent -> Prop :=
| failed_none : failedPasses nodes key value timeout deadline p []
| failed_next evs t pass answers : failedPasses nodes key value timeout deadline p evs ->
    flt t deadline = true -> asked key timeout nodes answers pass -> ~ Forall (showsValue value) answers ->
    failedPasses nodes key value timeout deadline p (evs ++ EvPerf t :: pass ++ [EvSleep p]).

(** What a wait that returned [o] has done: failed passes, and then either a pass
    in which every node showed the value, reported as the time since the start, or
    a look at the clock that found the deadline passed. *)
Definition waited (nodes : list string) (key value : string) (T p timeout : float) (o : option float) (evs : list IOEvent) : Prop :=
  exists start failed, let deadline := fadd start T in failedPasses nodes key value timeout deadline p failed /\
  match o with
  | Some ms => exists t pass answers t', evs = EvPerf start :: failed ++ EvPerf t :: pass ++ [EvPerf t'] /\
      flt t deadline = true /\ asked key timeout nodes answers pass /\ Forall (showsValue value) answers /\
      ms = fmul (fsub t' start) (Fin 1000)
  | None => exists t, evs = EvPerf start :: failed ++ [EvPerf t] /\ flt t deadline = false
  end.

Section Wait.
Context {W : Type} {HW : World W} {HC : Clock W} {HR : Recorded W} {HQ : Requests W} {R : PyErr -> Prop} {N : Prop}.
Context (nodes : list string) (key value : string) (request_timeout : float) (Ht : usableTimeout request_timeout).

Lemma rec_get_key node (P : KeyReply -> W -> Prop) w :
  (forall r a t0 t1 w', passed w [EvPerf t0; EvRequest "GET" (node +:+ "/v1/keys/" +:+ key) request_timeout None a; EvPerf t1] w' ->
     (visible value r = true <-> showsValue value a) -> P r w') ->
  wpx R N (get_key node key request_timeout) P w.
Proof.
  intros HP. apply wp_bind, wp_bind, rec_readPerf. intros q0 w0 _ H0 _ _. apply wp_bind, rec_doRequest. intros a w1 Ha H1.
  assert (forall e, a <> Err (OtherError e)) as Hno by (intros e; rewrite Ha; by apply request_exceptions).
  destruct a as [[c j]|[exc|e]]; [| |by destruct (Hno e)]; apply wp_bind, rec_readPerf; intros q2 w2 _ H2 _ _;
    (eapply HP; [exact (passed_trans _ _ _ _ _ H0 (passed_trans _ _ _ _ _ H1 H2))|]).
  - unfold visible, isCode200, showsValue. cbn. rewrite andb_true_iff, bool_decide_eq_true. split.
    + intros [[= ->] Hv]. destruct j as [[]|]; try done. cbn in Hv. exists fields. split; [done|].
      unfold eqStr in Hv. destruct (assoc "value" fields) as [[]|]; try done. by apply bool_decide_eq_true in Hv as ->.
    + intros (fields & [= -> ->] & Hv). split; [done|]. rewrite Hv. cbn. by apply bool_decide_eq_true.
  - unfold visible. cbn. split; [done|]. by intros (? & ? & _).
Qed.

Lemma rec_pollNodes latest (P : bool * gmap string KeyReply -> W -> Prop) w :
  (forall b latest' answers pass w', passed w pass w' -> asked key request_timeout nodes answers pass ->
     (b = true <-> Forall (showsValue value) answers) -> P (b, latest') w') ->
  wpx R N (pollNodes nodes key value request_timeout latest) P w.
Proof.
  intros HP. apply (wp_forM _ (fun pre '(b, _) w' => exists answers evs, passed w evs w' /\
    asked key request_timeout pre answers evs /\ (b = true <-> Forall (showsValue value) answers))).
  - exists [], []. split_and!; [apply passed_refl|constructor|done].
  - intros pre node post [b l] w1 _ (answers & evs & Hp & Ha & Hb). apply wp_bind, rec_get_key.
    intros r a t0 t1 w2 Hp2 Hv. apply wp_ret. eexists (answers ++ [a]), _. split_and!; [by eapply passed_trans|by constructor|].
    rewrite andb_true_iff, Forall_app, Forall_singleton, Hb, Hv. done.
  - intros [b l] w1 (answers & evs & ? & ? & ?). by eapply HP.
Qed.

(** Each pass takes at least the poll interval, so the deadline bounds them. *)
Lemma rec_waitLoop start (d p : Q) k : (0 < p)%Q -> sleepError (Fin p) = None ->
  forall fuel latest failed w0 w (P : option float * gmap string KeyReply -> W -> Prop),
  (k < fuel)%nat -> (d <= now w + inject_Z (Z.of_nat k) * p)%Q ->
  passed w0 (EvPerf start :: failed) w -> failedPasses nodes key value request_timeout (Fin d) (Fin p) failed ->
  (forall o latest' w' failed' evs, passed w0 evs w' -> failedPasses nodes key value request_timeout (Fin d) (Fin p) failed' ->
     match o with
     | Some ms => exists t pass answers t', evs = EvPerf start :: failed' ++ EvPerf t :: pass ++ [EvPerf t'] /\
         flt t (Fin d) = true /\ asked key request_timeout nodes answers pass /\ Forall (showsValue value) answers /\
         ms = fmul (fsub t' start) (Fin 1000)
     | None => exists t, evs = EvPerf start :: failed' ++ [EvPerf t] /\ flt t (Fin d) = false
     end -> P (o, latest') w') ->
  wpx R N (waitLoop fuel nodes key value start (Fin d) (Fin p) request_timeout latest) P w.
Proof.
  intros Hp Hsl. induction k as [|k IH]; intros [|fuel] latest failed w0 w P Hf Hd Hpass Hfail HP; try lia;
    apply wp_bind, rec_readPerf; intros q w1 _ H1 Hq Hq'; destruct (flt (Fin q) (Fin d)) eqn:Hlt;
    try (eapply (HP None); [exact (passed_trans _ _ _ _ _ Hpass H1)|exact Hfail|by exists (Fin q)]).
  - exfalso. apply flt_Fin in Hlt; [|done..]. change (inject_Z (Z.of_nat 0)) with 0%Q in Hd. simpl in Hlt. lra.
  - apply wp_bind, rec_pollNodes. intros b l2 answers pass w2 H2 Hask Hb. destruct b.
    + apply wp_bind, rec_readPerf. intros q' w3 _ H3 _ _. eapply (HP (Some _)); [|exact Hfail|].
      * exact (passed_trans _ _ _ _ _ Hpass (passed_trans _ _ _ _ _ H1 (passed_trans _ _ _ _ _ H2 H3))).
      * exists (Fin q), pass, answers, (Fin q'). split_and!; [done|done|done|by apply Hb|done].
    + apply wp_bind, rec_doSleep; [done|lra|]. intros w3 H3 Hn3.
      apply (IH fuel l2 (failed ++ EvPerf (Fin q) :: pass ++ [EvSleep (Fin p)]) w0); [lia| | | |exact HP].
      * destruct H1 as [_ T1], H2 as [_ T2]. rewrite Nat2Z.inj_succ, <- Z.add_1_r, inject_Z_plus in Hd.
        change (inject_Z 1) with 1%Q in Hd. lra.
      * exact (passed_trans _ _ _ _ _ Hpass (passed_trans _ _ _ _ _ H1 (passed_trans _ _ _ _ _ H2 H3))).
      * econstructor; [done|done|done|]. intros Hall. by apply Hb in Hall.
Qed.
End Wait.

(** C29. Waiting for convergence: when the poll interval is positive and one that
    [sleep] accepts, the request timeout can be used and the deadline is finite,
    the wait returns, within a number of passes the deadline bounds.  Its record
    is then exactly this: before the deadline, passes in which every node was
    asked for that key, in order, and some node did not answer 200 with the
    written value, each followed by a sleep of the interval; then, if it reports a
    time, a pass in which every node was asked and answered 200 with that value,
    and the time is that from the first reading of the clock to the last, in
    milliseconds; if it reports none, a reading that is past the deadline. *)
Theorem wait_until_all_visible_sound {W : Type} {HW : World W} {HC : Clock W} {HR : Recorded W} {HQ : Requests W}
    (nodes : list string) (key value : string) (request_timeout : float) (T p d : Q) (w : W) :
  usableTimeout request_timeout -> (0 < p)%Q -> sleepError (Fin p) = None -> fadd (perf_counter w).2 (Fin T) = Fin d ->
  exists bound, forall fuel, (bound < fuel)%nat ->
    exists w' o latest evs,
      wait_until_all_visible fuel nodes key value (Fin T) (Fin p) request_timeout w = (w', Ret (o, latest)) /\
      record w' = record w ++ evs /\ waited nodes key value (Fin T) (Fin p) request_timeout o evs.
Proof.
  intros Ht Hp Hsl Hd. destruct (perf_counter_now w) as (q & Hq & _ & Hle). rewrite Hq in Hd.
  set (k := Z.to_nat (Qceiling ((d - q) / p))). exists k. intros fuel Hf.
  enough (wpx (fun _ => False) False (wait_until_all_visible fuel nodes key value (Fin T) (Fin p) request_timeout)
    (fun r w' => exists evs, record w' = record w ++ evs /\ waited nodes key value (Fin T) (Fin p) request_timeout r.1 evs) w) as Hwp.
  { unfold wpx in Hwp. destruct (wait_until_all_visible _ _ _ _ _ _ _ w) as [w' [[o latest]|e|]]; [|done..].
    destruct Hwp as (evs & ? & ?). by exists w', o, latest, evs. }
  apply wp_bind, rec_readPerf. intros q' w1 Hq' H1 Hl1 Hu1. rewrite Hq in Hq'. injection Hq' as <-. rewrite Hd.
  apply (rec_waitLoop nodes key value request_timeout Ht (Fin q) d p k Hp Hsl fuel ∅ [] w); [done| |done|constructor|].
  - assert ((d - q) / p <= inject_Z (Z.of_nat k))%Q as Hle'.
    { eapply Qle_trans; [apply Qle_ceiling|]. unfold k. rewrite <- Zle_Qle. lia. }
    apply (Qmult_le_r _ _ p Hp) in Hle'. unfold Qdiv in Hle' at 1.
    rewrite <- Qmult_assoc, (Qmult_comm (/ p)), Qmult_inv_r, Qmult_1_r in Hle' by lra. lra.
  - intros o latest w' failed evs [Hrec _] Hfail Ho. exists evs. split; [done|]. exists (Fin q), failed. cbv zeta. rewrite Hd.
    by split.
Qed.

Lemma usableTimeout_2 : usableTimeout (Fin 2).
Proof. exists 2%Q. split; [done|lra]. Qed.

(** Three nodes that show the value from the first half second on. *)
Lemma wait_until_all_visible_sound_witness :
  exists bound, forall fuel, (bound < fuel)%nat ->
    exists w' o latest evs,
      wait_until_all_visible (H := recWorld (H := simWorld true)) fuel ["a"; "b"; "c"] "k" "v" (Fin 5) (Fin (1 # 20)) (Fin 2) (mkRec 0%Q [])
      = (w', Ret (o, latest)) /\ history w' = evs /\ waited ["a"; "b"; "c"] "k" "v" (Fin 5) (Fin (1 # 20)) (Fin 2) o evs.
Proof.
  apply (wait_until_all_visible_sound (HC := recClock (H0 := simClock true)) (HR := recRecorded (H := simWorld true)) (HQ := recRequests (H0 := simRequests true))
    ["a"; "b"; "c"] "k" "v" (Fin 2) 5 (1 # 20) 5 (mkRec 0%Q []) usableTimeout_2); [lra|by vm_compute|by vm_compute].
Defined.

(** ** The leader search and the rows *)

Section Rows.
Context {W : Type} `{World W}.

Lemma find_leader_loop_spec nodes timeout sts w w' o sts' :
  find_leader_loop nodes timeout sts w = (w', Ret (o, sts')) ->
  match o with
  | Some node => exists pre post e, nodes = pre ++ node :: post /\ sts' !! node = Some e /\
      claimsLeader (ns_status e) = true /\ dom sts' = dom sts ∪ list_to_set pre ∪ {[ node ]} /\
      (forall n, n ∈ pre -> n <> node -> exists e', sts' !! n = Some e' /\ claimsLeader (ns_status e') = false) /\
      (forall n, n ∉ pre -> n <> node -> sts' !! n = sts !! n)
  | None => dom sts' = dom sts ∪ list_to_set nodes /\
      (forall n, n ∈ nodes -> exists e', sts' !! n = Some e' /\ claimsLeader (ns_status e') = false) /\
      (forall n, n ∉ nodes -> sts' !! n = sts !! n)
  end.
Proof.
  revert sts w. induction nodes as [|node rest IH]; intros sts w Hf; simpl in Hf.
  { injection Hf as <- <- <-. split_and!; [set_solver..|done]. }
  apply bind_Ret in Hf as (w1 & [[status lat] er] & _ & Hf).
  set (e := mkNodeStatus status lat er) in *. destruct (claimsLeader status) eqn:Hc.
  - injection Hf as <- <- <-. exists [], rest, e. rewrite lookup_insert_eq, dom_insert_L.
    split_and!; [done..|set_solver|set_solver|]. intros n _ Hn. by rewrite lookup_insert_ne.
  - apply IH in Hf. destruct o as [leader|].
    + destruct Hf as (pre & post & e' & -> & He' & Hcl & Hdom & Hpre & Hout).
      exists (node :: pre), post, e'. rewrite Hdom, dom_insert_L. split_and!; [done..|set_solver| |].
      * intros n Hn Hne. destruct (decide (n ∈ pre)); [by apply Hpre|].
        apply elem_of_cons in Hn as [->|]; [|done]. exists e. by rewrite Hout, lookup_insert_eq.
      * intros n Hn Hne. apply not_elem_of_cons in Hn as [? ?]. by rewrite Hout, lookup_insert_ne.
    + destruct Hf as (Hdom & Hall & Hout). rewrite Hdom, dom_insert_L. split_and!; [set_solver| |].
      * intros n Hn. destruct (decide (n ∈ rest)); [by apply Hall|].
        apply elem_of_cons in Hn as [->|]; [|done]. exists e. by rewrite Hout, lookup_insert_eq.
      * intros n Hn. apply not_elem_of_cons in Hn as [? ?]. by rewrite Hout, lookup_insert_ne.
Qed.

(** The leader search returns the first node, in order, whose [/status]
    answered 200 with a dictionary in which [isLeader] is true; the statuses
    are those of exactly the nodes asked, which are the ones up to that leader,
    and none of the others claimed to lead. When it returns none, every node
    was asked and none claimed to lead. *)
Theorem find_leader_first (nodes : list string) (timeout : float) (w w' : W) (o : option string)
    (statuses : gmap string NodeStatus) :
  find_leader nodes timeout w = (w', Ret (o, statuses)) ->
  match o with
  | Some node => exists pre post e, nodes = pre ++ node :: post /\ dom statuses = list_to_set (pre ++ [node]) /\
      statuses !! node = Some e /\ claimsLeader (ns_status e) = true /\
      (forall n, n ∈ pre -> n <> node -> exists e', statuses !! n = Some e' /\ claimsLeader (ns_status e') = false)
  | None => dom statuses = list_to_set nodes /\
      (forall n, n ∈ nodes -> exists e', statuses !! n = Some e' /\ claimsLeader (ns_status e') = false)
  end.
Proof.
  intros Hf. apply find_leader_loop_spec in Hf. rewrite dom_empty_L in Hf. destruct o as [node|].
  - destruct Hf as (pre & post & e & ? & ? & ? & Hdom & ? & _). exists pre, post, e.
    split_and!; try done. rewrite Hdom, list_to_set_app_L. set_solver.
  - destruct Hf as (Hdom & ? & _). split; [|done]. rewrite Hdom. set_solver.
Qed.
End Rows.

Example demo_leader :
  match (find_leader (H := simWorld true) ["a"; "b"] (Fin 2) (1 # 2)).2 with
  | Ret (Some node, _) => node
  | _ => ""
  end = "a".
Proof. by vm_compute. Qed.

Lemma find_leader_first_witness :
  match find_leader (H := simWorld true) ["a"; "b"] (Fin 2) (1 # 2) with
  | (_, Ret (Some node, statuses)) => node = "a" /\ exists pre post e,
      ["a"; "b"] = pre ++ node :: post /\ statuses !! node = Some e /\ claimsLeader (ns_status e) = true
  | _ => False
  end.
Proof.
  pose proof (find_leader_first (H := simWorld true) ["a"; "b"] (Fin 2) (1 # 2)) as Hf.
  pose proof demo_leader as Hd. revert Hf Hd.
  generalize (find_leader (H := simWorld true) ["a"; "b"] (Fin 2) (1 # 2)) as run.
  intros [w' [[[node|] statuses]| |]] Hf Hd; try discriminate Hd. split; [exact Hd|].
  destruct (Hf _ _ _ eq_refl) as (pre & post & e & ? & _ & ? & ? & _). exists pre, post, e. done.
Defined.

(** ** The cells of a row *)

Definition exactVal (v : PyVal) : Prop := match v with VFloat f => exact f | _ => True end.

(** The columns that may hold each type of value. *)
Definition intColumns : list string := ["round"; "write_status"; "immediate_stale_reads"; "replica_count"].
Definition floatColumns : list string :=
  ["write_latency_ms"; "read_latency_avg_ms"; "read_latency_min_ms"; "read_latency_max_ms"; "convergence_ms"].

Definition cellType (field : string) (v : PyVal) : Prop :=
  match v with
  | VInt _ => field ∈ intColumns
  | VFloat _ => field ∈ floatColumns
  | VStr s => s = "" \/ field ∈ ["leader"; "error"]
  | VNone => field ∈ "write_status" :: floatColumns
  end.

Definition typed (row : Row) : Prop :=
  map_Forall (fun field v => field ∈ fieldnames /\ exactVal v /\ cellType field v) row.

Lemma typed_insert field v row :
  field ∈ fieldnames -> exactVal v -> cellType field v -> typed row -> typed (<[field := v]> row).
Proof. intros. by apply map_Forall_insert_2. Qed.

Lemma optFloat_type field o : field ∈ floatColumns -> cellType field (optFloat o).
Proof. intros. destruct o; simpl; [done|by right]. Qed.

Lemma optInt_type o : cellType "write_status" (optInt o).
Proof. destruct o; simpl; set_solver. Qed.

Lemma optInt_exact o : exactVal (optInt o).
Proof. by destruct o. Qed.

(** A row written out field by field. *)
Ltac type_row :=
  repeat (apply typed_insert; [set_solver|first [done|apply optInt_exact]|
    first [apply optInt_type|apply optFloat_type; set_solver|left; done|simpl; set_solver]|]);
  apply map_Forall_empty.

(** ** What a run measures *)

Lemma aggregate_Ok lats : Forall exact (omap (fun v => v) lats) ->
  exists a b c, aggregate lats = Ok (a, b, c) /\ (omap (fun v => v) lats <> [] -> is_Some a /\ is_Some b /\ is_Some c) /\
    exactVal (optFloat a) /\ exactVal (optFloat b) /\ exactVal (optFloat c).
Proof.
  intros Hf. unfold aggregate. destruct (omap (fun v => v) lats) as [|v vs] eqn:E; [by eexists _, _, _|].
  destruct (mean_Ok (v :: vs)) as [m Hm]; [done|by eapply Forall_impl; [|apply exact_is_float]|]. rewrite Hm.
  eexists _, _, _. split; [done|]. split_and!; [done|by eapply mean_exact|..]; simpl.
  - apply (proj1 (Forall_forall _ _) Hf), py_min_elem.
  - apply (proj1 (Forall_forall _ _) Hf), py_max_elem.
Qed.

(** A row of the run: of a round without a leader, or with the counts of the
    reads that followed the write. *)
Definition row_of_round (args : Args) (round_num : Z) (row : Row) : Prop :=
  let n := Z.of_nat (length (nodes args)) in
  row !! "round" = Some (VInt round_num) /\ row !! "replica_count" = Some (VInt n) /\
  (row = noLeaderRow args round_num \/
   exists stale avg, row !! "immediate_stale_reads" = Some (VInt stale) /\ 0 <= stale <= n /\
     row !! "read_latency_avg_ms" = Some avg /\ (nodes args <> [] -> exists f, avg = VFloat f)).

Section Run.
Context {W : Type} `{World W} {R : PyErr -> Prop} (args : Args).
(** The exceptions that requests and sleeps of the run may raise are allowed. *)
Context (Hreq : forall m u b (w : W) e, (request m u (timeout args) b w).2 = Err (OtherError e) -> R e).
Context (Hsleep : forall e, sleepError (poll_interval args) = Some e -> R e).

Abbreviation wpr := (wpx R True).

Lemma wp_request_json m u b (P : Reply -> W -> Prop) w :
  (forall r w', exact (latency_ms r) -> P r w') -> wpr (request_json m u (timeout args) b) P w.
Proof.
  intros HP. apply wp_bind, wp_readPerf. intros s w1. apply wp_bind, wp_doRequest. intros r w2 Hr.
  destruct r as [resp|[exc|e]]; [| |apply wp_raise; by eapply Hreq];
    apply wp_bind, wp_readPerf; intros t' w3; apply wp_ret, HP, fmul_exact.
Qed.

Lemma wp_get_key node key (P : KeyReply -> W -> Prop) w :
  (forall r w', exact (kr_latency r) -> P r w') -> wpr (get_key node key (timeout args)) P w.
Proof. intros HP. apply wp_bind, wp_request_json. intros r w' Hr. by apply HP. Qed.

Lemma wp_get_status n (P : option (list (string * Json)) * float * option string -> W -> Prop) w :
  (forall r w', P r w') -> wpr (get_status n (timeout args)) P w.
Proof.
  intros HP. apply wp_bind, wp_request_json. intros r w1 _.
  destruct (isCode200 (code r)); [|apply HP]. destruct (body r) as [[]|]; apply HP.
Qed.

Lemma wp_find_leader nodes (P : option string * gmap string NodeStatus -> W -> Prop) w :
  (forall r w', P r w') -> wpr (find_leader nodes (timeout args)) P w.
Proof.
  intros HP. unfold find_leader. generalize (∅ : gmap string NodeStatus) as sts. revert w.
  induction nodes as [|n nodes IH]; intros w sts; [apply HP|]. apply wp_bind, wp_get_status.
  intros [[status lat] er] w1. cbv zeta. case_if; [apply HP|apply IH].
Qed.

Lemma wp_wait fuel nodes key value T (P : option float * gmap string KeyReply -> W -> Prop) w :
  (forall r w', exactVal (optFloat r.1) -> P r w') ->
  wpr (wait_until_all_visible fuel nodes key value T (poll_interval args) (timeout args)) P w.
Proof.
  intros HP. apply wp_bind, wp_readPerf. intros s w1. generalize (fadd s T) as d. intros d.
  generalize (∅ : gmap string KeyReply) as latest. revert w1.
  induction fuel as [|fuel IH]; intros w1 latest; [done|].
  apply wp_bind, wp_readPerf. intros t1 w2. case_if; [|by apply HP]. apply wp_bind.
  apply (wp_forM _ (fun _ _ _ => True)); [done| |].
  - intros pre x post [b l] w3 _ _. apply wp_bind, wp_get_key. intros r w4 _. by apply wp_ret.
  - intros [[] l] w3 _; [apply wp_bind, wp_readPerf; intros; apply HP, fmul_exact|].
    apply wp_bind, wp_doSleep; [done|]. intros w4. apply IH.
Qed.

(** The reads after a write: one latency per node, and at most that many stale. *)
Lemma wp_immediateReads key value (P : Z * list (option float) -> W -> Prop) w :
  (forall s lats w', 0 <= s <= Z.of_nat (length (nodes args)) -> length lats = length (nodes args) ->
     Forall exact (omap (fun v => v) lats) -> length (omap (fun v => v) lats) = length (nodes args) -> P (s, lats) w') ->
  wpr (immediateReads args key value) P w.
Proof.
  intros HP. apply (wp_forM _ (fun pre '(s, lats) _ => 0 <= s <= Z.of_nat (length pre) /\ length lats = length pre /\
    Forall exact (omap (fun v => v) lats) /\ length (omap (fun v => v) lats) = length pre)); [done| |].
  - intros pre x post [s lats] w1 _ (Hs & Hl & Hf & Ho). apply wp_bind, wp_get_key. intros r w2 Hr. apply wp_ret.
    rewrite omap_app, !length_app. cbn [omap list_omap length]. split_and!; [case_if; lia..|lia| |lia].
    apply Forall_app_2; [done|by repeat constructor].
  - intros [s lats] w1 (? & ? & ? & ?). by apply HP.
Qed.

Lemma wp_measureRound fuel round_num w :
  wpr (measureRound fuel args round_num) (fun row _ => row_of_round args round_num row /\ typed row) w.
Proof.
  apply wp_bind, wp_find_leader. intros [leader sts] w1.
  assert (wpr (doSleep (Fin (1 # 4)) ;;; ret (noLeaderRow args round_num))
    (fun row _ => row_of_round args round_num row /\ typed row) w1) as Hno.
  { apply wp_bind, wp_doSleep; [by vm_compute|]. intros w2. apply wp_ret. split; [split_and!; [done|done|by left]|]. type_row. }
  destruct leader as [[|c leader]|]; [done| |done]. clear Hno.
  apply wp_bind, wp_uuidHex. intros h1 w2. apply wp_bind, wp_uuidHex. intros h2 w3.
  apply wp_bind, wp_request_json. intros wr w4 Hwr. apply wp_bind, wp_immediateReads.
  intros s lats w5 Hs Hlen Hf Ho. destruct (aggregate_Ok lats Hf) as (a & b & d & Ha & Hsome & Hea & Heb & Hed).
  apply wp_bind. eapply wp_liftR; [done|]. apply wp_bind, wp_wait. intros [conv latest] w6 Hconv. apply wp_ret.
  split; [|type_row]. split_and!; [done|done|]. right. exists s, (optFloat a). split_and!; [done|lia|lia|done|].
  intros Hne. destruct Hsome as ([f ->] & _); [|by exists f].
  intros Hnil. rewrite Hnil in Ho. by destruct (nodes args).
Qed.

Lemma wp_measure fuel w :
  wpr (measure fuel args) (fun rows _ => Forall2 (row_of_round args) (seqZ 1 (rounds args)) rows /\ Forall typed rows) w.
Proof.
  apply (wp_forM _ (fun pre rows _ => Forall2 (row_of_round args) pre rows /\ Forall typed rows)); [by split; constructor| |done].
  intros pre x post rows w1 _ [HI Ht]. apply wp_bind. eapply wp_mono; [apply wp_measureRound|].
  intros row w2 [Hrow Htr]. apply wp_ret. split.
  - apply Forall2_app; [done|constructor; [done|constructor]].
  - apply Forall_app_2; [done|by constructor].
Qed.
End Run.

Lemma total_cons row rows field :
  total (row :: rows) field =
  match integer (row !! field) with Some z => z + total rows field | None => total rows field end.
Proof. unfold total. cbn [omap list_omap]. by destruct (integer (row !! field)). Qed.

(** Sums over the rows of a run. *)
Lemma total_rows args rs rows : Forall2 (row_of_round args) rs rows ->
  let n := Z.of_nat (length (nodes args)) in
  0 <= total rows "immediate_stale_reads" <= n * Z.of_nat (length (filter (fun row => integer (row !! "immediate_stale_reads") <> None) rows)) /\
  total rows "replica_count" = n * Z.of_nat (length rs).
Proof.
  intros Hall n. induction Hall as [|r row rs rows (Hr & Hc & Hrow) _ [IH1 IH2]].
  { change (0 <= 0 <= n * 0 /\ 0 = n * 0). lia. }
  rewrite !total_cons, Hc. cbn [integer length]. split; [|lia].
  rewrite filter_cons. destruct Hrow as [->|(s & avg & Hs & Hle & _)].
  - change (integer (noLeaderRow args r !! "immediate_stale_reads")) with (@None Z).
    rewrite decide_False by congruence. apply IH1.
  - rewrite Hs. cbn [integer]. rewrite decide_True by done. cbn [length]. lia.
Qed.

(** Arguments with which [requests] and [sleep] can work. *)
Definition usable (args : Args) : Prop := usableTimeout (timeout args) /\ sleepError (poll_interval args) = None.

Lemma usable_request {W : Type} `{Requests W} args m u b (w : W) e :
  (request m u (timeout args) b w).2 = Err (OtherError e) -> ~ usable args.
Proof. intros Hr [Ht _]. by apply (request_exceptions m u _ b w e Ht). Qed.

Lemma usable_sleep args e : sleepError (poll_interval args) = Some e -> ~ usable args.
Proof. intros He [_ Hs]. by rewrite He in Hs. Qed.

(** With usable arguments the measurement never raises, for any cluster
    behaviour, any clock and any number of polling passes allowed; when its
    polling loops end, there is exactly one row per round, numbered 1 .. rounds in
    order; a row is that of a round without a leader, or has a stale-read count
    between 0 and the number of nodes and (with a node to read from) a read
    average. So the stale total lies between 0 and the number of reads really
    made, while the [read_attempts] it is reported against is nodes times all
    rounds. *)
Theorem measurement_rows {W : Type} `{Requests W} (fuel : nat) (args : Args) (w : W) :
  0 <= rounds args ->
  let n := Z.of_nat (length (nodes args)) in
  match measure fuel args w with
  | (_, Ret rows) =>
      Forall2 (row_of_round args) (seqZ 1 (rounds args)) rows /\
      0 <= total rows "immediate_stale_reads"
        <= n * Z.of_nat (length (filter (fun row => integer (row !! "immediate_stale_reads") <> None) rows)) /\
      total rows "replica_count" = n * rounds args
  | (_, Raise _) => ~ usable args
  | (_, NoFuel) => True
  end.
Proof.
  intros Hr n. pose proof (wp_measure (R := fun _ => ~ usable args) args (usable_request args) (usable_sleep args) fuel w) as Hwp.
  unfold wpx in Hwp. destruct (measure fuel args w) as [w' [rows|e|]]; [|done|done].
  destruct Hwp as [Hwp _]. destruct (total_rows args _ _ Hwp) as [H1 H2]. split_and!; [done|apply H1|apply H1|].
  rewrite H2, length_seqZ. lia.
Qed.

(** Two rounds against three nodes that are up from the first half second. *)
Definition demo_args : Args := mkArgs ["http://a"; "http://b"; "http://c"] 2 (Fin 2) (Fin 1) (Fin (1 # 20)) "geo_results.csv".

Definition ended {A} (o : outcome A) : bool := match o with NoFuel => false | _ => true end.

Example demo_ends : ended (measure (H := simWorld true) 100 demo_args (1 # 2)%Q).2 = true.
Proof. by vm_compute. Qed.

Lemma measurement_rows_witness :
  match measure (H := simWorld true) 100 demo_args (1 # 2)%Q with
  | (_, Ret rows) => Forall2 (row_of_round demo_args) [1; 2] rows /\ total rows "replica_count" = 6
  | _ => False
  end.
Proof.
  pose proof (measurement_rows (H0 := simRequests true) 100 demo_args (1 # 2)%Q ltac:(simpl; lia)) as Hm. cbv zeta in Hm.
  pose proof demo_ends as He. revert Hm He. generalize (measure (H := simWorld true) 100 demo_args (1 # 2)%Q) as run.
  intros [w' [rows|e|]] Hm He; [| |discriminate He].
  - destruct Hm as (H1 & _ & H2). split; [exact H1|exact H2].
  - exfalso. apply Hm. split; [exact usableTimeout_2|by vm_compute].
Defined.

(** ** The whole run *)

Lemma column_is_float rows field : Forall typed rows -> Forall is_float (omap (fun v => v) (column rows field)).
Proof.
  unfold column. induction 1 as [|row rows Hrow _ IH]; [done|]. cbn [omap list_omap].
  destruct (row !! field) as [[|z|f|s]|] eqn:E; cbn [numeric fmap option_fmap option_map omap list_omap]; try done.
  - constructor; [apply rnd_is_float|done].
  - constructor; [|done]. destruct (Hrow _ _ E) as (_ & Hf & _). by apply exact_is_float.
Qed.

Lemma median_Ok l : l <> [] -> exists r, median l = Ok r.
Proof.
  intros Hne. unfold median. set (data := sorted l). assert (0 < Z.of_nat (length data)) as Hn.
  { unfold data. rewrite sorted_perm. destruct l; [done|simpl; lia]. }
  destruct (Z.eqb_spec (Z.of_nat (length data)) 0) as [|_]; [lia|]. case_if; breflect.
  - destruct (py_index_Ok data (Z.of_nat (length data) / 2)) as (x & -> & _); [div_lia|by eexists].
  - pose proof (Z.mod_pos_bound (Z.of_nat (length data)) 2 ltac:(lia)).
    destruct (py_index_Ok data (Z.of_nat (length data) / 2 - 1)) as (x & -> & _); [div_lia|].
    destruct (py_index_Ok data (Z.of_nat (length data) / 2)) as (y & -> & _); [div_lia|]. cbn [rbind].
    by apply fdiv_Ok.
Qed.

Lemma summarize_Ok values : Forall is_float (omap (fun v => v) values) -> exists s, summarize values = Ok s.
Proof.
  intros Hf. unfold summarize. destruct (omap (fun v => v) values) as [|v vs]; [by eexists|].
  destruct (mean_Ok (v :: vs)) as [m ->]; [done|done|]. destruct (median_Ok (v :: vs)) as [p ->]; [done|]. by eexists.
Qed.

Lemma summaryLines_Ok rows : Forall typed rows -> exists lines, summaryLines rows = Ok lines.
Proof.
  intros Ht. unfold summaryLines.
  destruct (summarize_Ok (column rows "write_latency_ms")) as [a ->]; [by apply column_is_float|].
  destruct (summarize_Ok (column rows "read_latency_avg_ms")) as [b ->]; [by apply column_is_float|].
  destruct (summarize_Ok (column rows "convergence_ms")) as [c ->]; [by apply column_is_float|]. by eexists.
Qed.

Lemma writeFile_typed rows : Forall typed rows -> exists t, writeFile csvCell fieldnames rows = Ok t.
Proof.
  intros Ht. assert (exists rs, dictsToLists csvCell fieldnames rows = Ok rs) as [rs Hrs].
  { induction Ht as [|row rows Hrow _ [rs IH]]; [by eexists|]. cbn [dictsToLists]. unfold dictToList.
    rewrite bool_decide_eq_true_2 by (by apply (map_Forall_impl _ _ _ Hrow); intros ? ? [? _]). cbn [rbind]. rewrite IH. by eexists. }
  unfold writeFile. rewrite Hrs. by eexists.
Qed.

(** What a run that returned has produced. *)
Definition measured (args : Args) (run : Run) : Prop :=
  Forall typed (run_rows run) /\ Forall2 (row_of_round args) (seqZ 1 (rounds args)) (run_rows run) /\
  writeFile csvCell fieldnames (run_rows run) = Ok (csv_file run) /\ validUtf8 (csv_file run) = true.

Lemma wp_main {W : Type} `{World W} {R : PyErr -> Prop} (fuel : nat) (args : Args) (w : W) :
  (forall m u b (w : W) e, (request m u (timeout args) b w).2 = Err (OtherError e) -> R e) ->
  (forall e, sleepError (poll_interval args) = Some e -> R e) -> R UnicodeEncodeError ->
  wpx R True (main fuel args) (fun run _ => measured args run) w.
Proof.
  intros Hreq Hsl Henc. apply wp_bind. eapply wp_mono; [by apply wp_measure|]. intros rows w1 [Hrows Ht].
  destruct (writeFile_typed rows Ht) as [t Hf]. destruct (summaryLines_Ok rows Ht) as [lines Hl].
  apply wp_bind, wp_lift; rewrite Hf; cbn [rbind]; unfold encodeUtf8; destruct (validUtf8 t) eqn:Ev; [done|by intros e [= <-]| |done].
  intros t' [= <-]. apply wp_bind. eapply wp_liftR; [done|]. by apply wp_ret.
Qed.

Lemma main_measured {W : Type} `{World W} (fuel : nat) (args : Args) (w w' : W) run :
  main fuel args w = (w', Ret run) -> measured args run.
Proof.
  intros E. pose proof (wp_main (R := fun _ => True) fuel args w) as Hwp. unfold wpx in Hwp. rewrite E in Hwp. by apply Hwp.
Qed.



(** A poll interval below zero, and a timeout of zero, end the run. *)
Example bad_arguments :
  (main (H := simWorld true) 100 (mkArgs ["http://a"] 1 (Fin 2) (Fin 1) (Fin (- 1)) "geo_results.csv") (1 # 2)%Q).2 = Raise ValueError /\
  (main (H := simWorld true) 100 (mkArgs ["http://a"] 1 (Fin 0) (Fin 1) (Fin 1) "geo_results.csv") 0%Q).2 = Raise ValueError.
Proof. by vm_compute. Qed.

(** Rounds without a leader inflate the denominator of the stale rate:
    against three unreachable nodes, a run of four rounds makes no write and no
    read of a key at all, and reports zero stale reads of twelve attempts. *)
Theorem read_attempts_without_reads :
  match measure (H := simWorld false) 1 (mkArgs ["http://a"; "http://b"; "http://c"] 4 (Fin 2) (Fin 5) (Fin (1 # 20)) "geo_results.csv") 0%Q with
  | (_, Ret rows) =>
      length rows = 4%nat /\ Forall (fun row => integer (row !! "immediate_stale_reads") = None) rows /\
      total rows "immediate_stale_reads" = 0 /\ total rows "replica_count" = 12
  | _ => False
  end.
Proof.
  set (run := measure _ _ _).
  assert (match run with
          | (_, Ret rows) =>
              bool_decide (length rows = 4%nat) &&
              bool_decide (Forall (fun row => integer (row !! "immediate_stale_reads") = None) rows) &&
              (total rows "immediate_stale_reads" =? 0) && (total rows "replica_count" =? 12)
          | _ => false
          end = true) as Hrun by by vm_compute.
  clearbody run. destruct run as [w' [rows|e|]]; [|done|done]. breflect. done.
Qed.
