(* ===== verification/GeoPipeline.v ===== *)
(** * From two measurements to the comparison report

    The two deployments are measured by the same script
    ([geo_colocated/experiment.py] is a copy of [geo_distributed/experiment.py]);
    each run leaves a CSV file, and [compare_geo_results.py] reads the two files.
    The file is where the scripts meet: this development composes them through
    its text and proves that nothing is lost on the way. *)

From Stdlib Require Import Ascii.
From S2P Require Import Prelude PyStr PyFloat PyRepr PyCsv PyWorld CompareGeo GeoExperiment.
#[local] Open Scope Z_scope.

(** ** The scripts *)

(** The copy, function by function. *)
Module Colocated.
Section Colocated.
Context {W : Type} `{World W}.

Definition request_json (method url : string) (timeout : float) (json : option Json) : M W Reply :=
  GeoExperiment.request_json method url timeout json.

Definition get_status (node : string) (timeout : float) : M W (option (list (string * Json)) * float * option string) :=
  GeoExperiment.get_status node timeout.

Definition find_leader (nodes : list string) (timeout : float) : M W (option string * gmap string NodeStatus) :=
  GeoExperiment.find_leader nodes timeout.

Definition put_key (leader key value : string) (timeout : float) : M W Reply := GeoExperiment.put_key leader key value timeout.

Definition get_key (node key : string) (timeout : float) : M W KeyReply := GeoExperiment.get_key node key timeout.

Definition wait_until_all_visible (fuel : nat) (nodes : list string) (key value : string)
    (timeout poll_interval request_timeout : float) : M W (option float * gmap string KeyReply) :=
  GeoExperiment.wait_until_all_visible fuel nodes key value timeout poll_interval request_timeout.

Definition summarize (values : list (option float)) : result PyErr string := GeoExperiment.summarize values.

Definition aggregate (values : list (option float)) : result PyErr (option float * option float * option float) :=
  GeoExperiment.aggregate values.
End Colocated.
End Colocated.

Definition colocated_main {W : Type} `{World W} (fuel : nat) (args : Args) : M W Run := GeoExperiment.main fuel args.

Definition distributed_main {W : Type} `{World W} (fuel : nat) (args : Args) : M W Run := GeoExperiment.main fuel args.

Definition cellOf (o : option string) : Cell := match o with Some s => CStr s | None => CNone end.

(** The rows [csv.DictReader] yields for a file, from its bytes.  Python decodes
    and parses by turns; here the whole file is decoded first, which matters only
    for which of the two exceptions a file gets that deserves both. *)
Definition readCsv (file : text) : result PyErr (list CompareGeo.Row) :=
  (t <-? decodeUtf8 file ;; ds <-? DictReader t ;; Ok ((fun d : gmap string (option string) => (cellOf <$> d : CompareGeo.Row)) <$> ds))%result.

(** The comparison script on the contents of its two files. *)
Definition compareFiles (colocated_file distributed_file : text) (output : string) : result PyErr (list string * option string) :=
  (c <-? readCsv colocated_file ;; d <-? readCsv distributed_file ;; CompareGeo.main c d output)%result.

(** ** When the comparison raises *)

Lemma readCsv_cases file :
  match readCsv file with
  | Ok rows => validUtf8 file = true /\ Forall row_ok rows /\ (length rows <= length file)%nat
  | Err UnicodeDecodeError => validUtf8 file = false
  | Err e => e = CsvError /\ validUtf8 file = true /\ FIELD_LIMIT < nchars file
  end.
Proof.
  unfold readCsv, decodeUtf8. destruct (validUtf8 file); [|done]. cbn [rbind]. pose proof (DictReader_bound file) as Hb.
  destruct (DictReader file) as [ds|e]; cbn [rbind]; [|by destruct Hb as [-> ?]]. rewrite length_fmap. split_and!; [done| |done].
  apply Forall_fmap, Forall_true. intros d k c Hk. by apply (lookup_fmap_Some (M := gmap string) cellOf d k c) in Hk as ([s|] & <- & _).
Qed.


Definition line (cells : string) : text := chars cells ++ [CR; LF].
Definition header : text := line "round,write_status,write_latency_ms,read_latency_avg_ms,convergence_ms,immediate_stale_reads,replica_count".


(** ** Cells through the file *)

(** What a run recorded in a column, for the rounds whose write was answered
    with 200. *)
Definition acknowledged (rows : list GeoExperiment.Row) : list GeoExperiment.Row :=
  filter (fun row => bool_decide (integer (row !! "write_status") = Some 200) = true) rows.

Definition recorded (rows : list GeoExperiment.Row) (field : string) : list float :=
  omap (fun row => numeric (row !! field)) rows.

Lemma csvCell_numeric field v : field ∈ NUMERIC_FIELDS -> exactVal v -> cellType field v ->
  floatCell (Some (to_float (CStr (str (csvCell v))))) = numeric (Some v).
Proof.
  intros Hf He Ht. unfold csvCell. rewrite str_chars. unfold to_float. destruct v as [|z|f|s]; cbn [show numeric].
  - done.
  - rewrite bool_decide_eq_false_2, py_float_pretty; [done|]. intros Hnil. pose proof (py_float_pretty z) as Hp. by rewrite Hnil in Hp.
  - rewrite bool_decide_eq_false_2, repr_roundtrip; [done|done|]. intros Hnil. pose proof (repr_roundtrip f He) as Hp. by rewrite Hnil in Hp.
  - destruct Ht as [->|Ht]; [done|]. exfalso. revert Ht. rewrite !elem_of_cons, elem_of_nil.
    intros [->|[->|[]]]; by apply (bool_decide_eq_true_2 _) in Hf.
Qed.

Lemma csvCell_status v : exactVal v -> cellType "write_status" v ->
  isStatus200 (Some (CStr (str (csvCell v)))) = bool_decide (integer (Some v) = Some 200).
Proof.
  intros He Ht. unfold csvCell. rewrite str_chars. cbn [isStatus200]. apply bool_decide_ext.
  destruct v as [|z|f|s]; cbn [show integer]; [done| | |].
  - change "200" with (pretty 200). split; [intros ->%(inj pretty); done|by intros [= ->]].
  - cbn in Ht. by apply (bool_decide_eq_true_2 _) in Ht.
  - destruct Ht as [->|Ht]; [done|]. by apply (bool_decide_eq_true_2 _) in Ht.
Qed.

Lemma parseRow_lookup row k :
  parseRow row !! k = if bool_decide (k ∈ NUMERIC_FIELDS) then to_float <$> row !! k else row !! k.
Proof.
  unfold parseRow. assert (NoDup NUMERIC_FIELDS) as Hnd by (apply (bool_decide_unpack _); by vm_compute).
  revert row Hnd. generalize NUMERIC_FIELDS as fs. induction fs as [|f fs IH]; intros row Hnd; [done|].
  apply NoDup_cons in Hnd as [Hf Hnd]. cbn [foldl]. rewrite IH by done. destruct (decide (k = f)) as [->|Hk].
  - rewrite bool_decide_eq_false_2, bool_decide_eq_true_2 by set_solver.
    destruct (row !! f) as [c|] eqn:E; [apply (lookup_insert_eq (M := gmap string))|done].
  - rewrite (bool_decide_ext (k ∈ f :: fs) (k ∈ fs)) by set_solver.
    destruct (row !! f) as [c|]; [|done].
    by rewrite (lookup_insert_ne (M := gmap string) row f k (to_float c) (not_eq_sym Hk)).
Qed.

(** A row as it comes back from the file. *)
Definition comesBack (row : GeoExperiment.Row) (d : CompareGeo.Row) : Prop :=
  (forall field, field ∈ NUMERIC_FIELDS -> floatCell (d !! field) = numeric (row !! field)) /\
  isStatus200 (d !! "write_status") = bool_decide (integer (row !! "write_status") = Some 200).

Lemma cellText_eq (row : GeoExperiment.Row) k :
  PyCsv.cellText csvCell row k = match row !! k with Some v => csvCell v | None => [] end.
Proof. done. Qed.

Lemma typed_comesBack row (d : gmap string (option string)) : typed row ->
  (forall k, d !! k = if bool_decide (k ∈ fieldnames) then Some (Some (str (PyCsv.cellText csvCell row k))) else None) ->
  comesBack row (parseRow (cellOf <$> d)).
Proof.
  intros Ht Hd. assert (forall k, k ∈ fieldnames -> (cellOf <$> d : CompareGeo.Row) !! k = Some (CStr (str (PyCsv.cellText csvCell row k)))) as Hk.
  { intros k Hk. etrans; [apply (lookup_fmap (M := gmap string))|]. by rewrite Hd, bool_decide_eq_true_2. }
  split.
  - intros field Hf. assert (field ∈ fieldnames) as Hin.
    { revert field Hf. apply (Forall_forall (fun x => x ∈ fieldnames)), (bool_decide_unpack _). by vm_compute. }
    rewrite parseRow_lookup, bool_decide_eq_true_2, (Hk field Hin), cellText_eq by done.
    destruct (row !! field) as [v|] eqn:E; [|done]. destruct (Ht _ _ E) as (_ & He & Hc). by apply (csvCell_numeric field).
  - rewrite parseRow_lookup. change (bool_decide ("write_status" ∈ NUMERIC_FIELDS)) with false. cbv iota.
    rewrite Hk, cellText_eq by set_solver.
    destruct (row !! "write_status") as [v|] eqn:E; [|done]. destruct (Ht _ _ E) as (_ & He & Hc). by apply csvCell_status.
Qed.

(** Numbers and statuses of a whole file. *)
Lemma comesBack_values rows ds field : Forall2 comesBack rows ds -> field ∈ NUMERIC_FIELDS ->
  values (successful_rounds ds) field = recorded (acknowledged rows) field /\
  length (successful_rounds ds) = length (acknowledged rows).
Proof.
  intros Hall Hf. unfold values, recorded, successful_rounds, acknowledged.
  induction Hall as [|row d rows ds [Hv Hs] _ [IH1 IH2]]; [done|].
  destruct (bool_decide (integer (row !! "write_status") = Some 200)) eqn:Eb.
  - rewrite !filter_cons_True by congruence. cbn [omap list_omap length]. rewrite (Hv _ Hf), IH2. split; [|done].
    destruct (numeric (row !! field)); [by rewrite IH1|done].
  - by rewrite !filter_cons_False by congruence.
Qed.

(** ** The whole pipeline *)

(** No cell exceeds the size that [csv] reads. *)
Definition short (rows : list GeoExperiment.Row) : Prop :=
  Forall (fun row : GeoExperiment.Row => map_Forall (fun _ v => fits (csvCell v)) row) rows.

#[export] Instance short_dec rows : Decision (short rows).
Proof. apply Forall_dec. intros row. apply map_Forall_dec. intros k v. unfold fits. apply _. Defined.

Lemma readCsv_run rows t : Forall typed rows -> short rows -> writeFile csvCell fieldnames rows = Ok t -> validUtf8 t = true ->
  exists c, readCsv t = Ok c /\ Forall2 comesBack rows (load_rows c) /\ Forall row_ok c /\ length c = length rows.
Proof.
  intros Ht Hs Hw Hv.
  destruct (DictReader_writeFile csvCell fieldnames) with (rows := rows) as (t' & ds & Hw' & Hd & Hall).
  { apply (bool_decide_unpack _). by vm_compute. }
  { done. }
  { apply (bool_decide_unpack (Forall (fun n => nchars (chars n) <= FIELD_LIMIT) fieldnames)). by vm_compute. }
  { apply Forall_forall. intros row Hrow k v E. split.
    - by apply (proj1 (Forall_forall _ _) Ht row Hrow k v).
    - by apply (proj1 (Forall_forall _ _) Hs row Hrow k v). }
  rewrite Hw in Hw'. injection Hw' as <-. eexists. split_and!.
  - unfold readCsv, decodeUtf8. rewrite Hv. cbn [rbind]. by rewrite Hd.
  - unfold load_rows. apply Forall2_fmap_r, Forall2_fmap_r. revert Ht. clear -Hall.
    induction Hall as [|row d rows ds Hr _ IH]; intros Ht; [constructor|]. apply Forall_cons in Ht as [Ht Hts].
    constructor; [by apply typed_comesBack|by apply IH].
  - apply Forall_fmap, Forall_true. intros d k c Hk.
    by apply (lookup_fmap_Some (M := gmap string) cellOf d k c) in Hk as ([s|] & <- & _).
  - rewrite length_fmap. symmetry. by apply Forall2_length in Hall.
Qed.

(** What the comparison computes from a file is what the run recorded: the
    rounds it counts are those whose write was answered with 200, and the values
    of every numeric column are the recorded ones, in order. *)
Definition reports (rows : list GeoExperiment.Row) (c : list CompareGeo.Row) : Prop :=
  length (load_rows c) = length rows /\
  length (successful_rounds (load_rows c)) = length (acknowledged rows) /\
  forall field, field ∈ NUMERIC_FIELDS ->
    values (successful_rounds (load_rows c)) field = recorded (acknowledged rows) field.

Lemma readCsv_reports rows t : Forall typed rows -> short rows -> writeFile csvCell fieldnames rows = Ok t -> validUtf8 t = true ->
  exists c, readCsv t = Ok c /\ reports rows c /\ Forall row_ok c /\ length c = length rows.
Proof.
  intros Ht Hs Hw Hv. destruct (readCsv_run rows t Ht Hs Hw Hv) as (c & Hr & Hall & Hok & Hlen).
  exists c. split_and!; [done| |done|done]. split_and!.
  - unfold load_rows. by rewrite length_fmap.
  - by apply (comesBack_values _ _ "replica_count"); [|set_solver].
  - intros field Hf. by apply comesBack_values.
Qed.

Lemma compare_runs {W1 W2 : Type} `{World W1} `{World W2} (fuel1 fuel2 : nat) (args1 args2 : Args)
    (w1 w1' : W1) (w2 w2' : W2) (run1 run2 : Run) (output : string) :
  colocated_main fuel1 args1 w1 = (w1', Ret run1) -> distributed_main fuel2 args2 w2 = (w2', Ret run2) ->
  short (run_rows run1) -> short (run_rows run2) ->
  rounds args1 < 2 ^ 53 -> rounds args2 < 2 ^ 53 ->
  exists console report c d,
    compareFiles (csv_file run1) (csv_file run2) output = Ok (console, report) /\
    readCsv (csv_file run1) = Ok c /\ reports (run_rows run1) c /\
    readCsv (csv_file run2) = Ok d /\ reports (run_rows run2) d.
Proof.
  intros E1 E2 Hs1 Hs2 Hr1 Hr2.
  destruct (main_measured _ _ _ _ _ E1) as (Ht1 & Hrows1 & Hw1 & Hv1), (main_measured _ _ _ _ _ E2) as (Ht2 & Hrows2 & Hw2 & Hv2).
  destruct (readCsv_reports _ _ Ht1 Hs1 Hw1 Hv1) as (c & Hc & Hrc & Hokc & Hlc).
  destruct (readCsv_reports _ _ Ht2 Hs2 Hw2 Hv2) as (d & Hd & Hrd & Hokd & Hld).
  apply Forall2_length in Hrows1, Hrows2. rewrite length_seqZ in Hrows1, Hrows2.
  destruct (main_Ok c d output) as (console & report & Hm & _); [done|done|lia|lia|].
  exists console, report, c, d. split_and!; try done. unfold compareFiles. rewrite Hc. cbn [rbind]. by rewrite Hd.
Qed.

(** C26. The pipeline of the geo-distribution study loses nothing: for any two
    runs of the measurement scripts (whatever the clusters answered) whose
    cells are within the reader's size limit, the comparison of their two CSV
    files never raises, and computes its reports from exactly what was measured:
    one row per round, as successful rounds those whose write was answered with
    200, and in every numeric column the very floats recorded, through their
    decimal text and the quoting of the file. *)
Theorem comparison_of_runs {W1 W2 : Type} `{World W1} `{World W2} (fuel1 fuel2 : nat) (args1 args2 : Args)
    (w1 w1' : W1) (w2 w2' : W2) (run1 run2 : Run) (output : string) :
  colocated_main fuel1 args1 w1 = (w1', Ret run1) -> distributed_main fuel2 args2 w2 = (w2', Ret run2) ->
  short (run_rows run1) -> short (run_rows run2) ->
  rounds args1 < 2 ^ 53 -> rounds args2 < 2 ^ 53 ->
  exists console report c d,
    compareFiles (csv_file run1) (csv_file run2) output = Ok (console, report) /\
    readCsv (csv_file run1) = Ok c /\ reports (run_rows run1) c /\
    readCsv (csv_file run2) = Ok d /\ reports (run_rows run2) d.
Proof. apply compare_runs. Qed.

(** Two rounds against simulated nodes, and two against unreachable ones. *)
Definition demo1 := colocated_main (H := simWorld true) 100 demo_args (1 # 2)%Q.
Definition demo2 := distributed_main (H := simWorld false) 100 demo_args 0%Q.

Definition shortRun {W} (o : W * outcome Run) : bool :=
  match o.2 with Ret run => bool_decide (short (run_rows run)) | _ => false end.

Example demo1_short : shortRun demo1 = true.
Proof. by vm_compute. Qed.
Example demo2_short : shortRun demo2 = true.
Proof. by vm_compute. Qed.

Lemma shortRun_true {W} (o : W * outcome Run) : shortRun o = true ->
  exists w run, o = (w, Ret run) /\ short (run_rows run).
Proof.
  destruct o as [w [run|e|]]; [|done..]. intros H. exists w, run. split; [done|]. exact (bool_decide_eq_true_1 _ H).
Qed.

Lemma comparison_of_runs_witness :
  exists w1 w2 run1 run2, demo1 = (w1, Ret run1) /\ demo2 = (w2, Ret run2) /\
    exists console report c, compareFiles (csv_file run1) (csv_file run2) "" = Ok (console, report) /\
      readCsv (csv_file run1) = Ok c /\ reports (run_rows run1) c.
Proof.
  destruct (shortRun_true _ demo1_short) as (w1 & run1 & E1 & S1).
  destruct (shortRun_true _ demo2_short) as (w2 & run2 & E2 & S2).
  exists w1, w2, run1, run2. split; [exact E1|]. split; [exact E2|].
  destruct (comparison_of_runs (H := simWorld true) (H0 := simWorld false) 100 100 demo_args demo_args _ w1 _ w2 run1 run2 ""
    E1 E2 S1 S2 ltac:(done) ltac:(done)) as (console & report & c & d & Hcmp & Hc & Hr & _).
  exists console, report, c. split; [exact Hcmp|]. split; [exact Hc|exact Hr].
Defined.
