(* ===== verification/GeoData.v ===== *)
(** * The committed measurements

    The two CSV files and the report that the repository holds
    ([geo_colocated/terraform/colocated_results.csv],
    [geo_distributed/terraform/geo_distributed_results.csv] and
    [geo_tradeoff_report.md] of [infrastructure/experiments]), line by line.
    Evaluating the model of the comparison script on the two files gives the
    report: the definitions of PyFloat, PyCsv and CompareGeo compute what the
    interpreter computed. *)

From Stdlib Require Import Ascii.
From S2P Require Import Prelude PyStr PyFloat PyCsv CompareGeo GeoPipeline.
#[local] Open Scope Z_scope.

(** The text of a file whose lines end in a line feed. *)
Definition fileOf (lines : list string) : text := l ← lines; chars l ++ [LF].

Definition colocated_results : list string :=
  ["round,leader,write_status,write_latency_ms,immediate_stale_reads,replica_count,read_latency_avg_ms,read_latency_min_ms,read_latency_max_ms,convergence_ms,error";
   "1,http://100.27.191.136:8000,200,408.4440000005998,0,3,252.36989999878764,147.4908999953186,406.3848000005237,786.7786999995587,";
   "2,http://100.27.191.136:8000,200,329.1922999997041,0,3,250.26133333449252,146.5918999965652,376.58360000204993,1055.6529999958002,";
   "3,http://100.27.191.136:8000,200,358.94790000020294,0,3,444.03590000001714,309.74609999975655,660.6255000006058,1681.0056000031182,";
   "4,http://100.27.191.136:8000,200,291.27149999840185,0,3,496.69790000189096,163.15620000386843,678.3981999979005,972.6964000001317,";
   "5,http://100.27.191.136:8000,200,58.719900000141934,0,3,181.87369999941438,104.96469999634428,292.95409999758704,1338.4581999998773,";
   "6,http://100.27.191.136:8000,200,69.1923999984283,0,3,411.6368666655035,227.50129999622004,620.3753000008874,769.5715000008931,";
   "7,http://100.27.191.136:8000,200,275.4754999987199,0,3,414.67130000091856,207.9130999991321,541.3409000029787,704.0927999987616,";
   "8,http://100.27.191.136:8000,200,131.13570000132313,0,3,454.8053333322362,97.60019999521319,776.1597999997321,1224.6304000000237,";
   "9,http://100.27.191.136:8000,200,143.79110000299988,0,3,600.860233331332,226.4833000008366,800.6155999973998,1201.5895000004093,";
   "10,http://100.27.191.136:8000,200,394.52239999809535,0,3,315.230733336648,177.8180000037537,476.3814000034472,998.7709999986691,";
   "11,http://100.27.191.136:8000,200,111.96000000200002,0,3,158.50540000246838,116.68190000636969,225.65960000065388,1578.5321000003023,";
   "12,http://100.27.191.136:8000,200,983.1938999996055,0,3,459.5555999985663,275.1946999997017,560.6974999973318,668.9418000023579,";
   "13,http://100.27.191.136:8000,200,196.52620000124443,0,3,287.08496666513383,241.24989999836544,312.0091999953729,890.9749000013107,";
   "14,http://100.27.191.136:8000,200,339.7307000050205,0,3,420.89056666736724,270.5723000035505,688.3411999951932,778.4018000020296,";
   "15,http://100.27.191.136:8000,200,621.7174999983399,0,3,333.7783000000248,285.7612000007066,421.7860999997356,1036.7937999981223,";
   "16,http://100.27.191.136:8000,200,579.6969000002719,0,3,78.3155000002201,70.28759999957401,85.61380000173813,783.235999995668,";
   "17,http://100.27.191.136:8000,200,89.04359999723965,0,3,73.74596666583481,55.52750000060769,93.8964999950258,191.0617999965325,";
   "18,http://100.27.191.136:8000,200,68.18649999331683,0,3,66.14789999972952,63.483799996902235,70.9673000019393,178.18090000218945,";
   "19,http://100.27.191.136:8000,200,81.33490000182064,0,3,70.78279999889976,59.394500000053085,83.37359999859473,217.62410000519594,";
   "20,http://100.27.191.136:8000,200,66.48739999945974,0,3,68.0837999995371,59.416199997940566,76.46509999904083,700.2311000032932,";
   "21,http://100.27.191.136:8000,200,643.0625000066357,0,3,309.31379999916925,264.85849999880884,347.28439999889815,1095.4985999997007,";
   "22,http://100.27.191.136:8000,200,638.609900001029,0,3,338.52376666861045,322.4558000001707,353.22930000256747,576.1958000002778,";
   "23,http://100.27.191.136:8000,200,297.2592000005534,0,3,377.6604999996683,85.66969999810681,700.200200000836,618.3172000019113,";
   "24,http://100.27.191.136:8000,200,367.97260000457754,0,3,207.87180000237035,149.62000000377884,279.5590000023367,844.2535000067437,";
   "25,http://100.27.191.136:8000,200,726.3834999976098,0,3,334.6556333344779,155.58070000406587,675.6654999990133,1685.570400004508,";
   "26,http://100.27.191.136:8000,200,62.02119999943534,0,3,404.295800003941,230.7576000021072,628.5590000043157,811.9214000034845,";
   "27,http://100.27.191.136:8000,200,305.2215999996406,0,3,336.5657999990314,149.85819999856176,562.8470999945421,1007.2251000019605,";
   "28,http://100.27.191.136:8000,200,143.06099999521393,0,3,109.28580000230188,62.431199999991804,136.5187000046717,709.7705999985919,";
   "29,http://100.27.191.136:8000,200,115.48089999996591,0,3,124.75956666700465,114.1834000009112,141.05459999700543,414.4229000012274,";
   "30,http://100.27.191.136:8000,200,205.69850000174483,0,3,103.15496666832284,55.87740000191843,137.52319999912288,615.7515999948373,";
   "31,http://100.27.191.136:8000,200,307.2372999959043,0,3,192.01773333043093,141.44929999747546,242.14519999804907,1936.419300000125,";
   "32,http://100.27.191.136:8000,200,196.8020999993314,0,3,256.2442666652108,161.12609999981942,345.65469999506604,300.5258999983198,";
   "33,http://100.27.191.136:8000,200,55.04559999826597,0,3,58.947999998054,54.449299997941125,62.50729999737814,227.3642000000109,";
   "34,http://100.27.191.136:8000,200,69.90700000460492,0,3,61.09253333124798,53.48070000036387,67.30589999642689,219.6124999973108,";
   "35,http://100.27.191.136:8000,200,70.80799999675946,0,3,64.10723333101487,59.55510000057984,70.2127999975346,211.65040000050794,";
   "36,http://100.27.191.136:8000,200,78.69200000277488,0,3,61.180900001393944,57.88369999936549,63.60250000579981,204.2520999966655,";
   "37,http://100.27.191.136:8000,200,59.0511000045808,0,3,66.50519999917985,63.824899996689055,68.25899999967078,785.0854999996955,";
   "38,http://100.27.191.136:8000,200,397.51070000056643,0,3,235.07323333372673,163.91060000023572,370.3629000010551,741.6068000020459,";
   "39,http://100.27.191.136:8000,200,440.2568000004976,0,3,277.54863333393587,158.75619999860646,359.7370999996201,1161.984799997299,";
   "40,http://100.27.191.136:8000,200,763.1188000013935,0,3,377.08899999900797,147.31770000071265,722.2116999982973,1389.4120000040857,";
   "41,http://100.27.191.136:8000,200,324.69140000466723,0,3,127.0065999997314,78.38069999706931,208.36899999994785,1076.6696999999112,";
   "42,http://100.27.191.136:8000,200,126.48300000000745,0,3,235.7680000034937,109.40720000508009,311.67890000506304,274.02209999854676,";
   "43,http://100.27.191.136:8000,200,495.9702999985893,0,3,291.2566000013612,115.48300000140443,446.854900001199,1394.9283999972977,";
   "44,http://100.27.191.136:8000,200,199.2138999994495,0,3,78.35326666827314,64.4531000070856,92.05029999429826,227.2090999977081,";
   "45,http://100.27.191.136:8000,200,69.78430000162916,0,3,79.14840000012191,65.12369999836665,97.12710000167135,203.09629999974277,";
   "46,http://100.27.191.136:8000,200,62.55550000059884,0,3,67.50066666912365,57.216799999878276,76.56760000099894,236.96639999980107,";
   "47,http://100.27.191.136:8000,200,69.09119999909308,0,3,66.66096666352435,62.57039999763947,72.175099994638,438.9408999995794,";
   "48,http://100.27.191.136:8000,200,306.9117000050028,0,3,464.3505333345577,100.23809999984223,717.3344000038924,1519.2423999978928,";
   "49,http://100.27.191.136:8000,200,443.73410000116564,0,3,428.95833333507954,322.35360000049695,529.9154000022099,487.419700002647,";
   "50,http://100.27.191.136:8000,200,386.1051000058069,0,3,408.97036666622927,305.42839999543503,511.519200001203,382.8940000021248,";
   "51,http://100.27.191.136:8000,200,116.06249999749707,0,3,288.69853333405143,120.28300000383751,377.6625999962562,1145.0115999978152,";
   "52,http://100.27.191.136:8000,200,330.08450000488665,0,3,614.477866666372,395.83649999985937,796.9995000021299,1099.7967000002973,";
   "53,http://100.27.191.136:8000,200,358.59049999999115,0,3,531.3728333324738,507.28329999401467,567.084900001646,744.7689000036917,";
   "54,http://100.27.191.136:8000,200,565.1991999984602,0,3,302.59559999831254,271.8641999963438,326.9379999983357,410.35050000209594,";
   "55,http://100.27.191.136:8000,200,383.64069999806816,0,3,169.7916333335646,78.53769999928772,337.86130000225967,1420.6787000002805,";
   "56,http://100.27.191.136:8000,200,346.80780000053346,0,3,193.57196667018192,115.536900004372,297.56060000363505,1285.0863999992725,";
   "57,http://100.27.191.136:8000,200,167.48229999939213,0,3,176.70910000015283,77.80150000326103,276.5421000003698,1433.48960000003,";
   "58,http://100.27.191.136:8000,200,171.89939999661874,0,3,380.13946666615084,137.17099999485072,517.3496000061277,739.4389999972191,";
   "59,http://100.27.191.136:8000,200,186.22629999299534,0,3,476.2030333367875,208.73360000405228,636.9674000015948,662.4310999977752,";
   "60,http://100.27.191.136:8000,200,341.50470000167843,0,3,363.1033333319162,331.1466999948607,392.74119999754475,1331.1194999987492,";
   "61,http://100.27.191.136:8000,200,182.11090000113472,0,3,377.00390000100015,131.48270000237972,694.1331000052742,764.1692999968654,";
   "62,http://100.27.191.136:8000,200,172.26369999843882,0,3,212.3201000043385,169.8684000002686,287.5917000055779,862.8007000006619,";
   "63,http://100.27.191.136:8000,200,87.29219999804627,0,3,61.87590000142033,60.90940000285627,62.670799998159055,192.53970000136178,";
   "64,http://100.27.191.136:8000,200,72.24819999828469,0,3,72.06660000034996,63.70040000183508,82.91109999845503,202.8615000017453,";
   "65,http://100.27.191.136:8000,200,56.89120000170078,0,3,70.11520000135836,61.27520000154618,83.27290000306675,200.67379999818513,";
   "66,http://100.27.191.136:8000,200,62.73669999791309,0,3,131.0768666662625,81.39700000174344,193.81419999990612,701.3239000007161,";
   "67,http://100.27.191.136:8000,200,357.2051000010106,0,3,257.50830000227626,99.43220000423025,348.2688000003691,975.823600005242,";
   "68,http://100.27.191.136:8000,200,85.33229999738978,0,3,244.15163333469536,132.2645000036573,307.95360000047367,1295.4026000006706,";
   "69,http://100.27.191.136:8000,200,875.1803000050131,0,3,350.6367000033303,147.8521000026376,716.539200002444,953.9059000017005,";
   "70,http://100.27.191.136:8000,200,352.52069999842206,0,3,434.20633333395625,87.24039999651723,628.2986000005621,1297.062300000107,";
   "71,http://100.27.191.136:8000,200,344.2012000014074,0,3,230.10496666878075,117.42550000053598,307.57620000076713,594.2385000016657,";
   "72,http://100.27.191.136:8000,200,663.9533999987179,0,3,450.28806666717475,252.3363000000245,680.6006000042544,1280.4046000019298,";
   "73,http://100.27.191.136:8000,200,376.40619999729097,0,3,189.59043333355416,148.22280000225874,261.6651999996975,1172.0877999978256,";
   "74,http://100.27.191.136:8000,200,106.39050000463612,0,3,348.6794000006436,69.91710000147577,632.1469999966212,1735.252300000866,";
   "75,http://100.27.191.136:8000,200,445.23060000210535,0,3,118.1974999999511,64.35539999802131,204.01750000019092,995.6130999999004,";
   "76,http://100.27.191.136:8000,200,329.43580000574,0,3,161.66113333262425,88.72100000007777,299.5565000019269,912.4439000006532,";
   "77,http://100.27.191.136:8000,200,366.36659999931,0,3,58.04606666788459,55.65819999901578,61.831099999835715,199.5865999997477,";
   "78,http://100.27.191.136:8000,200,62.28529999498278,0,3,73.76956666848855,63.41909999900963,91.92510000139009,217.10950000124285,";
   "79,http://100.27.191.136:8000,200,69.16120000096271,0,3,75.68266666688335,70.70740000199294,83.1116999979713,215.48170000460232,";
   "80,http://100.27.191.136:8000,200,63.90059999830555,0,3,70.39540000065851,60.03210000199033,76.56470000074478,222.2939999992377,";
   "81,http://100.27.191.136:8000,200,149.93269999831682,0,3,345.9706333305803,291.6832999981125,404.42509999411413,1014.4736000002013,";
   "82,http://100.27.191.136:8000,200,348.35279999970226,0,3,397.6345666645405,193.64909999421798,693.1833999988157,906.1008999997284,";
   "83,http://100.27.191.136:8000,200,157.057900003565,0,3,559.5288999999563,375.24009999469854,653.9208000031067,771.7296999981045,";
   "84,http://100.27.191.136:8000,200,684.2609999948763,0,3,209.7734000029353,111.12049999792362,397.3297000047751,1312.7603000029922,";
   "85,http://100.27.191.136:8000,200,183.50739999732468,0,3,327.55243333425216,273.84380000148667,403.74619999784045,1160.5058999994071,";
   "86,http://100.27.191.136:8000,200,67.89320000098087,0,3,321.93673333191936,79.24110000021756,661.5566999971634,661.1455999955069,";
   "87,http://100.27.191.136:8000,200,66.03280000126688,0,3,60.27516666411733,57.65889999747742,63.49629999749595,207.53130000230158,";
   "88,http://100.27.191.136:8000,200,92.15930000209482,0,3,65.01679999928456,60.33600000228034,72.04110000020592,254.7950000007404,";
   "89,http://100.27.191.136:8000,200,78.09320000524167,0,3,79.49299999745563,60.95499999355525,91.49449999677017,195.54369999968912,";
   "90,http://100.27.191.136:8000,200,68.10219999897527,0,3,72.41200000134995,59.27170000359183,85.97340000414988,219.27529999811668,";
   "91,http://100.27.191.136:8000,200,64.31430000520777,0,3,66.80770000093617,64.14960000256542,69.24449999496574,228.90989999723388,";
   "92,http://100.27.191.136:8000,200,73.94580000254791,0,3,74.72006666406135,58.58619999344228,83.14539999992121,226.6416000056779,";
   "93,http://100.27.191.136:8000,200,70.52700000349432,0,3,70.35469999876416,66.96959999680985,75.1317000031122,518.3602999968571,";
   "94,http://100.27.191.136:8000,200,482.14439999719616,0,3,307.3354000031638,194.50180000421824,492.24559999856865,1546.5165999994497,";
   "95,http://100.27.191.136:8000,200,302.20940000435803,0,3,466.22143333418836,98.90630000154488,718.2235000000219,1175.205300001835,";
   "96,http://100.27.191.136:8000,200,395.9621999965748,0,3,203.36883333463143,103.66510000312701,373.90859999868553,819.4584000011673,";
   "97,http://100.27.191.136:8000,200,317.4425000033807,0,3,610.8198666624958,399.7851999956765,812.1170999947935,997.0130000001518,";
   "98,http://100.27.191.136:8000,200,74.06579999951646,0,3,312.26760000330006,125.51189999794587,440.8088000054704,791.2563999998383,";
   "99,http://100.27.191.136:8000,200,129.5174000042607,0,3,306.90799999865703,230.80089999712072,381.0908000014024,1214.1971999953967,";
   "100,http://100.27.191.136:8000,200,695.125400001416,0,3,433.97890000293654,107.54060000181198,717.0039000047836,879.4024000017089,"].

Definition geo_distributed_results : list string :=
  ["round,leader,write_status,write_latency_ms,immediate_stale_reads,replica_count,read_latency_avg_ms,read_latency_min_ms,read_latency_max_ms,convergence_ms,error";
   "1,http://18.233.244.123:8000,200,201.46090000343975,0,3,229.14976666652365,152.9106000016327,300.09740000241436,1066.4582000026712,";
   "2,http://18.233.244.123:8000,200,386.3290000008419,0,3,365.6754999998763,249.53649999952177,465.3461999987485,844.0850999977556,";
   "3,http://18.233.244.123:8000,200,83.01059999939753,0,3,495.48820000200067,335.9576000002562,580.4287000064505,1363.3754999973462,";
   "4,http://18.233.244.123:8000,200,481.31280000234256,0,3,346.7864999984158,237.92520000279183,498.67389999417355,890.6093999976292,";
   "5,http://18.233.244.123:8000,200,433.8142999986303,0,3,457.27560000038164,278.62650000315625,702.5095999997575,746.650100001716,";
   "6,http://18.233.244.123:8000,200,416.5357000019867,0,3,375.11559999984456,328.37129999825265,426.01500000455417,1023.4088999932283,";
   "7,http://18.233.244.123:8000,200,290.2685000008205,0,3,490.74549999689526,362.2999999934109,678.6159999974188,1836.4776000016718,";
   "8,http://18.233.244.123:8000,200,148.122799997509,0,3,249.72526666776199,82.1360000045388,502.21919999603415,328.8152000022819,";
   "9,http://18.233.244.123:8000,200,81.4916999952402,0,3,134.3734000013986,96.45370000362163,175.01790000096662,342.16449999803444,";
   "10,http://18.233.244.123:8000,200,88.0639999959385,0,3,130.28770000043247,83.30859999841778,223.34190000401577,859.3718000047375,";
   "11,http://18.233.244.123:8000,200,424.84739999781596,0,3,340.90186666677863,229.95300000184216,464.3664999966859,1229.758400004357,";
   "12,http://18.233.244.123:8000,200,322.32700000167824,0,3,457.408133331531,316.49069999548374,653.5401000001002,1229.9042000013287,";
   "13,http://18.233.244.123:8000,200,291.0377000007429,0,3,580.3659999995338,342.36740000051213,1013.9443000007304,1373.077000003832,";
   "14,http://18.233.244.123:8000,200,334.79889999580337,0,3,302.2019999989425,119.74179999378975,416.894100002537,1417.432700000063,";
   "15,http://18.233.244.123:8000,200,143.3519999991404,0,3,453.64993333350867,372.86540000059176,592.516999997315,1594.8013000015635,";
   "16,http://18.233.244.123:8000,200,150.70610000111628,0,3,537.855866663449,350.81239999999525,678.0995999943116,928.097500000149,";
   "17,http://18.233.244.123:8000,200,110.80019999644719,0,3,293.3578666658529,115.55769999540644,442.1539000031771,608.0676999990828,";
   "18,http://18.233.244.123:8000,200,89.21939999709139,0,3,114.52723333301644,80.67239999945741,176.18829999992158,340.3470999983256,";
   "19,http://18.233.244.123:8000,200,97.81179999845335,0,3,108.18816666384616,56.62399999710033,190.68249999691034,369.98859999584965,";
   "20,http://18.233.244.123:8000,200,91.72920000128215,0,3,122.55300000106217,77.20759999938309,198.25220000348054,356.89759999513626,";
   "21,http://18.233.244.123:8000,200,98.08889999840176,0,3,123.45666666321146,74.97129999683239,187.26159999641823,346.86130000045523,";
   "22,http://18.233.244.123:8000,200,74.53069999610307,0,3,117.22186666884227,63.572700004442595,186.4553000050364,833.8461000021198,";
   "23,http://18.233.244.123:8000,200,75.2783999996609,0,3,548.627333334783,383.2925000024261,679.3646000005538,1227.22889999568,";
   "24,http://18.233.244.123:8000,200,296.7357000015909,0,3,477.62643333165516,221.3361999965855,750.2247000011266,852.7962000007392,";
   "25,http://18.233.244.123:8000,200,363.8774999999441,0,3,566.9404333336084,346.6712000008556,968.6942999978783,913.7983000036911,";
   "26,http://18.233.244.123:8000,200,352.2277000010945,0,3,326.6254333332957,205.20260000193957,505.0007999961963,1511.4135000039823,";
   "27,http://18.233.244.123:8000,200,694.1471000027377,0,3,413.9534999994794,231.23969999869587,665.2195999995456,1018.5469999996712,";
   "28,http://18.233.244.123:8000,200,270.74220000213245,0,3,336.82993333301664,239.81710000225576,462.0863999953144,1024.1670999967027,";
   "29,http://18.233.244.123:8000,200,662.4186000044574,0,3,494.5828999989317,219.88469999632798,716.7644000001019,1496.0871000002953,";
   "30,http://18.233.244.123:8000,200,312.62689999857685,0,3,367.9796333332585,295.3906000038842,458.0324999988079,1147.5879999998142,";
   "31,http://18.233.244.123:8000,200,231.68160000204807,0,3,410.0355666669202,309.6653000029619,497.8871999992407,1957.104100001743,";
   "32,http://18.233.244.123:8000,200,391.7345000008936,0,3,414.64646666766686,229.49460000381805,640.1043000005302,909.5698999954038,";
   "33,http://18.233.244.123:8000,200,352.704699995229,0,3,334.5999333347815,163.98270000354387,510.8022999993409,1172.9917000047863,";
   "34,http://18.233.244.123:8000,200,218.05599999788683,0,3,642.7967333341561,610.2278000034858,702.9861999981222,1437.4864999990677,";
   "35,http://18.233.244.123:8000,200,379.4564999989234,0,3,412.0374333288055,243.88369999360293,529.8984999972163,1424.780400004238,";
   "36,http://18.233.244.123:8000,200,640.4359000007389,0,3,570.9671666651653,421.83039999508765,716.3241000016569,1478.2641999991029,";
   "37,http://18.233.244.123:8000,200,291.71040000073845,0,3,283.46693333393586,134.96070000110194,378.3765999978641,1385.8064000014565,";
   "38,http://18.233.244.123:8000,200,228.3575000037672,0,3,419.285533336127,289.4975000017439,622.8193000060855,976.7537999941851,";
   "39,http://18.233.244.123:8000,200,435.29010000202106,0,3,408.8029000001067,260.6393999958527,580.9280000030412,677.4836000040523,";
   "40,http://18.233.244.123:8000,200,485.6201000002329,0,3,126.64983333525015,84.4483000037144,198.06830000015907,373.24570000055246,";
   "41,http://18.233.244.123:8000,200,105.85379999974975,0,3,112.73140000169708,69.91840000409866,181.21629999950528,340.86350000143284,";
   "42,http://18.233.244.123:8000,200,107.0292000003974,0,3,209.3203333351994,64.59190000168746,479.5825000037439,713.4399000060512,";
   "43,http://18.233.244.123:8000,200,521.8371000009938,0,3,459.1511333322463,327.83740000013495,594.749399999273,1118.4403000006569,";
   "44,http://18.233.244.123:8000,200,374.1560999987996,0,3,308.9276666675384,107.93770000600489,457.03599999978906,990.201699998579,";
   "45,http://18.233.244.123:8000,200,295.0442000001203,0,3,573.5388333341689,404.6770999993896,679.6319999994012,1433.0019999979413,";
   "46,http://18.233.244.123:8000,200,318.26850000652485,0,3,366.2948000007115,84.6672000043327,530.5200000002515,1344.9112000016612,";
   "47,http://18.233.244.123:8000,200,208.20259999891277,0,3,553.9772666694868,291.9714000017848,702.1211000028416,1659.8483999987366,";
   "48,http://18.233.244.123:8000,200,548.3087000029627,0,3,294.26276666830137,108.96930000308203,431.0075000030338,897.4611000012374,";
   "49,http://18.233.244.123:8000,200,356.08309999952326,0,3,373.16956666957896,324.1087999995216,439.1425000067102,1248.650000001362,";
   "50,http://18.233.244.123:8000,200,381.4646999962861,0,3,765.163700004147,587.5603000022238,1117.437400003837,948.4287000013865,";
   "51,http://18.233.244.123:8000,200,270.97249999496853,0,3,446.34029999967123,358.65519999788376,555.1530000011553,1974.0290000045206,";
   "52,http://18.233.244.123:8000,200,278.504800000519,0,3,441.45146666899865,412.6224000065122,483.3751999976812,857.7176999970106,";
   "53,http://18.233.244.123:8000,200,300.1522999984445,0,3,418.69096666778205,351.49169999931473,552.3820000016713,1331.020500001614,";
   "54,http://18.233.244.123:8000,200,93.03069999441504,0,3,448.0473999986619,305.65809999825433,612.9715999995824,1536.3268000000971,";
   "55,http://18.233.244.123:8000,200,356.4001999984612,0,3,374.40013333737926,167.2145000047749,568.7121000009938,1337.749000005715,";
   "56,http://18.233.244.123:8000,200,133.7439999988419,0,3,562.3777666696697,341.26060000562575,981.744400000025,1338.284699995711,";
   "57,http://18.233.244.123:8000,200,145.15360000223154,0,3,543.7740999987,126.30280000303173,788.1704999963404,1287.6179000013508,";
   "58,http://18.233.244.123:8000,200,607.3796000055154,0,3,446.8769000013708,291.00409999955446,721.6163000048255,1294.408800000383,";
   "59,http://18.233.244.123:8000,200,378.2190999991144,0,3,364.63900000186794,135.6422000026214,528.7112000005436,578.4933000031742,";
   "60,http://18.233.244.123:8000,200,516.1789000048884,0,3,170.99649999727262,110.05060000024969,263.24219999514753,327.14129999658326,";
   "61,http://18.233.244.123:8000,200,88.64929999981541,0,3,109.58369999813537,70.72429999971064,181.8649999986519,387.13909999933094,";
   "62,http://18.233.244.123:8000,200,92.71679999801563,0,3,112.64460000044589,76.52049999887822,182.80919999961043,564.2223000031663,";
   "63,http://18.233.244.123:8000,200,152.18599999934668,0,3,566.7961666670939,370.8580000020447,701.3768999968306,1079.4889999961015,";
   "64,http://18.233.244.123:8000,200,90.62890000495827,0,3,441.942533335047,311.7513999968651,574.391200003447,1041.8220999999903,";
   "65,http://18.233.244.123:8000,200,306.69099999795435,0,3,475.48126666758134,401.18580000125803,609.0217000019038,1029.0838000000804,";
   "66,http://18.233.244.123:8000,200,361.25239999819314,0,3,371.8561333347073,257.019600001513,460.32910000212723,1433.8227999978699,";
   "67,http://18.233.244.123:8000,200,512.5112999958219,0,3,388.1206000005477,170.14389999530977,705.1654000024428,1740.6523000026937,";
   "68,http://18.233.244.123:8000,200,723.4947999968426,0,3,352.82283333314507,260.2804999987711,500.4878000036115,1215.7331999987946,";
   "69,http://18.233.244.123:8000,200,96.13250000256812,0,3,205.35856666780697,201.9819000051939,210.18149999872549,1396.095800002513,";
   "70,http://18.233.244.123:8000,200,390.2488999956404,0,3,359.34573333361186,142.01429999957327,656.2622999990708,1161.2867999938317,";
   "71,http://18.233.244.123:8000,200,261.86739999684505,0,3,319.63483333189896,251.04959999589482,404.17709999746876,1711.3524000014877,";
   "72,http://18.233.244.123:8000,200,966.2026000005426,0,3,288.2630000046144,64.45660000463249,448.0935000028694,848.332699999446,";
   "73,http://18.233.244.123:8000,200,129.59869999758666,0,3,479.7117333315934,374.91289999888977,553.8778999980423,1864.435700001195,";
   "74,http://18.233.244.123:8000,200,373.56759999966016,0,3,561.7864333325997,306.3648999959696,717.8299000006518,1738.6680000054184,";
   "75,http://18.233.244.123:8000,200,411.6384999942966,0,3,589.1615000000456,331.2630000000354,785.0391999963904,1037.393799997517,";
   "76,http://18.233.244.123:8000,200,774.5569000035175,0,3,540.9074333341172,428.03380000259494,718.6063999979524,1430.8203000036883,";
   "77,http://18.233.244.123:8000,200,443.169799997122,0,3,373.90023333621986,227.3711000016192,573.9362000022084,1197.0032999961404,";
   "78,http://18.233.244.123:8000,200,433.1416999993962,0,3,317.66403333313065,250.71110000135377,405.30179999768734,1608.3600999991177,";
   "79,http://18.233.244.123:8000,200,476.5500999928918,0,3,334.56036666757427,92.69549999589799,545.7644000052824,863.5098000013386,";
   "80,http://18.233.244.123:8000,200,116.79219999496127,0,3,218.90169999824138,79.45199999812758,471.61059999780264,989.8803000032785,";
   "81,http://18.233.244.123:8000,200,75.19480000337353,0,3,114.91733333241427,64.54269999812823,194.5655000017723,316.49230000039097,";
   "82,http://18.233.244.123:8000,200,103.92500000307336,0,3,112.58213333348976,65.29299999965588,179.8041000001831,361.02350000146544,";
   "83,http://18.233.244.123:8000,200,94.93609999481123,0,3,114.78509999869857,65.32599999627564,184.58699999609962,411.65490000275895,";
   "84,http://18.233.244.123:8000,200,84.53520000330172,0,3,113.19576666573994,66.1404999991646,184.99159999919357,330.2941000001738,";
   "85,http://18.233.244.123:8000,200,79.57979999628151,0,3,107.68750000230891,59.813100000610575,183.17860000388464,700.3417000014451,";
   "86,http://18.233.244.123:8000,200,333.49550000275485,0,3,335.01006666726124,306.00219999905676,361.07780000020284,1189.442800001416,";
   "87,http://18.233.244.123:8000,200,102.35360000660876,0,3,398.40766666748095,152.19310000247788,655.7648000016343,1113.4958999973605,";
   "88,http://18.233.244.123:8000,200,306.91630000364967,0,3,351.7833000005339,309.2956000036793,416.6566999992938,1262.3333000010462,";
   "89,http://18.233.244.123:8000,200,103.78339999442687,0,3,383.4148999982669,157.39219999522902,687.396200002695,1215.7399999996414,";
   "90,http://18.233.244.123:8000,200,457.83070000470616,0,3,405.8268666655446,162.33049999573268,799.4543000022531,1075.9757999985595,";
   "91,http://18.233.244.123:8000,200,74.77510000171605,0,3,212.05823333245158,76.0214999972959,477.3203000004287,1171.6483999989578,";
   "92,http://18.233.244.123:8000,200,248.8807999980054,0,3,443.26666666408227,73.03069999761647,713.200300000608,1426.212200000009,";
   "93,http://18.233.244.123:8000,200,352.7721999998903,0,3,427.07246666395804,258.10899999487447,684.4454999954905,1176.1349999942468,";
   "94,http://18.233.244.123:8000,200,783.4656000050018,0,3,455.2912333359321,306.6316000040388,717.2642000004998,1715.734400000656,";
   "95,http://18.233.244.123:8000,200,632.2538000022178,0,3,342.055466666352,279.87710000161314,436.8507999970461,1267.1917999978177,";
   "96,http://18.233.244.123:8000,200,686.5216000005603,0,3,341.0561333342533,256.7371999975876,391.9034999998985,1385.6228000004194,";
   "97,http://18.233.244.123:8000,200,568.8339000043925,0,3,337.0490999999068,79.22580000013113,625.5684999996447,1433.5970999964047,";
   "98,http://18.233.244.123:8000,200,304.1680999958771,0,3,500.5518666633482,267.7124999972875,687.1615999989444,736.6327000054298,";
   "99,http://18.233.244.123:8000,200,311.6318000029423,0,3,340.41916666804656,73.43979999859584,631.3492000044789,1721.8939000013052,";
   "100,http://18.233.244.123:8000,200,407.6195000016014,0,3,443.1814999989001,177.93859999801498,740.7801000008476,1186.136299998907,"].

Definition geo_tradeoff_report : list string :=
  ["# Geo-Distribution Tradeoff Results";
   "";
   "| Deployment | Successful rounds | Avg write | P95 write | Avg read | Avg convergence | Immediate stale rate |";
   "|---|---:|---:|---:|---:|---:|---:|";
   "| Co-located | 100 | 266.26 ms | 684.80 ms | 251.60 ms | 799.20 ms | 0.00% |";
   "| Geo-distributed | 100 | 311.34 ms | 686.90 ms | 363.05 ms | 1090.10 ms | 0.00% |";
   "";
   "## Comparison";
   "";
   "- Geo-distributed avg write latency ratio: 1.17x";
   "- Geo-distributed avg read latency ratio: 1.44x";
   "- Geo-distributed avg convergence ratio: 1.36x";
   "";
   "## Interpretation Guide";
   "";
   "- Higher write latency in the geo-distributed setup indicates the cost of cross-region Raft consensus.";
   "- Lower read latency on nearby replicas would indicate the benefit of client proximity.";
   "- A higher immediate stale rate means followers are more likely to lag right after a write.";
   "- Higher convergence time means replicas take longer to observe the latest committed value."].

(** The committed report is reproduced: the comparison script, run on the
    two committed CSV files, writes exactly the committed Markdown report, byte
    for byte. *)
Example committed_report :
  exists console,
    compareFiles (fileOf colocated_results) (fileOf geo_distributed_results) "geo_tradeoff_report.md" =
      Ok (console, Some (str (fileOf geo_tradeoff_report))).
Proof. eexists. vm_compute. reflexivity. Qed.
