(* ===== verification/Failover.v ===== *)
(** * The leader-failover experiment

    [leader_election/experiment.py]: stop the leader's instance, time the
    re-election, check the data, restart the instance and check that it catches
    up.  Every printed line is modelled, in the terminal of [PyConsole.v]; a line
    is the argument of one [print]. *)

From Stdlib Require Import Lqa.
From S2P Require Import Prelude PyStr PyFloat PyStdev PyWorld PyConsole.
#[local] Open Scope Z_scope.
#[local] Open Scope py_scope.

Section Failover.
Context {W : Type} `{World W}.

(** [NODES], in insertion order: an assignment to a key keeps its place. *)
Definition Nodes := list (string * string).

Definition setNode (node_id ip : string) (nodes : Nodes) : Nodes :=
  (fun '(n, i) => if bool_decide (n = node_id) then (n, ip) else (n, i)) <$> nodes.

Fixpoint nodeIP (node_id : string) (nodes : Nodes) : result PyErr string :=
  match nodes with
  | [] => Err KeyError
  | (n, ip) :: rest => if bool_decide (n = node_id) then Ok ip else nodeIP node_id rest
  end.

(** ** Status queries *)

Definition nodeURL (ip : string) (port : Z) (path : string) : string :=
  "http://" +:+ ip +:+ ":" +:+ pretty port +:+ path.

(** Every exception gives [None]; the status code is not looked at. *)
Definition get_status (ip : string) (port : Z) : M W (option Json) :=
  let* r := doRequest "GET" (nodeURL ip port "/status") (Fin 2) None in
  ret match r with Ok resp => http_json resp | Err _ => None end.

Definition isTrue (s : option Json) : bool := match s with Some j => truthy j | None => false end.

(** [s and s.get("isLeader")]: a true value that is not a dictionary has no [get]. *)
Definition saysLeader (s : option Json) : result PyErr bool :=
  match s with
  | Some (JObj fields) => Ok (truthy (JObj fields) && isTrue (assoc "isLeader" fields))
  | Some j => if truthy j then Err AttributeError else Ok false
  | None => Ok false
  end.

(** [s[k]] *)
Definition subscript (s : option Json) (k : string) : result PyErr Json :=
  match s with
  | Some (JObj fields) => match assoc k fields with Some v => Ok v | None => Err KeyError end
  | _ => Err TypeError
  end.

(** [s.get("term")] of a status that said it leads. *)
Definition termOf (s : option Json) : option Json :=
  match s with Some (JObj fields) => assoc "term" fields | _ => None end.

Fixpoint find_leader (nodes : Nodes) (port : Z) : M W (option (string * string)) :=
  match nodes with
  | [] => ret None
  | (node_id, ip) :: rest =>
      let* s := get_status ip port in
      let* b := liftR (saysLeader s) in
      if (b : bool) then ret (Some (node_id, ip)) else find_leader rest port
  end.

(** ** Instances *)

Definition stop_instance (instance_id region : string) : M W unit :=
  let* _ := runProcess ["aws"; "ec2"; "stop-instances"; "--region"; region; "--instance-ids"; instance_id] in ret tt.

Definition start_instance (instance_id region : string) : M W unit :=
  let* _ := runProcess ["aws"; "ec2"; "start-instances"; "--region"; region; "--instance-ids"; instance_id] in ret tt.

Definition get_public_ip (instance_id region : string) : M W (option string) :=
  let* out := runProcess
    ["aws"; "ec2"; "describe-instances"; "--region"; region; "--instance-ids"; instance_id;
     "--query"; "Reservations[0].Instances[0].PublicIpAddress"; "--output"; "text"] in
  let ip := strip out in
  ret (if bool_decide (ip = "None") then None else Some ip).

(** ** Waiting for the next leader *)

(** One pass over the nodes other than the crashed one. *)
Fixpoint pollLeader (nodes : Nodes) (crashed_ip : string) (port : Z) (start : float)
    : M W (option (string * option Json * float)) :=
  match nodes with
  | [] => ret None
  | (node_id, ip) :: rest =>
      if bool_decide (ip = crashed_ip) then pollLeader rest crashed_ip port start
      else
        let* s := get_status ip port in
        let* b := liftR (saysLeader s) in
        if (b : bool) then
          let* t := readTime in
          ret (Some (node_id, termOf s, fmul (fsub t start) (Fin 1000)))
        else pollLeader rest crashed_ip port start
  end.

(** The literal [0.05]. *)
Definition lit005 : Q := rndQ (5 # 100).

Fixpoint waitLeaderLoop (fuel : nat) (nodes : Nodes) (crashed_ip : string) (port : Z) (start timeout : float)
    : M W (option (string * option Json * float)) :=
  match fuel with
  | O => fun w => (w, NoFuel)
  | S fuel' =>
      let* t := readTime in
      if flt (fsub t start) timeout then
        let* r := pollLeader nodes crashed_ip port start in
        match r with
        | Some _ => ret r
        | None => doSleep (Fin lit005) ;;; waitLeaderLoop fuel' nodes crashed_ip port start timeout
        end
      else ret None
  end.

Definition waitLeader (fuel : nat) (nodes : Nodes) (crashed_ip : string) (port : Z) (timeout : float)
    : M W (option (string * option Json * float)) :=
  let* start := readTime in waitLeaderLoop fuel nodes crashed_ip port start timeout.

Definition wait_for_new_leader (fuel : nat) (nodes : Nodes) (crashed_ip : string) (port : Z)
    : M W (option (string * option Json * float)) :=
  waitLeader fuel nodes crashed_ip port (Fin 15).

(** ** Keys *)

Definition write_key (ip : string) (port : Z) (key value : string) : M W bool :=
  let* r := doRequest "PUT" (nodeURL ip port ("/v1/keys/" +:+ key)) (Fin 3) (Some (JObj [("value", JStr value)])) in
  ret match r with Ok resp => http_status resp =? 200 | Err _ => false end.

(** A body that is not a dictionary has no [get]: the exception is caught. *)
Definition read_key (ip : string) (port : Z) (key : string) : M W (option Json) :=
  let* r := doRequest "GET" (nodeURL ip port ("/v1/keys/" +:+ key)) (Fin 3) None in
  ret match r with
      | Ok resp =>
          if http_status resp =? 200 then
            match http_json resp with Some (JObj fields) => assoc "value" fields | _ => None end
          else None
      | Err _ => None
      end.

Definition random_value (n : nat) : M W string := randomLetters n.

Definition Keys := list (string * string).

(** [for i in range(10): ...]: ten random values under [prefix-i]; the keys
    whose write was accepted, with their values. *)
Definition writeTen (ip : string) (port : Z) (prefix : string) : M W Keys :=
  forM (fun keys i =>
          let k := prefix +:+ pretty (i : Z) in
          let* v := random_value 8 in
          let* accepted := write_key ip port k v in
          ret (if (accepted : bool) then keys ++ [(k, v)] else keys))
       [] (seqZ 0 10).

(** [sum(1 for k, v in keys.items() if read_key(ip, port, k) == v)] *)
Definition countVisible (ip : string) (port : Z) (keys : Keys) : M W Z :=
  forM (fun n '(k, v) => let* got := read_key ip port k in ret (if eqStr got v then n + 1 else n)) 0 keys.

End Failover.

(** ** A round *)

Section Rounds.
Context {W : Type} `{World W}.

Record Config := mkConfig { INSTANCES : list (string * string); PORT : Z; REGION : string; ROUNDS : Z }.

Record Exp := mkExp {
  NODES : Nodes; election_times : list float; data_loss_counts : list Z; catchup_counts : list Z }.

Definition nl : string := String (Ascii.ascii_of_nat 10) "".

Definition sep : M (Term W) unit := println (repeatStr 60 "-").

(** [f"{s['state']} term={s['term']}"] *)
Definition stateTerm (s : option Json) : result PyErr string :=
  (state <-? subscript s "state" ;; term <-? subscript s "term" ;;
   Ok (str_json state +:+ " term=" +:+ str_json term))%result.

(** Up to 24 times: sleep, ask for the public address, stop at a true one. *)
Fixpoint waitForIP (n : nat) (leader_id instance region : string) : M (Term W) (option string) :=
  match n with
  | O => ret None
  | S n' =>
      doSleep (Fin 5) ;;;
      let* new_ip := get_public_ip instance region in
      match new_ip with
      | None | Some "" => waitForIP n' leader_id instance region
      | Some ip => println ("    " +:+ leader_id +:+ " new IP: " +:+ ip) ;;; ret (Some ip)
      end
  end.

(** Up to 12 times: sleep, ask for the status, stop at a true one. *)
Fixpoint waitForRaft (n : nat) (leader_id ip : string) (port : Z) : M (Term W) unit :=
  match n with
  | O => ret tt
  | S n' =>
      doSleep (Fin 5) ;;;
      let* s := get_status ip port in
      if isTrue s then
        let* st := liftR (stateTerm s) in
        println ("    " +:+ leader_id +:+ " → " +:+ st) ;;;
        let* state := liftR (subscript s "state") in
        if eqStr (Some state) "Follower" then println "    ✓ Rejoined as Follower" else ret tt
      else waitForRaft n' leader_id ip port
  end.

Definition keyCount (keys : Keys) : Z := Z.of_nat (length keys).

(** Phases 5 and 6, after the new leader was found. *)
Definition rejoin (cfg : Config) (e : Exp) (leader_id leader_instance : string) (post_keys : Keys) : M (Term W) Exp :=
  println (nl +:+ "  Phase 5 — restarting " +:+ leader_id +:+ "...") ;;;
  start_instance leader_instance (REGION cfg) ;;;
  println ("    Waiting for " +:+ leader_id +:+ " to boot...") ;;;
  let* new_ip := waitForIP 24 leader_id leader_instance (REGION cfg) in
  match new_ip with
  | None => println ("    " +:+ leader_id +:+ " did not get public IP within timeout") ;;; ret e
  | Some ip =>
      let nodes := setNode leader_id ip (NODES e) in
      println ("    Waiting for Raft to start on " +:+ leader_id +:+ "...") ;;;
      waitForRaft 12 leader_id ip (PORT cfg) ;;;
      println (nl +:+ "  Phase 6 — verifying " +:+ leader_id +:+ " caught up...") ;;;
      doSleep (Fin 5) ;;;
      let* caught := countVisible ip (PORT cfg) post_keys in
      println ("    Post-crash keys visible: " +:+ pretty caught +:+ "/" +:+ pretty (keyCount post_keys)) ;;;
      println (if caught =? keyCount post_keys then "    ✓ Full catchup via log replication"
               else "    ✗ Partial catchup: " +:+ pretty (keyCount post_keys - caught) +:+ " missing") ;;;
      doSleep (Fin 3) ;;;
      ret (mkExp nodes (election_times e) (data_loss_counts e) (catchup_counts e ++ [caught]))
  end.

(** Phases 3 to 6: a new leader was found. *)
Definition afterElection (cfg : Config) (e : Exp) (round_num : Z) (leader_id leader_instance : string) (pre_keys : Keys)
    (new_leader_id : string) (new_term : option Json) (elapsed_ms : float) : M (Term W) Exp :=
  println ("    New leader   : " +:+ new_leader_id) ;;;
  println ("    New term     : " +:+ str_opt new_term) ;;;
  println ("    Re-election  : " +:+ fmtFixed 0 elapsed_ms +:+ "ms") ;;;
  println (nl +:+ "  Phase 3 — verifying pre-crash data survived...") ;;;
  let* new_leader_ip := liftR (nodeIP new_leader_id (NODES e)) in
  let* survived := countVisible new_leader_ip (PORT cfg) pre_keys in
  let lost := keyCount pre_keys - survived in
  println ("    Survived : " +:+ pretty survived +:+ "/" +:+ pretty (keyCount pre_keys)) ;;;
  println ("    Lost     : " +:+ pretty lost +:+ "/" +:+ pretty (keyCount pre_keys)) ;;;
  println (if lost =? 0 then "    ✓ NO DATA LOSS" else "    ✗ DATA LOSS DETECTED") ;;;
  println (nl +:+ "  Phase 4 — writing 10 keys to new leader...") ;;;
  let* post_keys := writeTen new_leader_ip (PORT cfg) ("r" +:+ pretty round_num +:+ "-post-") in
  println ("    Written: " +:+ pretty (keyCount post_keys) +:+ "/10") ;;;
  rejoin cfg (mkExp (NODES e) (election_times e ++ [elapsed_ms]) (data_loss_counts e ++ [lost]) (catchup_counts e))
    leader_id leader_instance post_keys.

Definition round (fuel : nat) (cfg : Config) (e : Exp) (round_num : Z) : M (Term W) Exp :=
  sep ;;; println ("ROUND " +:+ pretty round_num +:+ "/" +:+ pretty (ROUNDS cfg)) ;;; sep ;;;
  let* leader := find_leader (NODES e) (PORT cfg) in
  match leader with
  | None => println "  No leader found — skipping" ;;; ret e
  | Some (leader_id, leader_ip) =>
      let* leader_instance := liftR (nodeIP leader_id (INSTANCES cfg)) in
      let* s := get_status leader_ip (PORT cfg) in
      println ("  Leader       : " +:+ leader_id +:+ " (" +:+ leader_ip +:+ ")") ;;;
      println ("  Instance     : " +:+ leader_instance) ;;;
      let* term := liftR (subscript s "term") in
      println ("  Term         : " +:+ str_json term) ;;;
      println (nl +:+ "  Phase 1 — writing 10 keys before crash...") ;;;
      let* pre_keys := writeTen leader_ip (PORT cfg) ("r" +:+ pretty round_num +:+ "-pre-") in
      println ("    Written: " +:+ pretty (keyCount pre_keys) +:+ "/10") ;;;
      println (nl +:+ "  Phase 2 — stopping " +:+ leader_id +:+ " via AWS CLI...") ;;;
      let* _ := readTime in
      stop_instance leader_instance (REGION cfg) ;;;
      let* found := wait_for_new_leader fuel (NODES e) leader_ip (PORT cfg) in
      match found with
      | None =>
          println "  ERROR: no new leader found within timeout" ;;;
          start_instance leader_instance (REGION cfg) ;;;
          doSleep (Fin 30) ;;; ret e
      | Some (new_leader_id, new_term, elapsed_ms) =>
          afterElection cfg e round_num leader_id leader_instance pre_keys new_leader_id new_term elapsed_ms
      end
  end.

(** The status lines before and after the rounds: [false] when a node is
    unreachable. *)
Fixpoint checkNodes (indent : string) (nodes : Nodes) (port : Z) : M (Term W) bool :=
  match nodes with
  | [] => ret true
  | (nid, ip) :: rest =>
      let* s := get_status ip port in
      if isTrue s then
        let* st := liftR (stateTerm s) in
        println (indent +:+ nid +:+ " (" +:+ ip +:+ ") → " +:+ st) ;;; checkNodes indent rest port
      else println (indent +:+ nid +:+ " (" +:+ ip +:+ ") → UNREACHABLE") ;;; ret false
  end.

Fixpoint finalState (nodes : Nodes) (port : Z) : M (Term W) unit :=
  match nodes with
  | [] => ret tt
  | (nid, ip) :: rest =>
      let* s := get_status ip port in
      (if isTrue s then
         let* st := liftR (stateTerm s) in
         let* leader := liftR (subscript s "leaderID") in
         println ("  " +:+ nid +:+ ": " +:+ st +:+ " leader=" +:+ str_json leader)
       else println ("  " +:+ nid +:+ ": UNREACHABLE")) ;;;
      finalState rest port
  end.

Record Summary := mkSummary {
  completed : Z; re_min : option float; re_max : option float; re_avg : option float; re_stdev : option float;
  total_loss : Z; avg_catchup : option float }.

(** An optional figure of the summary: absent, or printed. *)
Definition figure (present : bool) (compute : result PyErr float) (show : float -> string) : M (Term W) (option float) :=
  if present then let* v := liftR compute in println (show v) ;;; ret (Some v) else ret None.

Definition summary (cfg : Config) (e : Exp) : M (Term W) Summary :=
  sep ;;; println (nl +:+ "RESULTS SUMMARY") ;;; sep ;;;
  println ("Rounds completed    : " +:+ pretty (length (election_times e)) +:+ "/" +:+ pretty (ROUNDS cfg)) ;;;
  match election_times e with
  | [] => ret (mkSummary 0 None None None None 0 None)
  | t :: ts =>
      println ("Re-election min     : " +:+ fmtFixed 0 (py_min t ts) +:+ "ms") ;;;
      println ("Re-election max     : " +:+ fmtFixed 0 (py_max t ts) +:+ "ms") ;;;
      let* a := figure true (mean (t :: ts)) (fun v => "Re-election avg     : " +:+ fmtFixed 0 v +:+ "ms") in
      let* d := figure (1 <? Z.of_nat (length (t :: ts))) (stdev (t :: ts))
                  (fun v => "Std deviation       : " +:+ fmtFixed 0 v +:+ "ms") in
      let total := foldr Z.add 0 (data_loss_counts e) in
      println ("Total data loss     : " +:+ pretty total +:+ " keys") ;;;
      let* c := figure (negb (bool_decide (catchup_counts e = []))) (mean (float_of_int <$> catchup_counts e))
                  (fun v => "Avg catchup         : " +:+ fmtFixed 1 v +:+ "/10 keys") in
      ret (mkSummary (Z.of_nat (length (t :: ts))) (Some (py_min t ts)) (Some (py_max t ts)) a d total c)
  end.

Definition banner (width : nat) (title : string) : M (Term W) unit :=
  printLines [repeatStr width "="; title; repeatStr width "="].

(** [None]: some node was unreachable at the start. *)
Definition run_experiment (fuel : nat) (cfg : Config) (nodes : Nodes) : M (Term W) (option (Exp * Summary)) :=
  banner 60 "  RAFT LEADER ELECTION + FAILOVER EXPERIMENT" ;;;
  println (nl +:+ "[1] Checking all nodes...") ;;;
  let* up := checkNodes "    " nodes (PORT cfg) in
  if (up : bool) then
    let* e := forM (round fuel cfg) (mkExp nodes [] [] []) (seqZ 1 (ROUNDS cfg)) in
    let* s := summary cfg e in
    println (nl +:+ "Final cluster state:") ;;;
    finalState (NODES e) (PORT cfg) ;;;
    ret (Some (e, s))
  else ret None.
End Rounds.

(** ** A cluster that answers for a while

    A world that answers its first [n] requests as a leading node would and
    none after; its state is the number of requests made so far. *)
#[export] Instance countdownWorld (n : nat) : World nat := {|
  request := fun _ _ _ _ w =>
    (S w, if (w <? n)%nat
          then Ok (mkHttpResp 200 (Some (JObj [("isLeader", JBool true); ("state", JStr "Leader"); ("term", JInt 3)])))
          else Err (RequestException "timed out"));
  perf_counter := fun w => (w, Fin (inject_Z (Z.of_nat w)));
  time_time := fun w => (w, Fin (inject_Z (Z.of_nat w)));
  sleep := fun _ w => w;
  uuid4_hex := fun w => (w, "0123456789abcdef0123456789abcdef");
  random_letters := fun _ w => (w, "abcdefgh");
  subprocess_run := fun _ w => (w, Some "None") |}.

Definition demo_nodes : Nodes := [("nodeA", "10.0.0.1"); ("nodeB", "10.0.0.2"); ("nodeC", "10.0.0.3")].
Definition demo_cfg : Config := mkConfig [("nodeA", "i-a"); ("nodeB", "i-b"); ("nodeC", "i-c")] 8000 "us-east-1" 3.
