(* ===== verification/FailoverReport.v ===== *)
(** * What a failover run asks, counts and reports

    The theorems about [leader_election/experiment.py] (Failover.v), in worlds
    that record what the script did.  The specification is about requests and
    their answers, and about lines of text; of the script it uses the data (nodes,
    keys, settings) with their dictionary operations, and none of its steps. *)

From Stdlib Require Import Lqa.
From S2P Require Import Prelude PyStr PyFloat PyStdev PyWorld PyConsole Failover.
#[local] Open Scope Z_scope.
#[local] Open Scope py_scope.

(** ** Waiting for a leader: what is asked *)

Definition statusReq (ip : string) (port : Z) (a : result ReqErr HttpResp) : IOEvent :=
  EvRequest "GET" ("http://" +:+ ip +:+ ":" +:+ pretty port +:+ "/status") (Fin 2) None a.

(** An answer whose body is an object that says the node leads, of this term. *)
Definition leads (a : result ReqErr HttpResp) (term : option Json) : Prop :=
  exists status fields j, a = Ok (mkHttpResp status (Some (JObj fields))) /\
    assoc "isLeader" fields = Some j /\ truthy j = true /\ term = assoc "term" fields.

Definition noLead (a : result ReqErr HttpResp) : Prop := forall term, ~ leads a term.

(** The nodes other than the crashed one were asked, in order, and none leads. *)
Inductive noLeader (crashed_ip : string) (port : Z) : Nodes -> list IOEvent -> Prop :=
| noLeader_none : noLeader crashed_ip port [] []
| noLeader_skip id nodes evs : noLeader crashed_ip port nodes evs -> noLeader crashed_ip port ((id, crashed_ip) :: nodes) evs
| noLeader_ask id ip a nodes evs : noLeader crashed_ip port nodes evs -> ip <> crashed_ip -> noLead a ->
    noLeader crashed_ip port ((id, ip) :: nodes) (statusReq ip port a :: evs).

(** The first of them that leads, and the time since the start, in milliseconds. *)
Definition found (nodes : Nodes) (crashed_ip : string) (port : Z) (start : float) (r : string * option Json * float) (evs : list IOEvent) : Prop :=
  exists pre ip post asks a t, nodes = pre ++ (r.1.1, ip) :: post /\ ip <> crashed_ip /\ noLeader crashed_ip port pre asks /\
    leads a r.1.2 /\ evs = asks ++ [statusReq ip port a; EvTime t] /\ r.2 = fmul (fsub t start) (Fin 1000).

(** Passes made in time that found no leader, each followed by a sleep. *)
Inductive searched (nodes : Nodes) (crashed_ip : string) (port : Z) (start T : float) : list IOEvent -> Prop :=
| searched_none : searched nodes crashed_ip port start T []
| searched_next evs t asks : searched nodes crashed_ip port start T evs -> flt (fsub t start) T = true ->
    noLeader crashed_ip port nodes asks -> searched nodes crashed_ip port start T (evs ++ EvTime t :: asks ++ [EvSleep (Fin (rndQ (5 # 100)))]).

Definition leaderWait (nodes : Nodes) (crashed_ip : string) (port : Z) (T : float) (o : option (string * option Json * float)) (evs : list IOEvent) : Prop :=
  exists start failed, searched nodes crashed_ip port start T failed /\
  match o with
  | Some r => exists t last, evs = EvTime start :: failed ++ EvTime t :: last /\ flt (fsub t start) T = true /\
      found nodes crashed_ip port start r last
  | None => exists t, evs = EvTime start :: failed ++ [EvTime t] /\ flt (fsub t start) T = false
  end.

Lemma flt_rnd_false T q : representable T -> (0 <= T)%Q -> (T <= q)%Q -> flt (rnd q) (Fin T) = false.
Proof.
  intros HT H0 Hq. unfold rnd. destruct (Qle_bool (pow2 1024) (Qabs (rndQ q))).
  - simpl. unfold negQ. assert (0 <= q)%Q as Hle by lra. apply Qle_bool_iff in Hle. by rewrite Hle.
  - simpl. assert (T <= rndQ q)%Q as Hle by (rewrite <- (rndQ_fix T HT); by apply rndQ_mono).
    apply Qle_bool_iff in Hle. by rewrite Hle.
Qed.

Section Wait.
Context {W : Type} {HW : World W} {HC : Clock W} {HR : Recorded W} {R : PyErr -> Prop} {N : Prop}.

(** The body of an answer, if it is JSON. *)
Definition bodyOf (a : result ReqErr HttpResp) : option Json := match a with Ok resp => http_json resp | Err _ => None end.

Lemma rec_get_status ip port (P : option Json -> W -> Prop) w :
  (forall a w', passed w [statusReq ip port a] w' -> P (bodyOf a) w') -> wpx R N (get_status ip port) P w.
Proof. intros HP. apply wp_bind, rec_doRequest. intros a w' _ Hp. apply wp_ret. by apply (HP a). Qed.

Lemma saysLeader_leads a : match saysLeader (bodyOf a) with
  | Ok true => leads a (termOf (bodyOf a))
  | Ok false => noLead a
  | Err e => e = AttributeError
  end.
Proof.
  assert (bodyOf a = None -> noLead a) as Hnone by (intros Hb t (st & fields & j & -> & _); done).
  destruct a as [[st [j|]]|e]; [|by apply Hnone..].
  destruct j as [| | | | | |fields]; try (unfold saysLeader, bodyOf; cbn [http_json]; case_if; [done|]; by intros t (? & ? & ? & [=] & _)).
  unfold saysLeader, bodyOf. cbn [http_json termOf]. destruct (truthy (JObj fields) && isTrue (assoc "isLeader" fields)) eqn:E.
  - apply andb_true_iff in E as [_ Hj]. unfold isTrue in Hj. destruct (assoc "isLeader" fields) as [j|] eqn:Ea; [|done]. by exists st, fields, j.
  - intros t (st' & f' & j & [= <- <-] & Hj & Htr & _). rewrite Hj in E. cbn [isTrue] in E. rewrite Htr, andb_true_r in E. by destruct fields.
Qed.

Lemma rec_pollLeader nodes crashed_ip port start : R AttributeError -> forall (P : option (string * option Json * float) -> W -> Prop) w,
  (forall r evs w', passed w evs w' ->
     match r with Some x => found nodes crashed_ip port start x evs | None => noLeader crashed_ip port nodes evs end -> P r w') ->
  wpx R N (pollLeader nodes crashed_ip port start) P w.
Proof.
  intros HA. induction nodes as [|[id ip] rest IH]; intros P w HP; cbn [pollLeader].
  { apply wp_ret. apply (HP None [] w (passed_refl w)). constructor. }
  case_bool_decide as Hip.
  - subst ip. apply IH. intros [x|] evs w' Hp Hr; (eapply HP; [exact Hp|]).
    + destruct Hr as (pre & ip & post & asks & a & t & -> & ? & ? & ?). exists ((id, crashed_ip) :: pre), ip, post, asks, a, t.
      split_and!; [done|done|by constructor|naive_solver..].
    + by constructor.
  - apply wp_bind, rec_get_status. intros a w1 H1. pose proof (saysLeader_leads a) as Hs. apply wp_bind, wp_lift.
    { intros e He. rewrite He in Hs. by subst e. }
    intros b Hb. rewrite Hb in Hs. destruct b.
    + apply wp_bind, rec_readTime. intros t w2 H2. apply wp_ret. eapply (HP (Some _)); [exact (passed_trans _ _ _ _ _ H1 H2)|].
      exists [], ip, rest, [], a, t. split_and!; [done|done|constructor|done|done|done].
    + apply IH. intros [x|] evs w' Hp Hr; (eapply HP; [exact (passed_trans _ _ _ _ _ H1 Hp)|]).
      * destruct Hr as (pre & ip' & post & asks & a' & t & -> & ? & ? & ? & -> & ?).
        exists ((id, ip) :: pre), ip', post, (statusReq ip port a :: asks), a', t. split_and!; [done|done|by constructor|done|done|done].
      * by constructor.
Qed.

(** The polling ends: after [k] sleeps the clock shows [T], whatever it was set
    to meanwhile. *)
Lemma rec_waitLeaderLoop {HWC : WallClock W} T s nodes crashed_ip port k : R AttributeError -> is_float (Fin T) -> (0 <= T)%Q ->
  forall fuel failed w0 w (P : option (string * option Json * float) -> W -> Prop),
  (T <= now w - epoch - skew - s + inject_Z (Z.of_nat k) * lit005)%Q -> (k < fuel)%nat ->
  passed w0 (EvTime (Fin s) :: failed) w -> searched nodes crashed_ip port (Fin s) (Fin T) failed ->
  (forall r evs w', passed w0 evs w' -> leaderWait nodes crashed_ip port (Fin T) r evs -> P r w') ->
  wpx R N (waitLeaderLoop fuel nodes crashed_ip port (Fin s) (Fin T)) P w.
Proof.
  intros HA HT Hpos. induction k as [|k IH]; intros [|fuel] failed w0 w P Hd Hf Hp0 Hfail HP; try lia;
    apply wp_bind, rec_readWall; intros t w1 H1 Ht _; destruct (flt (fsub (Fin t) (Fin s)) (Fin T)) eqn:Hlt;
    try (apply wp_ret; eapply HP; [exact (passed_trans _ _ _ _ _ Hp0 H1)|]; exists (Fin s), failed; split; [done|]; by exists (Fin t)).
  - exfalso. change (inject_Z (Z.of_nat 0)) with 0%Q in Hd. cbn [fsub fopp fadd] in Hlt.
    rewrite flt_rnd_false in Hlt; [done|by destruct HT|done|lra].
  - apply wp_bind, rec_pollLeader; [done|]. intros [x|] evs w2 H2 Hr.
    + apply wp_ret. eapply HP; [exact (passed_trans _ _ _ _ _ Hp0 (passed_trans _ _ _ _ _ H1 H2))|].
      exists (Fin s), failed. split; [done|]. by exists (Fin t), evs.
    + assert (0 <= lit005)%Q as Hlit by by vm_compute. apply wp_bind, rec_doSleep; [by vm_compute|done|]. intros w3 H3 Hn3.
      apply (IH fuel (failed ++ EvTime (Fin t) :: evs ++ [EvSleep (Fin lit005)]) w0); [|lia| | |exact HP].
      * destruct H1 as [_ T1], H2 as [_ T2]. rewrite Nat2Z.inj_succ, <- Z.add_1_r, inject_Z_plus in Hd.
        change (inject_Z 1) with 1%Q in Hd. lra.
      * exact (passed_trans _ _ _ _ _ Hp0 (passed_trans _ _ _ _ _ H1 (passed_trans _ _ _ _ _ H2 H3))).
      * by constructor.
Qed.

Lemma rec_waitLeader {HWC : WallClock W} T k fuel nodes crashed_ip port (P : option (string * option Json * float) -> W -> Prop) w :
  R AttributeError -> is_float (Fin T) -> (0 <= T)%Q -> (T + 2 * skew <= inject_Z (Z.of_nat k) * (1 # 20))%Q -> (k < fuel)%nat ->
  (forall r evs w', passed w evs w' -> leaderWait nodes crashed_ip port (Fin T) r evs -> P r w') ->
  wpx R N (waitLeader fuel nodes crashed_ip port (Fin T)) P w.
Proof.
  intros HA HT Hpos Hk Hf HP. apply wp_bind, rec_readWall. intros s w1 H1 _ Hs.
  apply (rec_waitLeaderLoop T s nodes crashed_ip port k HA HT Hpos fuel [] w); [|done|done|constructor|done].
  assert ((1 # 20) <= lit005)%Q as Hlit by by vm_compute.
  assert (inject_Z (Z.of_nat k) * (1 # 20) <= inject_Z (Z.of_nat k) * lit005)%Q as Hm.
  { rewrite !(Qmult_comm (inject_Z _)). apply Qmult_le_compat_r; [done|]. change 0%Q with (inject_Z 0). rewrite <- Zle_Qle. lia. }
  lra.
Qed.
End Wait.

(** C37. Waiting for a new leader always ends, although the system clock it reads
    may be set forward or back meanwhile: when that clock stays within [skew] of
    the time that passes, [k] sleeps of a twentieth of a second that cover the 15
    seconds and the setting are enough, whatever the nodes answer.  The record of
    the wait is exactly this: passes begun in time that asked the status of every
    node but the crashed one, in order, none of which led, each followed by a
    sleep; and then either a pass whose first leading answer came from the
    reported node, with the reported term and the time since the start in
    milliseconds, or a look at the clock that showed the 15 seconds were over.
    The only exception is an answer that is true and no object. *)
Theorem new_leader_wait_ends {W : Type} {HW : World W} {HC : Clock W} {HWC : WallClock W} {HR : Recorded W}
    (k fuel : nat) (nodes : Nodes) (crashed_ip : string) (port : Z) (w : W) :
  (15 + 2 * skew <= inject_Z (Z.of_nat k) * (1 # 20))%Q -> (k < fuel)%nat ->
  match wait_for_new_leader fuel nodes crashed_ip port w with
  | (w', Ret o) => exists evs, record w' = record w ++ evs /\ leaderWait nodes crashed_ip port (Fin 15) o evs
  | (_, Raise e) => e = AttributeError
  | (_, NoFuel) => False
  end.
Proof.
  intros Hk Hf. enough (wpx (eq AttributeError) False (wait_for_new_leader fuel nodes crashed_ip port)
    (fun o w' => exists evs, record w' = record w ++ evs /\ leaderWait nodes crashed_ip port (Fin 15) o evs) w) as H.
  { unfold wpx in H. destruct (wait_for_new_leader _ _ _ _ w) as [w' [o|e|]]; [done|by symmetry|done]. }
  apply (rec_waitLeader 15 k); [done|by apply (is_float_Z 15)|lra|done|done|]. intros o evs w' [Hp _] Ho. by exists evs.
Qed.

(** ** A simulated failover

    The state is the time and whether the first node is stopped; it leads while
    it runs, the second node leads while it does not.  Writes are accepted and
    every key reads as the value the simulated generator draws.  The system clock
    is set back by two seconds when it has shown one. *)

Definition failStatus (leads : bool) : Json :=
  JObj [("isLeader", JBool leads); ("state", JStr "Follower"); ("term", JInt 7); ("leaderID", JStr "nodeA")].

Definition failRequest (m u : string) (t : float) (b : option Json) (w : Q * bool) : (Q * bool) * result ReqErr HttpResp :=
  ((Qred (w.1 + (1 # 100)), w.2),
   if bool_decide (u = "http://10.0.0.1:8000/status")
   then if w.2 then Err (RequestException "unreachable") else Ok (mkHttpResp 200 (Some (failStatus true)))
   else if bool_decide (u = "http://10.0.0.2:8000/status") then Ok (mkHttpResp 200 (Some (failStatus w.2)))
   else if bool_decide (u = "http://10.0.0.3:8000/status") then Ok (mkHttpResp 200 (Some (failStatus false)))
   else Ok (mkHttpResp 200 (Some (JObj [("value", JStr "abcdefgh")])))).

Definition setBack (q : Q) : Q := if Qle_bool 1 q then (q - 2)%Q else q.

#[export] Instance failWorld : World (Q * bool) := {|
  request := failRequest;
  perf_counter := fun w => (w, Fin w.1);
  time_time := fun w => (w, Fin (setBack w.1));
  sleep := fun t w => (Qred (w.1 + valQ t), w.2);
  uuid4_hex := fun w => (w, "0123456789abcdef0123456789abcdef");
  random_letters := fun _ w => (w, "abcdefgh");
  subprocess_run := fun argv w =>
    ((w.1, if bool_decide (argv !! 2%nat = Some "stop-instances") then true
           else if bool_decide (argv !! 2%nat = Some "start-instances") then false else w.2),
     Some ("10.0.0.1" +:+ String (Ascii.ascii_of_nat 10) "")) |}.

#[export] Instance failClock : Clock (Q * bool).
Proof.
  refine {| now := fun w => w.1 |}.
  - intros. cbn [request failWorld failRequest fst]. rewrite Qred_correct. lra.
  - intros w. exists w.1. simpl. split_and!; [done|lra|lra].
  - intros. apply Qle_refl.
  - intros q w Hq. cbn [sleep failWorld fst valQ]. rewrite Qred_correct. lra.
  - intros. apply Qle_refl.
  - intros. apply Qle_refl.
Defined.

#[export] Instance failWallClock : WallClock (Q * bool).
Proof.
  refine {| epoch := 0; skew := 2 |}; [lra|]. intros w. exists (setBack w.1). cbn. split; [done|].
  unfold setBack. destruct (Qle_bool 1 w.1); lra.
Defined.

(** The first node still runs and is not asked, and the others do not lead: the
    wait gives up. *)
Lemma new_leader_wait_ends_witness :
  exists evs, leaderWait demo_nodes "10.0.0.1" 8000 (Fin 15) None evs /\
    record (wait_for_new_leader 381 demo_nodes "10.0.0.1" 8000 (mkRec (0%Q, false) [])).1 = evs.
Proof.
  pose proof (new_leader_wait_ends (W := Rec (Q * bool)) (HWC := recWallClock) 380 381 demo_nodes "10.0.0.1" 8000 (mkRec (0%Q, false) [])) as H.
  assert (15 + 2 * skew <= inject_Z (Z.of_nat 380) * (1 # 20))%Q as Hk by by vm_compute.
  specialize (H Hk ltac:(lia)).
  assert (match (wait_for_new_leader 381 demo_nodes "10.0.0.1" 8000 (mkRec (0%Q, false) [])).2 with Ret None => true | _ => false end = true)
    as Hr by by vm_compute.
  revert H Hr. generalize (wait_for_new_leader 381 demo_nodes "10.0.0.1" 8000 (mkRec (0%Q, false) [])) as run.
  intros [w' [[o|]|e|]] H Hr; try discriminate Hr. destruct H as (evs & He & Hw). exists evs. split; [exact Hw|exact He].
Defined.

(** ** Programs and what they leave behind

    [logs m Q]: run to a value [a], the program adds events [evs] to the record
    and lines [out] to the output, with [Q a evs out]; it may raise, and does not
    run out of fuel. *)

Section Logs.
Context {W : Type} {HW : World W} {HC : Clock W} {HR : Recorded W}.

Definition logs {A} (m : M (Term W) A) (Q : A -> list IOEvent -> list string -> Prop) : Prop :=
  forall w, ends m (fun a w' => exists evs out, passed w evs w' /\ w'.2 = w.2 ++ out /\ Q a evs out) w.

Lemma logs_mono {A} (m : M (Term W) A) (Q Q' : A -> list IOEvent -> list string -> Prop) :
  logs m Q -> (forall a evs out, Q a evs out -> Q' a evs out) -> logs m Q'.
Proof. intros Hm HQ w. eapply wp_mono; [apply Hm|]. intros a w' (evs & out & ? & ? & ?). exists evs, out. auto. Qed.

Lemma logs_ret {A} (a : A) (Q : A -> list IOEvent -> list string -> Prop) : Q a [] [] -> logs (ret a) Q.
Proof. intros HQ w. apply wp_ret. exists [], []. split_and!; [apply passed_refl|by rewrite app_nil_r|done]. Qed.

Lemma logs_bind {A B} (m : M (Term W) A) (k : A -> M (Term W) B) Q1 (Q : B -> list IOEvent -> list string -> Prop) :
  logs m Q1 -> (forall a evs out, Q1 a evs out -> logs (k a) (fun b evs' out' => Q b (evs ++ evs') (out ++ out'))) ->
  logs (bind m k) Q.
Proof.
  intros Hm Hk w. apply wp_bind. eapply wp_mono; [apply Hm|]. intros a w1 (evs & out & Hp & Ho & HQ).
  eapply wp_mono; [by apply (Hk a evs out)|]. intros b w2 (evs' & out' & Hp' & Ho' & HQ').
  exists (evs ++ evs'), (out ++ out'). split_and!; [by eapply passed_trans|by rewrite Ho', Ho, app_assoc|done].
Qed.

Lemma logs_println l : logs (println l) (fun _ evs out => evs = [] /\ out = [l]).
Proof. intros w. apply wp_println. exists [], [l]. split_and!; [exact (passed_refl w)|done|done|done]. Qed.

Lemma logs_line {B} l (k : M (Term W) B) (Q : B -> list IOEvent -> list string -> Prop) :
  logs k (fun b evs out => Q b evs (l :: out)) -> logs (println l ;;; k) Q.
Proof. intros Hk. eapply logs_bind; [apply logs_println|]. by intros _ ? ? [-> ->]. Qed.

Lemma logs_liftR {A} (r : result PyErr A) : logs (liftR r) (fun a evs out => r = Ok a /\ evs = [] /\ out = []).
Proof. intros w. apply wp_lift; [done|]. intros a Ha. exists [], []. split_and!; [apply passed_refl|by rewrite app_nil_r|done..]. Qed.

(** A step that prints nothing, from what it does to the record. *)
Lemma logs_silent {A} (m : M (Term W) A) (Q1 : A -> list IOEvent -> Prop) : silent m ->
  (forall (P : A -> Term W -> Prop) w, (forall a evs w', passed w evs w' -> Q1 a evs -> P a w') -> ends m P w) ->
  logs m (fun a evs out => Q1 a evs /\ out = []).
Proof.
  intros Hs Hm w. apply wp_silent; [done|]. apply Hm. intros a evs w' Hp HQ Ho. exists evs, [].
  split_and!; [done|by rewrite Ho, app_nil_r|done|done].
Qed.

Lemma logs_forM {A S} (body : S -> A -> M (Term W) S) (I : list A -> S -> list IOEvent -> list string -> Prop) acc l :
  I [] acc [] [] ->
  (forall pre x s evs out, I pre s evs out -> logs (body s x) (fun s' evs' out' => I (pre ++ [x]) s' (evs ++ evs') (out ++ out'))) ->
  logs (forM body acc l) (I l).
Proof.
  intros H0 Hstep w. apply (wp_forM _ (fun pre s w' => exists evs out, passed w evs w' /\ w'.2 = w.2 ++ out /\ I pre s evs out)).
  - exists [], []. split_and!; [apply passed_refl|by rewrite app_nil_r|done].
  - intros pre x post s w1 _ (evs & out & Hp & Ho & HI). eapply wp_mono; [by apply (Hstep pre x s evs out)|].
    intros s' w2 (evs' & out' & Hp' & Ho' & HI'). exists (evs ++ evs'), (out ++ out').
    split_and!; [by eapply passed_trans|by rewrite Ho', Ho, app_assoc|done].
  - done.
Qed.
End Logs.

(** ** Keys written and read back *)

Definition putReq (ip : string) (port : Z) (key value : string) (a : result ReqErr HttpResp) : IOEvent :=
  EvRequest "PUT" ("http://" +:+ ip +:+ ":" +:+ pretty port +:+ "/v1/keys/" +:+ key) (Fin 3) (Some (JObj [("value", JStr value)])) a.

Definition getReq (ip : string) (port : Z) (key : string) (a : result ReqErr HttpResp) : IOEvent :=
  EvRequest "GET" ("http://" +:+ ip +:+ ":" +:+ pretty port +:+ "/v1/keys/" +:+ key) (Fin 3) None a.

Definition accepted (a : result ReqErr HttpResp) : Prop := exists j, a = Ok (mkHttpResp 200 j).

(** A fresh random value was written under each number; [keys] are those whose
    write was answered with 200. *)
Inductive wrote (ip : string) (port : Z) (prefix : string) : list Z -> Keys -> list IOEvent -> Prop :=
| wrote_none : wrote ip port prefix [] [] []
| wrote_accepted js keys evs i v a : wrote ip port prefix js keys evs -> accepted a ->
    wrote ip port prefix (js ++ [i]) (keys ++ [(prefix +:+ pretty i, v)]) (evs ++ [EvLetters 8 v; putReq ip port (prefix +:+ pretty i) v a])
| wrote_refused js keys evs i v a : wrote ip port prefix js keys evs -> ~ accepted a ->
    wrote ip port prefix (js ++ [i]) keys (evs ++ [EvLetters 8 v; putReq ip port (prefix +:+ pretty i) v a]).

(** Every key was read; [n] of the answers showed its value. *)
Inductive readBack (ip : string) (port : Z) : Keys -> Z -> list IOEvent -> Prop :=
| readBack_none : readBack ip port [] 0 []
| readBack_shown keys n evs k v a : readBack ip port keys n evs -> showsValue v a ->
    readBack ip port (keys ++ [(k, v)]) (n + 1) (evs ++ [getReq ip port k a])
| readBack_lost keys n evs k v a : readBack ip port keys n evs -> ~ showsValue v a ->
    readBack ip port (keys ++ [(k, v)]) n (evs ++ [getReq ip port k a]).

Lemma wrote_length ip port prefix js keys evs : wrote ip port prefix js keys evs -> (length keys <= length js)%nat.
Proof. induction 1; rewrite ?length_app; simpl; lia. Qed.

Lemma readBack_bound ip port keys n evs : readBack ip port keys n evs -> 0 <= n <= Z.of_nat (length keys).
Proof. induction 1; rewrite ?length_app; simpl; lia. Qed.

Section Keys.
Context {W : Type} {HW : World W} {HC : Clock W} {HR : Recorded W} {R : PyErr -> Prop} {N : Prop}.

Lemma rec_write_key ip port k v (P : bool -> W -> Prop) w :
  (forall (b : bool) a w', passed w [putReq ip port k v a] w' -> (if b then accepted a else ~ accepted a) -> P b w') ->
  wpx R N (write_key ip port k v) P w.
Proof.
  intros HP. apply wp_bind, rec_doRequest. intros a w' _ Hp. apply wp_ret. apply (HP _ a); [exact Hp|].
  destruct a as [[st j]|e]; [|by intros [? ?]]. cbn. destruct (st =? 200) eqn:E.
  - apply Z.eqb_eq in E as ->. by exists j.
  - apply Z.eqb_neq in E. by intros [j' [= -> _]].
Qed.

Lemma rec_writeTen ip port prefix (P : Keys -> W -> Prop) w :
  (forall keys evs w', passed w evs w' -> wrote ip port prefix (seqZ 0 10) keys evs -> P keys w') ->
  wpx R N (writeTen ip port prefix) P w.
Proof.
  intros HP. apply (wp_forM _ (fun pre keys w' => exists evs, passed w evs w' /\ wrote ip port prefix pre keys evs)).
  - exists []. split; [apply passed_refl|constructor].
  - intros pre i post keys w1 _ (evs & Hp & Hw). apply wp_bind, rec_randomLetters. intros v w2 H2.
    apply wp_bind, rec_write_key. intros b a w3 H3 Hb. apply wp_ret. eexists.
    split; [exact (passed_trans _ _ _ _ _ Hp (passed_trans _ _ _ _ _ H2 H3))|]. destruct b; by constructor.
  - intros keys w1 (evs & Hp & Hw). by eapply HP.
Qed.

Lemma rec_countVisible ip port keys (P : Z -> W -> Prop) w :
  (forall n evs w', passed w evs w' -> readBack ip port keys n evs -> P n w') -> wpx R N (countVisible ip port keys) P w.
Proof.
  intros HP. apply (wp_forM _ (fun pre n w' => exists evs, passed w evs w' /\ readBack ip port pre n evs)).
  - exists []. split; [apply passed_refl|constructor].
  - intros pre [k v] post n w1 _ (evs & Hp & Hw). apply wp_bind, wp_bind, rec_doRequest. intros a w2 _ H2. do 2 apply wp_ret.
    exists (evs ++ [getReq ip port k a]). split; [exact (passed_trans _ _ _ _ _ Hp H2)|].
    assert (forall b : bool, (if b then showsValue v a else ~ showsValue v a) ->
      readBack ip port (pre ++ [(k, v)]) (if b then n + 1 else n) (evs ++ [getReq ip port k a])) as Hb
      by (intros []; by constructor).
    apply Hb. destruct a as [[st j]|e]; [|by intros (? & ? & _)]. cbn. destruct (st =? 200) eqn:E.
    + apply Z.eqb_eq in E as ->. destruct j as [[]|]; cbn; try (by intros (? & [=] & _)).
      destruct (assoc "value" fields) as [[]|] eqn:Ea; cbn; try (intros (? & [= <-] & Hf); by rewrite Hf in Ea).
      case_bool_decide as Hs; [subst s; by exists fields|]. intros (? & [= <-] & Hf). rewrite Hf in Ea. by injection Ea as <-.
    + apply Z.eqb_neq in E. intros (f & [= -> _] & _). done.
  - intros n w1 (evs & Hp & Hw). by eapply HP.
Qed.

(** The first node whose status says it leads, or all asked and none leading. *)
Definition unled (port : Z) (n : string * string) (ev : IOEvent) : Prop := exists a, ev = statusReq n.2 port a /\ noLead a.

Definition leaderAsked (nodes : Nodes) (port : Z) (id ip : string) (evs : list IOEvent) : Prop :=
  exists pre post asks a term, nodes = pre ++ (id, ip) :: post /\ Forall2 (unled port) pre asks /\ leads a term /\
    evs = asks ++ [statusReq ip port a].

Lemma rec_find_leader nodes port : R AttributeError -> forall (P : option (string * string) -> W -> Prop) w,
  (forall r evs w', passed w evs w' ->
    match r with Some (id, ip) => leaderAsked nodes port id ip evs | None => Forall2 (unled port) nodes evs end -> P r w') ->
  wpx R N (find_leader nodes port) P w.
Proof.
  intros HA. induction nodes as [|[id ip] rest IH]; intros P w HP; cbn [find_leader].
  { apply wp_ret. apply (HP None [] w (passed_refl w)). constructor. }
  apply wp_bind, rec_get_status. intros a w1 H1. pose proof (saysLeader_leads a) as Hs. apply wp_bind, wp_lift.
  { intros e He. rewrite He in Hs. by subst e. }
  intros b Hb. rewrite Hb in Hs. destruct b.
  - apply wp_ret. eapply (HP (Some _)); [exact H1|]. exists [], rest, [], a. eexists. split_and!; [done|constructor|exact Hs|done].
  - apply IH. intros [[id' ip']|] evs w' Hp Hr; (eapply HP; [exact (passed_trans _ _ _ _ _ H1 Hp)|]).
    + destruct Hr as (pre & post & asks & a' & t & -> & ? & ? & ->).
      exists ((id, ip) :: pre), post, (statusReq ip port a :: asks), a', t. split_and!; [done|constructor; [by exists a|done]|done|done].
    + constructor; [by exists a|done].
Qed.
End Keys.

(** ** The steps that print nothing *)

Section Printed.
Context {W : Type} `{World W}.

Lemma silent_get_status ip port : silent (W := W) (get_status ip port).
Proof. unfold get_status. auto with silent. Qed.
#[local] Hint Resolve silent_get_status : silent.

Lemma silent_find_leader nodes port : silent (W := W) (find_leader nodes port).
Proof. induction nodes as [|[id ip] rest IH]; cbn [find_leader]; auto with silent. repeat (apply silent_bind; [auto with silent|intros ?]). case_if; auto with silent. Qed.

Lemma silent_pollLeader nodes crashed_ip port start : silent (W := W) (pollLeader nodes crashed_ip port start).
Proof.
  induction nodes as [|[id ip] rest IH]; cbn [pollLeader]; auto with silent. case_bool_decide; [done|].
  do 2 (apply silent_bind; [auto with silent|intros ?]). case_if; auto with silent.
Qed.

Lemma silent_wait_for_new_leader fuel nodes crashed_ip port : silent (W := W) (wait_for_new_leader fuel nodes crashed_ip port).
Proof.
  unfold wait_for_new_leader, waitLeader. apply silent_bind; [auto with silent|]. intros start.
  induction fuel as [|fuel IH]; cbn [waitLeaderLoop]; [done|]. apply silent_bind; [auto with silent|intros t].
  case_if; [|auto with silent]. apply silent_bind; [apply silent_pollLeader|]. intros [r|]; auto with silent.
Qed.

Lemma silent_writeTen ip port prefix : silent (W := W) (writeTen ip port prefix).
Proof. unfold writeTen, random_value, write_key. auto 10 with silent. Qed.

Lemma silent_countVisible ip port keys : silent (W := W) (countVisible ip port keys).
Proof. apply silent_forM. intros n [k v]. unfold read_key. auto 10 with silent. Qed.

Lemma silent_start_instance i r : silent (W := W) (start_instance i r).
Proof. unfold start_instance. auto with silent. Qed.
Lemma silent_stop_instance i r : silent (W := W) (stop_instance i r).
Proof. unfold stop_instance. auto with silent. Qed.

Lemma grows_waitForIP n id i r : grows (W := W) (waitForIP n id i r).
Proof.
  induction n as [|n IH]; cbn [waitForIP]; [auto with silent|]. apply grows_bind; [auto with silent|intros _].
  apply grows_bind; [unfold get_public_ip; auto 10 with silent|]. intros [[|c s]|]; auto with silent.
Qed.

Lemma grows_waitForRaft n id ip port : grows (W := W) (waitForRaft n id ip port).
Proof.
  induction n as [|n IH]; cbn [waitForRaft]; [auto with silent|]. do 2 (apply grows_bind; [auto with silent|intros ?]).
  case_if; [|done]. do 3 (apply grows_bind; [auto with silent|intros ?]). case_if; auto with silent.
Qed.
End Printed.

#[export] Hint Resolve silent_get_status silent_find_leader silent_wait_for_new_leader silent_writeTen silent_countVisible
  silent_start_instance silent_stop_instance grows_waitForIP grows_waitForRaft : silent.


(** ** A round, as its record and as its report *)

(** What a completed round found: the time of the election, the keys accepted
    before the crash and those lost, the keys accepted after it and, if the node
    came back, those it showed. *)
Record Round := mkRound { r_ms : float; r_written : Z; r_lost : Z; r_posted : Z; r_caught : option Z }.

Definition awsCall (region verb inst : string) (more : list string) (out : string) : IOEvent :=
  EvProcess (["aws"; "ec2"; verb; "--region"; region; "--instance-ids"; inst] ++ more) (Some out).

Definition addressCall (region inst : string) (out : string) : IOEvent :=
  awsCall region "describe-instances" inst ["--query"; "Reservations[0].Instances[0].PublicIpAddress"; "--output"; "text"] out.

(** Phases 1 and 2: the leader was found, ten keys written to it, of which it
    accepted [pre], and its instance stopped. *)
Definition crashes (cfg : Config) (n : Z) (nodes : Nodes) (id ip inst : string) (pre : Keys) (evs : list IOEvent) : Prop :=
  exists find a puts t out, evs = find ++ statusReq ip (PORT cfg) a :: puts ++ [EvTime t; awsCall (REGION cfg) "stop-instances" inst [] out] /\
    leaderAsked nodes (PORT cfg) id ip find /\ nodeIP id (INSTANCES cfg) = Ok inst /\
    wrote ip (PORT cfg) ("r" +:+ pretty n +:+ "-pre-") (seqZ 0 10) pre puts.

(** A look for the address of a booting instance that found none. *)
Definition noAddress (region inst : string) (ev : IOEvent) : Prop :=
  ev = EvSleep (Fin 5) \/ exists out, ev = addressCall region inst out /\ (strip out = "" \/ strip out = "None").

Definition newAddress (region inst ip : string) (evs : list IOEvent) : Prop :=
  exists failed out, evs = failed ++ [EvSleep (Fin 5); addressCall region inst out] /\ Forall (noAddress region inst) failed /\
    ip = strip out /\ ip <> "" /\ ip <> "None".

(** Phases 5 and 6: the instance was started again; it got no address, or the
    node's address was replaced and [keys] were read from it. *)
Definition rejoined (cfg : Config) (id inst : string) (nodes : Nodes) (keys : Keys) (caught : option Z) (nodes' : Nodes) (evs : list IOEvent) : Prop :=
  exists out boot, evs = awsCall (REGION cfg) "start-instances" inst [] out :: boot /\
  match caught with
  | None => nodes' = nodes /\ Forall (noAddress (REGION cfg) inst) boot
  | Some c => exists ip look start gets, boot = look ++ start ++ gets ++ [EvSleep (Fin 3)] /\
      newAddress (REGION cfg) inst ip look /\ nodes' = setNode id ip nodes /\ readBack ip (PORT cfg) keys c gets
  end.

(** A round: completed with these findings, or skipped because no node led or
    none came to lead in time. *)
Definition roundDone (cfg : Config) (n : Z) (nodes : Nodes) (o : option Round) (nodes' : Nodes) (evs : list IOEvent) : Prop :=
  match o with
  | Some r => exists id ip inst pre crash wait new_id term new_ip gets post puts rest,
      evs = crash ++ wait ++ gets ++ puts ++ rest /\ crashes cfg n nodes id ip inst pre crash /\
      leaderWait nodes ip (PORT cfg) (Fin 15) (Some (new_id, term, r_ms r)) wait /\ nodeIP new_id nodes = Ok new_ip /\
      r_written r = Z.of_nat (length pre) /\ readBack new_ip (PORT cfg) pre (r_written r - r_lost r) gets /\
      r_posted r = Z.of_nat (length post) /\ wrote new_ip (PORT cfg) ("r" +:+ pretty n +:+ "-post-") (seqZ 0 10) post puts /\
      rejoined cfg id inst nodes post (r_caught r) nodes' rest
  | None => nodes' = nodes /\
      (Forall2 (unled (PORT cfg)) nodes evs \/
       exists id ip inst pre crash wait out,
         evs = crash ++ wait ++ [awsCall (REGION cfg) "start-instances" inst [] out; EvSleep (Fin 30)] /\
         crashes cfg n nodes id ip inst pre crash /\ leaderWait nodes ip (PORT cfg) (Fin 15) None wait)
  end.

(** The rounds of these numbers, and the findings of the completed ones. *)
Inductive roundsLog (cfg : Config) (nodes : Nodes) : list Z -> list Round -> Nodes -> list IOEvent -> Prop :=
| roundsLog_none : roundsLog cfg nodes [] [] nodes []
| roundsLog_next ns rs nodes1 evs n o nodes2 evs' :
    roundsLog cfg nodes ns rs nodes1 evs -> roundDone cfg n nodes1 o nodes2 evs' ->
    roundsLog cfg nodes (ns ++ [n]) (rs ++ option_list o) nodes2 (evs ++ evs').

(** What is printed about the findings of a round. *)
Definition catchLines (posted : Z) (caught : option Z) : list string :=
  match caught with
  | None => []
  | Some c =>
      ["    Post-crash keys visible: " +:+ pretty c +:+ "/" +:+ pretty posted;
       if decide (c = posted) then "    ✓ Full catchup via log replication"
       else "    ✗ Partial catchup: " +:+ pretty (posted - c) +:+ " missing"]
  end.

Definition reportLines (r : Round) : list string :=
  ["    Re-election  : " +:+ fmtFixed 0 (r_ms r) +:+ "ms";
   "    Survived : " +:+ pretty (r_written r - r_lost r) +:+ "/" +:+ pretty (r_written r);
   "    Lost     : " +:+ pretty (r_lost r) +:+ "/" +:+ pretty (r_written r);
   if decide (r_lost r = 0) then "    ✓ NO DATA LOSS" else "    ✗ DATA LOSS DETECTED"] ++
  catchLines (r_posted r) (r_caught r).

Section Rounds.
Context {W : Type} {HW : World W} {HC : Clock W} {HR : Recorded W}.

Lemma logs_get_status ip port :
  logs (W := W) (get_status ip port) (fun s evs out => (exists a, s = bodyOf a /\ evs = [statusReq ip port a]) /\ out = []).
Proof. apply logs_silent; [auto with silent|]. intros P w HP. apply rec_get_status. intros a w' Hp. eapply HP; eauto. Qed.

Lemma logs_readTime : logs (W := W) readTime (fun t evs out => evs = [EvTime t] /\ out = []).
Proof. apply logs_silent; [auto with silent|]. intros P w HP. apply rec_readTime. intros t w' Hp. by eapply HP. Qed.

Lemma logs_doSleep q : sleepError (Fin q) = None -> (0 <= q)%Q ->
  logs (W := W) (doSleep (Fin q)) (fun _ evs out => evs = [EvSleep (Fin q)] /\ out = []).
Proof.
  intros He Hq. apply logs_silent; [auto with silent|]. intros P w HP. apply rec_doSleep; [done|done|]. intros w' Hp _. by eapply HP.
Qed.

Lemma logs_runProcess argv : logs (W := W) (runProcess argv) (fun s evs out => evs = [EvProcess argv (Some s)] /\ out = []).
Proof. apply logs_silent; [auto with silent|]. intros P w HP. apply rec_runProcess; [done|]. intros s w' Hp. by eapply HP. Qed.

Lemma logs_start_instance inst region : logs (W := W) (start_instance inst region)
  (fun _ evs out => (exists o, evs = [awsCall region "start-instances" inst [] o]) /\ out = []).
Proof. eapply logs_bind; [apply logs_runProcess|]. intros s ? ? [-> ->]. apply logs_ret. eauto. Qed.

Lemma logs_stop_instance inst region : logs (W := W) (stop_instance inst region)
  (fun _ evs out => (exists o, evs = [awsCall region "stop-instances" inst [] o]) /\ out = []).
Proof. eapply logs_bind; [apply logs_runProcess|]. intros s ? ? [-> ->]. apply logs_ret. eauto. Qed.

Lemma logs_get_public_ip inst region : logs (W := W) (get_public_ip inst region) (fun o evs out =>
  exists s, o = (if bool_decide (strip s = "None") then None else Some (strip s)) /\ evs = [addressCall region inst s] /\ out = []).
Proof. eapply logs_bind; [apply logs_runProcess|]. intros s ? ? [-> ->]. apply logs_ret. by exists s. Qed.

Lemma logs_waitForIP n id inst region : logs (W := W) (waitForIP n id inst region) (fun o evs _ =>
  match o with Some ip => newAddress region inst ip evs | None => Forall (noAddress region inst) evs end).
Proof.
  induction n as [|n IH]; cbn [waitForIP]; [by apply logs_ret|].
  eapply logs_bind; [by apply logs_doSleep|]. intros _ ? ? [-> ->].
  eapply logs_bind; [apply logs_get_public_ip|]. intros o ? ? (s & -> & -> & ->). cbn [app].
  assert (strip s = "" \/ strip s = "None" -> Forall (noAddress region inst) [EvSleep (Fin 5); addressCall region inst s]) as Hno.
  { intros Hs. constructor; [by left|]. constructor; [|constructor]. right. by exists s. }
  assert (strip s = "" \/ strip s = "None" -> logs (waitForIP n id inst region) (fun o evs' _ =>
    match o with Some ip => newAddress region inst ip (EvSleep (Fin 5) :: addressCall region inst s :: evs')
            | None => Forall (noAddress region inst) (EvSleep (Fin 5) :: addressCall region inst s :: evs') end)) as Hagain.
  { intros Hs%Hno. eapply logs_mono; [apply IH|]. intros [ip|] evs _.
    - intros (failed & out & -> & Hf & Hip). exists (EvSleep (Fin 5) :: addressCall region inst s :: failed), out.
      split_and!; [done|by apply (Forall_app_2 _ [_; _])|apply Hip..].
    - intros Hf. by apply (Forall_app_2 _ [_; _]). }
  case_bool_decide as Hs; [by auto|]. destruct (strip s) as [|c s'] eqn:E; [by auto|].
  apply logs_line, logs_ret. exists [], s. rewrite E. done.
Qed.

Lemma logs_waitForRaft n id ip port : logs (W := W) (waitForRaft n id ip port) (fun _ _ _ => True).
Proof.
  induction n as [|n IH]; cbn [waitForRaft]; [by apply logs_ret|].
  eapply logs_bind; [by apply logs_doSleep|]. intros _ ? ? _. eapply logs_bind; [apply logs_get_status|]. intros s ? ? _.
  case_if; [|done]. eapply logs_bind; [apply logs_liftR|]. intros st ? ? _. apply logs_line.
  eapply logs_bind; [apply logs_liftR|]. intros v ? ? _. case_if; [eapply logs_mono; [apply logs_println|done]|by apply logs_ret].
Qed.

Lemma logs_find_leader nodes port : logs (W := W) (find_leader nodes port) (fun r evs out =>
  match r with Some (id, ip) => leaderAsked nodes port id ip evs | None => Forall2 (unled port) nodes evs end /\ out = []).
Proof. apply (logs_silent _ (fun r evs => match r with Some (id, ip) => _ | None => _ end)); [auto with silent|]. intros P w HP. by apply rec_find_leader. Qed.

Lemma logs_countVisible ip port keys : logs (W := W) (countVisible ip port keys) (fun n evs out => readBack ip port keys n evs /\ out = []).
Proof. apply logs_silent; [auto with silent|]. intros P w HP. by apply rec_countVisible. Qed.

Lemma logs_writeTen ip port prefix :
  logs (W := W) (writeTen ip port prefix) (fun keys evs out => wrote ip port prefix (seqZ 0 10) keys evs /\ out = []).
Proof. apply logs_silent; [auto with silent|]. intros P w HP. by apply rec_writeTen. Qed.
End Rounds.

(** ** The rounds *)

Lemma eqb_decide {A} (a b : Z) (x y : A) : (if a =? b then x else y) = (if decide (a = b) then x else y).
Proof. destruct (Z.eqb_spec a b); by case_decide. Qed.

(** What a round adds to the lists. *)
Definition added (e : Exp) (o : option Round) (nodes' : Nodes) : Exp :=
  mkExp nodes' (election_times e ++ (r_ms <$> option_list o)) (data_loss_counts e ++ (r_lost <$> option_list o))
    (catchup_counts e ++ omap r_caught (option_list o)).

(** ** What a whole run asks and prints *)

Definition askedStatus (port : Z) (n : string * string) (ev : IOEvent) : Prop := exists a, ev = statusReq n.2 port a.

(** Asked for its status, and the answer has a body that is true. *)
Definition answered (port : Z) (n : string * string) (ev : IOEvent) : Prop :=
  exists a, ev = statusReq n.2 port a /\ isTrue (bodyOf a) = true.

Definition lostKeys (rs : list Round) : Z := foldr Z.add 0 (r_lost <$> rs).

(** From two rounds on: the float nearest to the root of the exact variance. *)
Definition deviationLine (times : list float) (lines : list string) : Prop :=
  if decide (2 <= length times)%nat
  then exists r, rounds_sqrt (variance times) r /\ lines = ["Std deviation       : " +:+ fmtFixed 0 (Fin r) +:+ "ms"]
  else lines = [].

Definition catchupLine (caught : list Z) (lines : list string) : Prop :=
  match caught with
  | [] => lines = []
  | _ => exists avg, mean (float_of_int <$> caught) = Ok avg /\ lines = ["Avg catchup         : " +:+ fmtFixed 1 avg +:+ "/10 keys"]
  end.

Definition resultLines (total : Z) (rs : list Round) (lines : list string) : Prop :=
  exists figures, lines = ("Rounds completed    : " +:+ pretty (length rs) +:+ "/" +:+ pretty total) :: figures /\
  match r_ms <$> rs with
  | [] => figures = []
  | t :: ts => exists avg dev catch, mean (t :: ts) = Ok avg /\ deviationLine (t :: ts) dev /\ catchupLine (omap r_caught rs) catch /\
      figures =
        ["Re-election min     : " +:+ fmtFixed 0 (py_min t ts) +:+ "ms";
         "Re-election max     : " +:+ fmtFixed 0 (py_max t ts) +:+ "ms";
         "Re-election avg     : " +:+ fmtFixed 0 avg +:+ "ms"] ++ dev ++
        ["Total data loss     : " +:+ pretty (lostKeys rs) +:+ " keys"] ++ catch
  end.

Section Reports.
Context {W : Type} {HW : World W} {HC : Clock W} {HR : Recorded W}.

Lemma logs_rejoin cfg e id inst post : logs (W := W) (rejoin cfg e id inst post) (fun e' evs out =>
  exists caught nodes', rejoined cfg id inst (NODES e) post caught nodes' evs /\
    e' = mkExp nodes' (election_times e) (data_loss_counts e) (catchup_counts e ++ option_list caught) /\
    catchLines (Z.of_nat (length post)) caught `sublist_of` out).
Proof.
  apply logs_line. eapply logs_bind; [apply logs_start_instance|]. intros _ ? ? [[s ->] ->]. apply logs_line.
  eapply logs_bind; [apply logs_waitForIP|]. intros [ip|] look o1 Hlook.
  - apply logs_line. eapply logs_bind; [apply logs_waitForRaft|]. intros _ st o2 _. apply logs_line.
    eapply logs_bind; [by apply logs_doSleep|]. intros _ ? ? [-> ->].
    eapply logs_bind; [apply logs_countVisible|]. intros c gets ? [Hg ->]. do 2 apply logs_line.
    eapply logs_bind; [by apply logs_doSleep|]. intros _ ? ? [-> ->]. apply logs_ret.
    exists (Some c), (setNode id ip (NODES e)). split_and!; [|done|].
    + exists s. eexists. split; [done|]. exists ip, look, (st ++ [EvSleep (Fin 5)]), gets. split_and!; [|done|done|done].
      cbn. by rewrite <- app_assoc.
    + cbn [app]. rewrite eqb_decide. apply sublist_cons, sublist_cons, sublist_inserts_l, sublist_cons, sublist_inserts_l, sublist_cons. done.
  - apply logs_line, logs_ret. exists None, (NODES e). split_and!; [|cbn; by rewrite app_nil_r; destruct e|apply sublist_nil_l].
    exists s, look. split; [cbn; by rewrite app_nil_r|done].
Qed.

Lemma logs_afterElection cfg e n id ip inst pre new_id term ms crash wait :
  crashes cfg n (NODES e) id ip inst pre crash -> leaderWait (NODES e) ip (PORT cfg) (Fin 15) (Some (new_id, term, ms)) wait ->
  logs (W := W) (afterElection cfg e n id inst pre new_id term ms) (fun e' evs out =>
    exists r nodes', roundDone cfg n (NODES e) (Some r) nodes' (crash ++ wait ++ evs) /\ e' = added e (Some r) nodes' /\
      reportLines r `sublist_of` out).
Proof.
  intros Hc Hw. do 4 apply logs_line. eapply logs_bind; [apply logs_liftR|]. intros new_ip ? ? (Hip & -> & ->).
  eapply logs_bind; [apply logs_countVisible|]. intros survived gets ? [Hg ->]. do 4 apply logs_line.
  eapply logs_bind; [apply logs_writeTen|]. intros post puts ? [Hp ->]. apply logs_line.
  eapply logs_mono; [apply logs_rejoin|]. intros e' rest out (caught & nodes' & Hrest & -> & Hout).
  exists (mkRound ms (keyCount pre) (keyCount pre - survived) (keyCount post) caught), nodes'. split_and!.
  - exists id, ip, inst, pre, crash, wait, new_id, term, new_ip, gets, post, puts, rest. cbn [r_ms r_written r_lost r_posted r_caught].
    split_and!; try done. by replace (keyCount pre - (keyCount pre - survived)) with survived by lia.
  - unfold added. cbn. by destruct caught.
  - unfold reportLines. cbn [r_ms r_written r_lost r_posted r_caught]. replace (keyCount pre - (keyCount pre - survived)) with survived by lia.
    cbn [app]. rewrite eqb_decide. do 2 apply sublist_cons. apply sublist_skip, sublist_cons. do 3 apply sublist_skip. by do 2 apply sublist_cons.
Qed.

(** A round does what its record says, adds its findings and reports them. *)
Lemma logs_round {HWC : WallClock W} k fuel cfg e n : (15 + 2 * skew <= inject_Z (Z.of_nat k) * (1 # 20))%Q -> (k < fuel)%nat ->
  logs (W := W) (round fuel cfg e n) (fun e' evs out =>
    exists o nodes', roundDone cfg n (NODES e) o nodes' evs /\ e' = added e o nodes' /\ (option_list o ≫= reportLines) `sublist_of` out).
Proof.
  intros Hk Hf. assert (forall nodes, nodes = NODES e -> e = added e None nodes) as Hsame.
  { intros ? ->. unfold added. cbn. rewrite !app_nil_r. by destruct e. }
  do 3 apply logs_line. eapply logs_bind; [apply logs_find_leader|].
  intros [[id ip]|] find ? [Hfind ->]; cycle 1.
  { apply logs_line, logs_ret. exists None, (NODES e). split_and!; [|by apply Hsame|apply sublist_nil_l].
    split; [done|left]. by rewrite app_nil_r. }
  eapply logs_bind; [apply logs_liftR|]. intros inst ? ? (Hinst & -> & ->).
  eapply logs_bind; [apply logs_get_status|]. intros s ? ? [(a & -> & ->) ->]. do 2 apply logs_line.
  eapply logs_bind; [apply logs_liftR|]. intros term ? ? (_ & -> & ->). do 2 apply logs_line.
  eapply logs_bind; [apply logs_writeTen|]. intros pre puts ? [Hputs ->]. do 2 apply logs_line.
  eapply logs_bind; [apply logs_readTime|]. intros t ? ? [-> ->].
  eapply logs_bind; [apply logs_stop_instance|]. intros _ ? ? [[out ->] ->].
  eapply logs_bind; [apply logs_silent; [auto with silent|]; intros P w HP;
    apply (rec_waitLeader 15 k); [done|by apply (is_float_Z 15)|lra|done|done|exact HP]|].
  intros found wait ? [Hwait ->].
  assert (crashes cfg n (NODES e) id ip inst pre (find ++ statusReq ip (PORT cfg) a :: puts ++ [EvTime t; awsCall (REGION cfg) "stop-instances" inst [] out]))
    as Hcrash by by exists find, a, puts, t, out.
  destruct found as [[[new_id nterm] ms]|].
  - eapply logs_mono; [by eapply logs_afterElection|]. intros e' evs o (r & nodes' & Hr & -> & Ho). exists (Some r), nodes'.
    split_and!; [|done|].
    + cbn [app]. rewrite <- app_assoc in Hr. cbn [app] in Hr. by rewrite <- app_assoc in Hr.
    + change (option_list (Some r)) with [r]. rewrite bind_singleton. by repeat apply sublist_cons.
  - apply logs_line. eapply logs_bind; [apply logs_start_instance|]. intros _ ? ? [[s ->] ->].
    eapply logs_bind; [by apply logs_doSleep|]. intros _ ? ? [-> ->]. apply logs_ret. exists None, (NODES e).
    split_and!; [|by apply Hsame|apply sublist_nil_l]. split; [done|right]. exists id, ip, inst, pre. eexists. exists wait, s.
    split_and!; [|exact Hcrash|done]. cbn [app]. rewrite <- app_assoc. cbn [app]. by rewrite <- app_assoc.
Qed.

(** ** The run *)

Lemma logs_checkNodes ind nodes port : logs (W := W) (checkNodes ind nodes port) (fun b evs _ =>
  if b then Forall2 (answered port) nodes evs
  else exists up id ip down asks a, nodes = up ++ (id, ip) :: down /\ Forall2 (answered port) up asks /\
         isTrue (bodyOf a) = false /\ evs = asks ++ [statusReq ip port a]).
Proof.
  induction nodes as [|[id ip] rest IH]; cbn [checkNodes]; [apply logs_ret; constructor|].
  eapply logs_bind; [apply logs_get_status|]. intros s ? ? [(a & -> & ->) ->]. destruct (isTrue (bodyOf a)) eqn:E.
  - eapply logs_bind; [apply logs_liftR|]. intros st ? ? (_ & -> & ->). apply logs_line. eapply logs_mono; [apply IH|]. cbn [app].
    intros [] evs _; [by constructor; [exists a|]|]. intros (up & id' & ip' & down & asks & a' & -> & Hu & Ha & ->).
    exists ((id, ip) :: up), id', ip', down, (statusReq ip port a :: asks), a'. split_and!; [done| |done|done]. by constructor; [exists a|].
  - apply logs_line, logs_ret. exists [], id, ip, rest, [], a. by split_and!.
Qed.

Lemma logs_finalState nodes port : logs (W := W) (finalState nodes port) (fun _ evs _ => Forall2 (askedStatus port) nodes evs).
Proof.
  induction nodes as [|[id ip] rest IH]; cbn [finalState]; [apply logs_ret; constructor|].
  eapply logs_bind; [apply logs_get_status|]. intros s ? ? [(a & -> & ->) ->].
  eapply (logs_bind _ _ (fun _ evs _ => evs = [])).
  - case_if; [|eapply logs_mono; [apply logs_println|by intros ? ? ? [-> _]]].
    do 2 (eapply logs_bind; [apply logs_liftR|]; intros ? ? ? (_ & -> & ->)). eapply logs_mono; [apply logs_println|]. by intros ? ? ? [-> _].
  - intros _ ? ? ->. eapply logs_mono; [apply IH|]. intros ? evs ? Hf. constructor; [by exists a|done].
Qed.

Lemma logs_figure (b : bool) r show : logs (W := W) (figure b r show) (fun o evs out => evs = [] /\
  if b then exists v, r = Ok v /\ o = Some v /\ out = [show v] else o = None /\ out = []).
Proof.
  unfold figure. destruct b; [|by apply logs_ret]. eapply logs_bind; [apply logs_liftR|]. intros v ? ? (-> & -> & ->).
  apply logs_line, logs_ret. split; [done|]. by exists v.
Qed.

Lemma logs_summary cfg e rs : election_times e = r_ms <$> rs -> data_loss_counts e = r_lost <$> rs -> catchup_counts e = omap r_caught rs ->
  logs (W := W) (summary cfg e) (fun s evs out => evs = [] /\ completed s = Z.of_nat (length rs) /\ total_loss s = lostKeys rs /\
    exists lines, resultLines (ROUNDS cfg) rs lines /\ lines `sublist_of` out).
Proof.
  intros Ht Hl Hc. do 4 apply logs_line. rewrite Ht, length_fmap. destruct rs as [|r rs]; cbn [fmap list_fmap].
  { apply logs_ret. split_and!; [done|done|done|]. eexists. split; [by exists []|]. by do 3 apply sublist_cons. }
  do 2 apply logs_line. eapply logs_bind; [apply logs_figure|]. intros ? ? ? (-> & avg & Havg & -> & ->).
  eapply logs_bind; [apply logs_figure|]. intros d ? dev (-> & Hdev). apply logs_line.
  eapply logs_bind; [apply logs_figure|]. intros c ? catch (-> & Hcatch). apply logs_ret.
  split_and!; [done|cbn; by rewrite length_fmap|cbn; by rewrite Hl|]. eexists. split.
  - eexists. split; [done|]. cbn [fmap list_fmap]. exists avg, dev, catch. split_and!; [done| | |done].
    + unfold deviationLine. case_decide as H2.
      * rewrite (proj2 (Z.ltb_lt 1 _)) in Hdev by lia. destruct Hdev as (v & (x & -> & Hx)%stdev_Ok & _ & ->). by exists x.
      * rewrite (proj2 (Z.ltb_ge 1 _)) in Hdev by lia. by destruct Hdev.
    + unfold catchupLine. rewrite Hc in Hcatch. destruct (omap r_caught (r :: rs)); cbn in Hcatch; [by destruct Hcatch|].
      destruct Hcatch as (v & Hv & _ & ->). by exists v.
  - cbn [app]. rewrite app_nil_r, Hl. do 3 apply sublist_cons. done.
Qed.
End Reports.

(** ** The theorems about a run *)

(** What a run does when every node answers at the start. *)
Definition runLog (cfg : Config) (nodes : Nodes) (rs : list Round) (e : Exp) (evs : list IOEvent) : Prop :=
  exists up evs' final, evs = up ++ evs' ++ final /\ Forall2 (answered (PORT cfg)) nodes up /\
    roundsLog cfg nodes (seqZ 1 (ROUNDS cfg)) rs (NODES e) evs' /\ Forall2 (askedStatus (PORT cfg)) (NODES e) final.

(** Or when one does not. *)
Definition unreachable (port : Z) (nodes : Nodes) (evs : list IOEvent) : Prop :=
  exists up id ip down asks a, nodes = up ++ (id, ip) :: down /\ Forall2 (answered port) up asks /\
    isTrue (bodyOf a) = false /\ evs = asks ++ [statusReq ip port a].

Definition countsOf (rs : list Round) (e : Exp) : Prop :=
  election_times e = r_ms <$> rs /\ data_loss_counts e = r_lost <$> rs /\ catchup_counts e = omap r_caught rs.

Definition boundedRound (r : Round) : Prop :=
  0 <= r_lost r <= r_written r /\ r_written r <= 10 /\ r_posted r <= 10 /\ forall c, r_caught r = Some c -> 0 <= c <= r_posted r.

Lemma roundDone_bounded cfg n nodes r nodes' evs : roundDone cfg n nodes (Some r) nodes' evs -> boundedRound r.
Proof.
  intros (id & ip & inst & pre & crash & wait & new_id & term & new_ip & gets & post & puts & rest & _ & Hc & _ & _ & Hw & Hg & Hp & Hputs & Hr).
  destruct Hc as (? & ? & ? & ? & ? & _ & _ & _ & H1%wrote_length). apply wrote_length in Hputs. rewrite length_seqZ in *.
  apply readBack_bound in Hg. split_and!; try lia. intros c Hc. destruct Hr as (out & boot & _ & Hr). rewrite Hc in Hr.
  destruct Hr as (? & ? & ? & gets' & _ & _ & _ & Hb%readBack_bound). lia.
Qed.

Lemma setNode_ids id ip nodes : (setNode id ip nodes).*1 = nodes.*1.
Proof. unfold setNode. rewrite <- list_fmap_compose. apply list_fmap_ext. intros _ [n i] _. simpl. by case_bool_decide. Qed.

Lemma roundDone_ids cfg n nodes o nodes' evs : roundDone cfg n nodes o nodes' evs -> nodes'.*1 = nodes.*1.
Proof.
  destruct o as [r|]; [|by intros [-> _]]. intros (? & ? & ? & ? & ? & ? & ? & ? & ? & ? & ? & ? & ? & H).
  destruct H as (_ & _ & _ & _ & _ & _ & _ & _ & ? & ? & _ & Hr).
  destruct (r_caught r) as [c|]; [|by destruct Hr as [-> _]]. destruct Hr as (? & ? & ? & ? & _ & _ & -> & _). apply setNode_ids.
Qed.

Lemma roundsLog_facts cfg nodes ns rs nodes' evs : roundsLog cfg nodes ns rs nodes' evs ->
  Forall boundedRound rs /\ (length rs <= length ns)%nat /\ nodes'.*1 = nodes.*1.
Proof.
  induction 1 as [|ns rs nodes1 evs n o nodes2 evs' _ (Hb & Hl & Hi) Hr]; [by split_and!|].
  rewrite !length_app. split_and!.
  - apply Forall_app. split; [done|]. destruct o as [r|]; [|constructor]. by apply Forall_singleton, (roundDone_bounded _ _ _ _ _ _ Hr).
  - destruct o; simpl; lia.
  - by rewrite (roundDone_ids _ _ _ _ _ _ Hr).
Qed.

Lemma lostKeys_bound rs : Forall boundedRound rs -> 0 <= lostKeys rs <= 10 * Z.of_nat (length rs).
Proof. unfold lostKeys. induction 1 as [|r rs (? & ? & _)]; cbn [fmap list_fmap foldr length]; lia. Qed.

Section Run.
Context {W : Type} {HW : World W} {HC : Clock W} {HWC : WallClock W} {HR : Recorded W}.

(** Fuel for the polling passes of a wait: [k] sleeps cover its 15 seconds and
    what the system clock may be set by. *)
Context (k fuel : nat) (Hk : (15 + 2 * skew <= inject_Z (Z.of_nat k) * (1 # 20))%Q) (Hfuel : (k < fuel)%nat).

Lemma logs_rounds cfg nodes : logs (W := W) (forM (round fuel cfg) (mkExp nodes [] [] []) (seqZ 1 (ROUNDS cfg))) (fun e evs out =>
  exists rs, roundsLog cfg nodes (seqZ 1 (ROUNDS cfg)) rs (NODES e) evs /\ countsOf rs e /\ (rs ≫= reportLines) `sublist_of` out).
Proof.
  apply (logs_forM _ (fun ns e evs out => exists rs, roundsLog cfg nodes ns rs (NODES e) evs /\ countsOf rs e /\ (rs ≫= reportLines) `sublist_of` out)).
  - exists []. split_and!; [apply roundsLog_none|done|done].
  - intros ns n e evs out (rs & Hlog & (Ht & Hl & Hc) & Hout). eapply logs_mono; [by eapply logs_round|].
    intros e' evs' out' (o & nodes' & Hr & -> & Ho). exists (rs ++ option_list o). split_and!.
    + by econstructor.
    + split_and!; cbn; [by rewrite Ht, fmap_app|by rewrite Hl, fmap_app|by rewrite Hc, omap_app].
    + rewrite bind_app. by apply sublist_app.
Qed.

Lemma logs_run cfg nodes : logs (W := W) (run_experiment fuel cfg nodes) (fun o evs out =>
  match o with
  | Some (e, s) => exists rs lines, runLog cfg nodes rs e evs /\ countsOf rs e /\ completed s = Z.of_nat (length rs) /\
      total_loss s = lostKeys rs /\ resultLines (ROUNDS cfg) rs lines /\ ((rs ≫= reportLines) ++ lines) `sublist_of` out
  | None => unreachable (PORT cfg) nodes evs
  end).
Proof.
  unfold run_experiment, banner. cbn [printLines]. eapply (logs_bind _ _ (fun _ evs _ => evs = [])).
  { do 3 apply logs_line. by apply logs_ret. }
  intros _ ? o0 ->. apply logs_line. eapply logs_bind; [apply logs_checkNodes|]. intros [] up o1 Hup; cycle 1.
  { apply logs_ret. cbn. by rewrite app_nil_r. }
  eapply logs_bind; [apply logs_rounds|]. intros e evs o2 (rs & Hlog & Hcounts & Hout2).
  eapply logs_bind; [apply logs_summary; apply Hcounts|]. intros s ? o3 (-> & Hcs & Hts & lines & Hsum & Hout3). apply logs_line.
  eapply logs_bind; [apply logs_finalState|]. intros ? final o4 Hfinal. apply logs_ret. exists rs, lines.
  split_and!; try done.
  - exists up, evs, final. split_and!; try done. cbn. by rewrite app_nil_r.
  - cbn [app]. apply sublist_inserts_l, sublist_cons, sublist_inserts_l, sublist_app; [done|]. by apply sublist_inserts_r.
Qed.

(** C38. A failover run ends: with fuel for the polling passes of a wait it never
    runs out, whatever the cluster, the AWS tool and the setting of the clock do.
    Unless it raises, either a node gave no status at the start and nothing more
    was asked, or the record of the run is its rounds in order, and the lists it
    returns are their findings.  In a completed round the leader was the first
    node that said so; ten random values were written to it; its instance was
    stopped; a node other than it came to lead within the wait, whose duration is
    the round's election time; each accepted key was read from that node, and the
    loss count is the number of answers that did not show the value written; ten
    more were written to it, and after the restart those it accepted were read
    from the node at its new address, the catch-up count being the number of
    answers that showed the value.  So the counts lie between 0 and the number of
    keys accepted, at most 10; the node names are unchanged, no more rounds are
    completed than were asked for, and the total loss is the sum. *)
Theorem failover_counts (cfg : Config) (nodes : Nodes) (w : Term W) :
  match run_experiment fuel cfg nodes w with
  | (w', Ret (Some (e, s))) => exists rs evs, record w' = record w ++ evs /\ runLog cfg nodes rs e evs /\ countsOf rs e /\
      Forall boundedRound rs /\ (NODES e).*1 = nodes.*1 /\
      completed s = Z.of_nat (length rs) /\ completed s <= Z.max 0 (ROUNDS cfg) /\
      total_loss s = lostKeys rs /\ 0 <= total_loss s <= 10 * completed s
  | (w', Ret None) => exists evs, record w' = record w ++ evs /\ unreachable (PORT cfg) nodes evs
  | (_, Raise _) => True
  | (_, NoFuel) => False
  end.
Proof.
  pose proof (logs_run cfg nodes w) as Hw. unfold wpx in Hw. destruct (run_experiment fuel cfg nodes w) as [w' [[[e s]|]|er|]]; [| |done..].
  - destruct Hw as (evs & out & [Hp _] & _ & rs & lines & Hlog & Hcounts & Hcs & Hts & _). exists rs, evs.
    assert (Forall boundedRound rs /\ (length rs <= length (seqZ 1 (ROUNDS cfg)))%nat /\ (NODES e).*1 = nodes.*1) as (Hb & Hlen & Hi).
    { destruct Hlog as (up & evs' & final & _ & _ & Hr & _). by eapply roundsLog_facts. }
    rewrite length_seqZ in Hlen. pose proof (lostKeys_bound rs Hb). rewrite Hts, Hcs. split_and!; try done; try lia.
  - destruct Hw as (evs & out & [Hp _] & _ & Hu). by exists evs.
Qed.

End Run.

(** ** The simulated failover, run *)

Definition demo_run := run_experiment 381 demo_cfg demo_nodes ((mkRec (0%Q, false) []), []).

(** Three rounds: no key lost, all ten keys of each round caught up. *)
Example failover_run :
  match demo_run.2 with
  | Ret (Some (e, s)) => (data_loss_counts e, catchup_counts e, completed s, total_loss s)
  | _ => ([], [], 0, 0)
  end = ([0; 0; 0], [10; 10; 10], 3, 0).
Proof. by vm_compute. Qed.

(** The end of its output. *)
Example failover_output :
  drop (length demo_run.1.2 - 15) demo_run.1.2 =
  ["    ✓ Full catchup via log replication"; repeatStr 60 "-"; nl +:+ "RESULTS SUMMARY"; repeatStr 60 "-";
   "Rounds completed    : 3/3"; "Re-election min     : 10ms"; "Re-election max     : 10ms"; "Re-election avg     : 10ms";
   "Std deviation       : 0ms"; "Total data loss     : 0 keys"; "Avg catchup         : 10.0/10 keys";
   nl +:+ "Final cluster state:"; "  nodeA: Follower term=7 leader=nodeA"; "  nodeB: Follower term=7 leader=nodeA";
   "  nodeC: Follower term=7 leader=nodeA"].
Proof. by vm_compute. Qed.

Lemma demo_fuel : (15 + 2 * skew (W := Rec (Q * bool)) <= inject_Z (Z.of_nat 380) * (1 # 20))%Q.
Proof. by vm_compute. Qed.

Lemma failover_counts_witness :
  match demo_run with
  | (w', Ret (Some (e, s))) => exists rs, length rs = 3%nat /\ runLog demo_cfg demo_nodes rs e (record w') /\ countsOf rs e /\ lostKeys rs = 0
  | _ => False
  end.
Proof.
  pose proof (failover_counts 380 381 demo_fuel ltac:(lia) demo_cfg demo_nodes (mkRec (0%Q, false) [], [])) as Hc.
  pose proof failover_run as Hr. unfold demo_run in *. revert Hc Hr.
  generalize (run_experiment 381 demo_cfg demo_nodes (mkRec (0%Q, false) [], [])) as run.
  intros [w' [[[e s]|]|er|]] Hc Hr; try discriminate Hr. destruct Hc as (rs & evs & He & Hlog & Hcounts & _ & _ & Hn & _ & Hl & _).
  injection Hr as _ _ H3 H0. exists rs. split_and!; [lia| |done|lia]. change (record w' = evs) in He. by rewrite He.
Defined.

Lemma demo_run_Ret : exists w' e s, demo_run = (w', Ret (Some (e, s))) /\ length (election_times e) = 3%nat.
Proof.
  pose proof failover_run as Hr.
  assert (match demo_run.2 with Ret (Some (e, _)) => length (election_times e) | _ => 0%nat end = 3%nat) as Hl by by vm_compute.
  revert Hr Hl. generalize demo_run as run. intros [w' [[[e s]|]|er|]] Hr Hl; try discriminate Hr. by exists w', e, s.
Qed.

