(* ===== verification/Infra.v ===== *)
(** * The leader-election experiment over ssh

    [raft_leader_election_infra/experiment.py], the earlier experiment: stop the
    leader's service over ssh, time the re-election, start it again.  It shares
    the status queries and the waiting loop of [Failover.v]. *)

From Stdlib Require Import Lqa.
From S2P Require Import Prelude PyStr PyFloat PyStdev PyWorld PyConsole Failover.
#[local] Open Scope Z_scope.
#[local] Open Scope py_scope.

Record Config := mkConfig { NODES : Nodes; PORT : Z; KEY : string; ROUNDS : Z }.

(** ** Queries and commands *)

Section Queries.
Context {W : Type} `{World W}.

Definition get_status (cfg : Config) (ip : string) : M W (option Json) := Failover.get_status ip (PORT cfg).

Definition find_leader (cfg : Config) : M W (option (string * string)) := Failover.find_leader (NODES cfg) (PORT cfg).

Definition get_metrics (ip : string) (port : Z) : M W (option Json) :=
  let* r := doRequest "GET" (nodeURL ip port "/metrics") (Fin 2) None in
  ret match r with Ok resp => http_json resp | Err _ => None end.

Definition ssh (cfg : Config) (ip command : string) : M W unit :=
  let* _ := runProcess ["ssh"; "-i"; KEY cfg; "-o"; "StrictHostKeyChecking=no"; "ec2-user@" +:+ ip; command] in ret tt.

Definition crash_node (cfg : Config) (ip : string) : M W unit := ssh cfg ip "sudo systemctl stop raft-node".
Definition restart_node (cfg : Config) (ip : string) : M W unit := ssh cfg ip "sudo systemctl start raft-node".

Definition wait_for_new_leader (fuel : nat) (cfg : Config) (crashed_ip : string)
    : M W (option (string * option Json * float)) :=
  waitLeader fuel (NODES cfg) crashed_ip (PORT cfg) (Fin 10).
End Queries.

(** ** The run *)

Section Run.
Context {W : Type} `{World W}.

Definition print_separator : M (Term W) unit := println (repeatStr 50 "-").

(** The lines about the outcome of a wait. *)
Definition outcomeLines (found : option (string * option Json * float)) : list string :=
  match found with
  | Some (new_leader_id, new_term, elapsed_ms) =>
      ["  New leader     : " +:+ new_leader_id; "  New term       : " +:+ str_opt new_term;
       "  Re-election    : " +:+ fmtFixed 0 elapsed_ms +:+ "ms"]
  | None => ["  No new leader found within timeout"]
  end.

Definition round (fuel : nat) (cfg : Config) (timings : list float) (round_num : Z) : M (Term W) (list float) :=
  print_separator ;;; println ("Round " +:+ pretty round_num +:+ "/" +:+ pretty (ROUNDS cfg)) ;;;
  let* leader := find_leader cfg in
  match leader with
  | None => println "  No leader found — skipping" ;;; ret timings
  | Some (leader_id, leader_ip) =>
      let* s := get_status cfg leader_ip in
      println ("  Current leader : " +:+ leader_id +:+ " (" +:+ leader_ip +:+ ")") ;;;
      let* term := liftR (subscript s "term") in
      println ("  Current term   : " +:+ str_json term) ;;;
      println ("  Crashing " +:+ leader_id +:+ "...") ;;;
      let* _ := readTime in
      crash_node cfg leader_ip ;;;
      let* found := wait_for_new_leader fuel cfg leader_ip in
      let timings := match found with Some (_, _, elapsed_ms) => timings ++ [elapsed_ms] | None => timings end in
      printLines (outcomeLines found) ;;;
      println ("  Restarting " +:+ leader_id +:+ "...") ;;;
      restart_node cfg leader_ip ;;;
      doSleep (Fin 4) ;;;
      ret timings
  end.

Record Summary := mkSummary {
  completed : Z; t_min : option float; t_max : option float; t_avg : option float; t_median : option float;
  t_stdev : option float }.

Definition msLine (label : string) (v : float) : string := label +:+ fmtFixed 0 v +:+ "ms".

Definition summary (cfg : Config) (timings : list float) : M (Term W) Summary :=
  print_separator ;;; println (nl +:+ "RESULTS SUMMARY") ;;; print_separator ;;;
  println ("Rounds completed  : " +:+ pretty (length timings) +:+ "/" +:+ pretty (ROUNDS cfg)) ;;;
  match timings with
  | [] => ret (mkSummary 0 None None None None None)
  | t :: ts =>
      println (msLine "Min re-election   : " (py_min t ts)) ;;;
      println (msLine "Max re-election   : " (py_max t ts)) ;;;
      let* a := figure true (mean timings) (msLine "Average           : ") in
      let* m := figure true (median timings) (msLine "Median            : ") in
      let* d := figure (1 <? Z.of_nat (length timings)) (stdev timings) (msLine "Std deviation     : ") in
      println (nl +:+ "All timings (ms)  : " +:+ repr_list ((fun t => repr_str (fmtFixed 0 t)) <$> timings)) ;;;
      ret (mkSummary (Z.of_nat (length timings)) (Some (py_min t ts)) (Some (py_max t ts)) a m d)
  end.

(** The seven counters printed for a node that answers. *)
Definition metricNames : list (string * string) :=
  [("    state            : ", "state"); ("    term             : ", "term");
   ("    electionsStarted : ", "electionsStarted"); ("    heartbeatsSent   : ", "heartbeatsSent");
   ("    heartbeatsRecvd  : ", "heartbeatsRecvd"); ("    votesGranted     : ", "votesGranted");
   ("    currentLeaderID  : ", "currentLeaderID")].

Definition finalMetrics (cfg : Config) : M (Term W) unit :=
  forM (fun _ '(node_id, ip) =>
          let* m := get_metrics ip (PORT cfg) in
          if isTrue m then
            println (nl +:+ "  " +:+ node_id +:+ ":") ;;;
            forM (fun _ '(label, k) => let* v := liftR (subscript m k) in println (label +:+ str_json v)) tt metricNames
          else ret tt)
       tt (NODES cfg).

(** [None] is [sys.exit(1)]. *)
Definition run_experiment (fuel : nat) (cfg : Config) : M (Term W) (option (list float * Summary)) :=
  banner 50 "  RAFT LEADER ELECTION EXPERIMENT" ;;;
  println (nl +:+ "Checking all nodes...") ;;;
  let* up := checkNodes "  " (NODES cfg) (PORT cfg) in
  if (up : bool) then
    let* timings := forM (round fuel cfg) [] (seqZ 1 (ROUNDS cfg)) in
    let* s := summary cfg timings in
    println (nl +:+ "FINAL METRICS") ;;;
    print_separator ;;;
    finalMetrics cfg ;;;
    ret (Some (timings, s))
  else ret None.
End Run.

(** ** A lost status *)

(** The status of the leader found is queried again and subscripted
    without a check: when that second query fails (here the fifth request of
    the run times out), the whole experiment dies with a [TypeError], in both
    scripts, and the rounds already measured are lost. *)
Theorem lost_status_raises :
  (Failover.run_experiment (H := countdownWorld 4) 301 demo_cfg demo_nodes (0%nat, [])).2 = Raise TypeError /\
  (run_experiment (H := countdownWorld 4) 301 (mkConfig demo_nodes 7000 "key.pem" 5) (0%nat, [])).2 = Raise TypeError.
Proof. split; by vm_compute. Qed.
