(* ===== verification/Scripts.v ===== *)
(** * The scripts from their command lines

    [parse_args] of the four measurement scripts, and each script's entry point:
    parse the command line, then run. *)

From Stdlib Require Import Ascii.
From S2P Require Import Prelude PyStr PyFloat PyRepr PyCsv PyArgs PyWorld CompareGeo GeoExperiment GeoPipeline PyConsole Failover Infra.
#[local] Open Scope Z_scope.
#[local] Open Scope py_scope.

Definition mapParse {A B} (f : A -> B) (p : Parse A) : Parse B :=
  match p with Parsed a => Parsed (f a) | Exit status => Exit status end.

(** Run a program with the parsed arguments, or exit. *)
Definition runParsed {W A B} (p : Parse A) (k : A -> M W B) : M W (Parse B) :=
  match p with Parsed a => (let* b := k a in ret (Parsed b)) | Exit status => ret (Exit status) end.

(** ** Geo-distribution measurement *)

Module Geo.
Definition options : list Opt :=
  [mkOpt "--nodes" true TStr None;
   mkOpt "--rounds" false TInt (Some (AInt 100));
   mkOpt "--timeout" false TFloat (Some (AFloat (Fin 2)));
   mkOpt "--convergence-timeout" false TFloat (Some (AFloat (Fin 5)));
   mkOpt "--poll-interval" false TFloat (Some (AFloat (rnd (5 # 100))));
   mkOpt "--csv" false TStr (Some (AStr "geo_results.csv"))].

Definition parse_args (argv : list string) : Parse Args :=
  mapParse (fun ns =>
    mkArgs (getList ns "--nodes") (getInt ns "--rounds") (getFloat ns "--timeout")
      (getFloat ns "--convergence-timeout") (getFloat ns "--poll-interval") (getStr ns "--csv"))
    (parse options argv).

Definition script {W : Type} `{World W} (fuel : nat) (argv : list string) : M W (Parse Run) :=
  runParsed (parse_args argv) (GeoExperiment.main fuel).
End Geo.

(** The copy in [geo_colocated]. *)
Module Colocated.
Definition parse_args (argv : list string) : Parse Args := Geo.parse_args argv.

Definition script {W : Type} `{World W} (fuel : nat) (argv : list string) : M W (Parse Run) :=
  runParsed (parse_args argv) (colocated_main fuel).
End Colocated.

(** ** Comparison *)

Module Compare.
Definition options : list Opt :=
  [mkOpt "--colocated" false TStr (Some (AStr "geo_colocated/terraform/colocated_results.csv"));
   mkOpt "--distributed" false TStr (Some (AStr "geo_distributed/terraform/geo_distributed_results.csv"));
   mkOpt "--output" false TStr (Some (AStr ""))].

Record CompareArgs := mkCompareArgs { colocated : string; distributed : string; output : string }.

Definition parse_args (argv : list string) : Parse CompareArgs :=
  mapParse (fun ns => mkCompareArgs (getStr ns "--colocated") (getStr ns "--distributed") (getStr ns "--output"))
    (parse options argv).

(** [files] are the contents of the files that can be read; the file system takes
    a path to the file it names by [realpath], so several paths may name one file. *)
Definition openFile (realpath : string -> string) (files : gmap string text) (path : string) : result PyErr text :=
  match files !! realpath path with Some t => Ok t | None => Err OSError end.

(** The first file is read before the second is opened. *)
Definition script (realpath : string -> string) (files : gmap string text) (argv : list string)
    : Parse (result PyErr (list string * option string)) :=
  mapParse (fun args =>
    (tc <-? openFile realpath files (colocated args) ;; c <-? readCsv tc ;;
     td <-? openFile realpath files (distributed args) ;; d <-? readCsv td ;;
     CompareGeo.main c d (output args))%result) (parse_args argv).
End Compare.

(** ** Failover experiments *)

Definition threeNodes (a b c : string) : list (string * string) := [("nodeA", a); ("nodeB", b); ("nodeC", c)].

Module FailoverCli.
Definition options : list Opt :=
  [required "--node-a"; required "--node-b"; required "--node-c";
   required "--instance-a"; required "--instance-b"; required "--instance-c";
   mkOpt "--region" false TStr (Some (AStr "us-east-1"));
   mkOpt "--port" false TInt (Some (AInt 8000));
   mkOpt "--rounds" false TInt (Some (AInt 3))].

Definition parse_args (argv : list string) : Parse (Failover.Config * Nodes) :=
  mapParse (fun ns =>
    (Failover.mkConfig
       (threeNodes (getStr ns "--instance-a") (getStr ns "--instance-b") (getStr ns "--instance-c"))
       (getInt ns "--port") (getStr ns "--region") (getInt ns "--rounds"),
     threeNodes (getStr ns "--node-a") (getStr ns "--node-b") (getStr ns "--node-c")))
    (parse options argv).

Definition script {W : Type} `{World W} (fuel : nat) (argv : list string) : M (Term W) (Parse (option (Exp * Failover.Summary))) :=
  runParsed (parse_args argv) (fun '(cfg, nodes) => Failover.run_experiment fuel cfg nodes).
End FailoverCli.

Module InfraCli.
Definition options : list Opt :=
  [required "--node-a"; required "--node-b"; required "--node-c"; required "--key";
   mkOpt "--port" false TInt (Some (AInt 7000));
   mkOpt "--rounds" false TInt (Some (AInt 5))].

Definition parse_args (argv : list string) : Parse Infra.Config :=
  mapParse (fun ns =>
    Infra.mkConfig (threeNodes (getStr ns "--node-a") (getStr ns "--node-b") (getStr ns "--node-c"))
      (getInt ns "--port") (getStr ns "--key") (getInt ns "--rounds"))
    (parse options argv).

Definition script {W : Type} `{World W} (fuel : nat) (argv : list string) : M (Term W) (Parse (option (list float * Infra.Summary))) :=
  runParsed (parse_args argv) (Infra.run_experiment fuel).
End InfraCli.

(** ** Command lines *)

Example usage_ex :
  Geo.parse_args ["--nodes"; "http://a"; "http://b"; "--rounds=7"; "--poll"; ".1"] =
    Parsed (mkArgs ["http://a"; "http://b"] 7 (Fin 2) (Fin 5) (rnd (1 # 10)) "geo_results.csv") /\
  Geo.parse_args ["--nodes"; "a"; "-5"] = Parsed (mkArgs ["a"; "-5"] 100 (Fin 2) (Fin 5) (rnd (5 # 100)) "geo_results.csv") /\
  Geo.parse_args ["--c"; "x"; "--nodes"; "a"] = Exit 2 /\ Geo.parse_args ["--rounds"; "3"] = Exit 2 /\
  Geo.parse_args ["--nodes"; "a"; "--"; "b"] = Exit 2 /\ Geo.parse_args ["-hh"] = Exit 0 /\
  Geo.parse_args ["--help=x"] = Exit 2 /\ Geo.parse_args ["--nodes"; "a"; "-x y"; "--rounds"; "-5"] =
    Parsed (mkArgs ["a"; "-x y"] (-5) (Fin 2) (Fin 5) (rnd (5 # 100)) "geo_results.csv").
Proof. by vm_compute. Qed.

(** The options of the four parsers are well formed: distinct names, none of
    them the help option, and defaults of the declared type. *)
Lemma options_well_formed :
  Forall (fun opts => well_formed opts /\ Forall (fun o => match dflt o with Some d => hasType o d | None => True end) opts)
    [Geo.options; Compare.options; FailoverCli.options; InfraCli.options].
Proof.
  repeat (constructor; [split; [split; [apply (bool_decide_unpack _); by vm_compute|]|]|]); [..|constructor];
    repeat (constructor; [done|]); constructor.
Qed.

Lemma geo_well_formed : well_formed Geo.options.
Proof. pose proof options_well_formed as H. by apply Forall_cons in H as [[? _] _]. Qed.

(** A command line that says everything. *)
Definition geoCommand (args : Args) : list string :=
  "--nodes" :: nodes args ++
  ["--rounds"; pretty (rounds args); "--timeout"; repr_float (timeout args);
   "--convergence-timeout"; repr_float (convergence_timeout args);
   "--poll-interval"; repr_float (poll_interval args); "--csv"; csv args].

Lemma parse_geoCommand (args : Args) :
  nodes args <> [] -> 0 <= rounds args ->
  Forall exact [timeout args; convergence_timeout args; poll_interval args] ->
  Forall plainArg (nodes args ++
    [repr_float (timeout args); repr_float (convergence_timeout args); repr_float (poll_interval args); csv args]) ->
  Geo.parse_args (geoCommand args) = Parsed args.
Proof.
  intros Hne Hr Hex Hplain. apply Forall_app in Hplain as [Hn Hplain].
  apply Forall_cons in Hplain as [Ht [Hc [Hp [Hcsv _]%Forall_cons]%Forall_cons]%Forall_cons].
  apply Forall_cons in Hex as [Et [Ec [Ep _]%Forall_cons]%Forall_cons].
  set (items := [(mkOpt "--nodes" true TStr None, nodes args);
    (mkOpt "--rounds" false TInt (Some (AInt 100)), [pretty (rounds args)]);
    (mkOpt "--timeout" false TFloat (Some (AFloat (Fin 2))), [repr_float (timeout args)]);
    (mkOpt "--convergence-timeout" false TFloat (Some (AFloat (Fin 5))), [repr_float (convergence_timeout args)]);
    (mkOpt "--poll-interval" false TFloat (Some (AFloat (rnd (5 # 100)))), [repr_float (poll_interval args)]);
    (mkOpt "--csv" false TStr (Some (AStr "geo_results.csv")), [csv args])]).
  change (geoCommand args) with (render items). unfold Geo.parse_args.
  rewrite (parse_render Geo.options geo_well_formed items).
  - unfold items, storeAll, store, convert. cbn [multi type flag mbind option_bind].
    rewrite py_int_pretty, !repr_roundtrip by done. cbn [fmap option_fmap option_map mbind option_bind].
    by destruct args.
  - assert (forall o v, o ∈ Geo.options -> multi o = false -> plainArg v -> item_ok Geo.options (o, [v])) as Hone.
    { intros o v Ho Hm Hv. unfold item_ok. cbn [fst snd]. rewrite Hm. split_and!; [done|by constructor|by eexists]. }
    repeat (constructor; [first [by apply Hone; [set_solver|done|first [done|apply plainArg_pretty]]|by split_and!; [set_solver|..]]|]).
    constructor.
Qed.

(** The command line of the measurement script round-trips: arguments
    written out as options (the numbers as Python prints them) are parsed back to
    exactly those arguments, for any node list and file name that do not look
    like options. *)
Theorem geo_command_line (args : Args) :
  nodes args <> [] -> 0 <= rounds args ->
  Forall exact [timeout args; convergence_timeout args; poll_interval args] ->
  Forall plainArg (nodes args ++
    [repr_float (timeout args); repr_float (convergence_timeout args); repr_float (poll_interval args); csv args]) ->
  Geo.parse_args (geoCommand args) = Parsed args.
Proof. apply parse_geoCommand. Qed.

Definition sample_args : Args := mkArgs ["http://a"; "http://b"] 10 (Fin 2) (Fin 5) (rnd (1 # 20)) "out.csv".

Lemma geo_command_line_witness :
  Geo.parse_args (geoCommand sample_args) = Parsed sample_args.
Proof.
  apply geo_command_line; [done|by vm_compute|..].
  - repeat (constructor; [by vm_compute|]). constructor.
  - apply (bool_decide_unpack _). by vm_compute.
Defined.

(** ** The study, from three command lines *)

Lemma compare_well_formed : well_formed Compare.options.
Proof. pose proof options_well_formed as H. by apply Forall_cons in H as [_ [[? _] _]%Forall_cons]. Qed.

Definition compareCommand (colocated distributed output : string) : list string :=
  ["--colocated"; colocated; "--distributed"; distributed; "--output"; output].

Lemma parse_compareCommand c d o : Forall plainArg [c; d; o] ->
  Compare.parse_args (compareCommand c d o) = Parsed (Compare.mkCompareArgs c d o).
Proof.
  intros [Hc [Hd [Ho _]%Forall_cons]%Forall_cons]%Forall_cons.
  set (items := [(mkOpt "--colocated" false TStr (Some (AStr "geo_colocated/terraform/colocated_results.csv")), [c]);
    (mkOpt "--distributed" false TStr (Some (AStr "geo_distributed/terraform/geo_distributed_results.csv")), [d]);
    (mkOpt "--output" false TStr (Some (AStr "")), [o])]).
  change (compareCommand c d o) with (render items). unfold Compare.parse_args.
  rewrite (parse_render Compare.options compare_well_formed items); [done|].
  repeat (constructor; [split_and!; [set_solver|by constructor|by eexists]|]). constructor.
Qed.

Lemma runParsed_Ret {W A B} (a : A) (k : A -> M W B) w w' b :
  runParsed (Parsed a) k w = (w', Ret b) -> exists b', b = Parsed b' /\ k a w = (w', Ret b').
Proof. intros H. apply bind_Ret in H as (w1 & b' & Hk & [= <- <-]). by exists b'. Qed.

(** Arguments whose command line reads back. *)
Definition plainArgs (args : Args) : Prop :=
  nodes args <> [] /\ 0 <= rounds args < 2 ^ 53 /\
  Forall exact [timeout args; convergence_timeout args; poll_interval args] /\
  Forall plainArg (nodes args ++
    [repr_float (timeout args); repr_float (convergence_timeout args); repr_float (poll_interval args); csv args]).

(** C25. The geo-distribution study from its three command lines: run the
    measurement script of each deployment with its arguments written out, to two
    different files, and give these to the comparison script.  If both measurements
    return, the comparison exits normally with a report, whatever the clusters
    answered and whatever files were there before, and its report is
    computed from exactly the rows the two runs recorded. *)
Theorem study_pipeline {W1 W2 : Type} `{World W1} `{World W2} (fuel1 fuel2 : nat) (args1 args2 : Args)
    (w1 w1' : W1) (w2 w2' : W2) (p1 p2 : Parse Run) (output : string) (realpath : string -> string) (files : gmap string text) :
  plainArgs args1 -> plainArgs args2 -> plainArg output -> realpath (csv args1) <> realpath (csv args2) ->
  Colocated.script fuel1 (geoCommand args1) w1 = (w1', Ret p1) ->
  Geo.script fuel2 (geoCommand args2) w2 = (w2', Ret p2) ->
  exists run1 run2, p1 = Parsed run1 /\ p2 = Parsed run2 /\
  (short (run_rows run1) -> short (run_rows run2) ->
   exists console report c d,
     Compare.script realpath (<[realpath (csv args1) := csv_file run1]> (<[realpath (csv args2) := csv_file run2]> files))
       (compareCommand (csv args1) (csv args2) output) = Parsed (Ok (console, report)) /\
     CompareGeo.main c d output = Ok (console, report) /\ reports (run_rows run1) c /\ reports (run_rows run2) d).
Proof.
  intros (Hn1 & Hr1 & He1 & Hp1) (Hn2 & Hr2 & He2 & Hp2) Hout Hne Hs1 Hs2.
  unfold Colocated.script, Colocated.parse_args in Hs1. unfold Geo.script in Hs2.
  rewrite parse_geoCommand in Hs1, Hs2 by (done || lia).
  apply runParsed_Ret in Hs1 as (run1 & -> & Hs1), Hs2 as (run2 & -> & Hs2).
  exists run1, run2. split_and!; [done..|]. intros Hsh1 Hsh2.
  destruct (compare_runs fuel1 fuel2 args1 args2 w1 w1' w2 w2' run1 run2 output Hs1 Hs2 Hsh1 Hsh2 ltac:(lia) ltac:(lia))
    as (console & report & c & d & Hcmp & Hc & Hrc & Hd & Hrd).
  exists console, report, c, d. apply Forall_app in Hp1 as [_ Hp1], Hp2 as [_ Hp2].
  assert (CompareGeo.main c d output = Ok (console, report)) as Hmain.
  { unfold compareFiles in Hcmp. rewrite Hc in Hcmp. cbn [rbind] in Hcmp. by rewrite Hd in Hcmp. }
  split_and!; [|exact Hmain|done|done].
  - unfold Compare.script. rewrite parse_compareCommand.
    + cbn [mapParse Compare.colocated Compare.distributed Compare.output]. unfold Compare.openFile.
      rewrite lookup_insert_eq, lookup_insert_ne, lookup_insert_eq by done. cbn [rbind]. rewrite Hc, Hd. cbn [rbind]. by rewrite Hmain.
    + rewrite !Forall_cons in Hp1, Hp2. rewrite !Forall_cons. naive_solver.
Qed.

Definition study_args (nodes : list string) (out : string) : Args :=
  mkArgs nodes 2 (Fin 2) (Fin 1) (Fin (1 # 4)) out.
Definition argsA : Args := study_args ["http://a"; "http://b"] "colocated.csv".
Definition argsB : Args := study_args ["http://c"; "http://d"] "distributed.csv".
Definition studyA := Colocated.script (H := simWorld true) 200 (geoCommand argsA) (1 # 2)%Q.
Definition studyB := Geo.script (H := simWorld false) 200 (geoCommand argsB) 0%Q.

Definition shortParse {W} (o : W * outcome (Parse Run)) : bool :=
  match o.2 with Ret (Parsed run) => bool_decide (short (run_rows run)) | _ => false end.

Lemma shortParse_true {W} (o : W * outcome (Parse Run)) : shortParse o = true ->
  exists w run, o = (w, Ret (Parsed run)) /\ short (run_rows run).
Proof.
  destruct o as [w [[run|s]|e|]]; [|done..]. intros H. exists w, run. split; [done|]. exact (bool_decide_eq_true_1 _ H).
Qed.

Example studyA_short : shortParse studyA = true.
Proof. by vm_compute. Qed.
Example studyB_short : shortParse studyB = true.
Proof. by vm_compute. Qed.

Lemma plainArgs_AB : plainArgs argsA /\ plainArgs argsB.
Proof.
  split; (split_and!; [done|by vm_compute|by vm_compute|repeat (constructor; [by vm_compute|]); constructor|apply (bool_decide_unpack _); by vm_compute]).
Qed.

Lemma study_pipeline_witness :
  exists w1 w2 run1 run2 console report,
    studyA = (w1, Ret (Parsed run1)) /\ studyB = (w2, Ret (Parsed run2)) /\
    Compare.script (fun path => path) (<["colocated.csv" := csv_file run1]> (<["distributed.csv" := csv_file run2]> ∅))
      (compareCommand "colocated.csv" "distributed.csv" "report.md") = Parsed (Ok (console, report)).
Proof.
  destruct (shortParse_true _ studyA_short) as (w1 & run1 & E1 & S1).
  destruct (shortParse_true _ studyB_short) as (w2 & run2 & E2 & S2).
  destruct (study_pipeline (H := simWorld true) (H0 := simWorld false) 200 200 argsA argsB (1 # 2)%Q w1 0%Q w2 (Parsed run1) (Parsed run2) "report.md" (fun path => path) ∅
    (proj1 plainArgs_AB) (proj2 plainArgs_AB) ltac:(by vm_compute) ltac:(done) E1 E2)
    as (r1 & r2 & Hr1 & Hr2 & Hcmp).
  injection Hr1 as <-. injection Hr2 as <-. destruct (Hcmp S1 S2) as (console & report & c & d & Hs & _).
  exists w1, w2, run1, run2, console, report. split; [exact E1|]. split; [exact E2|exact Hs].
Defined.
