(* ===== verification/PlotResults.v ===== *)
(** * The election plot

    [raft_leader_election_infra/plot_results.py] draws numbers typed in by hand:
    the re-election times of five rounds, and again their summary.  The script
    is modelled as the sequence of calls it makes to [matplotlib], with their
    arguments; [numpy]'s mean and the bars [matplotlib] returns are parameters. *)

From S2P Require Import Prelude PyStr PyFloat.
#[local] Open Scope Z_scope.

Definition rounds : list Z := [1; 2; 3; 4; 5].
Definition timings : list Z := [190; 190; 381; 368; 368].
Definition leaders_crashed : list string := ["nodeA"; "nodeB"; "nodeA"; "nodeC"; "nodeB"].
Definition new_leaders : list string := ["nodeB"; "nodeA"; "nodeC"; "nodeB"; "nodeC"].

Definition colors : list string := (fun t => if t <? 300 then "#2ecc71" else "#e74c3c") <$> timings.

(** The bar labels of a chart. *)
Definition barLabels (heights : list Z) : list string := (fun t => pretty t +:+ "ms") <$> heights.

(** The labels under the first chart, from the leaders at index [i-1]. *)
Definition tickLabels : result PyErr (list string) :=
  foldr (fun i acc => (ls <-? acc ;; a <-? py_index leaders_crashed (i - 1) ;; b <-? py_index new_leaders (i - 1) ;;
                       Ok (("R" +:+ pretty i +:+ ": " +:+ a +:+ "→" +:+ b) :: ls))%result) (Ok []) rounds.

Definition stats : list string := ["Min"; "Average"; "Median"; "Max"].
Definition summary_values : list Z := [190; 299; 368; 381].

Definition colors2 : list string := ["#2ecc71"; "#3498db"; "#9b59b6"; "#e74c3c"].

(** ** Calls *)

Inductive Arg := AInt (z : Z) | AFlt (f : float) | AStr (s : string) | AList (l : list Arg).

Record Call := mkCall { target : string; method : string; args : list Arg; kwargs : list (string * Arg) }.

Definition fontsize (z : Z) : string * Arg := ("fontsize", AInt z).

Definition axhline (axes : string) (y : Arg) (color linestyle label : string) : Call :=
  mkCall axes "axhline" []
    [("y", y); ("color", AStr color); ("linestyle", AStr linestyle); ("linewidth", AFlt (Fin (3 # 2))); ("label", AStr label)].

(** The minimum and maximum of a list that is not empty. *)
Definition np_min (l : list Z) : Z := match l with [] => 0 | z :: r => foldl Z.min z r end.
Definition np_max (l : list Z) : Z := match l with [] => 0 | z :: r => foldl Z.max z r end.
Definition min_t : Z := np_min timings.
Definition max_t : Z := np_max timings.

Record Bar := mkBar { get_x : float; get_width : float; get_height : float }.

Section Plot.
Context (np_mean : list Z -> float) (bar_container : list Arg -> list Z -> list Bar).

Definition avg : float := np_mean timings.

Definition averageLabel : string := "Average: " +:+ fmtFixed 0 avg +:+ "ms".

(** [axes.bar(xs, heights, color=colors, ...)] *)
Definition barCall (axes : string) (xs : list Arg) (heights : list Z) (colors : list string) : Call :=
  mkCall axes "bar" [AList xs; AList (AInt <$> heights)]
    [("color", AList (AStr <$> colors)); ("edgecolor", AStr "black"); ("linewidth", AFlt (Fin (1 # 2)))].

(** The text over a bar. *)
Definition textCall (axes : string) (above : Z) (size : Z) (b : Bar) (label : string) : Call :=
  mkCall axes "text"
    [AFlt (fadd (get_x b) (fmul (get_width b) (Fin (1 # 2)))); AFlt (fadd (get_height b) (float_of_int above)); AStr label]
    [("ha", AStr "center"); ("va", AStr "bottom"); fontsize size; ("fontweight", AStr "bold")].

Definition barTexts (axes : string) (above size : Z) (xs : list Arg) (heights : list Z) : list Call :=
  zip_with (textCall axes above size) (bar_container xs heights) (barLabels heights).

(** The calls that end both charts. *)
Definition finishAxes (axes : string) : list Call :=
  [mkCall axes "set_ylim" [AInt 0; AInt 700] []; mkCall axes "legend" [] [fontsize 9];
   mkCall axes "grid" [] [("axis", AStr "y"); ("alpha", AFlt (rnd (3 # 10)))]].

Definition chart1 : result PyErr (list Call) :=
  (labels <-? tickLabels ;;
   Ok ([barCall "axes[0]" (AInt <$> rounds) timings colors;
        axhline "axes[0]" (AFlt avg) "blue" "--" averageLabel;
        axhline "axes[0]" (AInt 300) "orange" ":" "Election timeout min (300ms)";
        axhline "axes[0]" (AInt 600) "red" ":" "Election timeout max (600ms)"]
       ++ barTexts "axes[0]" 10 10 (AInt <$> rounds) timings
       ++ [mkCall "axes[0]" "set_xlabel" [AStr "Round"] [fontsize 12];
           mkCall "axes[0]" "set_ylabel" [AStr "Re-election Time (ms)"] [fontsize 12];
           mkCall "axes[0]" "set_title" [AStr "Re-election Time per Round"] [fontsize 12];
           mkCall "axes[0]" "set_xticks" [AList (AInt <$> rounds)] [];
           mkCall "axes[0]" "set_xticklabels" [AList (AStr <$> labels)]
             [("rotation", AInt 20); ("ha", AStr "right"); fontsize 9]]
       ++ finishAxes "axes[0]"))%result.

Definition chart2 : list Call :=
  [barCall "axes[1]" (AStr <$> stats) summary_values colors2]
  ++ barTexts "axes[1]" 8 11 (AStr <$> stats) summary_values
  ++ [axhline "axes[1]" (AInt 300) "orange" ":" "Timeout min (300ms)";
      axhline "axes[1]" (AInt 600) "red" ":" "Timeout max (600ms)";
      mkCall "axes[1]" "set_ylabel" [AStr "Time (ms)"] [fontsize 12];
      mkCall "axes[1]" "set_title" [AStr "Re-election Time Summary"] [fontsize 12]]
  ++ finishAxes "axes[1]".

Definition figureCalls : list Call :=
  [mkCall "plt" "subplots" [AInt 1; AInt 2] [("figsize", AList [AInt 14; AInt 6])];
   mkCall "fig" "suptitle" [AStr "Raft Leader Election — EC2 Experiment Results (us-west-2)"] [fontsize 14; ("fontweight", AStr "bold")]].

Definition saveCalls : list Call :=
  [mkCall "plt" "tight_layout" [] [];
   mkCall "plt" "savefig" [AStr "infrastructure/raft_leader_election_infra/election_results.png"]
     [("dpi", AInt 150); ("bbox_inches", AStr "tight")];
   mkCall "plt" "show" [] []].

(** The calls of the script and the line it prints. *)
Definition script : result PyErr (list Call * list string) :=
  (c1 <-? chart1 ;; Ok (figureCalls ++ c1 ++ chart2 ++ saveCalls, ["Graph saved to election_results.png"]))%result.

(** ** The figure is right *)

(** [numpy.mean] is the arithmetic mean, computed in binary64. *)
Hypothesis np_mean_spec : forall l, l <> [] -> foldr Z.add 0 l < 2 ^ 53 -> Forall (fun z => 0 <= z) l ->
  np_mean l = rnd (inject_Z (foldr Z.add 0 l) / inject_Z (Z.of_nat (length l))).

(** [axes.bar] returns one bar for each height, as high as asked. *)
Hypothesis bar_container_spec : forall xs hs, length xs = length hs ->
  get_height <$> bar_container xs hs = float_of_int <$> hs.

(** A label of a chart sits over a bar, says its height, and is inside the
    vertical limits. *)
Definition labels_bar (above : Z) (heights : list Z) (c : Call) : Prop :=
  exists h x, h ∈ heights /\ args c = [x; AFlt (float_of_int (h + above)); AStr (pretty h +:+ "ms")] /\ 0 <= h + above <= 700.

Lemma barTexts_ok axes above size xs heights : length xs = length heights ->
  Forall (fun h => 0 <= h + above <= 700 /\ fadd (float_of_int h) (float_of_int above) = float_of_int (h + above)) heights ->
  length (barTexts axes above size xs heights) = length heights /\
  Forall (labels_bar above heights) (barTexts axes above size xs heights).
Proof.
  intros Hl Hh. unfold barTexts, barLabels. pose proof (bar_container_spec xs heights Hl) as Hb.
  assert (length (bar_container xs heights) = length heights) as Hlen by (apply (f_equal length) in Hb; by rewrite !length_fmap in Hb).
  split; [rewrite length_zip_with, length_fmap; lia|]. apply Forall_lookup. intros i c Hc.
  apply lookup_zip_with_Some in Hc as (b & label & -> & Hbi & Hli).
  apply list_lookup_fmap_Some in Hli as (h & -> & Hhi).
  assert (float_of_int h = get_height b) as Hbh.
  { apply (f_equal (fun l => l !! i)) in Hb. rewrite !list_lookup_fmap, Hbi, Hhi in Hb. by injection Hb. }
  eapply Forall_lookup in Hh as [Hr Hadd]; [|exact Hhi]. exists h. eexists. split_and!; [by eapply list_elem_of_lookup_2|..].
  - unfold textCall. cbn [args]. by rewrite <- Hbh, Hadd.
  - lia.
  - lia.
Qed.

(** The script completes (no list is indexed out of range) and its figure is
    consistent: every bar of both charts has one label, which says the bar's
    height and lies within the limits of the axis; the hand-typed summary is that
    of the hand-typed rounds: minimum, average (as the label of the first chart
    rounds it), median and maximum; and the rounds are one history, the leader
    crashed in a round being the one elected in the round before. *)
Theorem plot_consistent :
  (exists calls, script = Ok (calls, ["Graph saved to election_results.png"]) /\
    barTexts "axes[0]" 10 10 (AInt <$> rounds) timings ++ barTexts "axes[1]" 8 11 (AStr <$> stats) summary_values
      = filter (fun c => method c = "text") calls) /\
  length (barTexts "axes[0]" 10 10 (AInt <$> rounds) timings) = length timings /\
  Forall (labels_bar 10 timings) (barTexts "axes[0]" 10 10 (AInt <$> rounds) timings) /\
  length (barTexts "axes[1]" 8 11 (AStr <$> stats) summary_values) = length stats /\
  Forall (labels_bar 8 summary_values) (barTexts "axes[1]" 8 11 (AStr <$> stats) summary_values) /\
  barLabels summary_values =
    [pretty min_t +:+ "ms"; String.substring 9 5 averageLabel;
     match median (float_of_int <$> timings) with Ok m => fmtFixed 0 m +:+ "ms" | Err _ => "" end;
     pretty max_t +:+ "ms"] /\
  removelast new_leaders = tail leaders_crashed.
Proof.
  assert (forall axes a s xs hs, filter (fun c => method c = "text") (barTexts axes a s xs hs) = barTexts axes a s xs hs) as Htexts.
  { intros axes a s xs hs. unfold barTexts. generalize (bar_container xs hs) (barLabels hs). intros bs.
    induction bs as [|b bs IH]; intros [|l ls]; [done..|]. cbn [zip_with]. by rewrite filter_cons_True, IH. }
  destruct (barTexts_ok "axes[0]" 10 10 (AInt <$> rounds) timings ltac:(by rewrite length_fmap)) as [H1 H2].
  { repeat (constructor; [split; [lia|by vm_compute]|]). constructor. }
  destruct (barTexts_ok "axes[1]" 8 11 (AStr <$> stats) summary_values ltac:(by rewrite length_fmap)) as [H3 H4].
  { repeat (constructor; [split; [lia|by vm_compute]|]). constructor. }
  split_and!; [|done|done|done|done| |done].
  - unfold script, chart1. destruct tickLabels as [ls|] eqn:E; [|by vm_compute in E]. cbn [rbind]. eexists. split; [done|].
    unfold chart2. rewrite !filter_app, !Htexts. unfold barCall, axhline, finishAxes, figureCalls, saveCalls.
    rewrite ?filter_cons_False, ?filter_nil by done. rewrite ?app_nil_l, ?app_nil_r. done.
  - unfold averageLabel, avg. rewrite np_mean_spec by (done || by repeat constructor). by vm_compute.
Qed.
End Plot.

(** With the mean computed as documented, and bars of the asked heights. *)
Definition demo_mean (l : list Z) : float := rnd (inject_Z (foldr Z.add 0 l) / inject_Z (Z.of_nat (length l))).
Definition demo_bars (_ : list Arg) (hs : list Z) : list Bar := (fun h => mkBar (Fin 0) (Fin 1) (float_of_int h)) <$> hs.

Lemma plot_consistent_witness :
  length (barTexts demo_bars "axes[0]" 10 10 (AInt <$> rounds) timings) = length timings.
Proof.
  assert (forall (xs : list Arg) hs, length xs = length hs -> get_height <$> demo_bars xs hs = float_of_int <$> hs) as Hb.
  { intros xs hs _. unfold demo_bars. by rewrite <- list_fmap_compose. }
  destruct (plot_consistent demo_mean demo_bars (fun _ _ _ _ => eq_refl) Hb) as (_ & H & _). exact H.
Defined.
