(* ===== verification/GoJson.v ===== *)
(** * The JSON of the Go side

    [encoding/json] as the store uses it: [Marshal] of strings and string maps,
    and [Unmarshal] of any JSON text.  A text is its list of bytes.  Bytes from
    128 up are copied, which is what Go does with valid UTF-8 other than U+2028
    and U+2029; the theorems are about ASCII strings.  The parser has the length
    of its input as fuel: every call consumes a byte. *)

From Stdlib Require Import Ascii.
From S2P Require Import Prelude PyStr.
#[local] Open Scope Z_scope.

(** The strings the theorems are about. *)
Definition asciiOnly (s : string) : Prop := Forall (fun c => byteZ c < 128) (chars s).

(** ** Writing *)

Definition chr (z : Z) : ascii := ascii_of_nat (Z.to_nat z).

Definition hexDigit (z : Z) : ascii := if z <? 10 then chr (48 + z) else chr (87 + z).

(** One byte of a string literal ([encodeState.string] with HTML escaping). *)
Definition escapeChar (c : ascii) : text :=
  let b := byteZ c in
  if b =? 34 then chars "\" ++ [c]
  else if b =? 92 then chars "\\"
  else if b =? 8 then chars "\b"
  else if b =? 12 then chars "\f"
  else if b =? 10 then chars "\n"
  else if b =? 13 then chars "\r"
  else if b =? 9 then chars "\t"
  else if (b <? 32) || (b =? 60) || (b =? 62) || (b =? 38)
  then chars "\u00" ++ [hexDigit (b / 16); hexDigit (b mod 16)]
  else [c].

Definition QUOTE : ascii := chr 34.

Definition quote (s : string) : text := QUOTE :: (chars s ≫= escapeChar) ++ [QUOTE].

(** ** Reading *)

Inductive JVal :=
| JNull | JBool (b : bool) | JNumber (t : text) | JString (s : string)
| JArray (l : list JVal) | JObject (ms : list (string * JVal)).

Definition isWs (c : ascii) : bool :=
  let b := byteZ c in (b =? 32) || (b =? 9) || (b =? 10) || (b =? 13).

Definition skipWs (s : text) : text := dropWhile isWs s.

Definition hexVal (c : ascii) : option Z :=
  let b := byteZ c in
  if (48 <=? b) && (b <=? 57) then Some (b - 48)
  else if (97 <=? b) && (b <=? 102) then Some (b - 87)
  else if (65 <=? b) && (b <=? 70) then Some (b - 55)
  else None.

Definition hex4 (a b c d : ascii) : option Z :=
  x ← hexVal a; y ← hexVal b; z ← hexVal c; t ← hexVal d; Some (((x * 16 + y) * 16 + z) * 16 + t).

(** The UTF-8 bytes of a code point; a lone surrogate becomes U+FFFD. *)
Definition utf8 (n : Z) : text :=
  if n <? 128 then [chr n]
  else if n <? 2048 then [chr (192 + n / 64); chr (128 + n mod 64)]
  else if (55296 <=? n) && (n <? 57344) then [chr 239; chr 191; chr 189]
  else if n <? 65536 then [chr (224 + n / 4096); chr (128 + n / 64 mod 64); chr (128 + n mod 64)]
  else [chr (240 + n / 262144); chr (128 + n / 4096 mod 64); chr (128 + n / 64 mod 64); chr (128 + n mod 64)].

Definition prepend (t : text) (r : option (text * text)) : option (text * text) :=
  '(u, rest) ← r; Some (t ++ u, rest).

(** The escapes of one character: backslash, then the byte [e]. *)
Definition simpleEscape (e : ascii) : option ascii :=
  let b := byteZ e in
  if (b =? 34) || (b =? 92) || (b =? 47) then Some e
  else if b =? 98 then Some (chr 8)
  else if b =? 102 then Some (chr 12)
  else if b =? 110 then Some (chr 10)
  else if b =? 114 then Some (chr 13)
  else if b =? 116 then Some (chr 9)
  else None.

(** The rest of a string literal, after its opening quote. *)
Fixpoint strBody (s : text) : option (text * text) :=
  match s with
  | [] => None
  | c :: s1 =>
      if byteZ c =? 34 then Some ([], s1)
      else if byteZ c =? 92 then
        match s1 with
        | [] => None
        | e :: s2 =>
            if byteZ e =? 117 then
              match s2 with
              | a :: b :: c' :: d :: s3 =>
                  match hex4 a b c' d with
                  | None => None
                  | Some n =>
                      match (if (55296 <=? n) && (n <? 56320) then s3 else []) with
                      | k :: u :: a2 :: b2 :: c2 :: d2 :: _ =>
                          match (if (byteZ k =? 92) && (byteZ u =? 117) then hex4 a2 b2 c2 d2 else None), s3 with
                          | Some m, _ :: _ :: _ :: _ :: _ :: _ :: s4 =>
                              if (56320 <=? m) && (m <? 57344)
                              then prepend (utf8 (65536 + (n - 55296) * 1024 + (m - 56320))) (strBody s4)
                              else prepend (utf8 n) (strBody s3)
                          | _, _ => prepend (utf8 n) (strBody s3)
                          end
                      | _ => prepend (utf8 n) (strBody s3)
                      end
                  end
              | _ => None
              end
            else match simpleEscape e with
                 | Some x => prepend [x] (strBody s2)
                 | None => None
                 end
        end
      else if byteZ c <? 32 then None
      else prepend [c] (strBody s1)
  end.

Fixpoint takeDigits (s : text) : text * text :=
  match s with
  | c :: s' => match digit c with
               | Some _ => let '(d, r) := takeDigits s' in (c :: d, r)
               | None => ([], s)
               end
  | [] => ([], [])
  end.

(** An optional minus; zero, or digits that do not start with it; an optional
    fraction and an optional exponent, each with a digit. *)
Definition number (s : text) : option (text * text) :=
  let '(sg, s1) := match s with c :: r => if byteZ c =? 45 then ([c], r) else ([], s) | [] => ([], s) end in
  let '(ip, s2) := if bool_decide (head s1 = Some (chr 48)) then ([chr 48], drop 1 s1) else takeDigits s1 in
  if bool_decide (length ip = 0%nat) then None
  else
    let frac := match s2 with
                | c :: r => if byteZ c =? 46 then
                              let '(d, r') := takeDigits r in
                              if bool_decide (length d = 0%nat) then None else Some (c :: d, r')
                            else Some ([], s2)
                | [] => Some ([], s2)
                end in
    '(fp, s3) ← frac;
    let ex := match s3 with
              | c :: r => if (byteZ c =? 101) || (byteZ c =? 69) then
                            let '(es, r1) := match r with x :: r' => if (byteZ x =? 43) || (byteZ x =? 45) then ([x], r') else ([], r)
                                                        | [] => ([], r) end in
                            let '(d, r') := takeDigits r1 in
                            if bool_decide (length d = 0%nat) then None else Some (c :: es ++ d, r')
                          else Some ([], s3)
              | [] => Some ([], s3)
              end in
    '(ep, s4) ← ex; Some (sg ++ ip ++ fp ++ ep, s4).

Definition keyword (w : string) (v : JVal) (s : text) : option (JVal * text) :=
  if bool_decide (take (String.length w) s = chars w) then Some (v, drop (String.length w) s) else None.

Fixpoint pValue (fuel : nat) (s : text) {struct fuel} : option (JVal * text) :=
  match fuel with
  | O => None
  | S f =>
      match skipWs s with
      | [] => None
      | c :: s1 =>
          let b := byteZ c in
          if b =? 34 then '(t, r) ← strBody s1; Some (JString (str t), r)
          else if b =? 123 then
            match skipWs s1 with
            | x :: r => if byteZ x =? 125 then Some (JObject [], r)
                        else '(ms, r') ← pMembers f (x :: r); Some (JObject ms, r')
            | [] => None
            end
          else if b =? 91 then
            match skipWs s1 with
            | x :: r => if byteZ x =? 93 then Some (JArray [], r)
                        else '(l, r') ← pElements f (x :: r); Some (JArray l, r')
            | [] => None
            end
          else if b =? 116 then keyword "true" (JBool true) (c :: s1)
          else if b =? 102 then keyword "false" (JBool false) (c :: s1)
          else if b =? 110 then keyword "null" JNull (c :: s1)
          else '(t, r) ← number (c :: s1); Some (JNumber t, r)
      end
  end
with pMembers (fuel : nat) (s : text) {struct fuel} : option (list (string * JVal) * text) :=
  match fuel with
  | O => None
  | S f =>
      match skipWs s with
      | q :: s1 =>
          if byteZ q =? 34 then
            '(k, s2) ← strBody s1;
            match skipWs s2 with
            | colon :: s3 =>
                if byteZ colon =? 58 then
                  '(v, s4) ← pValue f s3;
                  match skipWs s4 with
                  | x :: s5 =>
                      if byteZ x =? 44 then '(ms, r) ← pMembers f s5; Some ((str k, v) :: ms, r)
                      else if byteZ x =? 125 then Some ([(str k, v)], s5)
                      else None
                  | [] => None
                  end
                else None
            | [] => None
            end
          else None
      | [] => None
      end
  end
with pElements (fuel : nat) (s : text) {struct fuel} : option (list JVal * text) :=
  match fuel with
  | O => None
  | S f =>
      '(v, s1) ← pValue f s;
      match skipWs s1 with
      | x :: s2 =>
          if byteZ x =? 44 then '(l, r) ← pElements f s2; Some (v :: l, r)
          else if byteZ x =? 93 then Some ([v], s2)
          else None
      | [] => None
      end
  end.

(** A whole text: one value, then only white space. *)
Definition parse (s : text) : option JVal :=
  '(v, r) ← pValue (S (length s)) s;
  if bool_decide (skipWs r = []) then Some v else None.

Example parse_ex :
  parse (chars " [1, -0.5e3 , true,null, {} ] ") =
    Some (JArray [JNumber (chars "1"); JNumber (chars "-0.5e3"); JBool true; JNull; JObject []]) /\
  parse (chars "[1,]") = None /\ parse (chars "01") = None /\ parse (chars "tru") = None.
Proof. by vm_compute. Qed.

(** ** Round trip of a string literal *)

Lemma strBody_escape c t : strBody (escapeChar c ++ t) = prepend [c] (strBody t).
Proof. destruct c as [[] [] [] [] [] [] [] []]; reflexivity. Qed.

Lemma strBody_quoted s rest : strBody ((s ≫= escapeChar) ++ QUOTE :: rest) = Some (s, rest).
Proof.
  induction s as [|c s IH]; [done|]. rewrite bind_cons, <- app_assoc, strBody_escape, IH. done.
Qed.

Lemma escapeChar_newline c : chr 10 ∉ escapeChar c.
Proof.
  destruct c as [[] [] [] [] [] [] [] []]; apply (bool_decide_eq_false_1 (chr 10 ∈ _)); reflexivity.
Qed.

Lemma quote_newline s : chr 10 ∉ quote s.
Proof.
  unfold quote. rewrite elem_of_cons, elem_of_app, list_elem_of_singleton. intros [Hc|[Hc|Hc]]; try by vm_compute in Hc.
  apply list_elem_of_bind in Hc as (c & Hc & _). by apply (escapeChar_newline c).
Qed.

(** ** Objects of strings *)

Fixpoint membersText (ms : list (string * string)) : text :=
  match ms with
  | [] => []
  | [(k, v)] => quote k ++ chr 58 :: quote v
  | (k, v) :: ms' => quote k ++ chr 58 :: quote v ++ chr 44 :: membersText ms'
  end.

Definition objectText (ms : list (string * string)) : text := chr 123 :: membersText ms ++ [chr 125].

Definition jstrings (ms : list (string * string)) : list (string * JVal) :=
  (fun '(k, v) => (k, JString v)) <$> ms.

Lemma pValue_quote f v rest : pValue (S f) (quote v ++ rest) = Some (JString v, rest).
Proof.
  unfold quote. cbn [app]. rewrite <- app_assoc. cbn [app pValue].
  change (skipWs (QUOTE :: ?t)) with (QUOTE :: t). cbv beta iota zeta. 
  change (byteZ QUOTE =? 34) with true. cbv iota. rewrite strBody_quoted. cbn [mbind option_bind].
  by rewrite str_chars.
Qed.

(** One member, up to the character after its value. *)
Lemma pMembers_member f k v x rest :
  isWs x = false ->
  pMembers (S (S f)) (quote k ++ chr 58 :: quote v ++ x :: rest) =
  if byteZ x =? 44 then '(ms, r) ← pMembers (S f) rest; Some ((k, JString v) :: ms, r)
  else if byteZ x =? 125 then Some ([(k, JString v)], rest) else None.
Proof.
  intros Hx. remember (S f) as f'. cbn [pMembers]. unfold quote at 1. cbn [app]. rewrite <- app_assoc. cbn [app].
  change (skipWs (QUOTE :: ?t)) with (QUOTE :: t). cbv beta iota zeta.
  change (byteZ QUOTE =? 34) with true. cbv iota. rewrite strBody_quoted. cbn [mbind option_bind].
  change (skipWs (chr 58 :: ?t)) with (chr 58 :: t). cbv beta iota zeta. change (byteZ (chr 58) =? 58) with true. cbv iota.
  rewrite Heqf', pValue_quote. cbn [mbind option_bind]. unfold skipWs at 1. cbn [dropWhile]. rewrite Hx.
  by rewrite str_chars.
Qed.

Lemma pMembers_text ms f rest : ms <> [] -> (length ms < f)%nat ->
  pMembers f (membersText ms ++ chr 125 :: rest) = Some (jstrings ms, rest).
Proof.
  revert f. induction ms as [|[k v] ms IH]; intros f Hne Hf; [done|].
  destruct f as [|[|f]]; [simpl in Hf; lia..|]. destruct ms as [|kv ms].
  - cbn [membersText]. rewrite <- app_assoc. cbn [app]. rewrite pMembers_member by done. done.
  - change (membersText ((k, v) :: kv :: ms)) with (quote k ++ chr 58 :: quote v ++ chr 44 :: membersText (kv :: ms)).
    rewrite <- app_assoc. cbn [app]. rewrite <- app_assoc. cbn [app]. rewrite pMembers_member by done.
    change (byteZ (chr 44) =? 44) with true. cbv iota. rewrite IH; [done|done|]. simpl in *. lia.
Qed.

Lemma membersText_length ms : (length ms <= length (membersText ms))%nat.
Proof.
  induction ms as [|[k v] ms IH]; [done|]. destruct ms as [|kv ms].
  - cbn [membersText]. rewrite length_app. unfold quote. simpl. lia.
  - change (membersText ((k, v) :: kv :: ms)) with (quote k ++ chr 58 :: quote v ++ chr 44 :: membersText (kv :: ms)).
    rewrite length_app. cbn [length]. rewrite length_app. cbn [length] in *. lia.
Qed.

(** What is written is read back, whatever the strings. *)
Lemma parse_objectText ms : parse (objectText ms) = Some (JObject (jstrings ms)).
Proof.
  unfold parse, objectText. set (n := length _).
  assert (length ms < n)%nat as Hn.
  { unfold n. cbn [length]. rewrite length_app. pose proof (membersText_length ms). simpl. lia. }
  clearbody n. cbn [pValue]. change (skipWs (chr 123 :: ?t)) with (chr 123 :: t). cbv beta iota zeta.
  change (byteZ (chr 123) =? 34) with false. change (byteZ (chr 123) =? 123) with true. cbv iota.
  destruct ms as [|[k v] ms]; [done|].
  assert (exists t, membersText ((k, v) :: ms) ++ [chr 125] = QUOTE :: t) as [t Ht].
  { destruct ms; by eexists. }
  pose proof (pMembers_text ((k, v) :: ms) n [] ltac:(done) Hn) as Hp. rewrite Ht in *.
  change (skipWs (QUOTE :: t)) with (QUOTE :: t). cbv beta iota zeta. change (byteZ QUOTE =? 125) with false. cbv iota.
  rewrite Hp. done.
Qed.

Lemma membersText_newline ms : chr 10 ∉ membersText ms.
Proof.
  induction ms as [|[k v] ms IH]; [by apply not_elem_of_nil|].
  assert (forall t, chr 10 ∉ t -> chr 10 ∉ quote k ++ chr 58 :: quote v ++ t) as Hq.
  { intros t Ht. rewrite elem_of_app, elem_of_cons, elem_of_app. intros [H|[H|[H|H]]]; try done.
    - by apply (quote_newline k).
    - by apply (quote_newline v). }
  destruct ms as [|kv ms].
  - cbn [membersText]. rewrite <- (app_nil_r (quote v)). apply Hq. by apply not_elem_of_nil.
  - apply Hq. rewrite elem_of_cons. intros [H|H]; done.
Qed.

Lemma objectText_newline ms : chr 10 ∉ objectText ms.
Proof.
  unfold objectText. rewrite elem_of_cons, elem_of_app, list_elem_of_singleton.
  intros [H|[H|H]]; try done. by apply (membersText_newline ms).
Qed.
