(* ===== verification/GoWire.v ===== *)
(** * JSON trees and base64, as Go writes them

    [json.Marshal] of numbers, arrays and nested objects, and the encoding of
    byte slices, for the messages between nodes; the parser is that of [GoJson].
    A tree with natural numbers is read back as it was written. *)

From Stdlib Require Import Ascii.
From S2P Require Import Prelude PyStr PyRepr GoJson.
#[local] Open Scope Z_scope.

(** ** Writing a tree *)

Fixpoint jsonText (v : JVal) : text :=
  match v with
  | JNull => chars "null"
  | JBool b => chars (if b then "true" else "false")
  | JNumber t => t
  | JString s => quote s
  | JArray l =>
      chr 91 :: (fix go l := match l with
                             | [] => []
                             | [x] => jsonText x
                             | x :: l' => jsonText x ++ chr 44 :: go l'
                             end) l ++ [chr 93]
  | JObject ms =>
      chr 123 :: (fix go ms := match ms with
                               | [] => []
                               | [(k, x)] => quote k ++ chr 58 :: jsonText x
                               | (k, x) :: ms' => quote k ++ chr 58 :: jsonText x ++ chr 44 :: go ms'
                               end) ms ++ [chr 125]
  end.

Definition elementsText : list JVal -> text :=
  fix go l := match l with
              | [] => []
              | [x] => jsonText x
              | x :: l' => jsonText x ++ chr 44 :: go l'
              end.

Definition fieldsText : list (string * JVal) -> text :=
  fix go ms := match ms with
               | [] => []
               | [(k, x)] => quote k ++ chr 58 :: jsonText x
               | (k, x) :: ms' => quote k ++ chr 58 :: jsonText x ++ chr 44 :: go ms'
               end.

Lemma jsonText_array l : jsonText (JArray l) = chr 91 :: elementsText l ++ [chr 93].
Proof. done. Qed.
Lemma jsonText_object ms : jsonText (JObject ms) = chr 123 :: fieldsText ms ++ [chr 125].
Proof. done. Qed.

(** An unsigned integer. *)
Definition JUint (z : Z) : JVal := JNumber (chars (pretty z)).

(** Trees whose numbers are natural numbers. *)
Inductive tree : JVal -> Prop :=
| tree_null : tree JNull
| tree_bool b : tree (JBool b)
| tree_uint z : 0 <= z -> tree (JUint z)
| tree_string s : tree (JString s)
| tree_array l : Forall tree l -> tree (JArray l)
| tree_object ms : Forall (fun m => tree m.2) ms -> tree (JObject ms).

(** ** Induction *)

Fixpoint jsize (v : JVal) : nat :=
  match v with
  | JArray l => S (foldr (fun x n => S (jsize x + n)) 0 l)%nat
  | JObject ms => S (foldr (fun m n => S (jsize m.2 + n)) 0 ms)%nat
  | _ => 1%nat
  end.

Lemma tree_ind' (P : JVal -> Prop) :
  P JNull -> (forall b, P (JBool b)) -> (forall z, 0 <= z -> P (JUint z)) -> (forall s, P (JString s)) ->
  (forall l, Forall tree l -> Forall P l -> P (JArray l)) -> (forall ms, Forall (fun m => P m.2) ms -> P (JObject ms)) ->
  forall v, tree v -> P v.
Proof.
  intros H1 H2 H3 H4 H5 H6. enough (forall n v, (jsize v <= n)%nat -> tree v -> P v) as H by (intros v; by apply (H (jsize v))).
  induction n as [|n IH]; intros v Hn Hv; [destruct v; simpl in Hn; lia|]. destruct Hv as [| | | |l Hl|ms Hms]; auto.
  - apply H5; [done|]. simpl in Hn. apply le_S_n in Hn. induction Hl as [|x l Hx _ IHl]; [done|]. simpl in Hn.
    constructor; [apply IH; [lia|done]|apply IHl; lia].
  - apply H6. simpl in Hn. apply le_S_n in Hn. induction Hms as [|x l Hx _ IHl]; [done|]. simpl in Hn.
    constructor; [apply IH; [lia|done]|apply IHl; lia].
Qed.

(** ** Numbers *)

(** What may follow a value. *)
Definition closes (rest : text) : Prop :=
  match rest with [] => True | c :: _ => c = chr 44 \/ c = chr 93 \/ c = chr 125 end.

Lemma takeDigits_digits ds v rest : digitsOf ds v -> closes rest -> takeDigits (ds ++ rest) = (ds, rest).
Proof.
  unfold digitsOf. generalize 0 as acc. induction ds as [|c ds IH]; intros acc H Hr.
  - destruct rest as [|c rest]; [done|]. cbn [app takeDigits]. by destruct Hr as [->|[->| ->]].
  - cbn [readDigits] in H. cbn [app takeDigits]. destruct (digit c) as [d|]; [|done]. by rewrite (IH _ H Hr).
Qed.

Lemma pretty_zero_head z : 0 <= z -> head (chars (pretty z)) = Some (chr 48) -> z = 0.
Proof.
  intros Hz Hh. destruct (pretty_digits z Hz) as (Hd & _ & Hpos & _). destruct (Z.eq_dec z 0) as [|Hne]; [done|exfalso].
  specialize (Hpos ltac:(lia)). destruct (chars (pretty z)) as [|c ds]; [done|]. injection Hh as ->.
  assert (digitsOf ds z) as Hds by exact Hd. apply digitsOf_lt in Hds. cbn [length] in Hpos.
  replace (Z.of_nat (S (length ds)) - 1) with (Z.of_nat (length ds)) in Hpos by lia. lia.
Qed.

Lemma number_pretty z rest : 0 <= z -> closes rest -> number (chars (pretty z) ++ rest) = Some (chars (pretty z), rest).
Proof.
  intros Hz Hr. destruct (pretty_digits z Hz) as (Hd & Hne & _).
  destruct (digitsOf_head _ _ Hd Hne) as (c & ds & d & Hc & Hdc & _).
  assert (byteZ c =? 45 = false) as Hminus.
  { apply Z.eqb_neq. intros E. unfold digit in Hdc. by rewrite E in Hdc. }
  assert (takeDigits ((c :: ds) ++ rest) = (c :: ds, rest)) as Ht by (rewrite <- Hc; by eapply takeDigits_digits).
  assert (c = chr 48 -> ds = []) as Hzero.
  { intros ->. pose proof (pretty_zero_head z Hz) as H0. rewrite Hc in H0. specialize (H0 eq_refl). subst z. by injection Hc as <-. }
  unfold number. rewrite Hc. cbn [app] in *. rewrite Hminus. cbv beta iota zeta.
  match goal with |- context [if bool_decide ?P then ?a else ?b] =>
    assert ((if bool_decide P then a else b) = (c :: ds, rest)) as -> end.
  { case_bool_decide as Hh; [|exact Ht]. injection Hh as ->. by rewrite Hzero. }
  change (bool_decide (length (c :: ds) = 0%nat)) with false. cbv beta iota zeta.
  destruct rest as [|x rest]; [|destruct Hr as [->|[->| ->]]]; simpl; by rewrite app_nil_r.
Qed.

(** ** Reading it back *)

Lemma jsonText_head v : tree v -> exists c t, jsonText v = c :: t /\ isWs c = false /\ byteZ c <> 93 /\ byteZ c <> 125.
Proof.
  intros [| [] |z Hz| | | ]; try by (eexists _, _; split_and!; [reflexivity|by vm_compute..]).
  destruct (pretty_digits z Hz) as (Hd & Hne & _). destruct (digitsOf_head _ _ Hd Hne) as (c & ds & d & Hc & Hdc & _).
  exists c, ds. split; [exact Hc|]. unfold digit in Hdc. destruct ((48 <=? byteZ c) && (byteZ c <=? 57)) eqn:E; [|done]. breflect.
  split_and!; [|lia|lia]. unfold isWs. rewrite !orb_false_iff, !Z.eqb_neq. lia.
Qed.

Definition reads (v : JVal) : Prop :=
  forall f rest, (jsize v <= f)%nat -> closes rest -> pValue f (jsonText v ++ rest) = Some (v, rest).

Lemma skipWs_head c t : isWs c = false -> skipWs (c :: t) = c :: t.
Proof. intros H. unfold skipWs. cbn [dropWhile]. by rewrite H. Qed.

(** The elements of an array up to its closing bracket. *)
Lemma pElements_text l : Forall reads l -> l <> [] -> forall f rest,
  (foldr (fun x n => S (jsize x + n)) 0 l <= f)%nat ->
  pElements f (elementsText l ++ chr 93 :: rest) = Some (l, rest).
Proof.
  induction 1 as [|x l Hx _ IH]; intros Hne f rest Hf; [done|]. destruct f as [|f]; [simpl in Hf; lia|]. cbn [foldr] in Hf.
  destruct l as [|y l].
  - cbn [elementsText pElements]. rewrite Hx; [|lia|by right; left]. done.
  - change (elementsText (x :: y :: l)) with (jsonText x ++ chr 44 :: elementsText (y :: l)).
    rewrite <- app_assoc, <- app_comm_cons. cbn [pElements]. rewrite Hx; [|lia|by left]. cbn [mbind option_bind].
    rewrite skipWs_head by done. change (byteZ (chr 44) =? 44) with true. cbv iota. rewrite IH; [done|done|lia].
Qed.

Lemma pMembers_one f k v x rest : isWs x = false -> pValue f (jsonText v ++ x :: rest) = Some (v, x :: rest) ->
  pMembers (S f) (quote k ++ chr 58 :: jsonText v ++ x :: rest) =
  if byteZ x =? 44 then '(ms, r) ← pMembers f rest; Some ((k, v) :: ms, r)
  else if byteZ x =? 125 then Some ([(k, v)], rest) else None.
Proof.
  intros Hx Hv. cbn [pMembers]. unfold quote. cbn [app]. rewrite <- app_assoc. cbn [app].
  rewrite skipWs_head by done. change (byteZ QUOTE =? 34) with true. cbv iota. rewrite strBody_quoted. cbn [mbind option_bind].
  rewrite skipWs_head by done. change (byteZ (chr 58) =? 58) with true. cbv iota. rewrite Hv. cbn [mbind option_bind].
  rewrite skipWs_head by done. by rewrite str_chars.
Qed.

Lemma pMembers_fields ms : Forall (fun m => reads m.2) ms -> ms <> [] -> forall f rest,
  (foldr (fun m n => S (jsize m.2 + n)) 0 ms <= f)%nat ->
  pMembers f (fieldsText ms ++ chr 125 :: rest) = Some (ms, rest).
Proof.
  induction 1 as [|[k x] ms Hx _ IH]; intros Hne f rest Hf; [done|]. destruct f as [|f]; [simpl in Hf; lia|].
  cbn [foldr snd] in Hf, Hx. destruct ms as [|m ms].
  - cbn [fieldsText]. rewrite <- app_assoc, <- app_comm_cons. rewrite pMembers_one; [done|done|]. apply Hx; [lia|by right; right].
  - change (fieldsText ((k, x) :: m :: ms)) with (quote k ++ chr 58 :: jsonText x ++ chr 44 :: fieldsText (m :: ms)).
    rewrite <- app_assoc, <- app_comm_cons, <- app_assoc, <- app_comm_cons. rewrite pMembers_one; [|done|apply Hx; [lia|by left]].
    change (byteZ (chr 44) =? 44) with true. cbv iota. rewrite IH; [done|done|lia].
Qed.

Lemma reads_tree v : tree v -> reads v.
Proof.
  intros Hv. induction Hv as [|b|z Hz|s|l Htl Hl|ms Hms] using tree_ind'; intros [|f] rest Hf Hr; simpl in Hf; try lia.
  - done.
  - by destruct b.
  - destruct (pretty_digits z Hz) as (Hd & Hne & _). destruct (digitsOf_head _ _ Hd Hne) as (c & ds & d & Hc & Hdc & _).
    pose proof (number_pretty z rest Hz Hr) as Hn. unfold JUint, jsonText in *. rewrite Hc in *. cbn [app pValue] in *.
    unfold digit in Hdc. destruct ((48 <=? byteZ c) && (byteZ c <=? 57)) eqn:E; [|done]. breflect.
    rewrite skipWs_head by (unfold isWs; rewrite !orb_false_iff, !Z.eqb_neq; lia).
    repeat match goal with |- context [byteZ c =? ?k] => destruct (Z.eqb_spec (byteZ c) k); [lia|] end.
    by rewrite Hn.
  - apply (pValue_quote f s rest).
  - rewrite jsonText_array, <- app_comm_cons, <- app_assoc. cbn [pValue app]. rewrite skipWs_head by done. cbv zeta.
    change (byteZ (chr 91) =? 34) with false. change (byteZ (chr 91) =? 123) with false. change (byteZ (chr 91) =? 91) with true. cbv iota.
    destruct l as [|x l]; [done|]. pose proof (pElements_text _ Hl ltac:(done) f rest ltac:(lia)) as Hp.
    destruct (jsonText_head x) as (c & t & Hx & Hws & H93 & _); [by apply Forall_cons in Htl as [? _]|].
    assert (exists u, elementsText (x :: l) ++ chr 93 :: rest = c :: u) as [u Hu].
    { destruct l; cbn [elementsText]; rewrite Hx; by eexists. }
    rewrite Hu in *. rewrite skipWs_head by done. rewrite (proj2 (Z.eqb_neq _ _) H93). by rewrite Hp.
  - rewrite jsonText_object, <- app_comm_cons, <- app_assoc. cbn [pValue app]. rewrite skipWs_head by done. cbv zeta.
    change (byteZ (chr 123) =? 34) with false. change (byteZ (chr 123) =? 123) with true. cbv iota.
    destruct ms as [|[k x] ms]; [done|]. pose proof (pMembers_fields _ Hms ltac:(done) f rest ltac:(lia)) as Hp.
    assert (exists u, fieldsText ((k, x) :: ms) ++ chr 125 :: rest = QUOTE :: u) as [u Hu] by (destruct ms; by eexists).
    rewrite Hu in *. rewrite skipWs_head by done. change (byteZ QUOTE =? 125) with false. cbv iota. by rewrite Hp.
Qed.

Lemma jsize_text v : tree v -> (jsize v <= length (jsonText v))%nat.
Proof.
  intros Hv. induction Hv as [|b|z Hz|s|l _ Hl|ms Hms] using tree_ind'; try (simpl; lia).
  - by destruct b; simpl; lia.
  - destruct (pretty_digits z Hz) as (_ & Hne & _). unfold JUint. cbn [jsize jsonText]. destruct (chars (pretty z)); [done|simpl; lia].
  - rewrite jsonText_array. cbn [jsize length]. rewrite length_app. cbn [length].
    enough (foldr (fun x n => S (jsize x + n)) 0 l <= length (elementsText l) + 1)%nat by lia.
    induction Hl as [|x l Hx _ IH]; [simpl; lia|]. destruct l as [|y l]; [simpl in *; lia|].
    change (elementsText (x :: y :: l)) with (jsonText x ++ chr 44 :: elementsText (y :: l)).
    rewrite length_app. cbn [length foldr] in *. lia.
  - rewrite jsonText_object. cbn [jsize length]. rewrite length_app. cbn [length].
    enough (foldr (fun m n => S (jsize m.2 + n)) 0 ms <= length (fieldsText ms) + 1)%nat by lia.
    induction Hms as [|[k x] ms Hx _ IH]; [simpl; lia|]. cbn [snd] in Hx. destruct ms as [|m ms].
    + cbn [fieldsText foldr snd]. rewrite length_app. cbn [length]. lia.
    + change (fieldsText ((k, x) :: m :: ms)) with (quote k ++ chr 58 :: jsonText x ++ chr 44 :: fieldsText (m :: ms)).
      rewrite length_app. cbn [length]. rewrite length_app. cbn [length foldr snd] in *. lia.
Qed.

(** [json.Unmarshal] and [json.Decoder] see the tree that was marshalled. *)
Lemma parse_jsonText v : tree v -> parse (jsonText v) = Some v.
Proof.
  intros Hv. unfold parse. pose proof (reads_tree v Hv (S (length (jsonText v))) []) as H. rewrite app_nil_r in H.
  rewrite H; [done|pose proof (jsize_text v Hv); lia|done].
Qed.

(** ** Base64 *)

Definition ALPHABET : text := chars "ABCDEFGHIJKLMNOPQRSTUVWXYZabcdefghijklmnopqrstuvwxyz0123456789+/".

Definition PAD : ascii := chr 61.

Definition sextet (z : Z) : ascii := default PAD (ALPHABET !! Z.to_nat z).

Definition unsextet (c : ascii) : option Z := Z.of_nat <$> (fst <$> list_find (fun x => x = c) ALPHABET).

(** [base64.StdEncoding.EncodeToString] *)
Fixpoint base64 (t : text) : text :=
  match t with
  | [] => []
  | [a] => let n := byteZ a * 65536 in [sextet (n / 262144); sextet (n / 4096 mod 64); PAD; PAD]
  | [a; b] => let n := byteZ a * 65536 + byteZ b * 256 in
              [sextet (n / 262144); sextet (n / 4096 mod 64); sextet (n / 64 mod 64); PAD]
  | a :: b :: c :: t' =>
      let n := byteZ a * 65536 + byteZ b * 256 + byteZ c in
      sextet (n / 262144) :: sextet (n / 4096 mod 64) :: sextet (n / 64 mod 64) :: sextet (n mod 64) :: base64 t'
  end.

(** The decoder, on text without line breaks (which it skips): quanta of four,
    of which only the last may be padded; the bits beyond the last byte are
    ignored. *)
Fixpoint unbase64Quanta (t : text) : option text :=
  match t with
  | [] => Some []
  | p :: q :: r :: s :: t' =>
      x ← unsextet p; y ← unsextet q;
      let n2 := x * 262144 + y * 4096 in
      if Ascii.eqb r PAD then
        if Ascii.eqb s PAD && bool_decide (t' = []) then Some [chr (n2 / 65536)] else None
      else
        z ← unsextet r;
        let n3 := n2 + z * 64 in
        if Ascii.eqb s PAD then
          if bool_decide (t' = []) then Some [chr (n3 / 65536); chr (n3 / 256 mod 256)] else None
        else
          w ← unsextet s;
          rest ← unbase64Quanta t';
          let n := n3 + w in Some (chr (n / 65536) :: chr (n / 256 mod 256) :: chr (n mod 256) :: rest)
  | _ => None
  end.

Definition unbase64 (t : list ascii) : option text :=
  unbase64Quanta (filter (fun c => c <> chr 10 /\ c <> chr 13) t).

Example base64_ex :
  base64 (chars "Raft") = chars "UmFmdA==" /\ unbase64 (chars "UmFmdA==") = Some (chars "Raft") /\
  unbase64 (chars "UmF=mdA=") = None.
Proof. by vm_compute. Qed.

Lemma sextet_spec z : 0 <= z < 64 -> unsextet (sextet z) = Some z /\ sextet z <> PAD /\ sextet z <> chr 10 /\ sextet z <> chr 13.
Proof.
  intros Hz. assert (Forall (fun z => unsextet (sextet z) = Some z /\ sextet z <> PAD /\ sextet z <> chr 10 /\ sextet z <> chr 13) (seqZ 0 64)) as H.
  { apply (bool_decide_unpack _). by vm_compute. }
  rewrite Forall_forall in H. apply H, elem_of_seqZ. lia.
Qed.

Lemma byteZ_range c : 0 <= byteZ c < 256.
Proof. unfold byteZ. pose proof (N_ascii_bounded c). lia. Qed.

Lemma chr_byteZ c z : z = byteZ c -> chr z = c.
Proof. intros ->. by destruct c as [[] [] [] [] [] [] [] []]. Qed.

(** One quantum of three bytes. *)
Lemma quantum a b c : 0 <= a < 256 -> 0 <= b < 256 -> 0 <= c < 256 ->
  let n := a * 65536 + b * 256 + c in
  0 <= n / 262144 < 64 /\ n / 262144 * 262144 + n / 4096 mod 64 * 4096 + n / 64 mod 64 * 64 + n mod 64 = n /\
  n / 65536 = a /\ n / 256 mod 256 = b /\ n mod 256 = c.
Proof. intros Ha Hb Hc n. unfold n. div_lia. Qed.

Lemma unbase64Quanta_base64 m : forall t, (length t <= m)%nat -> unbase64Quanta (base64 t) = Some t.
Proof.
  induction m as [|m IH]; intros t Hm; [by destruct t; [|simpl in Hm; lia]|].
  destruct t as [|a [|b [|c t]]]; [done|..]; cbn [base64]; cbv zeta; pose proof (byteZ_range a) as Ha.
  - destruct (quantum (byteZ a) 0 0) as (Hx & Hn & Hq & _); [lia..|]. cbv zeta in *. rewrite !Z.mul_0_l, !Z.add_0_r in *.
    set (n := byteZ a * 65536) in *. pose proof (Z.mod_pos_bound (n / 4096) 64 ltac:(lia)) as Hy.
    cbn [unbase64Quanta]. rewrite (proj1 (sextet_spec _ Hx)), (proj1 (sextet_spec _ Hy)). cbn [mbind option_bind].
    change (Ascii.eqb PAD PAD) with true. change (bool_decide (@nil ascii = [])) with true. cbn [andb]. cbv iota.
    f_equal. f_equal. apply chr_byteZ. assert (n / 64 mod 64 * 64 + n mod 64 = 0) by (unfold n; div_lia). rewrite <- Hq. f_equal. lia.
  - pose proof (byteZ_range b) as Hb. destruct (quantum (byteZ a) (byteZ b) 0) as (Hx & Hn & Hq & Hr & _); [lia..|]. cbv zeta in *.
    rewrite !Z.add_0_r in *. set (n := byteZ a * 65536 + byteZ b * 256) in *.
    pose proof (Z.mod_pos_bound (n / 4096) 64 ltac:(lia)) as Hy. pose proof (Z.mod_pos_bound (n / 64) 64 ltac:(lia)) as Hz.
    destruct (sextet_spec _ Hz) as (Hz1 & Hz2 & _).
    cbn [unbase64Quanta]. rewrite (proj1 (sextet_spec _ Hx)), (proj1 (sextet_spec _ Hy)). cbn [mbind option_bind].
    rewrite (proj2 (Ascii.eqb_neq _ _) Hz2), Hz1. cbn [mbind option_bind]. change (Ascii.eqb PAD PAD) with true.
    change (bool_decide (@nil ascii = [])) with true. cbv iota.
    assert (n mod 64 = 0) by (unfold n; div_lia).
    assert (n / 262144 * 262144 + n / 4096 mod 64 * 4096 + n / 64 mod 64 * 64 = n) as -> by lia.
    by rewrite (chr_byteZ a), (chr_byteZ b).
  - pose proof (byteZ_range b) as Hb. pose proof (byteZ_range c) as Hc.
    destruct (quantum (byteZ a) (byteZ b) (byteZ c)) as (Hx & Hn & Hq & Hr & Hs); [lia..|]. cbv zeta in *.
    set (n := byteZ a * 65536 + byteZ b * 256 + byteZ c) in *.
    pose proof (Z.mod_pos_bound (n / 4096) 64 ltac:(lia)) as Hy. pose proof (Z.mod_pos_bound (n / 64) 64 ltac:(lia)) as Hz.
    pose proof (Z.mod_pos_bound n 64 ltac:(lia)) as Hw.
    destruct (sextet_spec _ Hz) as (Hz1 & Hz2 & _). destruct (sextet_spec _ Hw) as (Hw1 & Hw2 & _).
    cbn [unbase64Quanta]. rewrite (proj1 (sextet_spec _ Hx)), (proj1 (sextet_spec _ Hy)). cbn [mbind option_bind].
    rewrite (proj2 (Ascii.eqb_neq _ _) Hz2), Hz1. cbn [mbind option_bind].
    rewrite (proj2 (Ascii.eqb_neq _ _) Hw2), Hw1. cbn [mbind option_bind].
    rewrite IH by (simpl in Hm; lia). cbn [mbind option_bind]. rewrite Hn.
    by rewrite (chr_byteZ a), (chr_byteZ b), (chr_byteZ c).
Qed.

(** The encoded text has no line break to skip. *)
Lemma base64_plain m : forall t, (length t <= m)%nat -> Forall (fun c => c <> chr 10 /\ c <> chr 13) (base64 t).
Proof.
  assert (PAD <> chr 10 /\ PAD <> chr 13) as Hpad by by split.
  induction m as [|m IH]; intros t Hm; [by destruct t; [|simpl in Hm; lia]|].
  assert (forall z, 0 <= z < 64 -> sextet z <> chr 10 /\ sextet z <> chr 13) as Hs by (intros z Hz; apply (sextet_spec z Hz)).
  destruct t as [|a [|b [|c t]]]; cbn [base64]; cbv zeta; [constructor|..]; pose proof (byteZ_range a);
    try pose proof (byteZ_range b); try pose proof (byteZ_range c);
    repeat (constructor; [first [exact Hpad|apply Hs; div_lia]|]); first [constructor|apply IH; simpl in Hm; lia].
Qed.

Lemma base64_roundtrip t : unbase64 (base64 t) = Some t.
Proof.
  unfold unbase64. assert (forall l : list ascii, Forall (fun c => c <> chr 10 /\ c <> chr 13) l ->
    filter (fun c => c <> chr 10 /\ c <> chr 13) l = l) as Hf.
  { induction 1 as [|x l Hx _ IH]; [done|]. by rewrite filter_cons_True, IH. }
  rewrite Hf by (by eapply base64_plain). by eapply unbase64Quanta_base64.
Qed.
