(* ===== verification/Storage.v ===== *)
(** * Write-ahead log and snapshots

    [storage/logstore.go] and [storage/snapshot.go].  A file is its bytes; the
    outcome of an operating-system call is an argument, so that failed and
    partial writes are part of the model.  [WAL] and [SnapshotStore] are the Go
    interfaces, [WALSpec] and [SnapshotSpec] what a store relies on, which the
    file implementations discharge (the no-op ones keep nothing). *)

From Stdlib Require Import Ascii.
From S2P Require Import Prelude PyStr GoJson.
#[local] Open Scope Z_scope.

Inductive StoreErr := ErrEmptyKey | ErrUnknownOperation | ErrIO | ErrDecode | ErrTooLong.

(** ** Entries *)

Definition OpUpsert : string := "upsert".
Definition OpDelete : string := "delete".

Record Entry := mkEntry { Op : string; Key : string; Value : string }.

(** [json.Marshal(entry)]; an empty value is omitted. *)
Definition entryMembers (e : Entry) : list (string * string) :=
  [("op", Op e); ("key", Key e)] ++ (if bool_decide (Value e = "") then [] else [("value", Value e)]).

Definition marshalEntry (e : Entry) : text := objectText (entryMembers e).

Definition lowerName (s : string) : string :=
  str ((fun c => if (65 <=? byteZ c) && (byteZ c <=? 90) then chr (byteZ c + 32) else c) <$> chars s).

(** One member of the object, matched to a field without regard to case:
    [null] leaves the field, another value than a string is a type error. *)
Definition setField (r : option Entry) (m : string * JVal) : option Entry :=
  e ← r;
  let '(k, v) := m in
  let n := lowerName k in
  match v with
  | JString s =>
      Some (if bool_decide (n = "op") then mkEntry s (Key e) (Value e)
            else if bool_decide (n = "key") then mkEntry (Op e) s (Value e)
            else if bool_decide (n = "value") then mkEntry (Op e) (Key e) s
            else e)
  | JNull => Some e
  | _ => if bool_decide (n ∈ ["op"; "key"; "value"]) then None else Some e
  end.

(** [json.Unmarshal(bytes, &entry)] into a fresh entry. *)
Definition unmarshalEntry (t : text) : option Entry :=
  v ← parse t;
  match v with
  | JObject ms => foldl setField (Some (mkEntry "" "" "")) ms
  | JNull => Some (mkEntry "" "" "")
  | _ => None
  end.

Definition knownOp (e : Entry) : bool := bool_decide (Op e = OpUpsert) || bool_decide (Op e = OpDelete).

(** ** The log file *)

Inductive IO := IoOk | IoWriteFail (written : nat) | IoSyncFail.

Definition NL : ascii := chr 10.

Definition FileWAL := text.

Definition FileWAL_Append (io : IO) (entry : Entry) (file : FileWAL) : FileWAL * option StoreErr :=
  if negb (knownOp entry) then (file, Some ErrUnknownOperation)
  else
    let payload := marshalEntry entry ++ [NL] in
    match io with
    | IoOk => (file ++ payload, None)
    | IoWriteFail n => (file ++ take n payload, Some ErrIO)
    | IoSyncFail => (file ++ payload, Some ErrIO)
    end.

(** [bufio.ScanLines]: lines end at a newline; a last line without one counts
    when it is not empty. *)
Fixpoint scanLines (s : text) : list text :=
  match s with
  | [] => []
  | c :: s' =>
      if bool_decide (c = NL) then [] :: scanLines s'
      else match scanLines s' with
           | [] => [[c]]
           | l :: ls => (c :: l) :: ls
           end
  end.

(** A carriage return before the newline is dropped. *)
Definition dropCR (l : text) : text :=
  match last l with Some c => if bool_decide (c = chr 13) then take (length l - 1) l else l | None => l end.

(** [bufio.MaxScanTokenSize]: a line that fills the buffer is too long. *)
Definition MaxScanTokenSize : Z := 65536.

Fixpoint loadLines (ls : list text) : result StoreErr (list Entry) :=
  match ls with
  | [] => Ok []
  | l :: ls' =>
      if MaxScanTokenSize <=? Z.of_nat (length l) then Err ErrTooLong
      else match unmarshalEntry (dropCR l) with
           | None => Err ErrDecode
           | Some e => if negb (knownOp e) then Err ErrUnknownOperation
                       else (es <-? loadLines ls' ;; Ok (e :: es))%result
           end
  end.

Definition FileWAL_Load (file : FileWAL) : result StoreErr (list Entry) := loadLines (scanLines file).

(** ** The snapshot file *)

(** The file, absent before the first save: the rename replaces it whole. *)
Definition FileSnapshot := option text.

(** [json.Marshal] writes the keys in order. *)
Fixpoint insertKey (kv : string * string) (l : list (string * string)) : list (string * string) :=
  match l with
  | [] => [kv]
  | kv' :: l' => if String.leb kv.1 kv'.1 then kv :: l else kv' :: insertKey kv l'
  end.

Definition sortKeys (l : list (string * string)) : list (string * string) := foldr insertKey [] l.

Definition marshalState (state : gmap string string) : text := objectText (sortKeys (map_to_list state)).

(** [saved]: both the write of the temporary file and the rename succeed. *)
Definition FileSnapshot_Save (saved : bool) (state : gmap string string) (file : FileSnapshot)
    : FileSnapshot * option StoreErr :=
  if saved then (Some (marshalState state), None) else (file, Some ErrIO).

(** A member of a [map[string]string]: [null] sets the empty string. *)
Definition setKey (r : option (gmap string string)) (m : string * JVal) : option (gmap string string) :=
  s ← r;
  match m.2 with
  | JString v => Some (<[m.1 := v]> s)
  | JNull => Some (<[m.1 := ""]> s)
  | _ => None
  end.

(** The text [null], which [Save] never writes, reads as the empty map. *)
Definition FileSnapshot_Load (file : FileSnapshot) : result StoreErr (gmap string string) :=
  match file with
  | None | Some [] => Ok ∅
  | Some t =>
      match (v ← parse t; match v with JObject ms => foldl setKey (Some ∅) ms | JNull => Some ∅ | _ => None end) with
      | Some s => Ok s
      | None => Err ErrDecode
      end
  end.

(** ** The interfaces *)

Class WAL (S : Type) := {
  Append : IO -> Entry -> S -> S * option StoreErr;
  WAL_Load : S -> result StoreErr (list Entry) }.

Class SnapshotStore (S : Type) := {
  Save : bool -> gmap string string -> S -> S * option StoreErr;
  Snapshot_Load : S -> result StoreErr (gmap string string) }.

#[export] Instance fileWAL : WAL FileWAL := {| Append := FileWAL_Append; WAL_Load := FileWAL_Load |}.
#[export] Instance noopWAL : WAL unit := {| Append := fun _ _ s => (s, None); WAL_Load := fun _ => Ok [] |}.
#[export] Instance fileSnapshot : SnapshotStore FileSnapshot :=
  {| Save := FileSnapshot_Save; Snapshot_Load := FileSnapshot_Load |}.
#[export] Instance noopSnapshot : SnapshotStore unit :=
  {| Save := fun _ _ s => (s, None); Snapshot_Load := fun _ => Ok ∅ |}.

(** A log that holds what was appended to it. [wal_holds s es]: loading gives
    [es]; [loggable] are the entries it can hold. *)
Class WALSpec (S : Type) `{WAL S} := {
  wal_holds : S -> list Entry -> Prop;
  loggable : Entry -> Prop;
  wal_load_holds s es : wal_holds s es -> WAL_Load s = Ok es;
  wal_append_ok e s es : wal_holds s es -> loggable e ->
    exists s', Append IoOk e s = (s', None) /\ wal_holds s' (es ++ [e]);
  wal_append_none e s es : wal_holds s es -> loggable e ->
    exists s', Append (IoWriteFail 0) e s = (s', Some ErrIO) /\ wal_holds s' es }.

Class SnapshotSpec (S : Type) `{SnapshotStore S} := {
  snap_holds : S -> gmap string string -> Prop;
  snap_load_holds s m : snap_holds s m -> Snapshot_Load s = Ok m;
  (** the no-op store reports success and keeps nothing *)
  snap_save_ok m m' s : snap_holds s m -> exists s', Save true m' s = (s', None) /\ (snap_holds s' m' \/ snap_holds s' m);
  snap_save_fail m m' s : snap_holds s m -> exists s' err, Save false m' s = (s', err) /\ snap_holds s' m }.

(** ** The files discharge them *)

Lemma unmarshal_marshal e : unmarshalEntry (marshalEntry e) = Some e.
Proof.
  unfold unmarshalEntry, marshalEntry. rewrite parse_objectText. cbn [mbind option_bind].
  destruct e as [op key value]. unfold entryMembers. cbn [Op Key Value].
  case_bool_decide as Hv; [by subst value|done].
Qed.

Lemma scanLines_line l rest : NL ∉ l -> scanLines (l ++ NL :: rest) = l :: scanLines rest.
Proof.
  induction l as [|c l IH]; intros Hnl; cbn [app scanLines].
  - by rewrite bool_decide_eq_true_2.
  - apply not_elem_of_cons in Hnl as [Hc Hnl]. rewrite bool_decide_eq_false_2 by congruence.
    by rewrite IH.
Qed.

Definition lineOf (e : Entry) : text := marshalEntry e ++ [NL].

Lemma scanLines_entries es rest : scanLines ((es ≫= lineOf) ++ rest) = (marshalEntry <$> es) ++ scanLines rest.
Proof.
  induction es as [|e es IH]; [done|]. rewrite bind_cons, <- app_assoc. unfold lineOf at 1. rewrite <- app_assoc.
  cbn [app]. rewrite scanLines_line; [by rewrite IH|]. apply objectText_newline.
Qed.

Lemma dropCR_marshal e : dropCR (marshalEntry e) = marshalEntry e.
Proof.
  unfold dropCR, marshalEntry, objectText. rewrite app_comm_cons, last_snoc. done.
Qed.

(** An entry the log can give back: a known operation whose line fits, in ASCII. *)
Definition fits (e : Entry) : Prop :=
  knownOp e = true /\ Z.of_nat (length (marshalEntry e)) < MaxScanTokenSize /\
  asciiOnly (Key e) /\ asciiOnly (Value e).

Lemma loadLines_entries es rest : Forall fits es ->
  loadLines ((marshalEntry <$> es) ++ rest) = rbind (loadLines rest) (fun es' => Ok (es ++ es')).
Proof.
  induction 1 as [|e es (Hop & Hlen & _) _ IH]; cbn [fmap list_fmap app].
  - by destruct (loadLines rest).
  - cbn [loadLines]. destruct (Z.leb_spec MaxScanTokenSize (Z.of_nat (length (marshalEntry e)))); [lia|].
    rewrite dropCR_marshal, unmarshal_marshal, Hop. cbn [negb].
    change (list_fmap Entry (list ascii) marshalEntry es) with (marshalEntry <$> es).
    rewrite IH. by destruct (loadLines rest).
Qed.

Lemma FileWAL_Load_entries es : Forall fits es -> FileWAL_Load (es ≫= lineOf) = Ok es.
Proof.
  intros H. unfold FileWAL_Load. rewrite <- (app_nil_r (es ≫= lineOf)), scanLines_entries, loadLines_entries by done.
  simpl. by rewrite app_nil_r.
Qed.

Lemma bind_snoc {A B} (f : A -> list B) l x : ((l ++ [x]) ≫= f) = (l ≫= f) ++ f x.
Proof. by rewrite bind_app, bind_singleton. Qed.

#[export] Instance fileWAL_spec : WALSpec FileWAL.
Proof.
  refine {| wal_holds := fun s es => s = es ≫= lineOf /\ Forall fits es; loggable := fits |}.
  - intros s es [-> H]. by apply FileWAL_Load_entries.
  - intros e s es [-> H] He. exists ((es ++ [e]) ≫= lineOf). split.
    + unfold Append, fileWAL, FileWAL_Append. destruct He as [-> _]. by rewrite bind_snoc.
    + split; [done|]. by apply Forall_app_2; [|constructor].
  - intros e s es [-> H] He. exists (es ≫= lineOf). split; [|done].
    unfold Append, fileWAL, FileWAL_Append. destruct He as [-> _]. cbn [negb take]. by rewrite app_nil_r.
Defined.

Lemma sortKeys_perm l : sortKeys l ≡ₚ l.
Proof.
  induction l as [|kv l IH]; [done|]. cbn [sortKeys foldr]. fold (sortKeys l). rewrite <- IH at 2.
  generalize (sortKeys l) as k. induction k as [|kv' k IHk]; cbn [insertKey]; [done|].
  case_if; [done|]. rewrite IHk. apply perm_swap.
Qed.

Lemma setKey_strings ms m : foldl setKey (Some m) (jstrings ms) = Some (foldl (fun s kv => <[kv.1 := kv.2]> s) m ms).
Proof. revert m. induction ms as [|[k v] ms IH]; intros m; [done|]. apply IH. Qed.

Lemma foldl_insert_list ms (m : gmap string string) : NoDup ms.*1 ->
  foldl (fun s kv => <[kv.1 := kv.2]> s) m ms = list_to_map ms ∪ m.
Proof.
  revert m. induction ms as [|[k v] ms IH]; intros m Hnd; cbn [foldl].
  - by rewrite list_to_map_nil, (left_id_L ∅ (∪)).
  - apply NoDup_cons in Hnd as [Hk Hnd]. rewrite IH by done. cbn [fst snd].
    rewrite list_to_map_cons, <- insert_union_l, insert_union_r; [done|]. by apply not_elem_of_list_to_map_1.
Qed.

Lemma Snapshot_roundtrip m : FileSnapshot_Load (Some (marshalState m)) = Ok m.
Proof.
  unfold FileSnapshot_Load, marshalState. pose proof (sortKeys_perm (map_to_list m)) as Hp.
  rewrite parse_objectText. cbn [mbind option_bind]. rewrite setKey_strings, foldl_insert_list.
  - rewrite (right_id_L ∅ (∪)). rewrite (list_to_map_proper _ (map_to_list m)); [by rewrite list_to_map_to_list| |done].
    rewrite Hp. apply NoDup_fst_map_to_list.
  - rewrite Hp. apply NoDup_fst_map_to_list.
Qed.

#[export] Instance fileSnapshot_spec : SnapshotSpec FileSnapshot.
Proof.
  refine {| snap_holds := fun s m => FileSnapshot_Load s = Ok m |}.
  - done.
  - intros m m' s _. exists (Some (marshalState m')). split; [done|left; apply Snapshot_roundtrip].
  - intros m m' s H. by exists s, (Some ErrIO).
Defined.

(** ** What the log file does not survive *)

(** A line over the scanner's limit is appended without an error. *)
Lemma too_long_load es e : Forall fits es -> MaxScanTokenSize <= Z.of_nat (length (marshalEntry e)) ->
  forall rest, FileWAL_Load ((es ≫= lineOf) ++ lineOf e ++ rest) = Err ErrTooLong.
Proof.
  intros Hes Hlong rest. unfold FileWAL_Load. rewrite scanLines_entries, loadLines_entries by done.
  unfold lineOf. rewrite <- app_assoc. cbn [app]. rewrite scanLines_line by apply objectText_newline. cbn [loadLines].
  destruct (Z.leb_spec MaxScanTokenSize (Z.of_nat (length (marshalEntry e)))); [done|lia].
Qed.
