(* ===== verification/Persistence.v ===== *)
(** * Opening the log and the snapshot

    [storage/persistence.go] and the constructors of the two stores: the
    configuration decides between a file and an implementation that keeps
    nothing.  The result is a value of an interface type, here a sum with the
    instances of both cases; a file carries its path, and its contents are
    those on the disk under it. *)

From S2P Require Import Prelude PyStr GoJson Storage.

Abbreviation Disk := (gmap string text).

Record Config := mkConfig { Enabled : bool; Path : string }.

Inductive OpenedWAL := OFile (path : string) (file : FileWAL) | ONoop.
Inductive OpenedSnapshot := OSnap (path : string) (file : FileSnapshot) | ONoopSnap.

#[export] Instance openedWAL : WAL OpenedWAL := {|
  Append := fun io e w => match w with
    | OFile p f => let '(f', err) := Append io e f in (OFile p f', err)
    | ONoop => (ONoop, snd (Append io e tt))
    end;
  WAL_Load := fun w => match w with OFile _ f => WAL_Load f | ONoop => WAL_Load tt end |}.

#[export] Instance openedSnapshot : SnapshotStore OpenedSnapshot := {|
  Save := fun ok m s => match s with
    | OSnap p f => let '(f', err) := Save ok m f in (OSnap p f', err)
    | ONoopSnap => (ONoopSnap, snd (Save ok m tt))
    end;
  Snapshot_Load := fun s => match s with OSnap _ f => Snapshot_Load f | ONoopSnap => Snapshot_Load tt end |}.

(** [creatable p]: the directory of [p] can be made and the file opened. *)
Section Open.
Context (creatable : string -> bool).

Definition NewFileWAL (disk : Disk) (path : string) : result StoreErr OpenedWAL :=
  if creatable path then Ok (OFile path match (disk !! path : option text) with Some file => file | None => [] end) else Err ErrIO.

Definition NewFileSnapshot (disk : Disk) (path : string) : result StoreErr OpenedSnapshot :=
  if creatable path then Ok (OSnap path (disk !! path)) else Err ErrIO.

Definition OpenWAL (disk : Disk) (cfg : Config) : result StoreErr OpenedWAL :=
  if negb (Enabled cfg) then Ok ONoop else NewFileWAL disk (Path cfg).

Definition OpenSnapshot (disk : Disk) (cfg : Config) : result StoreErr OpenedSnapshot :=
  if negb (Enabled cfg) then Ok ONoopSnap else NewFileSnapshot disk (Path cfg).
End Open.

(** ** The laws of the interfaces

    A log opened on a file holds what the file holds; no law of a log holds of
    the no-op one.  A snapshot store that keeps nothing always holds the empty
    map. *)

#[export] Instance openedWAL_spec : WALSpec OpenedWAL.
Proof.
  refine {| wal_holds := fun w es => match w with OFile _ f => wal_holds f es | ONoop => False end; loggable := fits |}.
  - intros [p f|] es Hh; [|done]. by apply (wal_load_holds f es).
  - intros e [p f|] es Hh He; [|done]. destruct (wal_append_ok e f es Hh He) as (f' & Ha & Hh'). exists (OFile p f').
    cbn [Append openedWAL]. by rewrite Ha.
  - intros e [p f|] es Hh He; [|done]. destruct (wal_append_none e f es Hh He) as (f' & Ha & Hh'). exists (OFile p f').
    cbn [Append openedWAL]. by rewrite Ha.
Defined.

#[export] Instance openedSnapshot_spec : SnapshotSpec OpenedSnapshot.
Proof.
  refine {| snap_holds := fun s m => match s with OSnap _ f => snap_holds f m | ONoopSnap => m = ∅ end |}.
  - intros [p f|] m Hh; [by apply (snap_load_holds f m)|by rewrite Hh].
  - intros m m' [p f|] Hh.
    + destruct (snap_save_ok m m' f Hh) as (f' & Hs & Hh'). exists (OSnap p f'). cbn [Save openedSnapshot]. by rewrite Hs.
    + exists ONoopSnap. split; [done|by right].
  - intros m m' [p f|] Hh.
    + destruct (snap_save_fail m m' f Hh) as (f' & err & Hs & Hh'). exists (OSnap p f'), err.
      cbn [Save openedSnapshot]. by rewrite Hs.
    + by exists ONoopSnap, None.
Defined.

(** ** Files stay where they are *)

Definition walPathOf (w : OpenedWAL) : option string := match w with OFile p _ => Some p | ONoop => None end.
Definition snapPathOf (s : OpenedSnapshot) : option string := match s with OSnap p _ => Some p | ONoopSnap => None end.

Lemma Append_path io e w : walPathOf (fst (Append io e w)) = walPathOf w.
Proof. destruct w as [p f|]; cbn [Append openedWAL]; [by destruct (Append io e f)|done]. Qed.

Lemma Save_path ok m s : snapPathOf (fst (Save ok m s)) = snapPathOf s.
Proof. destruct s as [p f|]; cbn [Save openedSnapshot]; [by destruct (Save ok m f)|done]. Qed.
