(* ===== verification/KvStore.v ===== *)
(** * The key-value store

    [kv/store.go] and [kv/apply.go]: the map in memory, the write-ahead log and
    the snapshots behind it, recovery, and the loop that applies committed Raft
    commands.  The store's theorems are proved against the interfaces of
    [Storage]; the outcomes of the log's and the snapshot's system calls are
    arguments of every write.  Every operation runs under the store's mutex, so
    it is one step. *)

From Stdlib Require Import Ascii.
From S2P Require Import Prelude PyStr GoJson Storage.
#[local] Open Scope Z_scope.

Definition DefaultSnapshotInterval : Z := 100.

Section Store.
Context {W S : Type} `{WAL W} `{SnapshotStore S}.

Record Store := mkStore {
  data : gmap string string; wal : option W; snapshot : option S; writeCount : Z; snapshotInterval : Z }.

Definition NewStore (w : option W) (s : option S) : Store := mkStore ∅ w s 0 DefaultSnapshotInterval.

Definition applyEntry (d : gmap string string) (e : Entry) : gmap string string :=
  if bool_decide (Op e = OpDelete) then delete (Key e) d else <[Key e := Value e]> d.

Definition applyLocked (e : Entry) (st : Store) : Store :=
  mkStore (applyEntry (data st) e) (wal st) (snapshot st) (writeCount st) (snapshotInterval st).

Definition NewStoreFromDisk (w : option W) (s : option S) : result StoreErr Store :=
  (state <-? match s with Some s' => Snapshot_Load s' | None => Ok ∅ end ;;
   entries <-? match w with Some w' => WAL_Load w' | None => Ok [] end ;;
   Ok (foldl (fun st e => applyLocked e st) (mkStore state w s 0 DefaultSnapshotInterval) entries))%result.

(** The outcomes of a write's system calls. *)
Record Calls := mkCalls { walIO : IO; snapshotOK : bool }.

Definition append (io : IO) (e : Entry) (st : Store) : Store * option StoreErr :=
  match wal st with
  | None => (st, None)
  | Some w => let '(w', err) := Append io e w in
              (mkStore (data st) (Some w') (snapshot st) (writeCount st) (snapshotInterval st), err)
  end.

(** The snapshot after a write, when one is due. *)
Definition saveDue (ok : bool) (st : Store) : Store * option StoreErr :=
  match snapshot st with
  | None => (st, None)
  | Some s =>
      if snapshotInterval st =? 0 then (st, None)
      else
        let st1 := mkStore (data st) (wal st) (snapshot st) (writeCount st + 1) (snapshotInterval st) in
        if negb (Z.rem (writeCount st1) (snapshotInterval st1) =? 0) then (st1, None)
        else let '(s', err) := Save ok (data st1) s in
             (mkStore (data st1) (wal st1) (Some s') (writeCount st1) (snapshotInterval st1), err)
  end.

Definition persistAndApplyLocked (c : Calls) (e : Entry) (st : Store) : Store * option StoreErr :=
  match append (walIO c) e st with
  | (st1, Some err) => (st1, Some err)
  | (st1, None) => saveDue (snapshotOK c) (applyLocked e st1)
  end.

Definition Upsert (c : Calls) (key value : string) (st : Store) : Store * option StoreErr :=
  if bool_decide (key = "") then (st, Some ErrEmptyKey)
  else persistAndApplyLocked c (mkEntry OpUpsert key value) st.

Definition Delete (c : Calls) (key : string) (st : Store) : Store * option StoreErr :=
  if bool_decide (key = "") then (st, Some ErrEmptyKey)
  else persistAndApplyLocked c (mkEntry OpDelete key "") st.

Definition Get (key : string) (st : Store) : result StoreErr (option string) :=
  if bool_decide (key = "") then Err ErrEmptyKey else Ok (data st !! key).

(** [Apply] of a committed command. *)
Definition Apply (c : Calls) (e : Entry) (st : Store) : Store * option StoreErr :=
  if bool_decide (Key e = "") then (st, Some ErrEmptyKey)
  else if bool_decide (Op e = OpDelete) then Delete c (Key e) st
  else if bool_decide (Op e = OpUpsert) then Upsert c (Key e) (Value e) st
  else (st, Some ErrUnknownOperation).

(** One turn of the loop: a command that does not decode is skipped, an error
    of [Apply] is logged. *)
Definition applyCommand (st : Store) (cmd : text * Calls) : Store :=
  match unmarshalEntry cmd.1 with
  | None => st
  | Some e => fst (Apply cmd.2 e st)
  end.

Definition RunApplyLoop (cmds : list (text * Calls)) (st : Store) : Store := foldl applyCommand st cmds.
End Store.
Arguments Store : clear implicits.

(** ** Replaying entries *)

Definition replay (d : gmap string string) (es : list Entry) : gmap string string := foldl applyEntry d es.

(** What a list of entries makes of a key: the last entry for it decides. *)
Definition effect (k : string) (es : list Entry) : option (option string) :=
  foldl (fun r e => if bool_decide (Key e = k) then Some (if bool_decide (Op e = OpDelete) then None else Some (Value e))
                    else r) None es.

Lemma replay_app d es es' : replay d (es ++ es') = replay (replay d es) es'.
Proof. apply foldl_app. Qed.

Lemma replay_lookup d es k : replay d es !! k = default (d !! k) (effect k es).
Proof.
  induction es as [|e es IH] using rev_ind; [done|]. rewrite replay_app. unfold effect in *. rewrite foldl_snoc.
  cbn [replay foldl]. unfold replay in IH. cbn [foldl]. unfold applyEntry at 1.
  case_bool_decide as Hop; case_bool_decide as Hk; cbn [default from_option].
  - subst k. by rewrite lookup_delete_eq.
  - by rewrite lookup_delete_ne.
  - subst k. by rewrite lookup_insert_eq.
  - by rewrite lookup_insert_ne.
Qed.

(** Entries replayed on top of a state that already has them change nothing. *)
Lemma replay_idempotent d es : replay (replay d es) es = replay d es.
Proof. apply map_eq. intros k. rewrite !replay_lookup. by destruct (effect k es). Qed.

Lemma replay_on_prefix d p es : p `prefix_of` es -> replay (replay d p) es = replay d es.
Proof. intros [q ->]. by rewrite !replay_app, replay_idempotent. Qed.

(** ** What a write leaves *)

Section Outcome.
Context {W S : Type} `{WAL W} `{SnapshotStore S}.

(** The log after it was given an entry, if there is one, and its error. *)
Definition logged (io : IO) (e : Entry) (log : option W) : option W * option StoreErr :=
  match log with Some w => let '(w', err) := Append io e w in (Some w', err) | None => (None, None) end.

(** What becomes of the snapshots when the map is [d] after a write: the new
    snapshot, the count, and the error. *)
Definition snapshotted (ok : bool) (d : gmap string string) (st : Store W S) : option S * Z * option StoreErr :=
  match snapshot st with
  | Some s =>
      if snapshotInterval st =? 0 then (Some s, writeCount st, None)
      else if Z.rem (writeCount st + 1) (snapshotInterval st) =? 0
      then (Some (Save ok d s).1, writeCount st + 1, (Save ok d s).2)
      else (Some s, writeCount st + 1, None)
  | None => (None, writeCount st, None)
  end.

Lemma persist_branches c e (st : Store W S) :
  persistAndApplyLocked c e st =
  match logged (walIO c) e (wal st) with
  | (w, Some err) => (mkStore (data st) w (snapshot st) (writeCount st) (snapshotInterval st), Some err)
  | (w, None) =>
      let d := applyEntry (data st) e in
      let '(s, n, err) := snapshotted (snapshotOK c) d st in (mkStore d w s n (snapshotInterval st), err)
  end.
Proof.
  unfold persistAndApplyLocked, append, logged, saveDue, applyLocked, snapshotted. destruct st as [d [w|] s n k]; cbn;
    [destruct (Append (walIO c) e w) as [w' [er|]]; cbn; [done|]|];
    (destruct s as [s|]; [|done]; case_if; [done|]; destruct (Z.rem (n + 1) k =? 0); cbn; [|done]; by destruct (Save _ _ s)).
Qed.

(** A write that reports no error is in the map. *)
Lemma persist_None c e (st st' : Store W S) :
  persistAndApplyLocked c e st = (st', None) -> data st' = applyEntry (data st) e.
Proof.
  rewrite persist_branches. destruct (logged _ _ _) as [w [er|]]; [done|]. cbv zeta.
  destruct (snapshotted (snapshotOK c) (applyEntry (data st) e) st) as [[s n] er]. by intros [= <- _].
Qed.
End Outcome.

(** ** Recovery *)

Section Recovery.
Context {W S : Type} `{WALSpec W} `{SnapshotSpec S}.

(** The log holds what the memory has applied, the snapshot some earlier part. *)
Definition durable (st : Store W S) (es : list Entry) : Prop :=
  data st = replay ∅ es /\
  (exists w, wal st = Some w /\ wal_holds w es) /\
  (forall s, snapshot st = Some s -> exists p, p `prefix_of` es /\ snap_holds s (replay ∅ p)).

Lemma foldl_applyLocked es (st : Store W S) :
  data (foldl (fun st e => applyLocked e st) st es) = replay (data st) es.
Proof. revert st. induction es as [|e es IH]; intros st; [done|]. simpl. by rewrite IH. Qed.

Lemma durable_recovers st es : durable st es ->
  exists st', NewStoreFromDisk (wal st) (snapshot st) = Ok st' /\ data st' = data st.
Proof.
  intros (Hd & (w & Hw & Hholds) & Hs). unfold NewStoreFromDisk. rewrite Hw.
  destruct (snapshot st) as [s|] eqn:E.
  - destruct (Hs s eq_refl) as (p & Hp & Hsp). rewrite (snap_load_holds _ _ Hsp). cbn [rbind].
    rewrite (wal_load_holds _ _ Hholds). cbn [rbind]. eexists. split; [done|].
    rewrite foldl_applyLocked. cbn [data]. by rewrite replay_on_prefix.
  - cbn [rbind]. rewrite (wal_load_holds _ _ Hholds). cbn [rbind]. eexists. split; [done|].
    rewrite foldl_applyLocked. cbn [data]. by rewrite Hd.
Qed.

(** Calls that leave the log whole: the append succeeds or writes nothing. *)
Definition whole (c : Calls) : Prop := walIO c = IoOk \/ walIO c = IoWriteFail 0.

Lemma saveDue_durable ok st es : durable st es ->
  durable (fst (saveDue ok st)) es /\ data (fst (saveDue ok st)) = data st.
Proof.
  intros (Hd & Hw & Hs). unfold saveDue. destruct (snapshot st) as [s|] eqn:E.
  2: { split; [|done]. split_and!; [done|done|]. intros s' Hs'. simpl in Hs'. congruence. }
  case_if. { split; [|done]. split_and!; [done|done|]. intros s' Hs'. simpl in Hs'. apply Hs. congruence. }
  cbn [writeCount snapshotInterval data wal snapshot]. case_if. { by split. }
  destruct (Hs s eq_refl) as (p & Hp & Hsp). destruct ok.
  - destruct (snap_save_ok _ (data st) s Hsp) as (s' & Hsv & [Hs'|Hs']); rewrite Hsv; (split; [|done]);
      (split_and!; [done|done|]); intros ? [= <-]; [|by exists p]. exists es. split; [done|]. by rewrite <- Hd.
  - destruct (snap_save_fail _ (data st) s Hsp) as (s' & err & Hsv & Hs'). rewrite Hsv. split; [|done].
    split_and!; [done|done|]. intros ? [= <-]. by exists p.
Qed.

(** A write of a storable entry: applied and logged together, or neither. *)
Lemma persist_durable c e st es : durable st es -> loggable e -> whole c ->
  let '(st', err) := persistAndApplyLocked c e st in
  exists es', durable st' es' /\ (es' = es ++ [e] \/ es' = es /\ err = Some ErrIO).
Proof.
  intros (Hd & (w & Hw & Hholds) & Hs) He Hc. unfold persistAndApplyLocked, append. rewrite Hw.
  destruct Hc as [->| ->].
  - destruct (wal_append_ok e w es Hholds He) as (w' & -> & Hw'). set (st1 := applyLocked _ _).
    assert (durable st1 (es ++ [e])) as Hdur.
    { split_and!.
      - unfold st1. simpl. rewrite replay_app, <- Hd. done.
      - by exists w'.
      - intros s Hsn. destruct (Hs s Hsn) as (p & Hp & ?). exists p. split; [by apply prefix_app_r|done]. }
    destruct (saveDue_durable (snapshotOK c) st1 _ Hdur) as [Hdur' _].
    destruct (saveDue (snapshotOK c) st1) as [st' err]. exists (es ++ [e]). split; [done|by left].
  - destruct (wal_append_none e w es Hholds He) as (w' & -> & Hw'). exists es. split; [|by right].
    split_and!; [done| |done]. by exists w'.
Qed.

(** A snapshot that is due and can be written reports no error. *)
Lemma saveDue_ok st es : durable st es -> snd (saveDue true st) = None.
Proof.
  intros (_ & _ & Hs). unfold saveDue. destruct (snapshot st) as [s|]; [|done]. case_if; [done|].
  cbn [writeCount snapshotInterval data]. case_if; [done|]. destruct (Hs s eq_refl) as (p & _ & Hsp).
  destruct (snap_save_ok _ (data st) s Hsp) as (s' & Hsv & _). by rewrite Hsv.
Qed.

(** With snapshots that succeed, a write reports exactly whether it was done. *)
Lemma persist_exact c e st es : durable st es -> loggable e -> whole c -> snapshotOK c = true ->
  let '(st', err) := persistAndApplyLocked c e st in
  (walIO c = IoOk /\ err = None /\ durable st' (es ++ [e])) \/
  (walIO c <> IoOk /\ err = Some ErrIO /\ durable st' es).
Proof.
  intros Hd He Hc Hok. pose proof (persist_durable c e st es Hd He Hc) as Hp.
  destruct (persistAndApplyLocked c e st) as [st' err] eqn:E. destruct Hp as (es' & Hd' & Hes).
  destruct Hd as (Hdata & (w & Hw & Hholds) & Hs). unfold persistAndApplyLocked, append in E. rewrite Hw in E.
  destruct Hc as [Hc|Hc]; rewrite Hc in E.
  - destruct (wal_append_ok e w es Hholds He) as (w' & Ha & Hw'). rewrite Ha, Hok in E.
    match type of E with saveDue _ ?st1 = _ => assert (durable st1 (es ++ [e])) as Hdur end.
    { split_and!; [simpl; by rewrite replay_app, <- Hdata|by exists w'|].
      intros s Hsn. destruct (Hs s Hsn) as (p & Hp & ?). exists p. split; [by apply prefix_app_r|done]. }
    apply (saveDue_ok _ _) in Hdur as Herr. rewrite E in Herr. cbn in Herr. subst err.
    destruct Hes as [->|[_ Hne]]; [by left|done].
  - destruct (wal_append_none e w es Hholds He) as (w' & Ha & _). rewrite Ha in E. injection E as <- <-.
    right. split_and!; [by rewrite Hc|done|]. destruct Hes as [->|[-> _]]; [|done]. exfalso.
    destruct Hd' as (_ & (w2 & Hw2 & Hh2) & _). cbn in Hw2. injection Hw2 as <-.
    destruct (wal_append_none e w es Hholds He) as (w3 & Ha3 & Hh3). rewrite Ha in Ha3. injection Ha3 as <-.
    apply wal_load_holds in Hh2, Hh3. rewrite Hh2 in Hh3. injection Hh3 as Heq%(f_equal length).
    rewrite length_app in Heq. simpl in Heq. lia.
Qed.

Lemma foldl_applyLocked_files es (st : Store W S) : let st' := foldl (fun st e => applyLocked e st) st es in
  wal st' = wal st /\ snapshot st' = snapshot st.
Proof. revert st. induction es as [|e es IH]; intros st; [done|]. apply (IH (applyLocked e st)). Qed.

(** A restarted store is as durable as the one it was. *)
Lemma durable_restart st es : durable st es ->
  exists st', NewStoreFromDisk (wal st) (snapshot st) = Ok st' /\ durable st' es /\
    wal st' = wal st /\ snapshot st' = snapshot st.
Proof.
  intros Hd. destruct (durable_recovers st es Hd) as (st' & Hst & Hdata). exists st'. split; [done|].
  assert (wal st' = wal st /\ snapshot st' = snapshot st) as [Hw Hs].
  { unfold NewStoreFromDisk in Hst. apply rbind_Ok in Hst as (m & _ & Hst). apply rbind_Ok in Hst as (l & _ & Hst).
    injection Hst as <-. apply (foldl_applyLocked_files l (mkStore m (wal st) (snapshot st) 0 DefaultSnapshotInterval)). }
  destruct Hd as (Hd1 & Hd2 & Hd3). unfold durable. rewrite Hw, Hs, Hdata. done.
Qed.
End Recovery.

(** ** Runs of writes *)

Inductive Write := WUpsert (key value : string) | WDelete (key : string).

Definition entryOf (o : Write) : Entry :=
  match o with WUpsert k v => mkEntry OpUpsert k v | WDelete k => mkEntry OpDelete k "" end.

Section Runs.
Context {W S : Type} `{WALSpec W} `{SnapshotSpec S}.

Definition doWrite (c : Calls) (o : Write) (st : Store W S) : Store W S * option StoreErr :=
  match o with WUpsert k v => Upsert c k v st | WDelete k => Delete c k st end.

Definition runWrites (ops : list (Calls * Write)) (st : Store W S) : Store W S :=
  foldl (fun st '(c, o) => fst (doWrite c o st)) st ops.

Lemma doWrite_eq c o st :
  doWrite c o st = if bool_decide (Key (entryOf o) = "") then (st, Some ErrEmptyKey)
                   else persistAndApplyLocked c (entryOf o) st.
Proof. by destruct o. Qed.

Lemma runWrites_durable ops st es : durable st es ->
  Forall (fun '(c, o) => whole c /\ loggable (entryOf o)) ops -> exists es', durable (runWrites ops st) (es ++ es').
Proof.
  intros Hd Hall. revert st es Hd. induction Hall as [|[c o] ops [Hc Ho] _ IH]; intros st es Hd.
  { exists []. by rewrite app_nil_r. }
  unfold runWrites. cbn [foldl]. rewrite doWrite_eq. case_bool_decide.
  { by apply IH. }
  pose proof (persist_durable c (entryOf o) st es Hd Ho Hc) as Hp.
  destruct (persistAndApplyLocked c (entryOf o) st) as [st' err]. destruct Hp as (es' & Hd' & [->|[-> _]]).
  - destruct (IH _ _ Hd') as [es'' Hd'']. exists ([entryOf o] ++ es''). by rewrite app_assoc.
  - by apply IH.
Qed.

(** C21. Recovery is exact: a store whose log holds what its memory has
    applied, driven by any sequence of upserts and deletes whose log appends
    succeed or write nothing (snapshots may fail or succeed in any way), can be
    stopped at any point: reading its snapshot and replaying its whole log gives
    the very map it had in memory. Replaying the entries the snapshot already
    has, which the code does, changes nothing. *)
Theorem recovery_exact (st : Store W S) (es : list Entry) (ops : list (Calls * Write)) :
  durable st es -> Forall (fun '(c, o) => whole c /\ loggable (entryOf o)) ops ->
  let st1 := runWrites ops st in
  exists st2, NewStoreFromDisk (wal st1) (snapshot st1) = Ok st2 /\ data st2 = data st1.
Proof.
  intros Hd Hall. destruct (runWrites_durable ops st es Hd Hall) as [es' Hd']. by eapply durable_recovers.
Qed.

(** C22. What a write returns and leaves, on every branch.  An empty key is
    refused and nothing changes.  Otherwise the entry is given to the log, if
    there is one, and the log's error is returned with map, snapshot and count
    as they were.  If the log took it, the map has the write, for reads of that key
    and of no other; with snapshots on, the write is counted, and when the count
    reaches a multiple of the interval the new map is saved and the outcome of
    that save, an error too, is what the write returns; when no snapshot is due
    the write succeeds and the snapshot stays. *)
Theorem write_outcomes (c : Calls) (o : Write) (st st' : Store W S) (err : option StoreErr) :
  doWrite c o st = (st', err) ->
  let key := Key (entryOf o) in
  if bool_decide (key = "") then st' = st /\ err = Some ErrEmptyKey
  else
    wal st' = (logged (walIO c) (entryOf o) (wal st)).1 /\ snapshotInterval st' = snapshotInterval st /\
    match (logged (walIO c) (entryOf o) (wal st)).2 with
    | Some e => err = Some e /\ data st' = data st /\ snapshot st' = snapshot st /\ writeCount st' = writeCount st
    | None =>
        data st' !! key = match o with WUpsert _ v => Some v | WDelete _ => None end /\
        (forall k, k <> key -> data st' !! k = data st !! k) /\
        (snapshot st', writeCount st', err) = snapshotted (snapshotOK c) (data st') st
    end.
Proof.
  intros Hw key. rewrite doWrite_eq, persist_branches in Hw. fold key in Hw. case_bool_decide as Hk; [by injection Hw as <- <-|].
  destruct (logged _ _ _) as [w [er|]]; [by injection Hw as <- <-|].
  cbv zeta in Hw. destruct (snapshotted (snapshotOK c) (applyEntry (data st) (entryOf o)) st) as [[s n] er] eqn:Es. injection Hw as <- <-. cbn. split_and!; [done..| | |done]; unfold applyEntry, key.
  - destruct o; simpl; [apply lookup_insert_eq|apply lookup_delete_eq].
  - intros k Hne. destruct o; simpl in *; [by rewrite lookup_insert_ne|by rewrite lookup_delete_ne].
Qed.

(** Committed commands applied to a durable store: each is logged and applied. *)
Lemma applyLoop_durable cs st es : durable st es ->
  Forall (fun e => loggable e /\ knownOp e = true /\ Key e <> "" /\ (Op e = OpDelete -> Value e = "")) cs ->
  durable (RunApplyLoop ((fun e => (marshalEntry e, mkCalls IoOk true)) <$> cs) st) (es ++ cs).
Proof.
  intros Hd Hall. revert st es Hd. induction Hall as [|e cs (Hl & Hop & Hk & Hv) _ IH]; intros st es Hd.
  { by rewrite app_nil_r. }
  rewrite cons_middle, app_assoc. apply IH. unfold applyCommand. cbn [fst snd]. rewrite unmarshal_marshal.
  assert (fst (Apply (mkCalls IoOk true) e st) = fst (persistAndApplyLocked (mkCalls IoOk true) e st)) as ->.
  { unfold Apply, Delete, Upsert. rewrite (bool_decide_eq_false_2 (Key e = "")) by done. unfold knownOp in Hop.
    destruct e as [op key value]. cbn [Op Key Value] in *. apply orb_true_iff in Hop as [Hop|Hop]; breflect; subst op.
    - done.
    - rewrite bool_decide_eq_true_2 by done. by rewrite (Hv eq_refl). }
  pose proof (persist_exact (mkCalls IoOk true) e st es Hd Hl (or_introl eq_refl) eq_refl) as Hp.
  destruct (persistAndApplyLocked _ e st) as [st' err]. by destruct Hp as [(_ & _ & Hd')|(Hne & _)].
Qed.

(** C23. Re-replication after a restart: when a node whose store survived is
    given all its committed commands again (its Raft log is in memory, so the
    leader resends them from the first), the store ends with the same map, and
    its log holds every entry twice. *)
Theorem reapply_converges (st : Store W S) (es : list Entry) :
  durable st es ->
  Forall (fun e => loggable e /\ knownOp e = true /\ Key e <> "" /\ (Op e = OpDelete -> Value e = "")) es ->
  let st' := RunApplyLoop ((fun e => (marshalEntry e, mkCalls IoOk true)) <$> es) st in
  data st' = data st /\ durable st' (es ++ es).
Proof.
  intros Hd Hall st'. pose proof (applyLoop_durable es st es Hd Hall) as Hd'. split; [|done].
  destruct Hd as [-> _], Hd' as [Hdd _]. unfold st'. rewrite Hdd, replay_app. apply replay_idempotent.
Qed.
End Runs.

(** ** On files *)

Abbreviation FileStore := (Store FileWAL FileSnapshot).

(** A store opened on empty files. *)
Definition emptyStore : FileStore := NewStore (Some []) (Some None).

Lemma emptyStore_durable : durable emptyStore [].
Proof.
  split_and!; [done|by exists []|]. intros s [= <-]. exists []. split; [done|]. done.
Qed.

#[export] Instance fits_dec e : Decision (fits e).
Proof. unfold fits, asciiOnly. apply _. Defined.

Definition okCalls : Calls := mkCalls IoOk true.

Definition demo_ops : list (Calls * Write) :=
  [(okCalls, WUpsert "a" "1"); (okCalls, WUpsert "b" ""); (mkCalls (IoWriteFail 0) true, WUpsert "a" "9"); (okCalls, WDelete "b")].

Lemma recovery_exact_witness :
  let st1 := runWrites demo_ops emptyStore in
  data st1 = {[ "a" := "1" ]} /\
  exists st2, NewStoreFromDisk (wal st1) (snapshot st1) = Ok st2 /\ data st2 = data st1.
Proof.
  split; [by vm_compute|]. apply (recovery_exact emptyStore [] demo_ops emptyStore_durable).
  repeat (apply Forall_cons_2;
    [split; [by (left + right)|by apply (bool_decide_eq_true_1 (fits _)); vm_compute]|]). by constructor.
Defined.

(** A store that saves after every write, when the save fails: the write is in
    the map and in the log, and an error is returned. *)
Lemma write_outcomes_witness :
  exists st', doWrite (mkCalls IoOk false) (WUpsert "a" "1") (mkStore ∅ (Some []) (Some None) 0 1 : FileStore) = (st', Some ErrIO) /\
    data st' !! "a" = Some "1" /\ writeCount st' = 1.
Proof.
  destruct (doWrite (mkCalls IoOk false) (WUpsert "a" "1") (mkStore ∅ (Some []) (Some None) 0 1 : FileStore)) as [st' err] eqn:E.
  destruct (write_outcomes _ _ _ st' err E) as (_ & _ & Hd & _ & Hs). vm_compute in Hs. injection Hs as Hsnap Hn He.
  exists st'. split; [by rewrite He|]. split; [exact Hd|exact Hn].
Defined.

Definition demo_entries : list Entry := [mkEntry OpUpsert "a" "1"; mkEntry OpUpsert "a" "2"; mkEntry OpDelete "b" ""].

Lemma demo_entries_ok :
  Forall (fun e => fits e /\ knownOp e = true /\ Key e <> "" /\ (Op e = OpDelete -> Value e = "")) demo_entries.
Proof.
  repeat (apply Forall_cons_2; [split; [by apply (bool_decide_eq_true_1 (fits _)); vm_compute|done]|]). by constructor.
Qed.

(** The store after its commands were applied once, as its disk holds it. *)
Definition demo_store : FileStore := RunApplyLoop ((fun e => (marshalEntry e, okCalls)) <$> demo_entries) emptyStore.

Lemma demo_store_durable : durable demo_store demo_entries.
Proof. apply (applyLoop_durable demo_entries emptyStore [] emptyStore_durable demo_entries_ok). Qed.

Lemma reapply_converges_witness :
  let st' := RunApplyLoop ((fun e => (marshalEntry e, mkCalls IoOk true)) <$> demo_entries) demo_store in
  data st' = data demo_store /\ durable st' (demo_entries ++ demo_entries).
Proof. apply (reapply_converges demo_store demo_entries demo_store_durable demo_entries_ok). Defined.

(** During that re-replication the store goes back in time: a node that
    recovered the acknowledged value "2" of a key answers "1" again after the
    first resent command. *)
Theorem reapply_exposes_old_values :
  exists st2, NewStoreFromDisk (wal demo_store) (snapshot demo_store) = Ok st2 /\
    Get "a" st2 = Ok (Some "2") /\
    Get "a" (RunApplyLoop ((fun e => (marshalEntry e, okCalls)) <$> take 1 demo_entries) st2) = Ok (Some "1").
Proof. eexists. split; [vm_compute; reflexivity|]. split; by vm_compute. Qed.

(** C40. A large write makes the log unreadable: an upsert whose line is 64 KiB
    or longer is logged and applied without an error, but from then on, whatever
    is appended later, no store can be opened from that log. *)
Theorem long_entry_blocks_recovery (st : FileStore) (es : list Entry) (key value : string) (ok : bool) :
  durable st es -> key <> "" ->
  MaxScanTokenSize <= Z.of_nat (length (marshalEntry (mkEntry OpUpsert key value))) ->
  let st' := fst (Upsert (mkCalls IoOk ok) key value st) in
  data st' !! key = Some value /\
  exists w', wal st' = Some w' /\
    forall more (s : option FileSnapshot), exists e, NewStoreFromDisk (Some (w' ++ more)) s = Err e.
Proof.
  intros Hd Hk Hlong. set (e := mkEntry OpUpsert key value) in *.
  destruct Hd as (Hdata & (w & Hw & -> & Hfits) & Hs). unfold Upsert. rewrite bool_decide_eq_false_2 by done.
  fold e. unfold persistAndApplyLocked, append. rewrite Hw. cbn [walIO Append fileWAL].
  change (FileWAL_Append IoOk e (es ≫= lineOf)) with ((es ≫= lineOf) ++ lineOf e, @None StoreErr). cbv iota beta.
  set (st1 := applyLocked e _).
  assert (data (fst (saveDue ok st1)) = data st1 /\ wal (fst (saveDue ok st1)) = wal st1) as [Hdd Hww].
  { unfold saveDue. destruct (snapshot st1); [|done]. case_if; [done|]. cbn [writeCount snapshotInterval data].
    case_if; [done|]. by destruct (Save _ _ _). }
  cbv zeta. cbn [snapshotOK]. rewrite Hdd, Hww. split.
  { change (data st1 !! key) with (<[key := value]> (data st) !! key). apply lookup_insert_eq. }
  eexists. split; [done|]. intros more s. unfold NewStoreFromDisk. cbn [WAL_Load fileWAL].
  rewrite <- app_assoc, too_long_load by done.
  destruct (match s with Some s' => Snapshot_Load s' | None => Ok ∅ end) as [m|err]; cbn [rbind]; by eexists.
Qed.

Definition longValue : string := str (replicate 65536 (chr 97)).

Lemma long_entry_blocks_recovery_witness :
  let st' := fst (Upsert (mkCalls IoOk true) "k" longValue emptyStore) in
  data st' !! "k" = Some longValue /\
  exists w', wal st' = Some w' /\
    forall more (s : option FileSnapshot), exists e, NewStoreFromDisk (Some (w' ++ more)) s = Err e.
Proof.
  apply (long_entry_blocks_recovery emptyStore [] "k" longValue true emptyStore_durable); [done|].
  apply Z.leb_le. by vm_compute.
Defined.

(** The log after an append that wrote only [n] bytes (a crash, or a failed
    write). *)
Definition tornLog (n : nat) : FileWAL :=
  fst (Append (IoWriteFail n) (mkEntry OpUpsert "b" "2") (fst (Append IoOk (mkEntry OpUpsert "a" "1") ([] : FileWAL)))).

(** A torn append makes the whole log unreadable: a crash or a failed write
    after any number of bytes short of the entry's text leaves a log that
    cannot be loaded, so the earlier, acknowledged entry is lost to recovery
    too; and if the process lives on and appends again, the next entry joins the
    torn line and the log cannot be loaded either. *)
Theorem torn_append_blocks_recovery (n : nat) :
  (0 < n < length (marshalEntry (mkEntry OpUpsert "b" "2")))%nat ->
  WAL_Load (tornLog n) = Err ErrDecode /\
  WAL_Load (fst (Append IoOk (mkEntry OpUpsert "c" "3") (tornLog n))) = Err ErrDecode.
Proof.
  intros Hn. set (bad := fun n => match WAL_Load (tornLog n), WAL_Load (fst (Append IoOk (mkEntry OpUpsert "c" "3") (tornLog n))) with
    | Err ErrDecode, Err ErrDecode => true | _, _ => false end).
  assert (forallb bad (seq 1 (length (marshalEntry (mkEntry OpUpsert "b" "2")) - 1)) = true) as Hall by by vm_compute.
  rewrite forallb_forall in Hall. specialize (Hall n). rewrite in_seq in Hall. specialize (Hall ltac:(lia)).
  unfold bad in Hall. destruct (WAL_Load (tornLog n)) as [|[]]; try done.
  by destruct (WAL_Load (fst (Append IoOk (mkEntry OpUpsert "c" "3") (tornLog n)))) as [|[]].
Qed.

Lemma torn_append_blocks_recovery_witness :
  (0 < 5 < length (marshalEntry (mkEntry OpUpsert "b" "2")))%nat /\ WAL_Load (tornLog 5) = Err ErrDecode.
Proof.
  split; [split; apply Nat.ltb_lt; by vm_compute|].
  apply (torn_append_blocks_recovery 5). split; apply Nat.ltb_lt; by vm_compute.
Defined.

(** An error can be returned for a write that took effect: when the
    snapshot of the hundredth write fails, [Upsert] reports the failure although
    the value is in the map and in the log, and recovery brings it back. *)
Theorem snapshot_failure_after_apply :
  let st := mkStore ∅ (Some ([] : FileWAL)) (Some (None : FileSnapshot)) 99 DefaultSnapshotInterval in
  let '(st', err) := Upsert (mkCalls IoOk false) "k" "v" st in
  err = Some ErrIO /\ Get "k" st' = Ok (Some "v") /\
  exists st2, NewStoreFromDisk (wal st') (snapshot st') = Ok st2 /\ Get "k" st2 = Ok (Some "v").
Proof. split_and!; [by vm_compute|by vm_compute|]. eexists. split; [vm_compute; reflexivity|by vm_compute]. Qed.
