(* ===== verification/HttpApi.v ===== *)
(** * The HTTP interface of a single-node store

    [api/http.go]: the handlers of the SimpleKVS server over the store of
    [KvStore], and the path from the router of [Shard] through them.  A request
    is its method, decoded path and body; an answer is its status and payload.
    Connection handling and path cleaning are [net/http]'s; the mux's choice of
    a handler is [ServeHTTP]. *)

From Stdlib Require Import Ascii.
From S2P Require Import Prelude PyStr Shard GoJson Storage KvStore.
#[local] Open Scope Z_scope.

(** ** Requests *)

Record Request := mkRequest { Method : string; Path : string; Body : text }.

Inductive Payload := PKey (key value : string) | PError (message : string) | PStatus (status : string) | PText (text : string) | PNone.

Record Answer := mkAnswer { Status : Z; Reply : Payload }.

(** [strings.TrimPrefix] *)
Definition TrimPrefix (s p : string) : string :=
  if bool_decide (String.substring 0 (String.length p) s = p)
  then String.substring (String.length p) (String.length s - String.length p) s else s.

Definition containsSlash (s : string) : bool := bool_decide (chr 47 ∈ chars s).

(** [json.NewDecoder(body).Decode(&req)]: the first value of the body; the
    field [value], without regard to case, and nothing else matters. *)
Definition setValue (r : option string) (m : string * JVal) : option string :=
  s ← r;
  if bool_decide (lowerName m.1 = "value")
  then match m.2 with JString v => Some v | JNull => Some s | _ => None end
  else Some s.

Definition decodeUpsert (body : text) : option string :=
  '(v, _) ← pValue (S (length body)) body;
  match v with
  | JObject ms => foldl setValue (Some "") ms
  | JNull => Some ""
  | _ => None
  end.

Definition writeError (status : Z) (message : string) : Answer := mkAnswer status (PError message).

Definition storeErrorText (e : StoreErr) : string :=
  match e with
  | ErrEmptyKey => "key cannot be empty"
  | ErrUnknownOperation => "unknown operation"
  | ErrIO => "input/output error"
  | ErrDecode => "invalid JSON"
  | ErrTooLong => "bufio.Scanner: token too long"
  end.

Definition writeStoreError (e : StoreErr) : Answer :=
  match e with
  | ErrEmptyKey => writeError 400 (storeErrorText e)
  | _ => writeError 500 (storeErrorText e)
  end.

Section Server.
Context {W S : Type} `{WAL W} `{SnapshotStore S}.

Definition getKey (key : string) (st : Store W S) : Answer :=
  match Get key st with
  | Err e => writeStoreError e
  | Ok None => writeError 404 "key not found"
  | Ok (Some value) => mkAnswer 200 (PKey key value)
  end.

Definition putKey (c : Calls) (body : text) (key : string) (st : Store W S) : Store W S * Answer :=
  match decodeUpsert body with
  | None => (st, writeError 400 "invalid JSON request body")
  | Some value =>
      match Upsert c key value st with
      | (st', Some e) => (st', writeStoreError e)
      | (st', None) => (st', mkAnswer 200 (PKey key value))
      end
  end.

Definition deleteKey (c : Calls) (key : string) (st : Store W S) : Store W S * Answer :=
  match Delete c key st with
  | (st', Some e) => (st', writeStoreError e)
  | (st', None) => (st', mkAnswer 204 PNone)
  end.

Definition handleKey (c : Calls) (r : Request) (st : Store W S) : Store W S * Answer :=
  let key := TrimPrefix (Path r) "/v1/keys/" in
  if bool_decide (key = "") || containsSlash key then (st, writeError 400 "key must be a single path segment")
  else if bool_decide (Method r = "GET") then (st, getKey key st)
  else if bool_decide (Method r = "PUT") then putKey c (Body r) key st
  else if bool_decide (Method r = "DELETE") then deleteKey c key st
  else (st, writeError 405 "method not allowed").

Definition handleHealth : Answer := mkAnswer 200 (PStatus "ok").

(** [s.mux] on a clean path: the exact pattern, the subtree, and the redirection
    from the subtree's root without its slash. *)
Definition ServeHTTP (c : Calls) (r : Request) (st : Store W S) : Store W S * Answer :=
  if bool_decide (Path r = "/healthz") then (st, handleHealth)
  else if bool_decide (String.substring 0 9 (Path r) = "/v1/keys/") then handleKey c r st
  else if bool_decide (Path r = "/v1/keys") then (st, mkAnswer 301 PNone)
  else (st, mkAnswer 404 (PText "404 page not found")).
End Server.

(** ** Paths and bodies *)

Lemma length_append (a b : string) : String.length (a +:+ b) = (String.length a + String.length b)%nat.
Proof. induction a as [|c a IH]; simpl; [done|]. by rewrite IH. Qed.

Lemma substring_prefix (p s : string) : String.substring 0 (String.length p) (p +:+ s) = p.
Proof. induction p as [|c p IH]; simpl; [by destruct s|]. by rewrite IH. Qed.

Lemma substring_all (s : string) : String.substring 0 (String.length s) s = s.
Proof. induction s as [|c s IH]; simpl; [done|]. by rewrite IH. Qed.

Lemma substring_suffix (p s : string) : String.substring (String.length p) (String.length s) (p +:+ s) = s.
Proof. induction p as [|c p IH]; [apply substring_all|done]. Qed.

Lemma TrimPrefix_app p s : TrimPrefix (p +:+ s) p = s.
Proof.
  unfold TrimPrefix. rewrite bool_decide_eq_true_2 by apply substring_prefix.
  rewrite length_append. replace (String.length p + String.length s - String.length p)%nat with (String.length s) by lia.
  apply substring_suffix.
Qed.

(** The body the router sends, [json.Marshal(map[string]string{"value": v})]. *)
Definition valueBody (value : string) : text := objectText [("value", value)].

Lemma decode_valueBody value : decodeUpsert (valueBody value) = Some value.
Proof.
  pose proof (parse_objectText [("value", value)]) as Hp. unfold parse in Hp. unfold decodeUpsert, valueBody.
  destruct (pValue _ (objectText [("value", value)])) as [[v r]|]; [|done]. cbn [mbind option_bind] in *.
  case_bool_decide; [|done]. by injection Hp as ->.
Qed.

(** ** Properties *)

Section Handlers.
Context {W S : Type} `{WAL W} `{SnapshotStore S}.

Lemma Upsert_None c k v (st st' : Store W S) : Upsert c k v st = (st', None) -> data st' = <[k := v]> (data st).
Proof. unfold Upsert. case_bool_decide; [done|]. by intros Hu%persist_None. Qed.

Lemma Delete_None c k (st st' : Store W S) : KvStore.Delete c k st = (st', None) -> data st' = delete k (data st).
Proof. unfold KvStore.Delete. case_bool_decide; [done|]. by intros Hu%persist_None. Qed.

(** What a write handler must do: make the write, answer [ok] if the store took
    it, and else report the store's error, an empty key as the client's fault and
    anything else as the server's. *)
Definition answersWrite (c : Calls) (o : Write) (ok : Answer) (st st' : Store W S) (a : Answer) : Prop :=
  match doWrite c o st with
  | (st1, None) => st' = st1 /\ a = ok
  | (st1, Some ErrEmptyKey) => st' = st1 /\ a = mkAnswer 400 (PError "key cannot be empty")
  | (st1, Some e) => st' = st1 /\ a = mkAnswer 500 (PError (storeErrorText e))
  end.

(** C24. The handler on every branch.  A path that is not one segment gets 400, an
    unknown method 405, an undecodable body 400, each with its message, and none
    of these changes the store.  A GET changes nothing and answers 200 with the
    key's value, or 404.  A PUT makes the store's upsert of the decoded value and
    a DELETE its delete: the store is left as that write leaves it, the answer is
    200 with key and value, or 204, exactly when the write returned no error, and
    then the map has exactly that change; otherwise it is the error's text with 400
    or 500. *)
Theorem handleKey_spec (c : Calls) (r : Request) (st st' : Store W S) (a : Answer) :
  handleKey c r st = (st', a) ->
  let key := TrimPrefix (Path r) "/v1/keys/" in
  if bool_decide (key = "") || containsSlash key
  then st' = st /\ a = mkAnswer 400 (PError "key must be a single path segment")
  else if bool_decide (Method r = "GET") then
    st' = st /\ a = match data st !! key with
                    | Some v => mkAnswer 200 (PKey key v)
                    | None => mkAnswer 404 (PError "key not found")
                    end
  else if bool_decide (Method r = "PUT") then
    match decodeUpsert (Body r) with
    | None => st' = st /\ a = mkAnswer 400 (PError "invalid JSON request body")
    | Some v => answersWrite c (WUpsert key v) (mkAnswer 200 (PKey key v)) st st' a /\
                (Status a = 200 -> data st' = <[key := v]> (data st))
    end
  else if bool_decide (Method r = "DELETE") then
    answersWrite c (WDelete key) (mkAnswer 204 PNone) st st' a /\
    (Status a = 204 -> data st' = delete key (data st))
  else st' = st /\ a = mkAnswer 405 (PError "method not allowed").
Proof.
  intros Hh key. unfold handleKey in Hh. fold key in Hh.
  destruct (bool_decide (key = "") || containsSlash key) eqn:Hk; [by injection Hh as <- <-|]. breflect.
  case_bool_decide.
  { injection Hh as <- <-. split; [done|]. unfold getKey, KvStore.Get. rewrite bool_decide_eq_false_2 by done.
    by destruct (data st !! key). }
  case_bool_decide.
  { unfold putKey in Hh. destruct (decodeUpsert (Body r)) as [v|]; [|by injection Hh as <- <-].
    unfold answersWrite, doWrite. destruct (Upsert c key v st) as [st1 [e|]] eqn:E; injection Hh as <- <-.
    - by destruct e.
    - split; [done|]. intros _. by eapply Upsert_None. }
  case_bool_decide; [|by injection Hh as <- <-].
  unfold deleteKey in Hh. unfold answersWrite, doWrite. destruct (KvStore.Delete c key st) as [st1 [e|]] eqn:E; injection Hh as <- <-.
  - by destruct e.
  - split; [done|]. intros _. by eapply Delete_None.
Qed.
End Handlers.

(** A put that is stored, and one whose log append fails. *)
Lemma handleKey_spec_witness :
  (exists st', handleKey okCalls (mkRequest "PUT" "/v1/keys/k" (valueBody "v")) emptyStore = (st', mkAnswer 200 (PKey "k" "v")) /\
     data st' = {["k" := "v"]}) /\
  exists st', handleKey (mkCalls (IoWriteFail 0) true) (mkRequest "PUT" "/v1/keys/k" (valueBody "v")) emptyStore =
    (st', mkAnswer 500 (PError "input/output error")) /\ data st' = ∅.
Proof.
  split.
  - destruct (handleKey okCalls (mkRequest "PUT" "/v1/keys/k" (valueBody "v")) emptyStore) as [st' a] eqn:E.
    pose proof (handleKey_spec okCalls (mkRequest "PUT" "/v1/keys/k" (valueBody "v")) emptyStore st' a E) as [Ha Hd].
    vm_compute in Ha. destruct Ha as [-> ->]. by eexists.
  - destruct (handleKey (mkCalls (IoWriteFail 0) true) (mkRequest "PUT" "/v1/keys/k" (valueBody "v")) emptyStore) as [st' a] eqn:E.
    pose proof (handleKey_spec _ (mkRequest "PUT" "/v1/keys/k" (valueBody "v")) emptyStore st' a E) as [Ha Hd].
    vm_compute in Ha. destruct Ha as [-> ->]. by eexists.
Defined.

(** ** From the router to the store *)

(** The network of one SimpleKVS server at [addr]: the router's request reaches
    the handler, its answer comes back with the decoded body. *)
Definition methodOf (m : Shard.Method) : string * text :=
  match m with GET => ("GET", []) | PUT v => ("PUT", valueBody v) | DELETE => ("DELETE", []) end.

(** An answer as the router's client sees it: an error or a status is an object
    without the two fields, a text or an empty body does not decode. *)
Definition responseOf (a : Answer) : Response :=
  mkResponse (Status a)
    match Reply a with PKey _ v => Some (v, true) | PError _ | PStatus _ => Some ("", false) | PText _ | PNone => None end.

Definition simpleNet (addr : string) (st : FileStore) (m : Shard.Method) (url : string) : FileStore * option Response :=
  let '(method, body) := methodOf m in
  let '(st', a) := handleKey okCalls (mkRequest method (TrimPrefix url addr) body) st in
  (st', Some (responseOf a)).

Definition oneNode (addr : string) : Config := mkConfig 1 [mkShard 0 [addr]].

(** Keys that a URL path carries unchanged. *)
Definition unreserved (c : ascii) : bool :=
  let b := byteZ c in
  ((48 <=? b) && (b <=? 57)) || ((65 <=? b) && (b <=? 90)) || ((97 <=? b) && (b <=? 122)) ||
  (b =? 45) || (b =? 95) || (b =? 126).

Definition urlSafe (key : string) : Prop := key <> "" /\ Forall (fun c => unreserved c = true) (chars key).

Lemma urlSafe_segment key : urlSafe key -> bool_decide (key = "") || containsSlash key = false.
Proof.
  intros [Hne Hall]. rewrite bool_decide_eq_false_2 by done. unfold containsSlash. apply bool_decide_eq_false.
  intros Hin. rewrite Forall_forall in Hall. specialize (Hall _ Hin). by vm_compute in Hall.
Qed.

Lemma route_oneNode addr key : route (oneNode addr) key = Some (mkShard 0 [addr]).
Proof.
  unfold route, KeyToShard. cbn [TotalShards oneNode]. change (1 =? 0) with false. cbn [mbind option_bind].
  by rewrite Z.rem_1_r.
Qed.

(** A write to files whose calls succeed reports no error. *)
Lemma persist_ok e (st : FileStore) : knownOp e = true ->
  exists st', persistAndApplyLocked okCalls e st = (st', None).
Proof.
  intros Hop. unfold persistAndApplyLocked, append.
  assert (forall st1 : FileStore, exists st', saveDue true st1 = (st', None)) as Hs.
  { intros st1. unfold saveDue. destruct (snapshot st1); [|by eexists]. case_if; [by eexists|].
    cbn [writeCount snapshotInterval data]. case_if; [by eexists|]. by eexists. }
  destruct (wal st) as [w|]; [|apply Hs]. cbn [walIO okCalls Append fileWAL].
  unfold FileWAL_Append. rewrite Hop. apply Hs.
Qed.

Section RoundTrip.
Context (addr key value : string) (Hkey : urlSafe key).

Lemma simpleNet_get st :
  simpleNet addr st GET (keyURL addr key) =
  (st, Some match data st !! key with Some v => mkResponse 200 (Some (v, true)) | None => mkResponse 404 (Some ("", false)) end).
Proof.
  unfold simpleNet, keyURL, methodOf, handleKey. rewrite TrimPrefix_app. cbn [Path Method Body]. rewrite TrimPrefix_app.
  rewrite (urlSafe_segment key Hkey). destruct Hkey as [Hne _].
  rewrite bool_decide_eq_true_2 by done. unfold getKey, KvStore.Get. rewrite bool_decide_eq_false_2 by done.
  by destruct (data st !! key).
Qed.

Lemma router_get st :
  Shard.Get (simpleNet addr) (oneNode addr) st key =
  Some (st, Ok (match data st !! key with Some v => (v, true) | None => ("", false) end)).
Proof.
  unfold Shard.Get. rewrite route_oneNode. cbn [mbind option_bind Addrs ID getLoop]. rewrite simpleNet_get.
  by destruct (data st !! key).
Qed.

Lemma simpleNet_put st : exists st', data st' !! key = Some value /\
  simpleNet addr st (PUT value) (keyURL addr key) = (st', Some (mkResponse 200 (Some (value, true)))).
Proof.
  unfold simpleNet, keyURL, methodOf, handleKey. rewrite TrimPrefix_app. cbn [Path Method Body]. rewrite TrimPrefix_app.
  rewrite (urlSafe_segment key Hkey). destruct Hkey as [Hne _].
  change (bool_decide ("PUT" = "GET")) with false. change (bool_decide ("PUT" = "PUT")) with true. cbv iota.
  unfold putKey. rewrite decode_valueBody.
  destruct (persist_ok (mkEntry OpUpsert key value) st eq_refl) as [st' Hp].
  assert (Upsert okCalls key value st = (st', None)) as Hu by (unfold Upsert; by rewrite bool_decide_eq_false_2).
  rewrite Hu. exists st'. split; [rewrite (Upsert_None _ _ _ _ _ Hu); apply lookup_insert_eq|done].
Qed.

Lemma simpleNet_delete st : exists st', data st' !! key = None /\
  simpleNet addr st DELETE (keyURL addr key) = (st', Some (mkResponse 204 None)).
Proof.
  unfold simpleNet, keyURL, methodOf, handleKey. rewrite TrimPrefix_app. cbn [Path Method Body]. rewrite TrimPrefix_app.
  rewrite (urlSafe_segment key Hkey). destruct Hkey as [Hne _].
  change (bool_decide ("DELETE" = "GET")) with false. change (bool_decide ("DELETE" = "PUT")) with false.
  change (bool_decide ("DELETE" = "DELETE")) with true. cbv iota. unfold deleteKey.
  destruct (persist_ok (mkEntry OpDelete key "") st eq_refl) as [st' Hp].
  assert (KvStore.Delete okCalls key st = (st', None)) as Hu by (unfold KvStore.Delete; by rewrite bool_decide_eq_false_2).
  rewrite Hu. exists st'. split; [rewrite (Delete_None _ _ _ _ Hu); apply lookup_delete_eq|done].
Qed.
End RoundTrip.

(** End to end: a client's [Put] through the router to a SimpleKVS server
    whose disk works succeeds, a [Get] of that key then returns exactly the
    value put (through the escapes of the request's JSON; an ASCII value, quotes
    and control characters included), and after a [Delete] the key is not
    found. *)
Theorem router_store_roundtrip (addr key value : string) (st : FileStore) :
  urlSafe key -> asciiOnly value ->
  exists st1 st2,
    Put (simpleNet addr) (oneNode addr) st key value = Some (st1, Ok tt) /\
    Shard.Get (simpleNet addr) (oneNode addr) st1 key = Some (st1, Ok (value, true)) /\
    Shard.Delete (simpleNet addr) (oneNode addr) st1 key = Some (st2, Ok tt) /\
    Shard.Get (simpleNet addr) (oneNode addr) st2 key = Some (st2, Ok ("", false)).
Proof.
  intros Hkey _. destruct (simpleNet_put addr key value Hkey st) as (st1 & Hd1 & Hp).
  destruct (simpleNet_delete addr key Hkey st1) as (st2 & Hd2 & Hdel). exists st1, st2.
  rewrite !router_get, Hd1, Hd2 by done. unfold Put, Shard.Delete. rewrite route_oneNode.
  cbn [mbind option_bind Addrs ID tryEach]. by rewrite Hp, Hdel.
Qed.

Lemma router_store_roundtrip_witness :
  exists st1 st2,
    Put (simpleNet "http://localhost:8080") (oneNode "http://localhost:8080") emptyStore "key-7" "a/b" = Some (st1, Ok tt) /\
    Shard.Get (simpleNet "http://localhost:8080") (oneNode "http://localhost:8080") st1 "key-7" = Some (st1, Ok ("a/b", true)) /\
    Shard.Delete (simpleNet "http://localhost:8080") (oneNode "http://localhost:8080") st1 "key-7" = Some (st2, Ok tt) /\
    Shard.Get (simpleNet "http://localhost:8080") (oneNode "http://localhost:8080") st2 "key-7" = Some (st2, Ok ("", false)).
Proof.
  apply (router_store_roundtrip "http://localhost:8080" "key-7" "a/b" emptyStore).
  - split; [done|]. by repeat constructor.
  - by repeat constructor.
Defined.
