(* ===== verification/SimpleKvs.v ===== *)
(** * The single-node server as a process

    [cmd/simplekvs/main.go]: settings from the environment, opening the log and
    the snapshot, recovery, then serving.  A process is its settings, the disk it
    found and its store; it may crash after any request and be started again on
    the disk it left.  The whole life of the server, requests and crashes in any
    order, is compared with an atomic map. *)

From Stdlib Require Import Ascii.
From S2P Require Import Prelude PyStr GoJson Storage Persistence KvStore HttpApi.
#[local] Open Scope Z_scope.

(** A process: the disk it was started on and its store. *)
Abbreviation Server := (Store OpenedWAL OpenedSnapshot).
Abbreviation Process := (prod Disk Server).

(** ** Settings *)

Section Main.
Context (Getenv : string -> string) (creatable : string -> bool).

Definition getEnv (key fallback : string) : string :=
  let value := Getenv key in if bool_decide (value = "") then fallback else value.

Definition addr : string := getEnv "KVS_ADDR" ":8080".
Definition walConfig : Persistence.Config :=
  mkConfig (negb (bool_decide (getEnv "KVS_WAL_ENABLED" "true" = "false"))) (getEnv "KVS_WAL_PATH" "data/wal.log").
Definition snapshotConfig : Persistence.Config :=
  mkConfig (negb (bool_decide (getEnv "KVS_SNAPSHOT_ENABLED" "true" = "false"))) (getEnv "KVS_SNAPSHOT_PATH" "data/snapshot.json").

(** The three [log.Fatalf] of the start. *)
Inductive Fatal := FOpenWAL (e : StoreErr) | FOpenSnapshot (e : StoreErr) | FRestore (e : StoreErr).

Definition fatal {A} (f : StoreErr -> Fatal) (r : result StoreErr A) : result Fatal A :=
  match r with Ok a => Ok a | Err e => Err (f e) end.

Definition start (disk : Disk) : result Fatal Server :=
  (w <-? fatal FOpenWAL (OpenWAL creatable disk walConfig) ;;
   s <-? fatal FOpenSnapshot (OpenSnapshot creatable disk snapshotConfig) ;;
   fatal FRestore (NewStoreFromDisk (Some w) (Some s)))%result.

(** ** Life and death *)

(** What a store has left on the disk [base] it was opened on. *)
Definition leaves (base : Disk) (st : Server) : Disk :=
  let d1 := match wal st with Some (OFile p f) => <[p := f]> base | _ => base end in
  match snapshot st with
  | Some (OSnap p (Some t)) => <[p := t]> d1
  | Some (OSnap p None) => delete p d1
  | _ => d1
  end.

Inductive Event := ERequest (c : Calls) (r : Request) | ECrash.

Definition event (proc : Process) (ev : Event) : result Fatal (Process * list Answer) :=
  match ev with
  | ERequest c r => let '(st', a) := ServeHTTP c r (snd proc) in Ok ((fst proc, st'), [a])
  | ECrash =>
      let disk := leaves (fst proc) (snd proc) in
      (st <-? start disk ;; Ok ((disk, st), []))%result
  end.

Fixpoint life (proc : Process) (evs : list Event) : result Fatal (Process * list Answer) :=
  match evs with
  | [] => Ok (proc, [])
  | ev :: rest =>
      (r <-? event proc ev ;; r' <-? life (fst r) rest ;; Ok (fst r', snd r ++ snd r'))%result
  end.

(** [main], from a disk: start, then live. *)
Definition main (disk : Disk) (evs : list Event) : result Fatal (list Answer) :=
  (st <-? start disk ;; r <-? life (disk, st) evs ;; Ok (snd r))%result.
End Main.

(** The disk a store leaves has its files. *)
Lemma leaves_files base st p (f : text) q (g : option text) : wal st = Some (OFile p f) -> snapshot st = Some (OSnap q g) -> p <> q ->
  (leaves base st !! p : option text) = Some f /\ (leaves base st !! q : option text) = g.
Proof.
  intros Hw Hs Hne. unfold leaves. rewrite Hw, Hs. destruct g as [t|].
  - by rewrite lookup_insert_ne, !lookup_insert_eq by done.
  - by rewrite lookup_delete_ne, lookup_insert_eq, lookup_delete_eq by done.
Qed.

(** ** The specification: an atomic map *)

(** A write is done when its log append is, and answered so; a crash does
    nothing. *)
Definition specWrite (c : Calls) (done_ : gmap string string) (a : Answer) (m : gmap string string) : gmap string string * Answer :=
  match walIO c with IoOk => (done_, a) | _ => (m, writeError 500 (storeErrorText ErrIO)) end.

Definition specKey (c : Calls) (r : Request) (m : gmap string string) : gmap string string * Answer :=
  let key := TrimPrefix (HttpApi.Path r) "/v1/keys/" in
  if bool_decide (key = "") || containsSlash key then (m, writeError 400 "key must be a single path segment")
  else if bool_decide (Method r = "GET") then
    (m, match m !! key with Some v => mkAnswer 200 (PKey key v) | None => writeError 404 "key not found" end)
  else if bool_decide (Method r = "PUT") then
    match decodeUpsert (Body r) with
    | None => (m, writeError 400 "invalid JSON request body")
    | Some v => specWrite c (<[key := v]> m) (mkAnswer 200 (PKey key v)) m
    end
  else if bool_decide (Method r = "DELETE") then specWrite c (delete key m) (mkAnswer 204 PNone) m
  else (m, writeError 405 "method not allowed").

Definition specServe (c : Calls) (r : Request) (m : gmap string string) : gmap string string * Answer :=
  if bool_decide (HttpApi.Path r = "/healthz") then (m, handleHealth)
  else if bool_decide (String.substring 0 9 (HttpApi.Path r) = "/v1/keys/") then specKey c r m
  else if bool_decide (HttpApi.Path r = "/v1/keys") then (m, mkAnswer 301 PNone)
  else (m, mkAnswer 404 (PText "404 page not found")).

Fixpoint specLife (m : gmap string string) (evs : list Event) : list Answer :=
  match evs with
  | [] => []
  | ERequest c r :: rest => let '(m', a) := specServe c r m in a :: specLife m' rest
  | ECrash :: rest => specLife m rest
  end.

(** ** Refinement *)

(** The conditions on an event: its log append succeeds or writes nothing, a
    snapshot that is due succeeds, and a written entry is ASCII that fits a line
    of the log. *)
Definition event_ok (ev : Event) : Prop :=
  match ev with
  | ERequest c r =>
      whole c /\ snapshotOK c = true /\
      forall key, key = TrimPrefix (HttpApi.Path r) "/v1/keys/" ->
        (forall v, decodeUpsert (Body r) = Some v -> fits (mkEntry OpUpsert key v)) /\ fits (mkEntry OpDelete key "")
  | ECrash => True
  end.

Section Refinement.
Context (Getenv : string -> string) (creatable : string -> bool).
Abbreviation wp_ := (Persistence.Path (walConfig Getenv)).
Abbreviation sp_ := (Persistence.Path (snapshotConfig Getenv)).

(** The log is on; both files can be opened, and are two. *)
Hypothesis wal_on : Enabled (walConfig Getenv) = true.
Hypothesis can_open : creatable wp_ = true /\ creatable sp_ = true.
Hypothesis two_files : wp_ <> sp_.

(** The files of a store are those of the settings. *)
Definition located (st : Server) : Prop :=
  option_map walPathOf (wal st) = Some (Some wp_) /\
  option_map snapPathOf (snapshot st) = Some (if Enabled (snapshotConfig Getenv) then Some sp_ else None).

Lemma persist_located c e (st : Server) : located st -> located (fst (persistAndApplyLocked c e st)).
Proof.
  intros [Hw Hs]. unfold persistAndApplyLocked, append. destruct (wal st) as [w|] eqn:Ew; [|done].
  pose proof (Append_path (walIO c) e w) as Hp. destruct (Append (walIO c) e w) as [w' [err|]]; cbn in Hp.
  { split; cbn; [by rewrite Hp|done]. }
  unfold saveDue. cbn [applyLocked snapshot wal data writeCount snapshotInterval].
  destruct (snapshot st) as [s|] eqn:Es; [|done]. case_if; [split; cbn; [by rewrite Hp|done]|].
  case_if; [split; cbn; [by rewrite Hp|done]|]. pose proof (Save_path (snapshotOK c) (applyEntry (data st) e) s) as Hp'.
  destruct (Save _ _ s) as [s' err]. split; cbn in *; [by rewrite Hp|by rewrite Hp'].
Qed.

Definition related (st : Server) (m : gmap string string) : Prop :=
  data st = m /\ located st /\ exists es, durable st es.

Lemma write_refines c e st m : related st m -> fits e -> whole c -> snapshotOK c = true ->
  let '(st', err) := persistAndApplyLocked c e st in
  (walIO c = IoOk /\ err = None /\ related st' (applyEntry m e)) \/ (walIO c <> IoOk /\ err = Some ErrIO /\ related st' m).
Proof.
  intros (Hm & Hloc & es & Hd) He Hc Hok. pose proof (persist_exact c e st es Hd He Hc Hok) as Hp.
  pose proof (persist_located c e st Hloc) as Hl. destruct (persistAndApplyLocked c e st) as [st' err]. cbn in Hl.
  destruct Hd as (Hdata & _). destruct Hp as [(Hio & Herr & Hd')|(Hio & Herr & Hd')]; [left|right]; split_and!; try done;
    pose proof Hd' as (Hdata' & _).
  - split_and!; [|done|by eexists]. rewrite Hdata', replay_app, <- Hdata, Hm. done.
  - split_and!; [congruence|done|by eexists].
Qed.

Lemma key_refines c r st m : related st m -> event_ok (ERequest c r) ->
  exists st', handleKey c r st = (st', snd (specKey c r m)) /\ related st' (fst (specKey c r m)).
Proof.
  intros Hr (Hc & Hok & Hfits). destruct (Hfits _ eq_refl) as [Hput Hdel]. unfold handleKey, specKey.
  set (key := TrimPrefix (HttpApi.Path r) "/v1/keys/") in *.
  destruct (bool_decide (key = "") || containsSlash key) eqn:Hk; [by exists st|]. breflect.
  case_bool_decide.
  { exists st. split; [|done]. unfold getKey, Get. rewrite bool_decide_eq_false_2 by done. destruct Hr as [-> _].
    by destruct (m !! key). }
  assert (forall e done_ a, fits e -> done_ = applyEntry m e ->
    exists st', (match persistAndApplyLocked c e st with (st', Some er) => (st', writeStoreError er) | (st', None) => (st', a) end)
      = (st', snd (specWrite c done_ a m)) /\ related st' (fst (specWrite c done_ a m))) as Hw.
  { intros e done_ a He ->. pose proof (write_refines c e st m Hr He Hc Hok) as Hp. unfold specWrite.
    destruct (persistAndApplyLocked c e st) as [st' err]. exists st'.
    destruct Hp as [(-> & -> & Hr')|(Hio & -> & Hr')]; [done|]. by destruct (walIO c). }
  case_bool_decide.
  { unfold putKey. destruct (decodeUpsert (Body r)) as [v|] eqn:Ev; [|by exists st]. unfold Upsert.
    rewrite bool_decide_eq_false_2 by done.
    destruct (Hw (mkEntry OpUpsert key v) (<[key := v]> m) (mkAnswer 200 (PKey key v)) ) as (st' & He & Hr'); eauto. }
  case_bool_decide; [|by exists st]. unfold deleteKey, Delete. rewrite bool_decide_eq_false_2 by done.
  destruct (Hw (mkEntry OpDelete key "") (delete key m) (mkAnswer 204 PNone) ) as (st' & He & Hr'); eauto.
Qed.

Lemma serve_refines c r st m : related st m -> event_ok (ERequest c r) ->
  exists st', ServeHTTP c r st = (st', snd (specServe c r m)) /\ related st' (fst (specServe c r m)).
Proof.
  intros Hr Hok. unfold ServeHTTP, specServe. case_bool_decide; [by exists st|].
  case_bool_decide; [by apply key_refines|]. case_bool_decide; by exists st.
Qed.

(** A crash and a restart on the files left: the same map. *)
Lemma crash_refines base st m : related st m ->
  exists st', start Getenv creatable (leaves base st) = Ok st' /\ related st' m.
Proof.
  intros (Hm & [Hw Hs] & es & Hd). destruct (durable_restart st es Hd) as (st' & Hst & Hd' & Hw' & Hs').
  exists st'. split; [|split_and!].
  - destruct (wal st) as [[p f|]|] eqn:Ew; [|done..]. apply (inj Some), (inj Some) in Hw as ->.
    destruct (snapshot st) as [s|] eqn:Es; [|done]. destruct can_open as [Cw Cs].
    unfold start, OpenWAL. rewrite wal_on. cbn [negb]. unfold NewFileWAL. rewrite Cw. cbn [fatal rbind].
    unfold OpenSnapshot, NewFileSnapshot. rewrite Cs.
    destruct s as [p g|]; cbn [option_map snapPathOf] in Hs; destruct (Enabled (snapshotConfig Getenv)); try discriminate Hs;
      cbn [negb fatal rbind].
    + apply (inj Some), (inj Some) in Hs as ->. destruct (leaves_files base st _ _ _ _ Ew Es two_files) as [-> ->]. by rewrite Hst.
    + unfold leaves. rewrite Ew, Es, lookup_insert_eq. by rewrite Hst.
  - destruct Hd as (Hd1 & _), Hd' as (Hd2 & _). congruence.
  - split; [by rewrite Hw'|by rewrite Hs'].
  - by exists es.
Qed.

Lemma life_refines evs base st m : related st m -> Forall event_ok evs ->
  exists proc, life Getenv creatable (base, st) evs = Ok (proc, specLife m evs).
Proof.
  intros Hr Hok. revert base st m Hr. induction Hok as [|ev evs Hev _ IH]; intros base st m Hr; [by eexists|].
  destruct ev as [c r|]; cbn [life event specLife fst snd].
  - destruct (serve_refines c r st m Hr Hev) as (st' & -> & Hr'). cbn [rbind fst].
    destruct (specServe c r m) as [m' a]. destruct (IH base st' m' Hr') as [proc ->]. by eexists.
  - destruct (crash_refines base st m Hr) as (st' & -> & Hr'). cbn [rbind fst].
    destruct (IH (leaves base st) st' m Hr') as [proc ->]. by eexists.
Qed.

(** A start on a disk without the two files. *)
Lemma start_related (disk : Disk) : disk !! wp_ = None -> disk !! sp_ = None ->
  exists st, start Getenv creatable disk = Ok st /\ related st ∅.
Proof.
  intros Hw Hs. destruct can_open as [Cw Cs]. unfold start, OpenWAL, NewFileWAL. rewrite wal_on, Cw, Hw. cbn [negb fatal rbind].
  unfold OpenSnapshot, NewFileSnapshot. rewrite Cs, Hs.
  destruct (Enabled (snapshotConfig Getenv)) eqn:En; cbn [negb fatal rbind]; eexists; (split; [done|]).
  all: split_and!; [done|split; cbn [wal snapshot option_map walPathOf snapPathOf foldl]; by rewrite ?En|].
  all: exists []; split_and!; [done|eexists; split; [done|by split]|].
  all: intros s [= <-]; exists []; done.
Qed.
End Refinement.

(** C11. The single-node server is an atomic, durable map: with its log on, on a
    disk without its files, for any sequence of requests and crashes (each crash
    followed by a restart with the same settings on the files left), the server
    always starts again and answers every request exactly as a map in memory that
    never crashes would: a write whose log append succeeded is answered as done
    and seen by every later read, one whose append failed is answered 500 and
    never seen.  Assumed of the disk: appends succeed or write nothing, due
    snapshots succeed; of the entries: ASCII that fits a line of the log. *)
Theorem simplekvs_refines_map (Getenv : string -> string) (creatable : string -> bool) (disk : Disk) (evs : list Event) :
  let wp := Persistence.Path (walConfig Getenv) in let sp := Persistence.Path (snapshotConfig Getenv) in
  Enabled (walConfig Getenv) = true -> creatable wp = true /\ creatable sp = true -> wp <> sp ->
  disk !! wp = None -> disk !! sp = None -> Forall event_ok evs ->
  main Getenv creatable disk evs = Ok (specLife ∅ evs).
Proof.
  intros wp sp Hon Hcan Htwo Hw Hs Hok.
  destruct (start_related Getenv creatable Hon Hcan disk Hw Hs) as (st & Hst & Hr).
  destruct (life_refines Getenv creatable Hon Hcan Htwo evs disk st ∅ Hr Hok) as (proc & Hl).
  unfold main. rewrite Hst. cbn [rbind]. by rewrite Hl.
Qed.

Definition demo_event (method key : string) (body : text) : Event :=
  ERequest okCalls (mkRequest method ("/v1/keys/" +:+ key) body).
Definition demo_events : list Event :=
  [demo_event "PUT" "k" (valueBody "1"); ECrash; demo_event "GET" "k" [];
   ERequest (mkCalls (IoWriteFail 0) true) (mkRequest "PUT" "/v1/keys/k" (valueBody "2")); ECrash; ECrash;
   demo_event "GET" "k" []; demo_event "DELETE" "k" []; ECrash; demo_event "GET" "k" []].

Lemma fits_unpack e : bool_decide (fits e) = true -> fits e.
Proof. apply bool_decide_eq_true_1. Qed.

Lemma demo_events_ok : Forall event_ok demo_events.
Proof.
  repeat (constructor; [first [exact I|split_and!; [first [by left|by right]|done|]; intros key ->; split;
    [intros v [= <-]; apply fits_unpack; by vm_compute|apply fits_unpack; by vm_compute]]|]). constructor.
Qed.

Lemma simplekvs_refines_map_witness :
  main (fun _ => "") (fun _ => true) ∅ demo_events =
  Ok [mkAnswer 200 (PKey "k" "1"); mkAnswer 200 (PKey "k" "1"); mkAnswer 500 (PError "input/output error");
      mkAnswer 200 (PKey "k" "1"); mkAnswer 204 PNone; mkAnswer 404 (PError "key not found")].
Proof.
  rewrite (simplekvs_refines_map (fun _ => "") (fun _ => true) ∅ demo_events eq_refl (conj eq_refl eq_refl)
    ltac:(done) ltac:(done) ltac:(done) demo_events_ok).
  by vm_compute.
Defined.

(** ** Without the log *)

(** With [KVS_WAL_ENABLED=false] a write is acknowledged and then lost in a
    crash: nothing is on the disk before the hundredth write. *)
Theorem no_wal_loses_writes :
  main (fun k => if bool_decide (k = "KVS_WAL_ENABLED") then "false" else "") (fun _ => true) ∅
    [demo_event "PUT" "k" (valueBody "1"); demo_event "GET" "k" []; ECrash; demo_event "GET" "k" []] =
  Ok [mkAnswer 200 (PKey "k" "1"); mkAnswer 200 (PKey "k" "1"); mkAnswer 404 (PError "key not found")].
Proof. by vm_compute. Qed.
