(* ===== verification/ShardedKvs.v ===== *)
(** * A sharded store of single-node servers, from the command line

    The client of [ClientMain.v] against servers of [SimpleKvs.v], one for each
    shard, each a process with a disk of its own that may crash and restart
    between requests.  The composition of all parts, from the command line through
    routing, HTTP, the store and its files, is compared with one map. *)

From Stdlib Require Import Ascii.
From S2P Require Import Prelude PyStr Shard ClientMain GoJson Storage Persistence KvStore HttpApi SimpleKvs.
#[local] Open Scope Z_scope.

(** ** The network *)

(** The host of a URL after its scheme, and its path. *)
Fixpoint untilSlash (t : text) : text * text :=
  match t with
  | [] => ([], [])
  | c :: t' => if bool_decide (c = chr 47) then ([], t) else let '(a, b) := untilSlash t' in (c :: a, b)
  end.

Definition splitURL (url : string) : string * string :=
  let '(host, path) := untilSlash (chars (TrimPrefix url "http://")) in ("http://" +:+ str host, str path).

Abbreviation Net := (gmap string Process).

(** A request reaches the server at its address, if one runs there. *)
Definition send (net : Net) (m : Shard.Method) (url : string) : Net * option Response :=
  let '(base, path) := splitURL url in
  match net !! base with
  | None => (net, None)
  | Some proc =>
      let '(method, body) := methodOf m in
      let '(st', a) := ServeHTTP okCalls (mkRequest method path body) (snd proc) in
      (<[base := (fst proc, st')]> net, Some (responseOf a))
  end.

(** ** Commands and crashes *)

Inductive Command := CGet (key : string) | CPut (key value : string) | CDel (key : string).

Definition argsOf (c : Command) : list string :=
  match c with CGet k => ["get"; k] | CPut k v => ["put"; k; v] | CDel k => ["del"; k] end.

Inductive SysEvent := SCommand (c : Command) | SCrash (addr : string).

Section System.
Context (Getenv : string -> string) (creatable : string -> bool) (env : Env) (decode : string).

Definition sysStep (net : Net) (ev : SysEvent) : result Fatal (Net * list Exit) :=
  match ev with
  | SCommand c => let '(net', e) := ClientMain.main send decode env (argsOf c) net in Ok (net', [e])
  | SCrash addr =>
      match net !! addr with
      | None => Ok (net, [])
      | Some proc => (r <-? event Getenv creatable proc ECrash ;; Ok (<[addr := fst r]> net, []))%result
      end
  end.

Fixpoint sysRun (net : Net) (evs : list SysEvent) : result Fatal (Net * list Exit) :=
  match evs with
  | [] => Ok (net, [])
  | ev :: rest =>
      (r <-? sysStep net ev ;; r' <-? sysRun (fst r) rest ;; Ok (fst r', snd r ++ snd r'))%result
  end.

(** Servers started at the addresses, each on an empty disk. *)
Fixpoint startAll (addrs : list string) : result Fatal Net :=
  match addrs with
  | [] => Ok ∅
  | a :: rest => (st <-? start Getenv creatable ∅ ;; net <-? startAll rest ;; Ok (<[a := (∅, st)]> net))%result
  end.
End System.

(** ** One map *)

Definition shardLine (cfg : Shard.Config) (key text : string) : Exit :=
  match ShardFor cfg key with Some id => ok (text +:+ "  (shard " +:+ pretty id +:+ ")") | None => Panicked end.

Definition specCommand (cfg : Shard.Config) (c : Command) (m : gmap string string) : gmap string string * Exit :=
  match c with
  | CGet k => (m, match m !! k with
                  | Some v => shardLine cfg k (k +:+ " = " +:+ v)
                  | None => Exited ("key " +:+ Quote k +:+ " not found" +:+ ClientMain.nl) "" 1
                  end)
  | CPut k v => (<[k := v]> m, shardLine cfg k "ok")
  | CDel k => (delete k m, shardLine cfg k "deleted")
  end.

Fixpoint specRun (cfg : Shard.Config) (m : gmap string string) (evs : list SysEvent) : list Exit :=
  match evs with
  | [] => []
  | SCommand c :: rest => let '(m', e) := specCommand cfg c m in e :: specRun cfg m' rest
  | SCrash _ :: rest => specRun cfg m rest
  end.

(** Keys that URLs carry, and entries that fit a line of the log. *)
Definition command_ok (c : Command) : Prop :=
  match c with
  | CGet k | CDel k => urlSafe k /\ fits (mkEntry OpUpsert k "") /\ fits (mkEntry OpDelete k "")
  | CPut k v => urlSafe k /\ fits (mkEntry OpUpsert k v) /\ fits (mkEntry OpDelete k "")
  end.

#[export] Instance command_ok_dec c : Decision (command_ok c).
Proof. unfold command_ok, urlSafe. destruct c; apply _. Defined.

Definition sysEvent_ok (addrs : list string) (ev : SysEvent) : Prop :=
  match ev with SCommand c => command_ok c | SCrash addr => addr ∈ addrs end.

(** ** URLs *)

Lemma untilSlash_app h p : chr 47 ∉ h -> untilSlash (h ++ chr 47 :: p) = (h, chr 47 :: p).
Proof.
  induction h as [|c h IH]; intros Hn; cbn [app untilSlash]; [by rewrite bool_decide_eq_true_2|].
  apply not_elem_of_cons in Hn as [Hc Hn]. rewrite bool_decide_eq_false_2 by congruence. by rewrite IH.
Qed.

(** An address [http://host:port]. *)
Definition address (a : string) : Prop := exists h, a = "http://" +:+ str h /\ chr 47 ∉ h.

Lemma splitURL_key a key : address a -> splitURL (keyURL a key) = (a, "/v1/keys/" +:+ key).
Proof.
  intros (h & -> & Hh). unfold splitURL, keyURL.
  change (("http://" +:+ str h) +:+ "/v1/keys/" +:+ key) with ("http://" +:+ (str h +:+ "/v1/keys/" +:+ key)).
  rewrite TrimPrefix_app, chars_append, chars_str. change (chars ("/v1/keys/" +:+ key)) with (chr 47 :: chars ("v1/keys/" +:+ key)).
  rewrite untilSlash_app by done. f_equal.
  change (str (chr 47 :: chars ("v1/keys/" +:+ key))) with (String (chr 47) (str (chars ("v1/keys/" +:+ key)))). by rewrite str_chars.
Qed.

(** ** What the specification of a server says about a key *)

Lemma keys_path key : bool_decide ("/v1/keys/" +:+ key = "/healthz") = false /\
  bool_decide (String.substring 0 9 ("/v1/keys/" +:+ key) = "/v1/keys/") = true.
Proof.
  split; [by apply bool_decide_eq_false_2|]. apply bool_decide_eq_true_2. cbn. by destruct key.
Qed.

Section Key.
Context (key : string) (Hkey : urlSafe key).

Lemma specServe_key c method body m :
  specServe c (mkRequest method ("/v1/keys/" +:+ key) body) m = specKey c (mkRequest method ("/v1/keys/" +:+ key) body) m.
Proof. unfold specServe. cbn [HttpApi.Path]. by destruct (keys_path key) as [-> ->]. Qed.

Lemma spec_get m :
  specServe okCalls (mkRequest "GET" ("/v1/keys/" +:+ key) []) m =
  (m, match m !! key with Some v => mkAnswer 200 (PKey key v) | None => writeError 404 "key not found" end).
Proof. rewrite specServe_key. unfold specKey. cbn [HttpApi.Path Method]. by rewrite TrimPrefix_app, urlSafe_segment. Qed.

Lemma spec_put v m :
  specServe okCalls (mkRequest "PUT" ("/v1/keys/" +:+ key) (valueBody v)) m = (<[key := v]> m, mkAnswer 200 (PKey key v)).
Proof.
  rewrite specServe_key. unfold specKey. cbn [HttpApi.Path Method Body]. rewrite TrimPrefix_app, urlSafe_segment by done.
  change (bool_decide ("PUT" = "GET")) with false. change (bool_decide ("PUT" = "PUT")) with true. cbv iota.
  by rewrite decode_valueBody.
Qed.

Lemma spec_delete m :
  specServe okCalls (mkRequest "DELETE" ("/v1/keys/" +:+ key) []) m = (delete key m, mkAnswer 204 PNone).
Proof.
  rewrite specServe_key. unfold specKey. cbn [HttpApi.Path Method]. by rewrite TrimPrefix_app, urlSafe_segment.
Qed.
End Key.

(** ** Refinement *)

Section Refinement.
Context (Getenv : string -> string) (creatable : string -> bool) (env : Env) (cfg : Shard.Config) (decode : string).
Hypothesis wal_on : Enabled (walConfig Getenv) = true.
Hypothesis can_open : creatable (Persistence.Path (walConfig Getenv)) = true /\ creatable (Persistence.Path (snapshotConfig Getenv)) = true.
Hypothesis two_files : Persistence.Path (walConfig Getenv) <> Persistence.Path (snapshotConfig Getenv).

(** The client's environment names one server for each shard, each its own. *)
Hypothesis Hload : LoadFromEnv env = Ok cfg.
Context (addrs : list string).
Hypothesis Hshards : Addrs <$> Shards cfg = (fun a => [a]) <$> addrs.
Hypothesis Haddrs : Forall address addrs /\ NoDup addrs.

(** The address that owns a key. *)
Definition owner (key a : string) : Prop := exists s, route cfg key = Some s /\ Addrs s = [a].

Lemma route_owner key : exists id s a, ShardFor cfg key = Some id /\ route cfg key = Some s /\ ID s = id /\ Addrs s = [a] /\
  a ∈ addrs /\ address a.
Proof.
  pose proof (LoadFromEnv_ok _ _ Hload) as Hok. destruct (route_config_ok _ _ key Hok) as (id & s & Hk & Hr & Hid & _).
  exists id, s. pose proof Hr as Hr'. unfold route in Hr'. rewrite Hk in Hr'. cbn [mbind option_bind] in Hr'.
  destruct (id <? 0); [done|]. pose proof (f_equal (fun l => l !! Z.to_nat id) Hshards) as Hl. rewrite !list_lookup_fmap, Hr' in Hl.
  destruct (addrs !! Z.to_nat id) as [a|] eqn:Ea; [|done]. injection Hl as Hl. apply list_elem_of_lookup_2 in Ea.
  exists a. split_and!; [done|done|done|done|done|]. destruct Haddrs as [Hall _]. by eapply Forall_forall.
Qed.

(** Each server holds the keys it owns. *)
Definition holds (net : Net) (m : gmap string string) : Prop :=
  forall a, a ∈ addrs -> exists proc mi, net !! a = Some proc /\ related Getenv (snd proc) mi /\
    forall key, owner key a -> mi !! key = m !! key.

Lemma owner_unique key a b : owner key a -> owner key b -> a = b.
Proof. intros (s & Hs & Ha) (s' & Hs' & Hb). congruence. Qed.

(** A request about a key to its owner: answered by the specification of a
    server whose map agrees on the key; the network holds the new map. *)
Lemma send_owner net m key a method (f : gmap string string -> gmap string string) ans :
  holds net m -> owner key a -> a ∈ addrs -> address a ->
  event_ok (ERequest okCalls (mkRequest (fst (methodOf method)) ("/v1/keys/" +:+ key) (snd (methodOf method)))) ->
  (forall mi, mi !! key = m !! key ->
    specServe okCalls (mkRequest (fst (methodOf method)) ("/v1/keys/" +:+ key) (snd (methodOf method))) mi = (f mi, ans)) ->
  (forall mi k, mi !! k = m !! k -> f mi !! k = f m !! k) -> (forall mi k, k <> key -> f mi !! k = mi !! k) ->
  exists net', send net method (keyURL a key) = (net', Some (responseOf ans)) /\ holds net' (f m).
Proof.
  intros Hh Ho Ha Haddr Hev Hspec Hf Hframe. destruct (Hh a Ha) as (proc & mi & Hn & Hr & Hag).
  destruct (serve_refines Getenv okCalls _ (snd proc) mi Hr Hev) as (st' & Hserve & Hr').
  unfold send. rewrite splitURL_key by done. rewrite Hn. destruct (methodOf method) as [meth b]. cbn [fst snd] in *.
  rewrite (Hspec mi) in Hserve, Hr' by by apply Hag. cbn [fst snd] in *. rewrite Hserve. eexists. split; [done|].
  intros c Hc. destruct (decide (c = a)) as [->|Hne].
  - exists (fst proc, st'), (f mi). rewrite lookup_insert_eq. split_and!; [done|done|].
    intros k Hk. apply Hf. by apply Hag.
  - destruct (Hh c Hc) as (proc' & mi' & Hn' & Hr2 & Hag'). exists proc', mi'. rewrite lookup_insert_ne by done.
    split_and!; [done|done|]. intros k Hk. rewrite Hframe; [by apply Hag'|].
    intros ->. apply Hne. by eapply owner_unique.
Qed.

Lemma request_ok method key body v : urlSafe key -> fits (mkEntry OpUpsert key v) -> fits (mkEntry OpDelete key "") ->
  (decodeUpsert body = None \/ decodeUpsert body = Some v) ->
  event_ok (ERequest okCalls (mkRequest method ("/v1/keys/" +:+ key) body)).
Proof.
  intros Hk Hu Hd Hb. split_and!; [by left|done|]. cbn [HttpApi.Path Body]. intros k ->. rewrite TrimPrefix_app.
  split; [|done]. intros v' Hv. destruct Hb as [Hb|Hb]; rewrite Hb in Hv; [done|]. by injection Hv as <-.
Qed.

Lemma command_refines net m c : holds net m -> command_ok c ->
  exists net', ClientMain.main send decode env (argsOf c) net = (net', snd (specCommand cfg c m)) /\
    holds net' (fst (specCommand cfg c m)).
Proof.
  intros Hh Hok. unfold ClientMain.main, argsOf.
  destruct c as [k|k v|k]; cbn [argsOf]; rewrite Hload; destruct Hok as (Hk & Hu & Hd);
    destruct (route_owner k) as (i & s & a & Hid & Hr & _ & Ha & Hin & Haddr);
    assert (owner k a) as Ho by (by exists s).
  - destruct (send_owner net m k a GET id (match m !! k with Some v => mkAnswer 200 (PKey k v) | None => writeError 404 "key not found" end))
      as (net' & Hsend & Hh'); try done.
    { by apply (request_ok _ _ _ ""); [..|left]. }
    { intros mi Hmi. cbn [methodOf fst snd]. rewrite spec_get by done. by rewrite Hmi. }
    rewrite bool_decide_eq_true_2 by done. unfold getCmd, Shard.Get. rewrite Hr. cbn [mbind option_bind]. rewrite Ha.
    cbn [getLoop]. rewrite Hsend. exists net'. split; [|done]. cbn [specCommand snd]. by destruct (m !! k).
  - destruct (send_owner net m k a (PUT v) (insert k v) (mkAnswer 200 (PKey k v))) as (net' & Hsend & Hh'); try done.
    { apply (request_ok _ _ _ v); [done..|right]. apply decode_valueBody. }
    { intros mi _. by apply spec_put. }
    { intros mi k' Hmi. destruct (decide (k' = k)) as [->|]; [by rewrite !lookup_insert_eq|by rewrite !lookup_insert_ne]. }
    { intros mi k' Hne. by rewrite lookup_insert_ne. }
    change (bool_decide ("put" = "get")) with false. change (bool_decide ("put" = "put")) with true. cbv iota.
    unfold putCmd, Put. rewrite Hr. cbn [mbind option_bind]. rewrite Ha. cbn [tryEach]. rewrite Hsend. by exists net'.
  - destruct (send_owner net m k a DELETE (delete k) (mkAnswer 204 PNone)) as (net' & Hsend & Hh'); try done.
    { by apply (request_ok _ _ _ ""); [..|left]. }
    { intros mi _. by apply spec_delete. }
    { intros mi k' Hmi. destruct (decide (k' = k)) as [->|]; [by rewrite !lookup_delete_eq|by rewrite !lookup_delete_ne]. }
    { intros mi k' Hne. by rewrite lookup_delete_ne. }
    change (bool_decide ("del" = "get")) with false. change (bool_decide ("del" = "put")) with false.
    change (bool_decide ("del" = "del")) with true. cbv iota.
    unfold delCmd, Shard.Delete. rewrite Hr. cbn [mbind option_bind]. rewrite Ha. cbn [tryEach]. rewrite Hsend. by exists net'.
Qed.

Lemma crash_holds net m addr proc : holds net m -> net !! addr = Some proc -> addr ∈ addrs ->
  exists r, event Getenv creatable proc ECrash = Ok r /\ holds (<[addr := fst r]> net) m.
Proof.
  intros Hh Hn Hin. destruct (Hh addr Hin) as (proc' & mi & Hn' & Hr & Hag). rewrite Hn in Hn'. injection Hn' as <-.
  destruct (crash_refines Getenv creatable wal_on can_open two_files (fst proc) (snd proc) mi Hr) as (st' & Hst & Hr').
  cbn [event]. rewrite Hst. cbn [rbind]. eexists. split; [done|]. intros c Hc. cbn [fst].
  destruct (decide (c = addr)) as [->|Hne].
  - eexists _, mi. by rewrite lookup_insert_eq.
  - rewrite lookup_insert_ne by done. by apply Hh.
Qed.

Lemma sysRun_refines evs net m : holds net m -> Forall (sysEvent_ok addrs) evs ->
  exists net', sysRun Getenv creatable env decode net evs = Ok (net', specRun cfg m evs).
Proof.
  intros Hh Hok. revert net m Hh. induction Hok as [|ev evs Hev _ IH]; intros net m Hh; [by eexists|].
  destruct ev as [c|addr]; cbn [sysRun sysStep specRun].
  - destruct (command_refines net m c Hh Hev) as (net' & -> & Hh'). cbn [rbind fst].
    destruct (specCommand cfg c m) as [m' e]. destruct (IH net' m' Hh') as [net2 ->]. by eexists.
  - destruct (Hh addr Hev) as (proc & mi & Hn & _). rewrite Hn.
    destruct (crash_holds net m addr proc Hh Hn Hev) as (r & -> & Hh'). cbn [rbind fst].
    destruct (IH _ m Hh') as [net2 ->]. by eexists.
Qed.

Lemma startAll_related l : exists net, startAll Getenv creatable l = Ok net /\
  forall a, a ∈ l -> exists proc, net !! a = Some proc /\ related Getenv (snd proc) ∅.
Proof.
  induction l as [|a l (net & Hnet & Hall)]; [exists ∅; split; [done|by intros a Ha%elem_of_nil]|]. cbn [startAll].
  destruct (start_related Getenv creatable wal_on can_open ∅) as (st & -> & Hr); [done|done|]. cbn [rbind]. rewrite Hnet. cbn [rbind].
  eexists. split; [done|]. intros b Hb. destruct (decide (b = a)) as [->|Hne].
  - eexists. by rewrite lookup_insert_eq.
  - rewrite lookup_insert_ne by done. apply Hall. by apply elem_of_cons in Hb as [Hb|Hb].
Qed.
End Refinement.

(** C10. The sharded store from the command line is one map: servers started on
    empty disks, one for each shard of the client's environment, receive the
    requests of any sequence of [client get], [put] and [del] commands, while
    any server may crash and restart on its own disk between any two of them.
    Every command ends, and prints and returns exactly what it would against a
    single map that never crashes, with the shard the key hashes to: through the
    environment, the hash, the URLs, the JSON bodies, the handlers, the log and
    recovery. *)
Theorem sharded_store_refines_map (Getenv : string -> string) (creatable : string -> bool) (env : Env) (cfg : Shard.Config)
    (decode : string) (addrs : list string) (evs : list SysEvent) :
  let wp := Persistence.Path (walConfig Getenv) in let sp := Persistence.Path (snapshotConfig Getenv) in
  Enabled (walConfig Getenv) = true -> creatable wp = true /\ creatable sp = true -> wp <> sp ->
  LoadFromEnv env = Ok cfg -> Addrs <$> Shards cfg = (fun a => [a]) <$> addrs -> Forall address addrs /\ NoDup addrs ->
  Forall (sysEvent_ok addrs) evs ->
  exists net net', startAll Getenv creatable addrs = Ok net /\
    sysRun Getenv creatable env decode net evs = Ok (net', specRun cfg ∅ evs).
Proof.
  intros wp sp Hon Hcan Htwo Hload Hsh Haddrs Hok. destruct (startAll_related Getenv creatable Hon Hcan addrs) as (net & Hnet & Hall).
  destruct (sysRun_refines Getenv creatable env cfg decode Hon Hcan Htwo Hload addrs Hsh Haddrs evs net ∅) as [net' Hrun]; [|done|by exists net, net'].
  intros a Ha. destruct (Hall a Ha) as (proc & Hp & Hr). by exists proc, ∅.
Qed.

(** Two shards; the keys ["a"] and ["b"] live on different ones. *)
Definition demo_env : Env :=
  {[ "CLIENT_SHARDS_TOTAL" := "2"; "CLIENT_SHARD_0_ADDRS" := "http://s0:8080"; "CLIENT_SHARD_1_ADDRS" := " http://s1:8080," ]}.
Definition demo_addrs : list string := ["http://s0:8080"; "http://s1:8080"].
Definition demo_cfg : Shard.Config := Shard.mkConfig 2 [mkShard 0 ["http://s0:8080"]; mkShard 1 ["http://s1:8080"]].
Definition demo_sys : list SysEvent :=
  [SCommand (CPut "a" "1"); SCommand (CPut "b" "2"); SCrash "http://s0:8080"; SCrash "http://s1:8080";
   SCommand (CGet "a"); SCommand (CDel "b"); SCrash "http://s0:8080"; SCommand (CGet "b"); SCommand (CGet "a")].

Lemma demo_address h : forall Hh : bool_decide (chr 47 ∉ chars h) = true, address ("http://" +:+ h).
Proof. intros Hh. exists (chars h). rewrite str_chars. split; [done|]. exact (bool_decide_eq_true_1 _ Hh). Qed.

Lemma demo_sys_ok : Forall (sysEvent_ok demo_addrs) demo_sys.
Proof.
  repeat (constructor; [first [apply (bool_decide_eq_true_1 (command_ok _)); by vm_compute|unfold sysEvent_ok, demo_addrs; set_solver]|]). constructor.
Qed.

Lemma sharded_store_refines_map_witness :
  exists net net', startAll (fun _ => "") (fun _ => true) demo_addrs = Ok net /\
    sysRun (fun _ => "") (fun _ => true) demo_env "" net demo_sys =
    Ok (net', [ok "ok  (shard 0)"; ok "ok  (shard 1)"; ok "a = 1  (shard 0)"; ok "deleted  (shard 1)";
               Exited ("key " +:+ Quote "b" +:+ " not found" +:+ ClientMain.nl) "" 1; ok "a = 1  (shard 0)"]).
Proof.
  assert (address "http://s0:8080" /\ address "http://s1:8080") as [A0 A1].
  { split; [apply (demo_address "s0:8080")|apply (demo_address "s1:8080")]; by vm_compute. }
  destruct (sharded_store_refines_map (fun _ => "") (fun _ => true) demo_env demo_cfg "" demo_addrs demo_sys)
    as (net & net' & Hn & Hr); [done|done|done|by vm_compute|done| |exact demo_sys_ok|].
  - split; [by repeat constructor|]. apply (bool_decide_unpack _). by vm_compute.
  - exists net, net'. split; [exact Hn|]. rewrite Hr. by vm_compute.
Defined.
