(* ===== verification/NodeApi.v ===== *)
(** * The HTTP interface of a Raft node

    The handlers of [rpc/server.go] that clients use: [/status] and [/metrics],
    which the measurement scripts poll, and the key handlers, which put a
    command into the Raft log and read the store the apply loop fills.  A write
    handler stops where it calls [Replicate]: its model is that call with the
    continuation on its result.  Each read of the node's state is a separate
    atomic load or critical section, so a handler takes the node as it is at
    each of its reads.  [ShouldBindJSON] belongs to gin and is a parameter. *)

From Stdlib Require Import Ascii.
From S2P Require Import Prelude RaftNode RaftCluster RaftElection RaftTraces RaftLogMatching GoJson Storage KvStore HttpApi PyStr PyWorld Infra GeoExperiment Failover.
#[local] Open Scope Z_scope.

(** ** Status and metrics *)

(** The node at each of the five reads, in the order the literal makes them. *)
Definition handleStatus (nId nState nLead nHint nTerm : Node) : HttpResp :=
  mkHttpResp 200 (Some (JObj
    [("nodeID", JStr (id nId));
     ("state", JStr (NodeState_String (state nState)));
     ("isLeader", JBool (IsLeader nLead));
     ("leaderID", JStr (LeaderID nHint));
     ("term", JInt (currentTerm nTerm))])).

Definition handleMetrics (nMetrics nId nState nTerm : Node) : HttpResp :=
  let m := Metrics nMetrics in
  mkHttpResp 200 (Some (JObj
    [("nodeID", JStr (id nId));
     ("state", JStr (NodeState_String (state nState)));
     ("term", JInt (currentTerm nTerm));
     ("electionsStarted", JInt (ElectionsStarted m));
     ("votesGranted", JInt (VotesGranted m));
     ("heartbeatsSent", JInt (HeartbeatsSent m));
     ("heartbeatsRecvd", JInt (HeartbeatsRecvd m));
     ("currentLeaderID", JStr (CurrentLeaderID m))])).

(** ** Keys *)

Definition errorResp (status : Z) (message : string) : HttpResp :=
  mkHttpResp status (Some (JObj [("error", JStr message)])).

Definition notLeaderResp (nHint : Node) : HttpResp :=
  mkHttpResp 503 (Some (JObj [("error", JStr "not the leader"); ("leaderID", JStr (LeaderID nHint))])).

(** [err.Error()] of [Replicate]'s errors *)
Definition replicateErrorText (e : ReplicateError) : string :=
  match e with
  | ErrNotLeader (Some hint) => "not the leader: try " +:+ hint
  | ErrNotLeader None => "not the leader"
  | ErrReplicationTimeout => "replication timed out: no majority"
  end.

(** A request answered at once, or a call of [Replicate] and what is answered
    when it returns. *)
Inductive Handling :=
| Answered (a : HttpResp)
| Replicating (cmd : string) (k : option ReplicateError -> HttpResp).

(** The common end of the write handlers; [json.Marshal] of a struct of three
    strings does not fail. *)
Definition submit (e : Entry) (ok : HttpResp) : Handling :=
  Replicating (str (marshalEntry e))
    (fun r => match r with Some err => errorResp 503 (replicateErrorText err) | None => ok end).

Section Keys.
Context (ShouldBindJSON : text -> option string).

Definition handlePut (nLead nHint : Node) (key : string) (body : text) : Handling :=
  if negb (IsLeader nLead) then Answered (notLeaderResp nHint)
  else match ShouldBindJSON body with
       | None => Answered (errorResp 400 "invalid request body")
       | Some value =>
           submit (Storage.mkEntry OpUpsert key value)
             (mkHttpResp 200 (Some (JObj [("key", JStr key); ("value", JStr value)])))
       end.

Definition handleDelete (nLead nHint : Node) (key : string) : Handling :=
  if negb (IsLeader nLead) then Answered (notLeaderResp nHint)
  else submit (Storage.mkEntry OpDelete key "") (mkHttpResp 204 None).
End Keys.

Section Reads.
Context {W S : Type} `{WAL W} `{SnapshotStore S}.

Definition handleGet (key : string) (st : Store W S) : HttpResp :=
  match KvStore.Get key st with
  | Err e => errorResp 400 (storeErrorText e)
  | Ok None => errorResp 404 "key not found"
  | Ok (Some value) =>
      mkHttpResp 200 (Some (JObj [("key", JStr key); ("value", JStr value); ("found", JBool true)]))
  end.
End Reads.

(** ** What a client of [/status] and [/metrics] can rely on *)

(** The scripts' test of leadership sees the flag, their reading of the term the
    term, and no key they subscript is missing. *)
Lemma status_contract n1 n2 n3 n4 n5 :
  let s := http_json (handleStatus n1 n2 n3 n4 n5) in
  saysLeader s = Ok (IsLeader n3) /\ termOf s = Some (JInt (currentTerm n5)) /\
  Forall (fun k => exists v, subscript s k = Ok v) ["nodeID"; "state"; "isLeader"; "leaderID"; "term"].
Proof.
  split_and!; [by cbn; destruct (IsLeader n3)|done|]. repeat (apply Forall_cons_2; [by eexists|]). constructor.
Qed.

Lemma metrics_contract n1 n2 n3 n4 :
  Forall (fun k => exists v, subscript (http_json (handleMetrics n1 n2 n3 n4)) k = Ok v) Infra.metricNames.*2.
Proof. repeat (apply Forall_cons_2; [by eexists|]). constructor. Qed.

(** ** Polling a running cluster

    A run is the sequence of the cluster's states.  An answer is composed of five
    reads of one node, at moments between the request and the answer, in order;
    the cluster may take any number of steps between them. *)

Definition nodeAt (run : nat -> Cluster) (i : string) (k : nat) : option Node := node <$> RaftCluster.nodes (run k) !! i.

Definition polled (run : nat -> Cluster) (i : string) (from to : nat) (answer : option Json) : Prop :=
  exists k1 k2 k3 k4 k5 n1 n2 n3 n4 n5,
    (from <= k1 /\ k1 <= k2 /\ k2 <= k3 /\ k3 <= k4 /\ k4 <= k5 /\ k5 <= to)%nat /\
    nodeAt run i k1 = Some n1 /\ nodeAt run i k2 = Some n2 /\ nodeAt run i k3 = Some n3 /\
    nodeAt run i k4 = Some n4 /\ nodeAt run i k5 = Some n5 /\
    answer = http_json (handleStatus n1 n2 n3 n4 n5).

Section Run.
Context (ids : list string) (ch : option (list string)) (run : nat -> Cluster) (K : nat).
Context (Hnd : NoDup ids) (Hne : "" ∉ ids) (Hinit : run 0%nat = NewCluster ids ch).
Context (Hsteps : forall k, (k < K)%nat -> cstep (run k) (run (S k))) (HK : Z.of_nat K < 2 ^ 64 - 1).

Lemma run_nsteps j k : (j + k <= K)%nat -> nsteps cstep k (run j) (run (j + k)%nat).
Proof.
  revert j. induction k as [|k IH]; intros j Hk; [rewrite Nat.add_0_r; constructor|].
  econstructor; [apply Hsteps; lia|]. rewrite <- Nat.add_succ_comm. apply IH. lia.
Qed.

Lemma run_from_init k : (k <= K)%nat -> nsteps cstep k (NewCluster ids ch) (run k).
Proof. intros Hk. rewrite <- Hinit. by apply (run_nsteps 0 k). Qed.

Lemma run_no_wrap k : (k <= K)%nat -> no_wrap (run k).
Proof.
  intros Hk. destruct (election_run ids 0 k (NewCluster ids ch) (run k)) as (_ & Hle & _);
    auto using election_inv_init, terms_le_init, run_from_init; [lia|]. eapply terms_le_no_wrap; [exact Hle|lia].
Qed.

(** The term of a node never decreases. *)
Lemma run_term_mono i j k n n' : (j + k <= K)%nat ->
  nodeAt run i j = Some n -> nodeAt run i (j + k)%nat = Some n' -> currentTerm n <= currentTerm n'.
Proof.
  revert n'. induction k as [|k IH]; intros n' Hk Hn Hn'; [rewrite Nat.add_0_r in Hn'; simplify_eq; lia|].
  rewrite Nat.add_succ_r in Hn'.
  pose proof (Hsteps (j + k)%nat ltac:(lia)) as (ev & m & rt & rt' & ms & Ha & Hrt & Hloc & Hs)%cstep_inv.
  assert (forall n1, nodeAt run i (j + k)%nat = Some n1 -> currentTerm n1 <= currentTerm n') as Hstep.
  { intros n1 H1. unfold nodeAt in *. rewrite Hs in Hn'. cbn in Hn'. destruct (decide (m = i)) as [->|Hmi].
    - rewrite Hrt in H1. rewrite lookup_insert_eq in Hn'. simplify_eq/=.
      eapply effect_vote_le; [|exact (run_no_wrap (j + k)%nat ltac:(lia) _ _ Hrt)]. eapply localStep_effect; [exact Hloc|].
      intros l x -> Hx. simpl in Ha. rewrite Hx in Ha. by simplify_eq/=.
    - rewrite lookup_insert_ne in Hn' by done. rewrite H1 in Hn'. simplify_eq. lia. }
  destruct (nodeAt run i (j + k)%nat) as [n1|] eqn:E.
  - etrans; [apply (IH n1); [lia|done|done]|by apply Hstep].
  - exfalso. unfold nodeAt in E, Hn'. rewrite Hs in Hn'. cbn in Hn'. destruct (decide (m = i)) as [->|Hmi].
    + by rewrite Hrt in E.
    + rewrite lookup_insert_ne in Hn' by done. by rewrite E in Hn'.
Qed.
End Run.

(** C13. What a client of [/status] can rely on, although the handler reads the
    flag and the term at different moments: in a run in which no node restarts,
    if two successive answers of a node carry the same term, and the second says
    it leads by the scripts' own test, then the node did lead that term, and no
    other node ever does.  (One answer is not enough: see [torn_status].) *)
Theorem status_one_leader ids ch (run : nat -> Cluster) (K mid : nat) i t s1 s2 :
  NoDup ids -> "" ∉ ids -> run 0%nat = NewCluster ids ch ->
  (forall k, (k < K)%nat -> cstep (run k) (run (S k))) -> Z.of_nat K < 2 ^ 64 - 1 ->
  polled run i 0 mid s1 -> polled run i mid K s2 ->
  termOf s1 = Some (JInt t) -> termOf s2 = Some (JInt t) -> saysLeader s2 = Ok true ->
  (exists k, (k <= K)%nat /\ leader_of (run k) i t) /\
  forall j k, (k <= K)%nat -> leader_of (run k) j t -> j = i.
Proof.
  intros Hnd Hne Hinit Hsteps HK (k1 & k2 & k3 & k4 & k5 & a1 & a2 & a3 & a4 & a5 & Hk & _ & _ & _ & _ & Ha & ->)
    (l1 & l2 & l3 & l4 & l5 & b1 & b2 & b3 & b4 & b5 & Hl & _ & _ & Hb3 & _ & Hb5 & ->).
  destruct (status_contract a1 a2 a3 a4 a5) as (_ & -> & _). destruct (status_contract b1 b2 b3 b4 b5) as (-> & -> & _).
  intros [= Ht1] [= Ht2] [= Hlead]. unfold IsLeader in Hlead. breflect.
  assert (forall j k n n', (j <= k <= K)%nat -> nodeAt run i j = Some n -> nodeAt run i k = Some n' ->
    currentTerm n <= currentTerm n') as Hmono.
  { intros j k n n' Hjk Hn Hn'. eapply (run_term_mono ids ch run K Hnd Hne Hinit Hsteps HK i j (k - j)); [lia|done|].
    by replace (j + (k - j))%nat with k by lia. }
  pose proof (Hmono k5 l3 _ _ ltac:(lia) Ha Hb3). pose proof (Hmono l3 l5 _ _ ltac:(lia) Hb3 Hb5).
  unfold nodeAt in Hb3. apply fmap_Some in Hb3 as (rt & Hrt & ->).
  assert (leader_of (run l3) i t) as Hof by (exists rt; split_and!; [done|done|lia]).
  split; [exists l3; split; [lia|done]|]. intros j k Hkk Hj.
  destruct Hof as (r1 & Hr1 & Hs1 & He1), Hj as (r2 & Hr2 & Hs2 & He2).
  destruct (decide (k <= l3)%nat).
  - eapply (leaders_agree ids ch k (l3 - k) (run k) (run l3)); eauto using run_from_init; [|lia|congruence].
    pose proof (run_nsteps run K Hsteps k (l3 - k)) as Hn. replace (k + (l3 - k))%nat with l3 in Hn by lia. apply Hn. lia.
  - symmetry. eapply (leaders_agree ids ch l3 (k - l3) (run l3) (run k)); eauto; [apply (run_from_init ids ch run K); (done || lia)| |lia|congruence].
    pose proof (run_nsteps run K Hsteps l3 (k - l3)) as Hn. replace (l3 + (k - l3))%nat with k in Hn by lia. apply Hn. lia.
Qed.

(** The states of a schedule. *)
Definition runOf (evs : list Event) (k : nat) : Cluster := default (NewCluster abc None) (exec (NewCluster abc None) (take k evs)).

Lemma exec_app s evs evs' : exec s (evs ++ evs') = (s' ← exec s evs; exec s' evs').
Proof. revert s. induction evs as [|ev evs IH]; intros s; cbn; [done|]. destruct (step s ev); cbn; [apply IH|done]. Qed.

Lemma runOf_step evs k : bool_decide (is_Some (exec (NewCluster abc None) evs)) = true -> (k < length evs)%nat ->
  cstep (runOf evs k) (runOf evs (S k)).
Proof.
  intros [s He]%bool_decide_eq_true_1 [ev Hev]%lookup_lt_is_Some. unfold runOf. rewrite (take_S_r _ _ _ Hev), exec_app.
  rewrite <- (take_drop_middle _ _ _ Hev), exec_app in He. destruct (exec (NewCluster abc None) (take k evs)) as [s1|]; [|done].
  cbn in *. destruct (step s1 ev) as [s2|] eqn:E; [|done]. cbn. by exists ev.
Qed.

(** nodeA wins term 1 in seven steps and is then polled twice. *)
Lemma status_one_leader_witness :
  exists s, polled (runOf elect_A) "nodeA" 7 7 s /\ saysLeader s = Ok true /\
    forall j k, (k <= 7)%nat -> leader_of (runOf elect_A k) j 1 -> j = "nodeA".
Proof.
  assert (exists n, nodeAt (runOf elect_A) "nodeA" 7 = Some n /\ IsLeader n = true /\ currentTerm n = 1) as (n & Hn & Hl & Ht).
  { eexists. split; [by vm_compute|]. by vm_compute. }
  destruct (status_contract n n n n n) as (Hs & Hterm & _). rewrite Hl in Hs. rewrite Ht in Hterm.
  assert (forall from, (from <= 7)%nat -> polled (runOf elect_A) "nodeA" from 7 (http_json (handleStatus n n n n n))) as Hp.
  { intros from Hf. exists 7%nat, 7%nat, 7%nat, 7%nat, 7%nat, n, n, n, n, n. split_and!; (lia || exact Hn || done). }
  exists (http_json (handleStatus n n n n n)). split; [apply Hp; lia|]. split; [exact Hs|].
  apply (status_one_leader abc None (runOf elect_A) 7 7 "nodeA" 1 (http_json (handleStatus n n n n n)) (http_json (handleStatus n n n n n)) abc_nodup abc_nonempty);
    [by vm_compute| |by vm_compute|apply (Hp 0%nat); lia|apply (Hp 7%nat); lia|exact Hterm|exact Hterm|exact Hs].
  intros k Hk. apply runOf_step; [by vm_compute|exact Hk].
Defined.

(** The handler reads the flag and the term separately.  nodeA leads term 1
    when its flag is read; then it votes for nodeB, which takes over term 2, and
    only then is nodeA's term read. *)
Definition torn_prefix : list Event := campaign "nodeA" ++ [EvDeliver 0] ++ win "nodeA" "nodeB" 2.
Definition torn_suffix : list Event := campaign "nodeB" ++ [EvDeliver 3] ++ win "nodeB" "nodeA" 5.

(** Two nodes answer [/status] as leader of term 2, and one of them never was. *)
Theorem torn_status :
  exists s1 s2 a1 a2 b2, rtc cstep (NewCluster abc None) s1 /\ rtc cstep s1 s2 /\
    RaftCluster.nodes s1 !! "nodeA" = Some a1 /\ RaftCluster.nodes s2 !! "nodeA" = Some a2 /\
    RaftCluster.nodes s2 !! "nodeB" = Some b2 /\
    let answerA := http_json (handleStatus (node a1) (node a1) (node a1) (node a2) (node a2)) in
    let answerB := http_json (handleStatus (node b2) (node b2) (node b2) (node b2) (node b2)) in
    saysLeader answerA = Ok true /\ saysLeader answerB = Ok true /\ termOf answerA = termOf answerB.
Proof.
  destruct (exec (NewCluster abc None) torn_prefix) as [s1|] eqn:E1; [|by vm_compute in E1].
  destruct (exec s1 torn_suffix) as [s2|] eqn:E2; [|vm_compute in E1; injection E1 as <-; by vm_compute in E2].
  exists s1, s2. pose proof (exec_rtc _ _ _ E1). pose proof (exec_rtc _ _ _ E2).
  vm_compute in E1. injection E1 as <-. vm_compute in E2. injection E2 as <-.
  do 3 eexists. split_and!; try done; by vm_compute.
Qed.

(** ** Writes through the Raft log *)

Inductive KvRequest := ReqPut (key : string) (body : text) | ReqDelete (key : string).

Section Writes.
Context (ShouldBindJSON : text -> option string).

Definition handleWrite (nLead nHint : Node) (r : KvRequest) : Handling :=
  match r with
  | ReqPut key body => handlePut ShouldBindJSON nLead nHint key body
  | ReqDelete key => handleDelete nLead nHint key
  end.

(** The write a request asks for, if its body can be read. *)
Definition writeOf (r : KvRequest) : option Write :=
  match r with
  | ReqPut key body => WUpsert key <$> ShouldBindJSON body
  | ReqDelete key => Some (WDelete key)
  end.

Definition doneStatus (w : Write) : Z := match w with WUpsert _ _ => 200 | WDelete _ => 204 end.

(** Every branch of the two write handlers. *)
Lemma handleWrite_cases nLead nHint r :
  match handleWrite nLead nHint r with
  | Answered a =>
      if IsLeader nLead then writeOf r = None /\ http_status a = 400
      else http_status a = 503 /\ subscript (http_json a) "leaderID" = Ok (JStr (LeaderID nHint))
  | Replicating cmd k =>
      IsLeader nLead = true /\ exists w, writeOf r = Some w /\ cmd = str (marshalEntry (entryOf w)) /\
        http_status (k None) = doneStatus w /\ forall err, http_status (k (Some err)) = 503
  end.
Proof.
  destruct r as [key body|key]; simpl; [unfold handlePut|unfold handleDelete]; destruct (IsLeader nLead); simpl; try done.
  - destruct (ShouldBindJSON body) as [v|]; simpl; [|done]. split; [done|]. by exists (WUpsert key v).
  - split; [done|]. by exists (WDelete key).
Qed.

Context {W S : Type} `{WALSpec W} `{SnapshotSpec S}.

Definition getAnswer (key : string) (value : option string) : HttpResp :=
  match value with
  | Some v => mkHttpResp 200 (Some (JObj [("key", JStr key); ("value", JStr v); ("found", JBool true)]))
  | None => errorResp 404 "key not found"
  end.

Lemma handleGet_data key (st : Store W S) : key <> "" -> handleGet key st = getAnswer key (data st !! key).
Proof. intros Hk. unfold handleGet, KvStore.Get. rewrite bool_decide_eq_false_2 by done. by destruct (data st !! key). Qed.

Lemma entryOf_plain w : knownOp (entryOf w) = true /\ (Op (entryOf w) = OpDelete -> Value (entryOf w) = "").
Proof. by destruct w. Qed.

(** The commands of accepted requests are the entries of their writes. *)
Lemma handleWrite_commands reqs cmds :
  Forall2 (fun r cmd => exists n n' k, handleWrite n n' r = Replicating cmd k) reqs cmds ->
  (fun cmd => (chars cmd, mkCalls IoOk true)) <$> cmds =
  (fun e => (marshalEntry e, mkCalls IoOk true)) <$> (entryOf <$> omap writeOf reqs).
Proof.
  induction 1 as [|r cmd reqs cmds (n & n' & k & Hr) _ IH]; [done|].
  pose proof (handleWrite_cases n n' r) as Hc. rewrite Hr in Hc. destruct Hc as (_ & w & Hw & -> & _).
  cbn. rewrite Hw. cbn. rewrite chars_str. f_equal. exact IH.
Qed.

(** The answer to a read after the commands of accepted requests were applied. *)
Definition readAfter (st : Store W S) (reqs : list KvRequest) (key : string) : HttpResp :=
  match KvStore.effect key (entryOf <$> omap writeOf reqs) with
  | Some value => getAnswer key value
  | None => handleGet key st
  end.

Lemma applied_reads (st : Store W S) es reqs cmds key :
  durable st es ->
  Forall2 (fun r cmd => exists n n' k, handleWrite n n' r = Replicating cmd k) reqs cmds ->
  Forall (fun w => loggable (entryOf w) /\ Key (entryOf w) <> "") (omap writeOf reqs) -> key <> "" ->
  handleGet key (RunApplyLoop ((fun cmd => (chars cmd, mkCalls IoOk true)) <$> cmds) st) = readAfter st reqs key.
Proof.
  intros Hd Hreqs Hall Hk. unfold readAfter. rewrite (handleWrite_commands _ _ Hreqs).
  destruct (applyLoop_durable (entryOf <$> omap writeOf reqs) st es Hd) as [Hdata _].
  { apply Forall_fmap. eapply Forall_impl; [exact Hall|]. intros w [? ?]. simpl. destruct (entryOf_plain w). by split_and!. }
  rewrite !handleGet_data, Hdata, replay_app, replay_lookup by done. destruct Hd as [<- _].
  by destruct (KvStore.effect key _).
Qed.

(** C12. The node's key-value interface is the map it should be: take any
    sequence of puts and deletes that leaders passed to [Replicate], and let a
    node's apply loop receive their commands in that order; then a read of a key
    answers the value of the last put of it, 404 if the last write was a delete,
    and what it answered before if the sequence does not write it. *)
Theorem node_writes_spec (st : Store W S) es reqs cmds key :
  durable st es ->
  Forall2 (fun r cmd => exists n n' k, handleWrite n n' r = Replicating cmd k) reqs cmds ->
  Forall (fun w => loggable (entryOf w) /\ Key (entryOf w) <> "") (omap writeOf reqs) -> key <> "" ->
  handleGet key (RunApplyLoop ((fun cmd => (chars cmd, mkCalls IoOk true)) <$> cmds) st) =
  match KvStore.effect key (entryOf <$> omap writeOf reqs) with
  | Some value => getAnswer key value
  | None => handleGet key st
  end.
Proof. intros. by eapply applied_reads. Qed.
End Writes.

Definition demo_leader : Node := set_state Leader (NewNode "nodeA" ["nodeB"; "nodeC"] None).
Definition demo_reqs : list KvRequest := [ReqPut "a" (valueBody "1"); ReqPut "b" (valueBody "2"); ReqDelete "a"].

Definition demo_cmds : list string :=
  (fun w => str (marshalEntry (entryOf w))) <$> [WUpsert "a" "1"; WUpsert "b" "2"; WDelete "a"].

Lemma node_writes_spec_witness :
  handleGet "a" (RunApplyLoop ((fun cmd => (chars cmd, mkCalls IoOk true)) <$> demo_cmds) emptyStore) =
    errorResp 404 "key not found".
Proof.
  etrans.
  - apply (node_writes_spec decodeUpsert emptyStore [] demo_reqs demo_cmds "a" emptyStore_durable).
    + unfold demo_reqs, demo_cmds. simpl. repeat constructor; exists demo_leader, demo_leader; eexists; reflexivity.
    + repeat (apply Forall_cons_2; [split; [by apply (bool_decide_eq_true_1 (fits _)); vm_compute|done]|]). constructor.
    + done.
  - by vm_compute.
Defined.
