(* ===== verification/ClusterStore.v ===== *)
(** * The replicated store, end to end

    The clients' writes through the leader's HTTP handlers (NodeApi), the
    replication of their commands by the goroutines of a cluster (RaftCluster),
    and the apply loop and the reads of every replica's store (KvStore),
    composed. *)

From S2P Require Import Prelude RaftLog RaftNode RaftCluster RaftElection RaftTraces RaftLiveness RaftConvergence GoJson Storage KvStore HttpApi PyStr PyWorld Infra GeoExperiment Failover NodeApi.
#[local] Open Scope Z_scope.

(** The commands the handlers submit for readable requests. *)
Definition commandsOf (ShouldBindJSON : text -> option string) (reqs : list KvRequest) : list string :=
  (fun w => str (marshalEntry (entryOf w))) <$> omap (writeOf ShouldBindJSON) reqs.

Lemma commandsOf_accepted ShouldBindJSON n reqs : IsLeader n = true -> Forall (fun r => is_Some (writeOf ShouldBindJSON r)) reqs ->
  Forall2 (fun r cmd => exists w k, handleWrite ShouldBindJSON n n r = Replicating cmd k /\ writeOf ShouldBindJSON r = Some w /\
    http_status (k None) = doneStatus w) reqs (commandsOf ShouldBindJSON reqs).
Proof.
  intros Hn Hall. induction Hall as [|r reqs [w Hw] _ IH]; [constructor|]. unfold commandsOf in *. cbn. rewrite Hw. cbn. constructor; [|done].
  pose proof (handleWrite_cases ShouldBindJSON n n r) as Hc. rewrite Hn in Hc. destruct (handleWrite _ n n r) as [a|cmd k].
  - destruct Hc as [Hc _]. by rewrite Hw in Hc.
  - destruct Hc as (_ & w' & Hw' & -> & Hd & _). rewrite Hw in Hw'. simplify_eq. by exists w', k.
Qed.

Section Replicated.
Context {W S : Type} `{WALSpec W} `{SnapshotSpec S}.

(** C3. The replicated store can serve any clients: in any cluster of at least
    two nodes, any node can be elected and answer any sequence of puts and
    deletes with success, after which every replica, whatever it stored before,
    answers every read with what the sequence wrote last. *)
Theorem replicated_store_serves (ShouldBindJSON : text -> option string) ids self reqs :
  NoDup ids -> self ∈ ids -> (2 <= length ids)%nat -> Z.of_nat (length reqs) + 1 < 2 ^ 64 ->
  Forall (fun r => exists w, writeOf ShouldBindJSON r = Some w /\ loggable (entryOf w) /\ Key (entryOf w) <> "") reqs ->
  exists s rt calls cmds, rtc cstep (NewCluster ids (Some [])) s /\ RaftCluster.nodes s !! self = Some rt /\
    Forall2 (fun r cmd => exists w k, handleWrite ShouldBindJSON (node rt) (node rt) r = Replicating cmd k /\
      writeOf ShouldBindJSON r = Some w /\ http_status (k None) = doneStatus w) reqs cmds /\
    results rt = (fun call => (call, None)) <$> calls /\ length calls = length reqs /\
    forall n, n ∈ ids -> applied s n = Some cmds /\
      forall (st : Store W S) es key, durable st es -> key <> "" ->
        handleGet key (RunApplyLoop ((fun cmd => (chars cmd, mkCalls IoOk true)) <$> cmds) st) = readAfter ShouldBindJSON st reqs key.
Proof.
  intros Hnd Hself Hlen Hsmall Hreqs. set (cmds := commandsOf ShouldBindJSON reqs).
  assert (Forall (fun r => is_Some (writeOf ShouldBindJSON r)) reqs) as Hread
    by (eapply Forall_impl; [exact Hreqs|]; intros r (w & -> & _); by eexists).
  assert (length cmds = length reqs) as Hl.
  { unfold cmds, commandsOf. rewrite length_fmap. clear -Hread. induction Hread as [|r l [w Hw] _ IH]; [done|]. cbn. rewrite Hw. cbn. by rewrite IH. }
  destruct (replicated_run ids self cmds Hnd Hself Hlen) as (s & rt & calls & R & Hs & Hst & _ & Hrs & Hcalls & Hall); [by rewrite Hl|].
  pose proof (commandsOf_accepted ShouldBindJSON (node rt) reqs (bool_decide_eq_true_2 _ Hst) Hread) as Hacc.
  exists s, rt, calls, cmds. split_and!; try done; [by rewrite Hcalls|]. intros n Hn. destruct (Hall n Hn) as (rn & Hrn & _ & Hch).
  split; [unfold applied; by rewrite Hrn|]. intros st es key Hd Hk. eapply applied_reads; [exact Hd| | |done].
  - eapply Forall2_impl; [exact Hacc|]. intros r cmd (w & k & Hh & _). by exists (node rt), (node rt), k.
  - clear -Hreqs. induction Hreqs as [|r l (w & Hw & Hok) _ IH]; [constructor|]. cbn. rewrite Hw. cbn. by constructor.
Qed.
End Replicated.

Lemma replicated_store_serves_witness : exists s cmds, rtc cstep (NewCluster ["nodeA"; "nodeB"; "nodeC"] (Some [])) s /\
  applied s "nodeB" = Some cmds /\
  handleGet "b" (RunApplyLoop ((fun cmd => (chars cmd, mkCalls IoOk true)) <$> cmds) emptyStore) = getAnswer "b" (Some "2").
Proof.
  destruct (replicated_store_serves (W := FileWAL) (S := FileSnapshot) decodeUpsert ["nodeA"; "nodeB"; "nodeC"] "nodeC" demo_reqs)
    as (s & rt & calls & cmds & R & _ & _ & _ & _ & Hall).
  - apply (bool_decide_unpack _). by vm_compute.
  - apply (bool_decide_unpack _). by vm_compute.
  - cbn. lia.
  - by vm_compute.
  - repeat (apply Forall_cons_2; [eexists; split; [by vm_compute|split; [by apply (bool_decide_eq_true_1 (fits _)); vm_compute|done]]|]). constructor.
  - destruct (Hall "nodeB") as [Ha Hread]; [apply (bool_decide_unpack _); by vm_compute|].
    exists s, cmds. split; [exact R|]. split; [exact Ha|].
    etrans; [apply (Hread emptyStore [] "b" emptyStore_durable); done|]. by vm_compute.
Defined.
