(* ===== verification/RpcTransport.v ===== *)
(** * The Raft messages over HTTP

    [rpc/client.go], the Raft handlers of [rpc/server.go], and the JSON of the
    messages of [raft/transport.go]: numbers, and commands in base64.  [Wire] is
    what the transport needs of a message type; the theorems of the transport are
    proved against it.  gin's [ShouldBindJSON], which decodes a request body with
    [encoding/json], is a parameter, and so is the network: what comes back from
    a POST, if anything does. *)

From Stdlib Require Import Ascii.
From S2P Require Import Prelude PyStr PyRepr GoJson GoWire Storage RaftLog RaftNode RaftCluster RaftElection RaftReplication.
#[local] Open Scope Z_scope.

(** ** Decoding *)

(** [strconv.ParseUint(s, 10, bits)] on the text of a JSON number. *)
Definition parseUint (bits : Z) (t : text) : option Z :=
  z ← readDigits 0 t; if z <? 2 ^ bits then Some z else None.

(** A member decoded into a field that holds [old]: [null] leaves it. *)
Definition uintField (bits : Z) (old : Z) (v : JVal) : option Z :=
  match v with JNumber t => parseUint bits t | JNull => Some old | _ => None end.

Definition stringField (old : string) (v : JVal) : option string :=
  match v with JString s => Some s | JNull => Some old | _ => None end.

Definition boolField (old : bool) (v : JVal) : option bool :=
  match v with JBool b => Some b | JNull => Some old | _ => None end.

(** A byte slice: base64, or an array of bytes; [null] makes it nil. *)
Definition bytesField (v : JVal) : option string :=
  match v with
  | JString s => str <$> unbase64 (chars s)
  | JArray l => bs ← mapM (uintField 8 0) l; Some (str (chr <$> bs))
  | JNull => Some ""
  | _ => None
  end.

(** A struct: its members in order, names without regard to case. *)
Definition decodeStruct {T} (set : string -> JVal -> T -> option T) (zero : T) (v : JVal) : option T :=
  match v with
  | JObject ms => foldl (fun r m => x ← r; set (lowerName m.1) m.2 x) (Some zero) ms
  | JNull => Some zero
  | _ => None
  end.

(** [json.NewDecoder(r).Decode]: the first value of the text. *)
Definition firstValue (t : text) : option JVal := fst <$> pValue (S (length t)) t.

(** ** Message types *)

Class Wire (T : Type) := {
  toJson : T -> JVal;
  ofJson : JVal -> option T;
  wireable : T -> Prop;
  toJson_tree x : wireable x -> tree (toJson x);
  ofJson_toJson x : wireable x -> ofJson (toJson x) = Some x }.

(** [json.Marshal] and the decoding of a reply. *)
Definition marshal {T} `{Wire T} (x : T) : text := jsonText (toJson x).
Definition unmarshal {T} `{Wire T} (t : text) : option T := v ← firstValue t; ofJson v.

Lemma firstValue_marshal {T} `{Wire T} (x : T) : wireable x -> firstValue (marshal x) = Some (toJson x).
Proof.
  intros Hx. unfold firstValue, marshal. pose proof (toJson_tree x Hx) as Ht.
  pose proof (reads_tree _ Ht (S (length (jsonText (toJson x)))) []) as Hr. rewrite app_nil_r in Hr.
  rewrite Hr; [done|pose proof (jsize_text _ Ht); lia|done].
Qed.

Lemma wire_roundtrip {T} `{Wire T} (x : T) : wireable x -> unmarshal (marshal x) = Some x.
Proof. intros Hx. unfold unmarshal. rewrite firstValue_marshal by done. by apply ofJson_toJson. Qed.

Lemma parseUint_pretty z : is_u64 z -> parseUint 64 (chars (pretty z)) = Some z.
Proof.
  intros [H0 H1]. unfold parseUint. destruct (pretty_digits z H0) as (Hd & _). unfold digitsOf in Hd. rewrite Hd.
  cbn [mbind option_bind]. destruct (Z.ltb_spec z (2 ^ 64)); [done|lia].
Qed.

(** *** RequestVote *)

Definition rvArgsJson (a : RequestVoteArgs) : JVal :=
  JObject [("Term", JUint (rvTerm a)); ("CandidateID", JString (rvCandidateID a));
           ("LastLogIndex", JUint (rvLastLogIndex a)); ("LastLogTerm", JUint (rvLastLogTerm a))].

Definition setRvArgs (name : string) (v : JVal) (a : RequestVoteArgs) : option RequestVoteArgs :=
  if bool_decide (name = "term") then
    t ← uintField 64 (rvTerm a) v; Some (mkRVArgs t (rvCandidateID a) (rvLastLogIndex a) (rvLastLogTerm a))
  else if bool_decide (name = "candidateid") then
    c ← stringField (rvCandidateID a) v; Some (mkRVArgs (rvTerm a) c (rvLastLogIndex a) (rvLastLogTerm a))
  else if bool_decide (name = "lastlogindex") then
    i ← uintField 64 (rvLastLogIndex a) v; Some (mkRVArgs (rvTerm a) (rvCandidateID a) i (rvLastLogTerm a))
  else if bool_decide (name = "lastlogterm") then
    t ← uintField 64 (rvLastLogTerm a) v; Some (mkRVArgs (rvTerm a) (rvCandidateID a) (rvLastLogIndex a) t)
  else Some a.

(** 64-bit numbers, and an identifier that is plain ASCII. *)
Definition rvArgs_ok (a : RequestVoteArgs) : Prop :=
  is_u64 (rvTerm a) /\ is_u64 (rvLastLogIndex a) /\ is_u64 (rvLastLogTerm a) /\ asciiOnly (rvCandidateID a).

#[export] Instance Wire_RequestVoteArgs : Wire RequestVoteArgs.
Proof.
  refine {| toJson := rvArgsJson; ofJson := decodeStruct setRvArgs (mkRVArgs 0 "" 0 0); wireable := rvArgs_ok |}.
  - intros a ([? _] & [? _] & [? _] & _). constructor. by repeat constructor.
  - intros [t c i lt] (H1 & H2 & H3 & _). simpl in *. unfold setRvArgs. simpl. by rewrite !parseUint_pretty.
Defined.

Definition rvReplyJson (r : RequestVoteReply) : JVal :=
  JObject [("Term", JUint (rvrTerm r)); ("VoteGranted", JBool (rvrVoteGranted r))].

Definition setRvReply (name : string) (v : JVal) (r : RequestVoteReply) : option RequestVoteReply :=
  if bool_decide (name = "term") then t ← uintField 64 (rvrTerm r) v; Some (mkRVReply t (rvrVoteGranted r))
  else if bool_decide (name = "votegranted") then b ← boolField (rvrVoteGranted r) v; Some (mkRVReply (rvrTerm r) b)
  else Some r.

#[export] Instance Wire_RequestVoteReply : Wire RequestVoteReply.
Proof.
  refine {| toJson := rvReplyJson; ofJson := decodeStruct setRvReply (mkRVReply 0 false); wireable r := is_u64 (rvrTerm r) |}.
  - intros r [? _]. constructor. by repeat constructor.
  - intros [t b] H. simpl in *. unfold setRvReply. simpl. by rewrite parseUint_pretty.
Defined.

(** *** AppendEntries *)

(** The only empty command is the sentinel's, a nil slice. *)
Definition commandJson (c : string) : JVal :=
  if bool_decide (c = "") then JNull else JString (str (base64 (chars c))).

Lemma bytesField_command c : bytesField (commandJson c) = Some c.
Proof.
  unfold commandJson. case_bool_decide as Hc; [by subst c|]. unfold bytesField.
  rewrite chars_str, base64_roundtrip. cbn [fmap option_fmap option_map]. by rewrite str_chars.
Qed.

Definition entryJson (e : LogEntry) : JVal :=
  JObject [("Term", JUint (eTerm e)); ("Index", JUint (eIndex e));
           ("Command", commandJson (eCommand e))].

Definition setEntry (name : string) (v : JVal) (e : LogEntry) : option LogEntry :=
  if bool_decide (name = "term") then t ← uintField 64 (eTerm e) v; Some (RaftLog.mkEntry t (eIndex e) (eCommand e))
  else if bool_decide (name = "index") then i ← uintField 64 (eIndex e) v; Some (RaftLog.mkEntry (eTerm e) i (eCommand e))
  else if bool_decide (name = "command") then c ← bytesField v; Some (RaftLog.mkEntry (eTerm e) (eIndex e) c)
  else Some e.

Definition entry_ok (e : LogEntry) : Prop := is_u64 (eTerm e) /\ is_u64 (eIndex e).

#[export] Instance Wire_LogEntry : Wire LogEntry.
Proof.
  refine {| toJson := entryJson; ofJson := decodeStruct setEntry (RaftLog.mkEntry 0 0 ""); wireable := entry_ok |}.
  - intros e ([? _] & [? _]). unfold entryJson, commandJson. constructor. case_bool_decide; by repeat constructor.
  - intros [t i c] (H1 & H2). cbn [eTerm eIndex] in *. pose proof (bytesField_command c) as Hb.
    unfold entryJson. cbn [eTerm eIndex eCommand]. revert Hb. generalize (commandJson c) as v. intros v Hb.
    unfold decodeStruct, setEntry. simpl. rewrite !parseUint_pretty by done. simpl. by rewrite Hb.
Defined.

(** An empty list of entries is a nil slice in both senders. *)
Definition entriesJson (es : list LogEntry) : JVal :=
  if bool_decide (es = []) then JNull else JArray (entryJson <$> es).

Definition aeArgsJson (a : AppendEntriesArgs) : JVal :=
  JObject [("Term", JUint (aeTerm a)); ("LeaderID", JString (aeLeaderID a));
           ("PrevLogIndex", JUint (aePrevLogIndex a)); ("PrevLogTerm", JUint (aePrevLogTerm a));
           ("Entries", entriesJson (aeEntries a));
           ("LeaderCommit", JUint (aeLeaderCommit a))].

Definition entriesField (v : JVal) : option (list LogEntry) :=
  match v with JArray l => mapM ofJson l | JNull => Some [] | _ => None end.

#[local] Arguments entriesField : simpl never.
#[local] Arguments parseUint : simpl never.

Definition setAeArgs (name : string) (v : JVal) (a : AppendEntriesArgs) : option AppendEntriesArgs :=
  let '(mkAEArgs t l pi pt es c) := a in
  if bool_decide (name = "term") then t' ← uintField 64 t v; Some (mkAEArgs t' l pi pt es c)
  else if bool_decide (name = "leaderid") then l' ← stringField l v; Some (mkAEArgs t l' pi pt es c)
  else if bool_decide (name = "prevlogindex") then pi' ← uintField 64 pi v; Some (mkAEArgs t l pi' pt es c)
  else if bool_decide (name = "prevlogterm") then pt' ← uintField 64 pt v; Some (mkAEArgs t l pi pt' es c)
  else if bool_decide (name = "entries") then es' ← entriesField v; Some (mkAEArgs t l pi pt es' c)
  else if bool_decide (name = "leadercommit") then c' ← uintField 64 c v; Some (mkAEArgs t l pi pt es c')
  else Some a.

Definition aeArgs_ok (a : AppendEntriesArgs) : Prop :=
  is_u64 (aeTerm a) /\ is_u64 (aePrevLogIndex a) /\ is_u64 (aePrevLogTerm a) /\ is_u64 (aeLeaderCommit a) /\
  Forall entry_ok (aeEntries a) /\ asciiOnly (aeLeaderID a).

Lemma mapM_entries es : Forall entry_ok es -> mapM ofJson (entryJson <$> es) = Some es.
Proof.
  intros H. apply mapM_Some. apply Forall2_fmap_l, Forall_Forall2_diag. eapply Forall_impl; [exact H|].
  intros e He. change (@ofJson LogEntry Wire_LogEntry (toJson e) = Some e). by apply ofJson_toJson.
Qed.

Lemma entriesField_entries es : Forall entry_ok es -> entriesField (entriesJson es) = Some es.
Proof. intros H. unfold entriesJson. case_bool_decide as E; [by subst es|]. by apply mapM_entries. Qed.

#[export] Instance Wire_AppendEntriesArgs : Wire AppendEntriesArgs.
Proof.
  refine {| toJson := aeArgsJson; ofJson := decodeStruct setAeArgs (mkAEArgs 0 "" 0 0 [] 0); wireable := aeArgs_ok |}.
  - intros a ([? _] & [? _] & [? _] & [? _] & Hes & _). unfold aeArgsJson. constructor.
    assert (tree (entriesJson (aeEntries a))).
    { unfold entriesJson. case_bool_decide; [constructor|]. constructor. apply Forall_fmap. eapply Forall_impl; [exact Hes|].
      intros x Hx. change (tree (toJson x)). by apply toJson_tree. }
    by repeat constructor.
  - intros [t l pi pt es c] (H1 & H2 & H3 & H4 & Hes & _). cbn [aeTerm aePrevLogIndex aePrevLogTerm aeLeaderCommit aeEntries] in *.
    pose proof (entriesField_entries es Hes) as He.
    unfold aeArgsJson. cbn [aeTerm aeLeaderID aePrevLogIndex aePrevLogTerm aeLeaderCommit aeEntries].
    revert He. generalize (entriesJson es) as v. intros v He.
    unfold decodeStruct, setAeArgs. simpl. rewrite !parseUint_pretty by done. simpl. by rewrite He.
Defined.

Definition aeReplyJson (r : AppendEntriesReply) : JVal :=
  JObject [("Term", JUint (aerTerm r)); ("Success", JBool (aerSuccess r))].

Definition setAeReply (name : string) (v : JVal) (r : AppendEntriesReply) : option AppendEntriesReply :=
  if bool_decide (name = "term") then t ← uintField 64 (aerTerm r) v; Some (mkAEReply t (aerSuccess r))
  else if bool_decide (name = "success") then b ← boolField (aerSuccess r) v; Some (mkAEReply (aerTerm r) b)
  else Some r.

#[export] Instance Wire_AppendEntriesReply : Wire AppendEntriesReply.
Proof.
  refine {| toJson := aeReplyJson; ofJson := decodeStruct setAeReply (mkAEReply 0 false); wireable r := is_u64 (aerTerm r) |}.
  - intros r [? _]. constructor. by repeat constructor.
  - intros [t b] H. simpl in *. unfold setAeReply. simpl. by rewrite parseUint_pretty.
Defined.

(** ** The server's handlers *)

(** No member occurs twice in the object. *)
Definition distinct (v : JVal) : Prop :=
  match v with JObject ms => NoDup ((fun m => lowerName m.1) <$> ms) | _ => True end.

Section Server.
Context (ShouldBindRequestVote : text -> option RequestVoteArgs) (ShouldBindAppendEntries : text -> option AppendEntriesArgs)
  (bindError : text -> string).

Definition badRequest (body : text) : Z * text := (400, jsonText (JObject [("error", JString (bindError body))])).

Definition handleRequestVote (body : text) (n : Node) : Node * (Z * text) :=
  match ShouldBindRequestVote body with
  | None => (n, badRequest body)
  | Some args => let '(n', reply) := HandleRequestVote args n in (n', (200, marshal reply))
  end.

(** The boolean tells whether the handler spawned [applyCommitted]. *)
Definition handleAppendEntries (body : text) (n : Node) : Node * (Z * text) * bool :=
  match ShouldBindAppendEntries body with
  | None => (n, badRequest body, false)
  | Some args => let '(n', reply, apply) := HandleAppendEntries args n in (n', (200, marshal reply), apply)
  end.
End Server.

(** ** The client *)

Inductive TransportError :=
| ErrNotReachable (peer : string)
| ErrStatus (peer : string) (code : Z)
| ErrDecode.

(** [network url body] is the status and body of the answer, or nothing when the
    POST fails or takes longer than 200 ms. *)
Section Client.
Context (peers : gmap string string) (network : string -> text -> option (Z * text)).

Definition post {A B} `{Wire A} `{Wire B} (peerID path : string) (body : A) : result TransportError B :=
  match peers !! peerID with
  | None => Err (ErrNotReachable peerID)
  | Some base =>
      match network (base +:+ path) (marshal body) with
      | None => Err (ErrNotReachable peerID)
      | Some (code, data) =>
          if negb (code =? 200) then Err (ErrStatus peerID code)
          else match unmarshal data with Some reply => Ok reply | None => Err ErrDecode end
      end
  end.

Definition SendRequestVote (peerID : string) (args : RequestVoteArgs) : result TransportError RequestVoteReply :=
  post peerID "/raft/request-vote" args.

Definition SendAppendEntries (peerID : string) (args : AppendEntriesArgs) : result TransportError AppendEntriesReply :=
  post peerID "/raft/append-entries" args.
End Client.

(** ** The transport carries what the cluster model delivers *)

Lemma HandleRequestVote_reply_u64 args n : is_u64 (currentTerm n) -> is_u64 (rvTerm args) ->
  is_u64 (rvrTerm (HandleRequestVote args n).2).
Proof. intros. unfold HandleRequestVote. repeat case_if; simpl; try done; by case_if. Qed.

Lemma HandleAppendEntries_reply_u64 args n : is_u64 (currentTerm n) -> is_u64 (aeTerm args) ->
  is_u64 (aerTerm (HandleAppendEntries args n).1.2).
Proof.
  intros Hn Ha. assert (is_u64 (currentTerm (acceptLeader args n))) as Hacc
    by (rewrite acceptLeader_term; unfold is_u64 in *; lia).
  unfold HandleAppendEntries. case_if; [done|]. destruct (prevLogOK args _); [|done]. by destruct (storeEntries args _).
Qed.

Section Exact.
Context (ShouldBindRequestVote : text -> option RequestVoteArgs) (ShouldBindAppendEntries : text -> option AppendEntriesArgs)
  (bindError : text -> string) (peers : gmap string string).

(** gin decodes the first value of the body as [encoding/json] does; the two are
    only compared on objects without repeated members. *)
Hypothesis bind_RequestVote : forall t v, firstValue t = Some v -> distinct v -> ShouldBindRequestVote t = ofJson v.
Hypothesis bind_AppendEntries : forall t v, firstValue t = Some v -> distinct v -> ShouldBindAppendEntries t = ofJson v.

(** What the sender gets for a request that was answered, or not. *)
Definition carried {B} (send : (string -> text -> option (Z * text)) -> result TransportError B)
    (to url : string) (body data : text) (reply : B) : Prop :=
  forall network,
    (network url body = Some (200, data) -> send network = Ok reply) /\
    (network url body = None -> send network = Err (ErrNotReachable to)).

Lemma post_carried {A B} `{Wire A} `{Wire B} (to base path : string) (body : A) (reply : B) :
  peers !! to = Some base -> wireable reply ->
  carried (fun network => post peers network to path body) to (base +:+ path) (marshal body) (marshal reply) reply.
Proof.
  intros Hp Hw network. unfold post. rewrite Hp. split; intros ->; [|done].
  cbn [negb Z.eqb Pos.eqb]. by rewrite wire_roundtrip.
Qed.

Lemma bound_RequestVote (rv : RequestVoteArgs) : wireable rv -> ShouldBindRequestVote (marshal rv) = Some rv.
Proof.
  intros Hw. rewrite (bind_RequestVote _ _ (firstValue_marshal rv Hw)); [by apply ofJson_toJson|].
  apply (bool_decide_unpack _). by vm_compute.
Qed.

Lemma bound_AppendEntries (ae : AppendEntriesArgs) : wireable ae -> ShouldBindAppendEntries (marshal ae) = Some ae.
Proof.
  intros Hw. rewrite (bind_AppendEntries _ _ (firstValue_marshal ae Hw)); [by apply ofJson_toJson|].
  apply (bool_decide_unpack _). by vm_compute.
Qed.

(** C14. The HTTP transport refines the network of the cluster model: for a
    message with 64-bit numbers, ASCII identifiers and any commands, the body that
    the client posts makes the peer's handler do exactly what [deliver] does (the
    same new state, the same decision to apply entries), and when the answer
    comes back, the client returns exactly the reply of [deliver]; when none
    comes back, it returns [ErrNotReachable]. *)
Theorem transport_exact (rt : Runtime) (from to base : string) (rpc : nat) (rv : RequestVoteArgs) (ae : AppendEntriesArgs) :
  peers !! to = Some base -> is_u64 (currentTerm (node rt)) -> wireable rv -> wireable ae ->
  (exists n' data reply,
     handleRequestVote ShouldBindRequestVote bindError (marshal rv) (node rt) = (n', (200, data)) /\
     deliver rt (MRequestVote from to rv) = Some (with_node (fun _ => n') rt, [MRequestVoteReply to from rv reply]) /\
     carried (fun network => SendRequestVote peers network to rv) to (base +:+ "/raft/request-vote") (marshal rv) data reply) /\
  (exists n' data apply reply,
     handleAppendEntries ShouldBindAppendEntries bindError (marshal ae) (node rt) = (n', (200, data), apply) /\
     deliver rt (MAppendEntries from to rpc ae) =
       Some (spawn (if apply then [TApplyStart KGo] else []) (with_node (fun _ => n') rt), [MAppendEntriesReply to from rpc reply]) /\
     carried (fun network => SendAppendEntries peers network to ae) to (base +:+ "/raft/append-entries") (marshal ae) data reply).
Proof.
  intros Hp Hn Hrv Hae. split.
  - pose proof (HandleRequestVote_reply_u64 rv (node rt) Hn (proj1 Hrv)) as Hr.
    unfold handleRequestVote, deliver. rewrite bound_RequestVote by done.
    destruct (HandleRequestVote rv (node rt)) as [n' reply]. exists n', (marshal reply), reply.
    split_and!; [done|done|]. by apply post_carried.
  - pose proof (HandleAppendEntries_reply_u64 ae (node rt) Hn (proj1 Hae)) as Hr.
    unfold handleAppendEntries, deliver. rewrite bound_AppendEntries by done.
    destruct (HandleAppendEntries ae (node rt)) as [[n' reply] apply]. exists n', (marshal reply), apply, reply.
    split_and!; [done|done|]. by apply post_carried.
Qed.
End Exact.

(** With [encoding/json] itself as the binding: a vote request and an entry to a
    fresh node. *)
Definition demo_rv : RequestVoteArgs := mkRVArgs 3 "nodeA" 1 2.
Definition demo_ae : AppendEntriesArgs := mkAEArgs 3 "nodeA" 0 0 [RaftLog.mkEntry 3 1 "set a"] 1.
Definition demo_rt : Runtime := newRuntime "nodeB" ["nodeA"; "nodeC"] None.

Lemma transport_exact_witness :
  exists n' data reply,
    handleRequestVote unmarshal (fun _ => "EOF") (marshal demo_rv) (node demo_rt) = (n', (200, data)) /\
    carried (fun network => SendRequestVote {[ "nodeB" := "http://b:7000" ]} network "nodeB" demo_rv) "nodeB"
      "http://b:7000/raft/request-vote" (marshal demo_rv) data reply.
Proof.
  destruct (transport_exact unmarshal unmarshal (fun _ => "EOF") {[ "nodeB" := "http://b:7000" ]}
    ltac:(intros t v Ht _; unfold unmarshal; by rewrite Ht) ltac:(intros t v Ht _; unfold unmarshal; by rewrite Ht)
    demo_rt "nodeA" "nodeB" "http://b:7000" 0 demo_rv demo_ae) as [(n' & data & reply & H1 & _ & H2) _].
  - reflexivity.
  - by vm_compute.
  - split_and!; [by vm_compute..|]. apply (bool_decide_unpack (Forall _ _)). by vm_compute.
  - split_and!; [by vm_compute..|constructor; [by vm_compute|constructor]|]. apply (bool_decide_unpack (Forall _ _)). by vm_compute.
  - exists n', data, reply. split; [exact H1|exact H2].
Defined.
