(* ===== verification/NodeMain.v ===== *)
(** * Starting a node

    [cmd/node/main.go]: the settings from the environment and the peer list, from
    which the node and its transport are built.  [None] is [log.Fatalf]. *)

From Stdlib Require Import Ascii.
From S2P Require Import Prelude PyStr Storage Persistence KvStore SimpleKvs RaftLog RaftNode RaftCluster RpcTransport.
#[local] Open Scope Z_scope.

Section Env.
Context (Getenv : string -> string).

Definition getEnv (key fallback : string) : string :=
  let v := Getenv key in if negb (bool_decide (v = "")) then v else fallback.

(** [strings.SplitN(entry, sep, 2)]: the parts before and after the first
    separator, if there is one. *)
Fixpoint cut (sep : ascii) (t : text) : option (text * text) :=
  match t with
  | [] => None
  | c :: t' => if Ascii.eqb c sep then Some ([], t') else '(a, b) ← cut sep t'; Some (c :: a, b)
  end.

Abbreviation PeerMap := (gmap string string).

(** One entry of the list; blank ones are skipped. *)
Definition parsePeer (acc : list string * PeerMap) (entry : string) : option (list string * PeerMap) :=
  let entry := TrimSpace entry in
  if bool_decide (entry = "") then Some acc
  else '(i, hostport) ← cut "@"%char (chars entry);
       Some (acc.1 ++ [str i], <[str i := "http://" +:+ str hostport]> acc.2).

Definition parsePeers (raw : string) : option (list string * PeerMap) :=
  foldl (fun r entry => acc ← r; parsePeer acc entry) (Some ([], ∅)) (split ","%char raw).

Record Settings := mkSettings {
  nodeID : string; addr : string; walPath : string; snapshotPath : string; peerIDs : list string; peerAddrs : PeerMap }.

Definition settings : option Settings :=
  '(ids, addrs) ← parsePeers (getEnv "RAFT_PEERS" "");
  Some (mkSettings (getEnv "RAFT_NODE_ID" "nodeA") (getEnv "RAFT_ADDR" ":7000") (getEnv "RAFT_WAL_PATH" "data/wal.log")
          (getEnv "RAFT_SNAPSHOT_PATH" "data/snapshot.json") ids addrs).

(** The node at start: its peers are those of the list, its channel is empty. *)
Definition startNode (s : Settings) : Node := NewNode (nodeID s) (peerIDs s) (Some []).

(** The [log.Fatalf] of a start. *)
Inductive BootError := BadPeers | BadStore (f : Fatal).

Definition boot (creatable : string -> bool) (disk : Disk) : result BootError (Node * Server) :=
  match settings with
  | None => Err BadPeers
  | Some s =>
      match (w <-? fatal FOpenWAL (OpenWAL creatable disk (mkConfig true (walPath s))) ;;
             snap <-? fatal FOpenSnapshot (OpenSnapshot creatable disk (mkConfig true (snapshotPath s))) ;;
             fatal FRestore (NewStoreFromDisk (Some w) (Some snap)))%result with
      | Ok store => Ok (startNode s, store)
      | Err f => Err (BadStore f)
      end
  end.
End Env.

Example parsePeers_ex :
  parsePeers " nodeB@10.0.0.2:7000, ,nodeC@10.0.0.3:7000" =
    Some (["nodeB"; "nodeC"], {[ "nodeB" := "http://10.0.0.2:7000"; "nodeC" := "http://10.0.0.3:7000" ]}) /\
  parsePeers "nodeB" = None /\ parsePeers "" = Some ([], ∅).
Proof. by vm_compute. Qed.

(** Every peer of a started node has an address: the transport never fails for
    want of one. *)
Lemma peers_addressed Getenv s : settings Getenv = Some s ->
  forall p, p ∈ RaftNode.peers (startNode s) -> is_Some (peerAddrs s !! p).
Proof.
  unfold settings. destruct (parsePeers _) as [[ids addrs]|] eqn:E; [|done]. intros [= <-]. simpl.
  unfold parsePeers in E. revert E. set (entries := split _ _). clearbody entries.
  enough (forall acc, (forall p, p ∈ acc.1 -> is_Some (acc.2 !! p)) ->
    foldl (fun r entry => acc ← r; parsePeer acc entry) (Some acc) entries = Some (ids, addrs) ->
    forall p, p ∈ ids -> is_Some (addrs !! p)) as H.
  { intros E. apply (H ([], ∅)); [set_solver|exact E]. }
  induction entries as [|x entries IH]; intros acc Hacc E; [injection E as ->; exact Hacc|]. cbn [foldl mbind option_bind] in E.
  destruct (parsePeer acc x) as [acc'|] eqn:Ep; [|exfalso; clear -E; induction entries; [done|auto]].
  apply (IH acc'); [|exact E]. unfold parsePeer in Ep. case_bool_decide; [by injection Ep as <-|].
  destruct (cut _ _) as [[i hp]|]; [|done]. injection Ep as <-. intros p. simpl.
  rewrite elem_of_app, list_elem_of_singleton. intros Hp. destruct (decide (p = str i)) as [->|Hne].
  - rewrite lookup_insert_eq. by eexists.
  - rewrite lookup_insert_ne by done. apply Hacc. by destruct Hp.
Qed.

(** ** A restart *)

(** A node that stops and starts again on the disk its store left: the start
    succeeds, the store has the map it had, but everything Raft needs to remember
    is gone: the term and the vote, and the log but for its sentinel. *)
Theorem reboot_keeps_store_only (Getenv : string -> string) (creatable : string -> bool) (base : Disk) (s : Settings)
    (st : Server) (es : list Storage.Entry) (f : FileWAL) (g : FileSnapshot) :
  settings Getenv = Some s -> creatable (walPath s) = true -> creatable (snapshotPath s) = true ->
  walPath s <> snapshotPath s -> wal st = Some (OFile (walPath s) f) -> snapshot st = Some (OSnap (snapshotPath s) g) ->
  durable st es ->
  exists n st', boot Getenv creatable (leaves base st) = Ok (n, st') /\ data st' = data st /\ durable st' es /\
    currentTerm n = 0 /\ votedFor n = "" /\ log n = newLogStore.
Proof.
  intros Hset Cw Cs Hne Hw Hs Hd. destruct (leaves_files base st _ _ _ _ Hw Hs Hne) as [Lw Ls].
  destruct (durable_restart st es Hd) as (st' & Hst & Hd' & _). rewrite Hw, Hs in Hst.
  exists (startNode s), st'. split; [|split_and!; [|done|done|done|done]].
  - unfold boot. rewrite Hset. unfold OpenWAL, OpenSnapshot, NewFileWAL, NewFileSnapshot.
    cbn [Enabled Path negb]. rewrite Cw, Cs, Lw, Ls. cbn [fatal rbind]. by rewrite Hst.
  - destruct Hd as (Hd1 & _), Hd' as (Hd2 & _). congruence.
Qed.
